(** * A shallow embedding of the Go adventure interpreter (main.go)

    The interpreter is a table-driven virtual machine: every turn it walks
    a table of actions, evaluates their conditions against the game state
    and executes their commands.  This development embeds the action
    engine, the built-in GET/DROP handling, the light-source bookkeeping
    and the save/load codec, following main.go function by function, and
    then proves the properties of the engine.

    Conventions of the embedding:
    - Go's [int] is a 64-bit two's-complement integer.  It is modelled by
      [Z]; operations that can leave the 64-bit range wrap through
      [wrap64].  [/] and [%] are Go's truncating division and remainder,
      [Z.quot] and [Z.rem].
    - [uint32] (the flag word) is a [Z] in [0, 2^32).
    - Slices and fixed-size arrays are lists.  An index outside the list
      makes the Go runtime panic; here the computation yields [Panicked].
    - Functions that mutate the game state or talk to the terminal and the
      file system live in the monad [M], a state monad over the game
      state and the outside [World] whose results also record a panic or
      a call of os.Exit. *)

From Stdlib Require Import ZArith Lia Bool Ascii String List.
From stdpp Require Import base tactics option list strings.
Import ListNotations.

Local Open Scope Z_scope.

(** ** Constants *)

Definition CARRIED : Z := 255.
Definition DESTROYED : Z := 0.
Definition LIGHT_SOURCE : Z := 9.
Definition DARKBIT : Z := 15.
Definition LIGHTOUTBIT : Z := 16.

(** ** Machine integers *)

Definition minInt64 : Z := - 2 ^ 63.
Definition maxInt64 : Z := 2 ^ 63 - 1.
Definition maxUint64 : Z := 2 ^ 64 - 1.
Definition maxUint32 : Z := 2 ^ 32 - 1.

(** The value of a 64-bit signed result after overflow. *)
Definition wrap64 (z : Z) : Z := (z + 2 ^ 63) mod 2 ^ 64 - 2 ^ 63.

Definition is_int64 (z : Z) : Prop := minInt64 <= z <= maxInt64.
Definition is_uint32 (z : Z) : Prop := 0 <= z <= maxUint32.

(** [1 << uint(p)] computed in uint32: a shift count of 32 or more, which
    is also what a negative [p] converts to, gives 0. *)
Definition bit32 (p : Z) : Z :=
  if (0 <=? p) && (p <? 32) then Z.shiftl 1 p else 0.

(** [^x] on uint32. *)
Definition not32 (x : Z) : Z := Z.lxor x maxUint32.

(** ** Slices *)

(** [l[i]] for reading: [None] is the runtime panic. *)
Definition index {A : Type} (l : list A) (i : Z) : option A :=
  if i <? 0 then None else l !! Z.to_nat i.

(** [l[i] = v]: [None] is the runtime panic. *)
Definition store {A : Type} (l : list A) (i : Z) (v : A) : option (list A) :=
  if (0 <=? i) && (i <? Z.of_nat (length l))
  then Some (<[Z.to_nat i := v]> l) else None.

(** ** Data model (the struct types of main.go) *)

Record GameHeader := mkGameHeader {
  TextStorageBytes : Z;
  NumItems : Z;
  NumActions : Z;
  NumWords : Z;
  NumRooms : Z;
  MaxCarry : Z;
  PlayerRoom : Z;
  Treasures : Z;
  WordLength : Z;
  LightTime : Z;
  NumMessages : Z;
  TreasureRoom : Z;
  AdventureVersion : Z;
  AdventureNumber : Z
}.

Record Room := mkRoom {
  Exits : list Z;               (* [6]int *)
  RoomDescription : string      (* Room.Description *)
}.

Record Item := mkItem {
  Description : string;
  Location : Z;
  OriginalLocation : Z;
  AutoGet : string
}.

Record Action := mkAction {
  Verb : Z;
  Noun : Z;
  Conditions : list Z;          (* [5]int *)
  Commands : list Z             (* [2]int *)
}.

Record Word := mkWord {
  WordText : string;            (* Word.Word *)
  IsSynonym : bool;
  WordType : string             (* Word.Type *)
}.

Record GameState := mkGameState {
  Header : GameHeader;
  Rooms : list Room;
  Items : list Item;
  Actions : list Action;
  Words : list Word;
  Messages : list string;
  ActionTitles : list string;
  CurrentRoom : Z;
  ItemLocations : list Z;
  BitFlags : Z;                 (* uint32 *)
  Counter : Z;
  AltCounters : list Z;         (* [9]int *)
  AltRooms : list Z;            (* [6]int *)
  ContinueFlag : bool;
  DisplayedRoom : bool;
  Debug : bool;
  CurrentAction : Z
}.

(** Field updates. *)

Definition set_CurrentRoom (v : Z) (s : GameState) : GameState :=
  mkGameState (Header s) (Rooms s) (Items s) (Actions s) (Words s)
    (Messages s) (ActionTitles s) v (ItemLocations s) (BitFlags s)
    (Counter s) (AltCounters s) (AltRooms s) (ContinueFlag s)
    (DisplayedRoom s) (Debug s) (CurrentAction s).

Definition set_ItemLocations (v : list Z) (s : GameState) : GameState :=
  mkGameState (Header s) (Rooms s) (Items s) (Actions s) (Words s)
    (Messages s) (ActionTitles s) (CurrentRoom s) v (BitFlags s)
    (Counter s) (AltCounters s) (AltRooms s) (ContinueFlag s)
    (DisplayedRoom s) (Debug s) (CurrentAction s).

Definition set_BitFlags (v : Z) (s : GameState) : GameState :=
  mkGameState (Header s) (Rooms s) (Items s) (Actions s) (Words s)
    (Messages s) (ActionTitles s) (CurrentRoom s) (ItemLocations s) v
    (Counter s) (AltCounters s) (AltRooms s) (ContinueFlag s)
    (DisplayedRoom s) (Debug s) (CurrentAction s).

Definition set_Counter (v : Z) (s : GameState) : GameState :=
  mkGameState (Header s) (Rooms s) (Items s) (Actions s) (Words s)
    (Messages s) (ActionTitles s) (CurrentRoom s) (ItemLocations s)
    (BitFlags s) v (AltCounters s) (AltRooms s) (ContinueFlag s)
    (DisplayedRoom s) (Debug s) (CurrentAction s).

Definition set_AltCounters (v : list Z) (s : GameState) : GameState :=
  mkGameState (Header s) (Rooms s) (Items s) (Actions s) (Words s)
    (Messages s) (ActionTitles s) (CurrentRoom s) (ItemLocations s)
    (BitFlags s) (Counter s) v (AltRooms s) (ContinueFlag s)
    (DisplayedRoom s) (Debug s) (CurrentAction s).

Definition set_AltRooms (v : list Z) (s : GameState) : GameState :=
  mkGameState (Header s) (Rooms s) (Items s) (Actions s) (Words s)
    (Messages s) (ActionTitles s) (CurrentRoom s) (ItemLocations s)
    (BitFlags s) (Counter s) (AltCounters s) v (ContinueFlag s)
    (DisplayedRoom s) (Debug s) (CurrentAction s).

Definition set_ContinueFlag (v : bool) (s : GameState) : GameState :=
  mkGameState (Header s) (Rooms s) (Items s) (Actions s) (Words s)
    (Messages s) (ActionTitles s) (CurrentRoom s) (ItemLocations s)
    (BitFlags s) (Counter s) (AltCounters s) (AltRooms s) v
    (DisplayedRoom s) (Debug s) (CurrentAction s).

Definition set_DisplayedRoom (v : bool) (s : GameState) : GameState :=
  mkGameState (Header s) (Rooms s) (Items s) (Actions s) (Words s)
    (Messages s) (ActionTitles s) (CurrentRoom s) (ItemLocations s)
    (BitFlags s) (Counter s) (AltCounters s) (AltRooms s) (ContinueFlag s)
    v (Debug s) (CurrentAction s).

Definition set_CurrentAction (v : Z) (s : GameState) : GameState :=
  mkGameState (Header s) (Rooms s) (Items s) (Actions s) (Words s)
    (Messages s) (ActionTitles s) (CurrentRoom s) (ItemLocations s)
    (BitFlags s) (Counter s) (AltCounters s) (AltRooms s) (ContinueFlag s)
    (DisplayedRoom s) (Debug s) v.

Definition set_Actions (v : list Action) (s : GameState) : GameState :=
  mkGameState (Header s) (Rooms s) (Items s) v (Words s)
    (Messages s) (ActionTitles s) (CurrentRoom s) (ItemLocations s)
    (BitFlags s) (Counter s) (AltCounters s) (AltRooms s) (ContinueFlag s)
    (DisplayedRoom s) (Debug s) (CurrentAction s).

(** ** The outside world

    What the interpreter reads and writes besides the game state: the
    lines still to be read from standard input, the chunks written to
    standard output (one per print call, oldest first), and a file
    system.  A file is the list of its lines, as bufio.Scanner with the
    default split function delivers them and as one [Fprintf "%d\n"] per
    line produces them.  [unwritable] lists the paths on which os.Create
    fails, with the error text.  [random] is the pseudo-random source:
    its [n]-th element decides the [n]-th draw, and [drawn] counts the
    draws made so far. *)

Record World := mkWorld {
  stdin : list string;
  stdout : list string;
  files : list (string * list string);
  unwritable : list (string * string);
  random : nat -> Z;
  drawn : nat
}.

Definition set_stdin (v : list string) (w : World) : World :=
  mkWorld v (stdout w) (files w) (unwritable w) (random w) (drawn w).
Definition set_stdout (v : list string) (w : World) : World :=
  mkWorld (stdin w) v (files w) (unwritable w) (random w) (drawn w).
Definition set_files (v : list (string * list string)) (w : World) : World :=
  mkWorld (stdin w) (stdout w) v (unwritable w) (random w) (drawn w).
Definition set_drawn (v : nat) (w : World) : World :=
  mkWorld (stdin w) (stdout w) (files w) (unwritable w) (random w) v.

(** [assoc k l] is the first binding of [k] in [l]. *)
Fixpoint assoc {A : Type} (k : string) (l : list (string * A)) : option A :=
  match l with
  | [] => None
  | (k', v) :: rest => if String.eqb k k' then Some v else assoc k rest
  end.

(** ** The interpreter monad *)

Inductive result (A : Type) : Type :=
| Ok (a : A) (s : GameState) (w : World)
| Panicked                         (* runtime panic: the process dies *)
| Exited (w : World).              (* os.Exit(0) *)
Arguments Ok {A} a s w.
Arguments Panicked {A}.
Arguments Exited {A} w.

Definition M (A : Type) : Type := GameState -> World -> result A.

Definition ret {A : Type} (a : A) : M A := fun s w => Ok a s w.

Definition bind {A B : Type} (m : M A) (k : A -> M B) : M B :=
  fun s w =>
    match m s w with
    | Ok a s' w' => k a s' w'
    | Panicked => Panicked
    | Exited w' => Exited w'
    end.

Declare Scope go_scope.
Delimit Scope go_scope with go.
Notation "x <- c ;; k" := (bind c (fun x => k))
  (at level 100, c at next level, right associativity) : go_scope.
Notation "c ;; k" := (bind c (fun _ => k))
  (at level 100, right associativity) : go_scope.
Local Open Scope go_scope.

Definition get : M GameState := fun s w => Ok s s w.
Definition modify (f : GameState -> GameState) : M unit :=
  fun s w => Ok tt (f s) w.
Definition panic {A : Type} : M A := fun _ _ => Panicked.
Definition os_Exit {A : Type} : M A := fun _ w => Exited w.

(** A slice access whose failure is a panic. *)
Definition must {A : Type} (o : option A) : M A :=
  match o with Some a => ret a | None => panic end.

(** One write to standard output. *)
Definition fmt_Print (text : string) : M unit :=
  fun s w => Ok tt s (set_stdout (stdout w ++ [text]) w).

Definition nl : string := String "010"%char EmptyString.

Definition fmt_Println (text : string) : M unit := fmt_Print (text +:+ nl).

(** One read of a line of standard input: scanner.Scan(); scanner.Text()
    in SaveGame and LoadGame, reader.ReadString in RunGame, whose line
    end TrimSpace removes.  At end of input the read fails and the text
    is empty.  [stdin] holds the lines as the readers deliver them, each
    without its line end and without a carriage return before it.  The
    input is a terminal, which hands over one line per read: RunGame,
    SaveGame and LoadGame each read through a buffer of their own, and
    on input that arrives several lines at a time the buffer of one
    would hold lines meant for another. *)
Definition ReadLine : M string :=
  fun s w =>
    match stdin w with
    | [] => Ok EmptyString s w
    | l :: rest => Ok l s (set_stdin rest w)
    end.

Definition when (b : bool) (m : M unit) : M unit := if b then m else ret tt.

(** [rand.Intn(n)]: the next draw, reduced to [0, n). *)
Definition rand_Intn (n : Z) : M Z :=
  fun s w => Ok (random w (drawn w) mod n) s (set_drawn (S (drawn w)) w).

Definition get_world : M World := fun s w => Ok w s w.
Definition modify_world (f : World -> World) : M unit :=
  fun s w => Ok tt s (f w).

(** ** Decimal text: fmt's [%d] and strconv *)

Definition digit_char (d : Z) : ascii := ascii_of_N (Z.to_N (48 + d)).

(** The value of a decimal digit character, as [ch - '0'] with the test
    [ch > 9] on a byte. *)
Definition digit_val (c : ascii) : option Z :=
  let n := Z.of_N (N_of_ascii c) in
  if (48 <=? n) && (n <=? 57) then Some (n - 48) else None.

(** The decimal digits of a natural number, most significant first, put in
    front of [acc].  [fuel] bounds the number of digits. *)
Fixpoint digits_of (fuel : nat) (n : Z) (acc : string) : string :=
  match fuel with
  | O => acc
  | S fuel' =>
      let acc' := String (digit_char (n mod 10)) acc in
      if n <? 10 then acc' else digits_of fuel' (n / 10) acc'
  end.

Definition format_uint (n : Z) : string :=
  digits_of (S (Z.to_nat (Z.log2 n))) n EmptyString.

(** [fmt.Sprintf("%d", z)]. *)
Definition format_int (z : Z) : string :=
  if z <? 0 then String "-"%char (format_uint (- z)) else format_uint z.

Inductive parse_error := ErrSyntax | ErrRange.

(** The digit loop of strconv.ParseUint in base 10: a character that is
    not a digit is a syntax error, a value above [maxVal] a range error,
    whichever comes first from the left. *)
Fixpoint parse_digits (maxVal : Z) (s : string) (n : Z) : Z + parse_error :=
  match s with
  | EmptyString => inl n
  | String c rest =>
      match digit_val c with
      | None => inr ErrSyntax
      | Some d =>
          let n1 := n * 10 + d in
          if maxVal <? n1 then inr ErrRange else parse_digits maxVal rest n1
      end
  end.

(** [strconv.ParseUint(s, 10, bitSize)] with [maxVal = 2^bitSize - 1]: the
    value and whether parsing succeeded.  On a syntax error the value is
    0, on a range error it is [maxVal]. *)
Definition ParseUint (s : string) (maxVal : Z) : Z * bool :=
  match s with
  | EmptyString => (0, false)
  | _ =>
      match parse_digits maxVal s 0 with
      | inl n => (n, true)
      | inr ErrSyntax => (0, false)
      | inr ErrRange => (maxVal, false)
      end
  end.

(** [strconv.ParseInt(s, 10, 64)]: an optional sign, then ParseUint on 64
    bits; a magnitude outside the signed range is clamped. *)
Definition ParseInt (s : string) : Z * bool :=
  match s with
  | EmptyString => (0, false)
  | String c rest =>
      let neg := Ascii.eqb c "-"%char in
      let body := if neg || Ascii.eqb c "+"%char then rest else s in
      match body with
      | EmptyString => (0, false)
      | _ =>
          match parse_digits maxUint64 body 0 with
          | inr ErrSyntax => (0, false)
          | r =>
              let un := match r with inl n => n | inr _ => maxUint64 end in
              let ok := match r with inl _ => true | inr _ => false end in
              if negb neg && (2 ^ 63 <=? un) then (maxInt64, false)
              else if neg && (2 ^ 63 <? un) then (minInt64, false)
              else (if neg then - un else un, ok)
          end
      end
  end.

(** [strconv.Atoi]: for an int of 64 bits it returns what ParseInt
    returns (its fast path for short strings computes the same value). *)
Definition Atoi (s : string) : Z * bool := ParseInt s.

(** ** String helpers (package strings) *)

(** [strings.ReplaceAll(s, "*", "")]. *)
Fixpoint remove_stars (s : string) : string :=
  match s with
  | EmptyString => EmptyString
  | String c rest =>
      if Ascii.eqb c "*"%char then remove_stars rest
      else String c (remove_stars rest)
  end.

(** [desc[:idx]] for [idx := strings.Index(desc, "/")], the whole string
    when there is no slash. *)
Fixpoint before_slash (s : string) : string :=
  match s with
  | EmptyString => EmptyString
  | String c rest =>
      if Ascii.eqb c "/"%char then EmptyString
      else String c (before_slash rest)
  end.

(** [strings.Contains(s, "*")]. *)
Fixpoint contains_star (s : string) : bool :=
  match s with
  | EmptyString => false
  | String c rest => Ascii.eqb c "*"%char || contains_star rest
  end.

(** White space of strings.TrimSpace on ASCII text.  TrimSpace is
    modelled on ASCII text only: on other text Go also trims the white
    space of Unicode, such as U+00A0. *)
Definition is_space (c : ascii) : bool :=
  let n := N_of_ascii c in
  ((9 <=? n) && (n <=? 13))%N || (n =? 32)%N.

Fixpoint trim_left (s : string) : string :=
  match s with
  | EmptyString => EmptyString
  | String c rest => if is_space c then trim_left rest else s
  end.

Fixpoint trim_right (s : string) : string :=
  match s with
  | EmptyString => EmptyString
  | String c rest =>
      match trim_right rest with
      | EmptyString => if is_space c then EmptyString else String c EmptyString
      | r => String c r
      end
  end.

Definition TrimSpace (s : string) : string := trim_right (trim_left s).

(** ** Condition evaluator *)

(** The loop [for i, loc := range state.ItemLocations] that looks for a
    carried item among the indices up to NumItems; [i] is the index of
    the head of [locs]. *)
Fixpoint carries_any (numItems : Z) (i : Z) (locs : list Z) : bool :=
  match locs with
  | [] => false
  | loc :: rest =>
      if (i <=? numItems) && (loc =? CARRIED) then true
      else carries_any numItems (i + 1) rest
  end.

(** The same loop counting the carried items ([carried++]). *)
Fixpoint count_carried (numItems : Z) (i : Z) (locs : list Z) : Z :=
  match locs with
  | [] => 0
  | loc :: rest =>
      (if (i <=? numItems) && (loc =? CARRIED) then 1 else 0)
      + count_carried numItems (i + 1) rest
  end.

Definition carried_items (s : GameState) : Z :=
  count_carried (NumItems (Header s)) 0 (ItemLocations s).

Definition flag_set (s : GameState) (p : Z) : bool :=
  negb (Z.land (BitFlags s) (bit32 p) =? 0).

Definition EvaluateCondition (code parameter : Z) : M bool :=
  s <- get ;;
  match code with
  | 0 => ret true
  | 1 =>
      loc <- must (index (ItemLocations s) parameter) ;;
      ret (loc =? CARRIED)
  | 2 =>
      loc <- must (index (ItemLocations s) parameter) ;;
      ret (loc =? CurrentRoom s)
  | 3 =>
      loc <- must (index (ItemLocations s) parameter) ;;
      ret ((loc =? CARRIED) || (loc =? CurrentRoom s))
  | 4 => ret (CurrentRoom s =? parameter)
  | 5 =>
      loc <- must (index (ItemLocations s) parameter) ;;
      ret (negb (loc =? CurrentRoom s))
  | 6 =>
      loc <- must (index (ItemLocations s) parameter) ;;
      ret (negb (loc =? CARRIED))
  | 7 => ret (negb (CurrentRoom s =? parameter))
  | 8 => ret (flag_set s parameter)
  | 9 => ret (negb (flag_set s parameter))
  | 10 => ret (carries_any (NumItems (Header s)) 0 (ItemLocations s))
  | 11 => ret (negb (carries_any (NumItems (Header s)) 0 (ItemLocations s)))
  | 12 =>
      loc <- must (index (ItemLocations s) parameter) ;;
      ret (negb (loc =? CARRIED) && negb (loc =? CurrentRoom s))
  | 13 =>
      loc <- must (index (ItemLocations s) parameter) ;;
      ret (negb (loc =? DESTROYED))
  | 14 =>
      loc <- must (index (ItemLocations s) parameter) ;;
      ret (loc =? DESTROYED)
  | 15 => ret (Counter s <=? parameter)
  | 16 => ret (parameter <? Counter s)
  | 17 =>
      loc <- must (index (ItemLocations s) parameter) ;;
      item <- must (index (Items s) parameter) ;;
      ret (loc =? OriginalLocation item)
  | 18 =>
      loc <- must (index (ItemLocations s) parameter) ;;
      item <- must (index (Items s) parameter) ;;
      ret (negb (loc =? OriginalLocation item))
  | 19 => ret (Counter s =? parameter)
  | _ =>
      fmt_Print ("Unknown condition code: " +:+ format_int code +:+ nl) ;;
      ret false
  end.

(** The loop of CheckConditions over the five condition slots. *)
Fixpoint check_slots (conds : list Z) : M bool :=
  match conds with
  | [] => ret true
  | encodedCondition :: rest =>
      if encodedCondition =? 0 then check_slots rest
      else
        ok <- EvaluateCondition (Z.rem encodedCondition 20)
                                (Z.quot encodedCondition 20) ;;
        if ok then check_slots rest else ret false
  end.

Definition CheckConditions (actionIndex : Z) : M bool :=
  s <- get ;;
  action <- must (index (Actions s) actionIndex) ;;
  check_slots (Conditions action).

(** ** Built-in object handling *)

Definition getItemDescription (s : GameState) (itemNumber : Z)
  : option string :=
  if (itemNumber <? 0) || (NumItems (Header s) <? itemNumber)
  then Some "unknown item"
  else
    match index (Items s) itemNumber with
    | None => None
    | Some item =>
        Some (TrimSpace (before_slash (remove_stars (Description item))))
    end.

Definition GetItem (itemNumber : Z) : M unit :=
  s <- get ;;
  if (itemNumber <=? 0) || (NumItems (Header s) <? itemNumber)
  then fmt_Println "I don't see that here."
  else
    loc <- must (index (ItemLocations s) itemNumber) ;;
    if negb (loc =? CurrentRoom s) then
      fmt_Println "I don't see that here." ;;
      when (Debug s)
        (fmt_Print ("[DEBUG] Item " +:+ format_int itemNumber
                    +:+ " is in room " +:+ format_int loc
                    +:+ ", not current room "
                    +:+ format_int (CurrentRoom s) +:+ nl))
    else if MaxCarry (Header s) <=? carried_items s then
      fmt_Println "I'm carrying too much already."
    else
      locs <- must (store (ItemLocations s) itemNumber CARRIED) ;;
      modify (set_ItemLocations locs) ;;
      desc <- must (getItemDescription s itemNumber) ;;
      fmt_Print ("I'm now carrying the " +:+ desc +:+ nl) ;;
      when (Debug s)
        (fmt_Print ("[DEBUG] Picked up item " +:+ format_int itemNumber
                    +:+ ", now in inventory" +:+ nl)).

Definition DropItem (itemNumber : Z) : M unit :=
  s <- get ;;
  if (itemNumber <=? 0) || (NumItems (Header s) <? itemNumber)
  then fmt_Println "I don't have that."
  else
    loc <- must (index (ItemLocations s) itemNumber) ;;
    if negb (loc =? CARRIED) then
      fmt_Println "I don't have that." ;;
      when (Debug s)
        (fmt_Print ("[DEBUG] Item " +:+ format_int itemNumber
                    +:+ " is not carried, it's in room "
                    +:+ format_int loc +:+ nl))
    else
      locs <- must (store (ItemLocations s) itemNumber (CurrentRoom s)) ;;
      modify (set_ItemLocations locs) ;;
      desc <- must (getItemDescription s itemNumber) ;;
      fmt_Print ("I've dropped the " +:+ desc +:+ nl) ;;
      when (Debug s)
        (fmt_Print ("[DEBUG] Dropped item " +:+ format_int itemNumber
                    +:+ ", now in room " +:+ format_int (CurrentRoom s)
                    +:+ nl)).

(** The loop of DisplayInventory: prints the carried items and returns
    their number. *)
Fixpoint inventory_loop (i : Z) (locs : list Z) (count : Z) : M Z :=
  match locs with
  | [] => ret count
  | loc :: rest =>
      s <- get ;;
      if (i <=? NumItems (Header s)) && (loc =? CARRIED) then
        desc <- must (getItemDescription s i) ;;
        fmt_Print ("- " +:+ desc +:+ nl) ;;
        inventory_loop (i + 1) rest (count + 1)
      else inventory_loop (i + 1) rest count
  end.

Definition DisplayInventory : M unit :=
  fmt_Println "I'm carrying:" ;;
  s <- get ;;
  count <- inventory_loop 0 (ItemLocations s) 0 ;;
  when (count =? 0) (fmt_Println "Nothing.").

(** The loop of DisplayScore: the number of starred items lying in the
    treasure room. *)
Fixpoint treasure_loop (s : GameState) (i : Z) (locs : list Z) (count : Z)
  : option Z :=
  match locs with
  | [] => Some count
  | loc :: rest =>
      if (i <=? NumItems (Header s)) && (loc =? TreasureRoom (Header s))
      then
        match index (Items s) i with
        | None => None
        | Some item =>
            treasure_loop s (i + 1) rest
              (if contains_star (Description item) then count + 1 else count)
        end
      else treasure_loop s (i + 1) rest count
  end.

Definition DisplayScore : M unit :=
  s <- get ;;
  let totalTreasures := Treasures (Header s) in
  treasureCount <- must (treasure_loop s 0 (ItemLocations s) 0) ;;
  fmt_Print ("I've stored " +:+ format_int treasureCount
             +:+ " treasures." +:+ nl) ;;
  (if totalTreasures =? 0 then panic       (* integer divide by zero *)
   else
     fmt_Print ("On a scale of 0 to 100, that rates a "
                +:+ format_int (Z.quot (treasureCount * 100) totalTreasures)
                +:+ "." +:+ nl)) ;;
  when (treasureCount =? totalTreasures)
    (fmt_Println "Well done! You've found all the treasures!").

(** ** Save / load codec *)

(** The values written by the loop [for i := 0; i < n; i++] over [l]. *)
Definition slots (l : list Z) (n : Z) : option (list Z) :=
  mapM (index l) (seqZ 0 n).

(** The lines SaveGame writes, one [Fprintf "%d\n"] each. *)
Definition save_lines (s : GameState) : option (list string) :=
  match index (AltCounters s) 8,
        slots (AltRooms s) 6,
        slots (AltCounters s) 8,
        slots (ItemLocations s) (NumItems (Header s) + 1) with
  | Some light, Some rooms, Some counters, Some items =>
      Some (map format_int
              ([AdventureNumber (Header s); CurrentRoom s; Counter s;
                BitFlags s; light] ++ rooms ++ counters ++ items))
  | _, _, _, _ => None
  end.

Definition default_save_name (input : string) : string :=
  if String.eqb input "" then "adventure.sav" else input.

Definition SaveGame : M unit :=
  fmt_Print "Enter filename to save: " ;;
  input <- ReadLine ;;
  let filename := default_save_name input in
  w <- get_world ;;
  match assoc filename (unwritable w) with
  | Some err => fmt_Print ("Error creating save file: " +:+ err +:+ nl)
  | None =>
      s <- get ;;
      lines <- must (save_lines s) ;;
      modify_world (fun w => set_files ((filename, lines) :: files w) w) ;;
      fmt_Println "Game saved."
  end.

Definition read_error : M unit := fmt_Println "Error reading save file.".

(** A loop [for i := 0; i < n; i++] of LoadGame that reads one line per
    round and assigns its value to slot [i]; [None] when the scanner ran
    out of lines and LoadGame returned. *)
Fixpoint load_loop (n : nat) (i : Z) (assign : Z -> Z -> M unit)
    (lines : list string) : M (option (list string)) :=
  match n with
  | O => ret (Some lines)
  | S n' =>
      match lines with
      | [] => read_error ;; ret None
      | l :: rest =>
          assign i (fst (Atoi l)) ;;
          load_loop n' (i + 1) assign rest
      end
  end.

Definition assign_AltRoom (i v : Z) : M unit :=
  s <- get ;;
  l <- must (store (AltRooms s) i v) ;;
  modify (set_AltRooms l).

Definition assign_AltCounter (i v : Z) : M unit :=
  s <- get ;;
  l <- must (store (AltCounters s) i v) ;;
  modify (set_AltCounters l).

Definition assign_ItemLocation (i v : Z) : M unit :=
  s <- get ;;
  l <- must (store (ItemLocations s) i v) ;;
  modify (set_ItemLocations l).

(** LoadGame once the file is open: [lines] is what the scanner will
    deliver. *)
Definition load_from (lines : list string) : M unit :=
  s <- get ;;
  match lines with
  | [] => read_error
  | l0 :: lines =>
  if negb (fst (Atoi l0) =? AdventureNumber (Header s))
  then fmt_Println "This save file is for a different adventure."
  else
  match lines with
  | [] => read_error
  | l1 :: lines =>
  modify (set_CurrentRoom (fst (Atoi l1))) ;;
  match lines with
  | [] => read_error
  | l2 :: lines =>
  modify (set_Counter (fst (Atoi l2))) ;;
  match lines with
  | [] => read_error
  | l3 :: lines =>
  modify (set_BitFlags (fst (ParseUint l3 maxUint32))) ;;
  match lines with
  | [] => read_error
  | l4 :: lines =>
  assign_AltCounter 8 (fst (Atoi l4)) ;;
  r <- load_loop 6 0 assign_AltRoom lines ;;
  match r with
  | None => ret tt
  | Some lines =>
  r <- load_loop 8 0 assign_AltCounter lines ;;
  match r with
  | None => ret tt
  | Some lines =>
  r <- load_loop (Z.to_nat (NumItems (Header s) + 1)) 0
         assign_ItemLocation lines ;;
  match r with
  | None => ret tt
  | Some _ =>
      fmt_Println "Game loaded." ;;
      modify (set_DisplayedRoom false)
  end end end end end end end end.

Definition LoadGame : M unit :=
  fmt_Print "Enter filename to load: " ;;
  input <- ReadLine ;;
  let filename := default_save_name input in
  w <- get_world ;;
  match assoc filename (files w) with
  | None =>
      fmt_Print ("Error opening save file: open " +:+ filename
                 +:+ ": no such file or directory" +:+ nl)
  | Some lines => load_from lines
  end.

(** ** Light source *)

Definition IsDark (s : GameState) : option bool :=
  if flag_set s DARKBIT then
    match index (ItemLocations s) LIGHT_SOURCE with
    | None => None
    | Some loc => Some (negb (loc =? CARRIED) && negb (loc =? CurrentRoom s))
    end
  else Some false.

Definition UpdateLightSource : M unit :=
  s <- get ;;
  loc <- must (index (ItemLocations s) LIGHT_SOURCE) ;;
  if loc =? CARRIED then
    dark <- must (IsDark s) ;;
    if negb dark then
      light <- must (index (AltCounters s) 8) ;;
      let light' := wrap64 (light - 1) in
      counters <- must (store (AltCounters s) 8 light') ;;
      modify (set_AltCounters counters) ;;
      if light' <=? 0 then
        modify (fun s => set_BitFlags (Z.lor (BitFlags s) (bit32 LIGHTOUTBIT)) s) ;;
        fmt_Println "Light has run out!" ;;
        s <- get ;;
        locs <- must (store (ItemLocations s) LIGHT_SOURCE DESTROYED) ;;
        modify (set_ItemLocations locs)
      else if light' <=? 10 then fmt_Println "Light is getting dim."
      else ret tt
    else ret tt
  else ret tt.

(** ** Command executor *)

(** [state.Actions[state.CurrentAction].Conditions[slot] / 20]. *)
Definition condition_parameter (slot : Z) : M Z :=
  s <- get ;;
  action <- must (index (Actions s) (CurrentAction s)) ;;
  condition <- must (index (Conditions action) slot) ;;
  ret (Z.quot condition 20).

Definition clear_screen : string :=
  String "027"%char "[H" +:+ String "027"%char "[2J".

(** The parameter a command gets: [parameter := 0], replaced by the
    decoded parameter of condition slot [cmdPosition] when
    [cmdPosition < 5]. *)
Definition fetch_parameter (cmdPosition : Z) : M Z :=
  if cmdPosition <? 5 then condition_parameter cmdPosition else ret 0.

Definition ExecuteCommand (cmd cmdPosition : Z) : M unit :=
  parameter <- fetch_parameter cmdPosition ;;
  s <- get ;;
  if (1 <=? cmd) && (cmd <=? 51) then
    msg <- must (index (Messages s) cmd) ;;
    fmt_Println msg
  else if (102 <=? cmd) && (cmd <=? 149) then
    msg <- must (index (Messages s) (cmd - 50)) ;;
    fmt_Println msg
  else
  match cmd with
  | 52 => GetItem parameter
  | 53 => DropItem parameter
  | 54 =>
      modify (set_CurrentRoom parameter) ;;
      modify (set_DisplayedRoom false)
  | 55 | 59 =>
      locs <- must (store (ItemLocations s) parameter DESTROYED) ;;
      modify (set_ItemLocations locs)
  | 56 => modify (set_BitFlags (Z.lor (BitFlags s) (bit32 DARKBIT)))
  | 57 => modify (set_BitFlags (Z.land (BitFlags s) (not32 (bit32 DARKBIT))))
  | 58 => modify (set_BitFlags (Z.lor (BitFlags s) (bit32 parameter)))
  | 60 => modify (set_BitFlags (Z.land (BitFlags s) (not32 (bit32 parameter))))
  | 61 =>
      modify (set_CurrentRoom (NumRooms (Header s))) ;;
      modify (set_DisplayedRoom false)
  | 62 =>
      if cmdPosition <? 5 then
        nextParam <- condition_parameter (cmdPosition + 1) ;;
        locs <- must (store (ItemLocations s) parameter nextParam) ;;
        modify (set_ItemLocations locs)
      else ret tt
  | 63 =>
      fmt_Println "Game over! You've completed the adventure!" ;;
      os_Exit
  | 64 | 76 => modify (set_DisplayedRoom false)
  | 65 => DisplayScore
  | 66 => DisplayInventory
  | 67 => modify (set_BitFlags (Z.lor (BitFlags s) (bit32 0)))
  | 68 => modify (set_BitFlags (Z.land (BitFlags s) (not32 (bit32 0))))
  | 69 =>
      counters <- must (store (AltCounters s) 8 (LightTime (Header s))) ;;
      modify (set_AltCounters counters) ;;
      modify (set_BitFlags (Z.land (BitFlags s) (not32 (bit32 LIGHTOUTBIT)))) ;;
      loc <- must (index (ItemLocations s) LIGHT_SOURCE) ;;
      if negb (loc =? CARRIED) then
        locs <- must (store (ItemLocations s) LIGHT_SOURCE CARRIED) ;;
        modify (set_ItemLocations locs)
      else ret tt
  | 70 => fmt_Print clear_screen
  | 71 => SaveGame
  | 72 =>
      if cmdPosition <? 4 then
        let item1 := parameter in
        item2 <- condition_parameter (cmdPosition + 1) ;;
        loc2 <- must (index (ItemLocations s) item2) ;;
        loc1 <- must (index (ItemLocations s) item1) ;;
        locs <- must (store (ItemLocations s) item1 loc2) ;;
        locs <- must (store locs item2 loc1) ;;
        modify (set_ItemLocations locs)
      else ret tt
  | 73 => modify (set_ContinueFlag true)
  | 74 =>
      locs <- must (store (ItemLocations s) parameter CARRIED) ;;
      modify (set_ItemLocations locs)
  | 75 =>
      if cmdPosition <? 4 then
        let item1 := parameter in
        item2 <- condition_parameter (cmdPosition + 1) ;;
        loc2 <- must (index (ItemLocations s) item2) ;;
        locs <- must (store (ItemLocations s) item1 loc2) ;;
        modify (set_ItemLocations locs)
      else ret tt
  | 77 => modify (set_Counter (wrap64 (Counter s - 1)))
  | 78 => fmt_Print ("Counter = " +:+ format_int (Counter s) +:+ nl)
  | 79 => modify (set_Counter parameter)
  | 80 =>
      alt <- must (index (AltRooms s) 0) ;;
      rooms <- must (store (AltRooms s) 0 (CurrentRoom s)) ;;
      modify (set_CurrentRoom alt) ;;
      modify (set_AltRooms rooms) ;;
      modify (set_DisplayedRoom false)
  | 81 =>
      alt <- must (index (AltCounters s) parameter) ;;
      counters <- must (store (AltCounters s) parameter (Counter s)) ;;
      modify (set_Counter alt) ;;
      modify (set_AltCounters counters)
  | 82 => modify (set_Counter (wrap64 (Counter s + parameter)))
  | 83 =>
      let c := wrap64 (Counter s - parameter) in
      modify (set_Counter (if c <? -1 then -1 else c))
  | 84 => ret tt
  | 85 => ret tt
  | 86 => fmt_Println ""
  | 87 =>
      alt <- must (index (AltRooms s) parameter) ;;
      rooms <- must (store (AltRooms s) parameter (CurrentRoom s)) ;;
      modify (set_CurrentRoom alt) ;;
      modify (set_AltRooms rooms) ;;
      modify (set_DisplayedRoom false)
  | 88 => ret tt                   (* time.Sleep *)
  | _ => ret tt
  end.

(** One round of the loop [for i := 0; i < 2; i++] of ExecuteCommands. *)
Definition execute_pair (action : Action) (i : Z) : M unit :=
  cmd <- must (index (Commands action) i) ;;
  if cmd =? 0 then ret tt
  else
    ExecuteCommand (Z.quot cmd 150) 0 ;;
    ExecuteCommand (Z.rem cmd 150) (i + 1).

(** The debug output that ends ExecuteCommands. *)
Definition debug_executed (actionIndex : Z) : M unit :=
  s <- get ;;
  when (Debug s)
    (let title :=
       if actionIndex <? Z.of_nat (length (ActionTitles s))
       then index (ActionTitles s) actionIndex else Some "Unknown" in
     title <- must title ;;
     fmt_Print ("[DEBUG] Executed action " +:+ format_int actionIndex
                +:+ ": " +:+ title +:+ nl)).

Definition ExecuteCommands (actionIndex : Z) : M unit :=
  modify (set_CurrentAction actionIndex) ;;
  s <- get ;;
  action <- must (index (Actions s) actionIndex) ;;
  execute_pair action 0 ;;
  execute_pair action 1 ;;
  debug_executed actionIndex.

(** ** Action dispatcher *)

(** The loop of ProcessExactAction; [i] is the index of the head of
    [actions], [found] the variable of that name. *)
Fixpoint exact_scan (verb noun : Z) (i : Z) (actions : list Action)
    (found : bool) : M bool :=
  match actions with
  | [] => ret found
  | action :: rest =>
      if (Verb action =? verb) && (Noun action =? noun) then
        ok <- CheckConditions i ;;
        if ok then
          ExecuteCommands i ;;
          s <- get ;;
          if negb (ContinueFlag s) then ret true
          else exact_scan verb noun (i + 1) rest true
        else exact_scan verb noun (i + 1) rest found
      else exact_scan verb noun (i + 1) rest found
  end.

Definition ProcessExactAction (verb noun : Z) : M bool :=
  s <- get ;;
  exact_scan verb noun 0 (Actions s) false.

Definition ProcessActionsWithVerb (verb noun : Z) : M unit :=
  found <- ProcessExactAction verb noun ;;
  if found then ret tt
  else
    found0 <- (if negb (noun =? 0) then ProcessExactAction verb 0
               else ret false) ;;
    if found0 then ret tt
    else if verb =? 10 then GetItem noun
    else if verb =? 18 then DropItem noun
    else fmt_Println "I don't understand how to do that.".

(** The inner loop of ProcessAutomaticActions. *)
Fixpoint automatic_scan (i : Z) (actions : list Action) : M unit :=
  match actions with
  | [] => ret tt
  | action :: rest =>
      if negb (Verb action =? 0) then automatic_scan (i + 1) rest
      else
        skip <- (if 0 <? Noun action then
                   r <- rand_Intn 100 ;;
                   let chance := r + 1 in
                   ret (Noun action <? chance)
                 else ret false) ;;
        if (skip : bool) then automatic_scan (i + 1) rest
        else
          ok <- CheckConditions i ;;
          if ok then
            ExecuteCommands i ;;
            s <- get ;;
            if ContinueFlag s then ret tt
            else automatic_scan (i + 1) rest
          else automatic_scan (i + 1) rest
  end.

(** The outer loop [for state.ContinueFlag { ... }], which need not
    terminate: [fuel] bounds the number of passes and the result tells
    whether the loop ended within them. *)
Fixpoint automatic_passes (fuel : nat) : M bool :=
  s <- get ;;
  if negb (ContinueFlag s) then ret true
  else
    match fuel with
    | O => ret false
    | S fuel' =>
        modify (set_ContinueFlag false) ;;
        automatic_scan 0 (Actions s) ;;
        automatic_passes fuel'
    end.

Definition ProcessAutomaticActions (fuel : nat) : M bool :=
  modify (set_ContinueFlag true) ;;
  automatic_passes fuel.

(** ** The initial state and a sample adventure *)

(** The GameState LoadGameData returns once the tables have been read
    from the data file: NewGameState's zero values, the item locations
    as read, the player in the start room and the light counter full. *)
Definition initial_state (h : GameHeader) (rooms : list Room)
    (items : list Item) (actions : list Action) (words : list Word)
    (messages titles : list string) : GameState :=
  mkGameState h rooms items actions words messages titles
    (PlayerRoom h) (map Location items) 0 0
    [0; 0; 0; 0; 0; 0; 0; 0; LightTime h] [0; 0; 0; 0; 0; 0]
    false false false 0.

Definition item_at (desc : string) (loc : Z) : Item :=
  mkItem desc loc loc "".

(** A small adventure: three rooms, eleven items with the lamp (item 9)
    in the start room, and the action table of the continuation
    scenario: A = (verb 5, noun 0) prints message 1 and issues CONT,
    B = (0, 0) requires the player in room 3, C = (0, 0) prints message 2
    and sets flag 0. *)
Definition sample_header : GameHeader :=
  mkGameHeader 0 10 2 4 3 2 1 1 3 125 3 2 416 1.

Definition sample_actions : list Action :=
  [ mkAction 5 0 [0; 0; 0; 0; 0] [1 * 150 + 73; 0];
    mkAction 0 0 [3 * 20 + 4; 0; 0; 0; 0] [3 * 150 + 0; 0];
    mkAction 0 0 [0; 0; 0; 0; 0] [2 * 150 + 67; 0] ].

Definition sample_items : list Item :=
  [ item_at "" 0; item_at "Axe" 1; item_at "Keys" 1; item_at "*GOLD*" 2;
    item_at "Bottle" 255; item_at "Mud" 3; item_at "Fish" 0;
    item_at "Net" 255; item_at "Sign" 1; mkItem "Lit lamp" 1 1 "LAM";
    item_at "Rug" 2 ].

Definition sample_state : GameState :=
  initial_state sample_header
    [ mkRoom [0; 0; 0; 0; 0; 0] ""; mkRoom [2; 0; 0; 0; 0; 0] "forest";
      mkRoom [0; 1; 3; 0; 0; 0] "meadow"; mkRoom [0; 0; 0; 2; 0; 0] "cave" ]
    sample_items sample_actions []
    [ ""; "A fires."; "C fires."; "B fires." ] [].

Definition sample_world : World :=
  mkWorld ["game.sav"; "game.sav"] [] [] [] (fun _ => 0) 0.

(** ** Vocabulary of the statements *)

(** What one print call adds to the world. *)
Definition printed (texts : list string) (w : World) : World :=
  set_stdout (stdout w ++ texts) w.

Ltac run_monad :=
  unfold must, when, fmt_Println, fmt_Print;
  unfold bind, ret, get, modify, panic, get_world, modify_world;
  cbn beta iota.

Definition invalid_item (s : GameState) (itemNumber : Z) : bool :=
  (itemNumber <=? 0) || (NumItems (Header s) <? itemNumber).

(** ** Well-formed states

    What Go's types and LoadGameData's allocations guarantee: the array
    fields have their declared sizes and the item tables have
    [NumItems + 1] entries.  No function of the interpreter changes the
    length of a slice. *)
Record wf (s : GameState) : Prop := mk_wf {
  wf_locations : Z.of_nat (length (ItemLocations s)) = NumItems (Header s) + 1;
  wf_items : length (Items s) = length (ItemLocations s);
  wf_counters : length (AltCounters s) = 9%nat;
  wf_rooms : length (AltRooms s) = 6%nat;
  wf_actions :
    Forall (fun a => length (Conditions a) = 5%nat
                     /\ length (Commands a) = 2%nat) (Actions s)
}.

(** The state can execute commands of its current action: the action
    exists. *)
Definition current_action_ok (s : GameState) : Prop :=
  0 <= CurrentAction s < Z.of_nat (length (Actions s)).

(** A state with messages 0..101, so that message 100 exists. *)
Definition long_messages_state : GameState :=
  mkGameState sample_header [] sample_items sample_actions []
    (replicate 100 "" ++ ["A voice booms."; ""]) []
    1 (map Location sample_items) 0 0
    [0; 0; 0; 0; 0; 0; 0; 0; 125] [0; 0; 0; 0; 0; 0] false false false 0.

(** ** Light depletion over several turns *)

(** What happens to the state between two light updates in a turn on
    which the light source is carried: anything, as long as the state
    stays well formed, the light counter and the light-exhausted flag are
    left alone, and the light source is carried when the update runs. *)
Definition lit_play (s s' : GameState) : Prop :=
  wf s'
  /\ index (AltCounters s') 8 = index (AltCounters s) 8
  /\ flag_set s' LIGHTOUTBIT = flag_set s LIGHTOUTBIT
  /\ index (ItemLocations s') LIGHT_SOURCE = Some CARRIED.

(** [lit_turns n s s']: [s'] is reached from [s] by [n] such turns, each
    ending with UpdateLightSource as in RunGame. *)
Inductive lit_turns : nat -> GameState -> GameState -> Prop :=
| lit_turns_O : forall s, lit_turns O s s
| lit_turns_S : forall n s0 s1 s2 s3 w w',
    lit_turns n s0 s1 ->
    lit_play s1 s2 ->
    UpdateLightSource s2 w = Ok tt s3 w' ->
    lit_turns (S n) s0 s3.

(** The state UpdateLightSource leaves when the light source is carried
    and the counter stood at [light]. *)
Definition light_updated (light : Z) (s : GameState) : GameState :=
  let light' := wrap64 (light - 1) in
  let s1 := set_AltCounters (<[8%nat := light']> (AltCounters s)) s in
  if light' <=? 0 then
    set_ItemLocations (<[9%nat := DESTROYED]> (ItemLocations s))
      (set_BitFlags (Z.lor (BitFlags s) (bit32 LIGHTOUTBIT)) s1)
  else s1.

Definition light_warning (light : Z) : list string :=
  let light' := wrap64 (light - 1) in
  if light' <=? 0 then ["Light has run out!" +:+ nl]
  else if light' <=? 10 then ["Light is getting dim." +:+ nl]
  else [].

(** An adventure whose first action picks up the light source (AGET 9)
    and sets flag 16 (SET 16), both parameters coming from its condition
    slots. *)
Definition lamp_actions : list Action :=
  [ mkAction 1 0 [9 * 20; 16 * 20; 0; 0; 0] [74 * 150 + 58; 0] ].

Definition lamp_state : GameState :=
  initial_state sample_header [] sample_items lamp_actions []
    [ ""; "A fires."; "C fires."; "B fires." ] [].

(** The sample adventure with the light source in the inventory. *)
Definition lit_state : GameState :=
  set_ItemLocations (<[9%nat := CARRIED]> (ItemLocations sample_state))
    sample_state.

(** [n] turns of a player who only lets the light burn. *)
Fixpoint light_turns (n : nat) : M unit :=
  match n with
  | O => ret tt
  | S n' => light_turns n' ;; UpdateLightSource
  end.

(** ** Reachable states *)

(** The states the engine can reach from [s0] by evaluating conditions
    and executing commands, one command or one whole action at a time,
    by the built-in GET and DROP, by the light update that ends a turn
    and by loading a saved game. *)
Inductive reachable (s0 : GameState) : GameState -> Prop :=
| reach_start : reachable s0 s0
| reach_condition : forall s code parameter w b s' w',
    reachable s0 s ->
    EvaluateCondition code parameter s w = Ok b s' w' ->
    reachable s0 s'
| reach_command : forall s cmd cmdPosition w s' w',
    reachable s0 s ->
    ExecuteCommand cmd cmdPosition s w = Ok tt s' w' ->
    reachable s0 s'
| reach_action : forall s actionIndex w s' w',
    reachable s0 s ->
    ExecuteCommands actionIndex s w = Ok tt s' w' ->
    reachable s0 s'
| reach_get : forall s itemNumber w s' w',
    reachable s0 s ->
    GetItem itemNumber s w = Ok tt s' w' ->
    reachable s0 s'
| reach_drop : forall s itemNumber w s' w',
    reachable s0 s ->
    DropItem itemNumber s w = Ok tt s' w' ->
    reachable s0 s'
| reach_light : forall s w s' w',
    reachable s0 s ->
    UpdateLightSource s w = Ok tt s' w' ->
    reachable s0 s'
| reach_load : forall s w s' w',
    reachable s0 s ->
    LoadGame s w = Ok tt s' w' ->
    reachable s0 s'.

(** An adventure whose only action decrements the counter twice
    (opcode 77 in both halves of its first command slot). *)
Definition countdown_actions : list Action :=
  [ mkAction 0 0 [0; 0; 0; 0; 0] [77 * 150 + 77; 0] ].

Definition countdown_state : GameState :=
  initial_state sample_header [] sample_items countdown_actions [] [""] [].

(** The counter after opcode 83 with parameter [p]. *)
Definition subtracted (c p : Z) : Z :=
  let c' := wrap64 (c - p) in if c' <? -1 then -1 else c'.

(** ** Out-of-range parameters *)

(** The condition opcodes that index ItemLocations by their parameter. *)
Definition item_conditions : list Z := [1; 2; 3; 5; 6; 12; 13; 14; 17; 18].

(** The command opcodes that index ItemLocations by their parameter. *)
Definition item_commands : list Z := [55; 59; 62; 72; 74; 75].

(** An adventure whose first action is guarded by "HAS item 11"
    (condition 11 * 20 + 1), one past the last item, and whose second
    action destroys item 11 (opcode 55 with parameter 11). *)
Definition stray_actions : list Action :=
  [ mkAction 5 0 [11 * 20 + 1; 0; 0; 0; 0] [1 * 150 + 0; 0];
    mkAction 6 0 [11 * 20; 0; 0; 0; 0] [55 * 150 + 0; 0] ].

Definition stray_state : GameState :=
  initial_state sample_header [] sample_items stray_actions []
    [ ""; "A fires." ] [].

(** ** Save and load *)

(** The ranges Go's types give the saved fields: [int] for the
    adventure number, rooms, counters and item locations, [uint32] for
    the flag word. *)
Record in_range (s : GameState) : Prop := mk_in_range {
  range_adventure : is_int64 (AdventureNumber (Header s));
  range_room : is_int64 (CurrentRoom s);
  range_counter : is_int64 (Counter s);
  range_flags : is_uint32 (BitFlags s);
  range_counters : Forall is_int64 (AltCounters s);
  range_rooms : Forall is_int64 (AltRooms s);
  range_locations : Forall is_int64 (ItemLocations s)
}.

(** State [t] after a successful load of the data saved from [s]: the
    saved fields are those of [s], the room is due to be displayed
    again, and everything else is as in [t]. *)
Definition loaded (s t : GameState) : GameState :=
  mkGameState (Header t) (Rooms t) (Items t) (Actions t) (Words t)
    (Messages t) (ActionTitles t) (CurrentRoom s) (ItemLocations s)
    (BitFlags s) (Counter s) (AltCounters s) (AltRooms s) (ContinueFlag t)
    false (Debug t) (CurrentAction t).




(** ** The parameter channel *)

(** A result with its final state transformed. *)
Definition map_state {A : Type} (f : GameState -> GameState) (r : result A)
  : result A :=
  match r with
  | Ok a s w => Ok a (f s) w
  | Panicked => Panicked
  | Exited w => Exited w
  end.

(** An action with its two command slots replaced. *)
Definition recode (f : Action -> list Z) (a : Action) : Action :=
  mkAction (Verb a) (Noun a) (Conditions a) (f a).

(** The commands of one slot, with the condition slot each half reads
    its parameter from. *)
Definition run_slot (cmd : Z) (second : Z) : M unit :=
  if cmd =? 0 then ret tt
  else
    ExecuteCommand (Z.quot cmd 150) 0 ;;
    ExecuteCommand (Z.rem cmd 150) second.

(** The opcodes that have an operand: GETx, DROPx, GOTOy, x->RM0 (55 and
    59), SETz, CLRz, x->y, EXx,x, AGETx, BYx<-x, CT<-n, EXm,CT, CT+n,
    CT-n and EXc,CR. *)
Definition takes_parameter (cmd : Z) : bool :=
  existsb (Z.eqb cmd)
    [52; 53; 54; 55; 58; 59; 60; 62; 72; 74; 75; 79; 81; 82; 83; 87].

(** ** The invariant of the engine *)

(** Ranges of the static tables the commands copy values from. *)
Record table_in_range (s : GameState) : Prop := mk_table_in_range {
  range_conditions :
    Forall (fun a => Forall is_int64 (Conditions a)) (Actions s);
  range_light_time : is_int64 (LightTime (Header s));
  range_num_rooms : is_int64 (NumRooms (Header s))
}.

(** Well-formed, with every integer in the range of its Go type. *)
Definition state_ok (s : GameState) : Prop :=
  wf s /\ in_range s /\ table_in_range s.

(** The sample adventure with the bottle (item 4) put down in the start
    room, so that one item is carried and there is room for another. *)
Definition roomy_state : GameState :=
  set_ItemLocations (<[4%nat := 1]> (ItemLocations sample_state))
    sample_state.

(** ** Conditions and their negations *)

(** The condition codes that come in pairs, a test and its negation:
    HAS / -HAVE, IN/W / -IN/W, AVL / -AVL, IN / -IN, BIT / -BIT,
    ANY / -ANY, -RM0 / RM0, CT<= / CT>, ORIG / -ORIG. *)
Definition opposite_conditions : list (Z * Z) :=
  [(1, 6); (2, 5); (3, 12); (4, 7); (8, 9); (10, 11); (13, 14); (15, 16);
   (17, 18)].

(** A boolean result with its answer negated. *)
Definition negated (r : result bool) : result bool :=
  match r with
  | Ok b s w => Ok (negb b) s w
  | Panicked => Panicked
  | Exited w => Exited w
  end.

(** A flag number the flag word has a bit for. *)
Definition is_flag (z : Z) : bool := (0 <=? z) && (z <? 32).

(** An adventure whose first action exchanges the locations of items 2
    and 3 and the current room with alternate room 2, both parameters
    coming from its condition slots. *)
Definition exchange_actions : list Action :=
  [ mkAction 1 0 [2 * 20; 3 * 20; 0; 0; 0] [72 * 150 + 87; 0] ].

Definition exchange_state : GameState :=
  initial_state sample_header [] sample_items exchange_actions [] [""] [].

(** ** The dispatcher *)

(** Whether one of the command halves of an action is CONT (opcode 73). *)
Definition issues_CONT (a : Action) : bool :=
  existsb (fun cmd => negb (cmd =? 0)
                      && ((Z.quot cmd 150 =? 73) || (Z.rem cmd 150 =? 73)))
    (Commands a).



(** The fields no command writes: the tables of the adventure and the
    debug switch. *)
Definition same_adventure (s s' : GameState) : Prop :=
  Header s' = Header s /\ Rooms s' = Rooms s /\ Items s' = Items s
  /\ Actions s' = Actions s /\ Words s' = Words s
  /\ Messages s' = Messages s /\ ActionTitles s' = ActionTitles s
  /\ Debug s' = Debug s.

(** What a command leaves alone: the tables of the adventure, the debug
    switch, the index of the current action and, unless the command is
    CONT, the continuation flag. *)
Definition command_footprint (cmd : Z) (s s' : GameState) : Prop :=
  same_adventure s s' /\ CurrentAction s' = CurrentAction s
  /\ (cmd <> 73 -> ContinueFlag s' = ContinueFlag s).

(** ** Moving and looking *)

Definition NORTH : Z := 0.
Definition SOUTH : Z := 1.
Definition EAST : Z := 2.
Definition WEST : Z := 3.
Definition UP : Z := 4.
Definition DOWN : Z := 5.

(** [strings.HasPrefix(s, prefix)]. *)
Definition HasPrefix (s prefix : string) : bool := String.prefix prefix s.

(** [s[n:]] for [n <= len(s)]. *)
Fixpoint drop_bytes (n : nat) (s : string) : string :=
  match n, s with
  | S n', String _ rest => drop_bytes n' rest
  | _, _ => s
  end.

(** [strings.TrimPrefix(s, prefix)]. *)
Definition TrimPrefix (s prefix : string) : string :=
  if HasPrefix s prefix then drop_bytes (String.length prefix) s else s.

(** [strings.Join(elems, sep)]. *)
Fixpoint Join (elems : list string) (sep : string) : string :=
  match elems with
  | [] => EmptyString
  | [e] => e
  | e :: rest => e +:+ sep +:+ Join rest sep
  end.

Definition MovePlayer (direction : Z) : M unit :=
  s <- get ;;
  dark <- must (IsDark s) ;;
  fell <- (if dark then r <- rand_Intn 100 ;; ret (r <? 25) else ret false) ;;
  if (fell : bool) then
    fmt_Println "I fell into a pit and broke every bone in my body!" ;;
    modify (set_CurrentRoom (NumRooms (Header s))) ;;
    modify (set_DisplayedRoom false)
  else
    room <- must (index (Rooms s) (CurrentRoom s)) ;;
    nextRoom <- must (index (Exits room) direction) ;;
    if nextRoom =? 0 then fmt_Println "I can't go that way."
    else
      modify (set_CurrentRoom nextRoom) ;;
      modify (set_DisplayedRoom false).

(** The loop of DisplayCurrentLocation over the item locations; [i] is
    the index of the head of [locs]. *)
Fixpoint visible_loop (i : Z) (locs : list Z) : M unit :=
  match locs with
  | [] => ret tt
  | loc :: rest =>
      s <- get ;;
      (if (i <=? NumItems (Header s)) && (loc =? CurrentRoom s) then
         item <- must (index (Items s) i) ;;
         fmt_Print ("I can see " +:+ before_slash (Description item)
                    +:+ " here" +:+ nl)
       else ret tt) ;;
      visible_loop (i + 1) rest
  end.

(** [if room.Exits[direction] != 0 { exits = append(exits, name) }]. *)
Definition open_exit (room : Room) (direction : Z) (name : string)
    (exits : list string) : M (list string) :=
  e <- must (index (Exits room) direction) ;;
  ret (if negb (e =? 0) then exits ++ [name] else exits).

Definition DisplayCurrentLocation : M unit :=
  s <- get ;;
  dark <- must (IsDark s) ;;
  if dark then fmt_Println "It is too dark to see"
  else
    room <- must (index (Rooms s) (CurrentRoom s)) ;;
    (if HasPrefix (RoomDescription room) "*"
     then fmt_Println (TrimPrefix (RoomDescription room) "*")
     else fmt_Print ("I'm in a " +:+ RoomDescription room +:+ nl)) ;;
    visible_loop 0 (ItemLocations s) ;;
    exits <- open_exit room NORTH "NORTH" [] ;;
    exits <- open_exit room SOUTH "SOUTH" exits ;;
    exits <- open_exit room EAST "EAST" exits ;;
    exits <- open_exit room WEST "WEST" exits ;;
    exits <- open_exit room UP "UP" exits ;;
    exits <- open_exit room DOWN "DOWN" exits ;;
    if (0 <? length exits)%nat
    then fmt_Print ("Obvious exits: " +:+ Join exits ", " +:+ nl)
    else fmt_Println "Obvious exits: NONE".





(** The sample adventure with the player in the meadow (room 2) at
    night: the darkness flag is set and the lamp is still in the forest. *)
Definition dark_state : GameState :=
  set_BitFlags (bit32 DARKBIT) (set_CurrentRoom 2 sample_state).

(** A world whose random source always draws 60. *)
Definition lucky_world : World := mkWorld [] [] [] [] (fun _ => 60) 0.

(** ** The data file: tokens *)

Definition quote : ascii := "034"%char.
Definition slash : ascii := "/"%char.

(** [unicode.IsSpace(rune(char))] for a byte: tab, line feed, vertical
    tab, form feed, carriage return and space, and the two Latin-1
    spaces U+0085 and U+00A0. *)
Definition IsSpace (char : ascii) : bool :=
  let n := N_of_ascii char in
  (((9 <=? n) && (n <=? 13)) || (n =? 32) || (n =? 133) || (n =? 160))%N.

(** [char == '\n' || char == '\r']. *)
Definition is_line_end (char : ascii) : bool :=
  Ascii.eqb char "010"%char || Ascii.eqb char "013"%char.

(** [currentToken.WriteByte(char)]. *)
Definition WriteByte (currentToken : string) (char : ascii) : string :=
  currentToken +:+ String char EmptyString.

(** [if currentToken.Len() > 0 { tokens = append(tokens, ...) }]; the
    caller resets the current token. *)
Definition flush (tokens : list string) (currentToken : string)
  : list string :=
  match currentToken with
  | EmptyString => tokens
  | _ => tokens ++ [currentToken]
  end.

(** The loop of tokenizeGameData over the bytes of the content.  The
    inner loop that skips a comment is the state [inComment]: bytes are
    passed over until a line end comes up, which is then handled like any
    line end outside a comment. *)
Fixpoint tokenize_loop (content : string) (tokens : list string)
    (currentToken : string) (inQuotes inComment : bool)
  : list string * string * bool :=
  match content with
  | EmptyString => (tokens, currentToken, inQuotes)
  | String char rest =>
      if inComment && negb (is_line_end char) then
        tokenize_loop rest tokens currentToken inQuotes true
      else if Ascii.eqb char quote then
        if inQuotes then
          tokenize_loop rest (tokens ++ [WriteByte currentToken char])
            EmptyString false false
        else
          tokenize_loop rest (flush tokens currentToken)
            (String char EmptyString) true false
      else if inQuotes then
        tokenize_loop rest tokens (WriteByte currentToken char) true false
      else if is_line_end char then
        tokenize_loop rest (flush tokens currentToken) EmptyString false false
      else if Ascii.eqb char slash then
        match rest with
        | String next _ =>
            if Ascii.eqb next slash
            then tokenize_loop rest tokens currentToken false true
            else tokenize_loop rest tokens (WriteByte currentToken char)
                   false false
        | EmptyString =>
            tokenize_loop rest tokens (WriteByte currentToken char) false false
        end
      else if negb (IsSpace char) then
        tokenize_loop rest tokens (WriteByte currentToken char) false false
      else
        tokenize_loop rest (flush tokens currentToken) EmptyString false false
  end.

(** The tokens of a data file, or the error. *)
Definition tokenizeGameData (content : string) : list string + string :=
  let '(tokens, currentToken, inQuotes) :=
    tokenize_loop content [] EmptyString false false in
  let tokens := flush tokens currentToken in
  if (inQuotes : bool) then inr "unbalanced quotes in game data"
  else inl tokens.

(** ** The data file: tables *)

(** What reading from the token list gives: a value and the tokens from
    tokenIndex on, the error LoadGameData returns, or a runtime panic. *)
Inductive parsed (A : Type) : Type :=
| Parsed (a : A) (rest : list string)
| Failed (err : string)
| Crashed.
Arguments Parsed {A} a rest.
Arguments Failed {A} err.
Arguments Crashed {A}.

Definition Reader (A : Type) : Type := list string -> parsed A.

Definition pure {A : Type} (a : A) : Reader A := fun tokens => Parsed a tokens.

Definition and_then {A B : Type} (m : Reader A) (k : A -> Reader B)
  : Reader B :=
  fun tokens =>
    match m tokens with
    | Parsed a rest => k a rest
    | Failed err => Failed err
    | Crashed => Crashed
    end.

Definition Errorf {A : Type} (err : string) : Reader A := fun _ => Failed err.
Definition crash {A : Type} : Reader A := fun _ => Crashed.

Declare Scope load_scope.
Delimit Scope load_scope with load.
Notation "x <- c ;; k" := (and_then c (fun x => k))
  (at level 100, c at next level, right associativity) : load_scope.
Local Open Scope load_scope.

(** [tokens[tokenIndex]] after the test [tokenIndex >= len(tokens)],
    with [tokenIndex++]. *)
Definition next_token (eof : string) : Reader string :=
  fun tokens =>
    match tokens with
    | [] => Failed eof
    | token :: rest => Parsed token rest
    end.

(** A number: [strconv.Atoi] must accept the token. *)
Definition read_int (eof invalid : string) : Reader Z :=
  token <- next_token eof ;;
  let (val, ok) := Atoi token in
  if (ok : bool) then pure val else Errorf (invalid +:+ token).

(** [token[1 : len(token)-1]]; [None] is the panic of the slice
    expression on a token shorter than its two quotes. *)
Definition unquote (token : string) : option string :=
  if (String.length token <? 2)%nat then None
  else Some (substring 1 (String.length token - 2) token).

(** A value whose computation may have panicked. *)
Definition or_crash {A : Type} (o : option A) : Reader A :=
  match o with Some a => pure a | None => crash end.

Definition quoted_token (token : string) : bool :=
  HasPrefix token (String quote EmptyString).

(** A quoted string. *)
Definition read_quoted (eof invalid : string) : Reader string :=
  token <- next_token eof ;;
  if negb (quoted_token token) then Errorf (invalid +:+ token)
  else or_crash (unquote token).

(** A loop [for i := 0; i < n; i++] that reads one entry per round. *)
Fixpoint read_entries {A : Type} (n : nat) (i : Z) (entry : Z -> Reader A)
  : Reader (list A) :=
  match n with
  | O => pure []
  | S n' =>
      a <- entry i ;;
      rest <- read_entries n' (i + 1) entry ;;
      pure (a :: rest)
  end.

(** The limit of the Go runtime on the size of one allocation (64-bit
    Linux). *)
Definition maxAlloc : Z := 2 ^ 48.

(** [make([]T, length)] for elements of [elemSize] bytes: a negative
    length and a length beyond the allocation limit are runtime panics.
    An allocation within the limit is taken to succeed. *)
Definition make (elemSize length : Z) : Reader nat :=
  if (length <? 0) || (maxAlloc <? elemSize * length) then crash
  else pure (Z.to_nat length).

Definition header_value (i : Z) : Reader Z :=
  read_int "unexpected end of file while reading header"
    ("invalid header value " +:+ format_int i +:+ ": ").

(** The twelve header values; the version and the adventure number come
    with the trailer. *)
Definition read_header : Reader GameHeader :=
  v0 <- header_value 0 ;;
  v1 <- header_value 1 ;;
  v2 <- header_value 2 ;;
  v3 <- header_value 3 ;;
  v4 <- header_value 4 ;;
  v5 <- header_value 5 ;;
  v6 <- header_value 6 ;;
  v7 <- header_value 7 ;;
  v8 <- header_value 8 ;;
  v9 <- header_value 9 ;;
  v10 <- header_value 10 ;;
  v11 <- header_value 11 ;;
  pure (mkGameHeader v0 v1 v2 v3 v4 v5 v6 v7 v8 v9 v10 v11 0 0).

Definition read_action (i : Z) : Reader Action :=
  vocab <- read_int
             ("unexpected end of file while reading action " +:+ format_int i
              +:+ " vocabulary")
             ("invalid action " +:+ format_int i +:+ " vocabulary: ") ;;
  conditions <- read_entries 5 0 (fun j =>
    read_int
      ("unexpected end of file while reading action " +:+ format_int i
       +:+ " condition " +:+ format_int j)
      ("invalid action " +:+ format_int i +:+ " condition " +:+ format_int j
       +:+ ": ")) ;;
  commands <- read_entries 2 0 (fun j =>
    read_int
      ("unexpected end of file while reading action " +:+ format_int i
       +:+ " command " +:+ format_int j)
      ("invalid action " +:+ format_int i +:+ " command " +:+ format_int j
       +:+ ": ")) ;;
  pure (mkAction (Z.quot vocab 150) (Z.rem vocab 150) conditions commands).

(** The loop that collects the vocabulary: the quoted tokens that follow
    the actions, up to the first token that is not quoted. *)
Fixpoint vocabulary_loop (tokens : list string) : list string * list string :=
  match tokens with
  | [] => ([], [])
  | token :: rest =>
      if quoted_token token then
        let (vocabulary, rest') := vocabulary_loop rest in
        (token :: vocabulary, rest')
      else ([], tokens)
  end.

Definition read_vocabulary : Reader (list string) :=
  fun tokens =>
    let (vocabulary, rest) := vocabulary_loop tokens in
    Parsed vocabulary rest.

(** The loop over the vocabulary that builds the words; [None] is the
    panic of the slice expression that removes the quotes.  [halfWords]
    is [(NumWords+1)/2]. *)
Fixpoint make_words (halfWords : Z) (vocabulary : list string)
    (verbCount : Z) : option (list Word) :=
  match vocabulary with
  | [] => Some []
  | wordText :: rest =>
      match unquote wordText with
      | None => None
      | Some wordText =>
          let isSynonym := HasPrefix wordText "*" in
          let word := if isSynonym then drop_bytes 1 wordText else wordText in
          let isVerb := (verbCount <? halfWords) && negb isSynonym in
          match make_words halfWords rest
                  (if isVerb then verbCount + 1 else verbCount) with
          | None => None
          | Some words =>
              Some (mkWord word isSynonym (if isVerb then "verb" else "noun")
                    :: words)
          end
      end
  end.

Definition read_room (i : Z) : Reader Room :=
  exits <- read_entries 6 0 (fun j =>
    read_int
      ("unexpected end of file while reading room " +:+ format_int i
       +:+ " exit " +:+ format_int j)
      ("invalid room " +:+ format_int i +:+ " exit " +:+ format_int j
       +:+ ": ")) ;;
  desc <- read_quoted
            ("unexpected end of file while reading room " +:+ format_int i
             +:+ " description")
            ("invalid room description format for room " +:+ format_int i
             +:+ ": ") ;;
  pure (mkRoom exits desc).

Definition read_message (i : Z) : Reader string :=
  read_quoted ("unexpected end of file while reading message " +:+ format_int i)
    ("invalid message format for message " +:+ format_int i +:+ ": ").

(** [strings.Split(s, "/")], [current] being the part under way. *)
Fixpoint Split_slash (s : string) (current : string) : list string :=
  match s with
  | EmptyString => [current]
  | String c rest =>
      if Ascii.eqb c slash then current :: Split_slash rest EmptyString
      else Split_slash rest (WriteByte current c)
  end.

(** An item and its location, which also goes to ItemLocations. *)
Definition read_item (i : Z) : Reader (Item * Z) :=
  desc <- read_quoted
            ("unexpected end of file while reading item " +:+ format_int i
             +:+ " description")
            ("invalid item description format for item " +:+ format_int i
             +:+ ": ") ;;
  let parts := Split_slash desc EmptyString in
  let description :=
    match parts with
    | part0 :: _ :: _ => part0
    | _ => desc
    end in
  let autoGet :=
    match parts with
    | _ :: part1 :: _ :: _ => part1
    | _ => EmptyString
    end in
  loc <- read_int
           ("unexpected end of file while reading item " +:+ format_int i
            +:+ " location")
           ("invalid item " +:+ format_int i +:+ " location: ") ;;
  pure (mkItem description loc loc autoGet, loc).

(** The loop that reads at most [n] action titles and stops at the first
    token that is not quoted. *)
Fixpoint read_titles (n : nat) (tokens : list string)
  : parsed (list string) :=
  match n, tokens with
  | S n', token :: rest =>
      if quoted_token token then
        (title <- or_crash (unquote token) ;;
         titles <- read_titles n' ;;
         pure (title :: titles)) rest
      else Parsed [] tokens
  | _, _ => Parsed [] tokens
  end.

Definition NewGameState : GameState :=
  mkGameState (mkGameHeader 0 0 0 0 0 0 0 0 0 0 0 0 0 0) [] [] [] [] [] []
    0 [] 0 0 [0; 0; 0; 0; 0; 0; 0; 0; 0] [0; 0; 0; 0; 0; 0]
    false false false 0.

Definition with_trailer (h : GameHeader) (version advNum : Z) : GameHeader :=
  mkGameHeader (TextStorageBytes h) (NumItems h) (NumActions h) (NumWords h)
    (NumRooms h) (MaxCarry h) (PlayerRoom h) (Treasures h) (WordLength h)
    (LightTime h) (NumMessages h) (TreasureRoom h) version advNum.

(** LoadGameData once the content has been split into tokens. *)
Definition read_game_data : Reader GameState :=
  let state := NewGameState in
  header <- read_header ;;
  numActions <- make 72 (wrap64 (NumActions header + 1)) ;;
  actions <- read_entries numActions 0 read_action ;;
  vocabulary <- read_vocabulary ;;
  words <- or_crash (make_words (Z.quot (wrap64 (NumWords header + 1)) 2)
                       vocabulary 0) ;;
  numRooms <- make 64 (wrap64 (NumRooms header + 1)) ;;
  rooms <- read_entries numRooms 0 read_room ;;
  numMessages <- make 16 (wrap64 (NumMessages header + 1)) ;;
  messages <- read_entries numMessages 0 read_message ;;
  numItems <- make 48 (wrap64 (NumItems header + 1)) ;;
  items <- read_entries numItems 0 read_item ;;
  titles <- read_titles numActions ;;
  let titles :=
    titles ++ replicate (numActions - length titles) EmptyString in
  version <- read_int "unexpected end of file while reading adventure version"
               "invalid adventure version: " ;;
  advNum <- read_int "unexpected end of file while reading adventure number"
              "invalid adventure number: " ;;
  checksum <- read_int
                "unexpected end of file while reading adventure checksum"
                "invalid adventure checksum: " ;;
  let header := with_trailer header version advNum in
  let expectedChecksum :=
    wrap64 (wrap64 (wrap64 (2 * NumActions header) + NumItems header)
            + AdventureVersion header) in
  if negb (checksum =? expectedChecksum) then
    Errorf ("checksum verification failed. Expected "
            +:+ format_int expectedChecksum +:+ ", got "
            +:+ format_int checksum)
  else
    pure (mkGameState header rooms (map fst items) actions words messages
            titles (PlayerRoom header) (map snd items) (BitFlags state)
            (Counter state)
            (<[8%nat := LightTime header]> (AltCounters state))
            (AltRooms state) (ContinueFlag state) (DisplayedRoom state)
            (Debug state) (CurrentAction state)).

Local Close Scope load_scope.

(** What LoadGameData returns: the state, the error, or a runtime
    panic. *)
Inductive load_result : Type :=
| Loaded (s : GameState)
| LoadError (err : string)
| LoadPanic.

(** LoadGameData once os.ReadFile has returned: [file] is the content of
    the file, or the text of the read error. *)
Definition LoadGameData (file : string + string) : load_result :=
  match file with
  | inr err => LoadError ("failed to read game file: " +:+ err)
  | inl content =>
      match tokenizeGameData content with
      | inr err => LoadError err
      | inl tokens =>
          match read_game_data tokens with
          | Parsed s _ => Loaded s
          | Failed err => LoadError err
          | Crashed => LoadPanic
          end
      end
  end.

(** A token between its two quotes. *)
Definition in_quotes (text : string) : string :=
  String quote (text +:+ String quote EmptyString).

(** A text with one token on each line. *)
Fixpoint one_per_line (tokens : list string) : string :=
  match tokens with
  | [] => EmptyString
  | t :: rest => t +:+ nl +:+ one_per_line rest
  end.

(** The data file of a small adventure in the format of the original
    data files: one token per line. *)
Definition sample_tokens : list string :=
  [ "0"; "2"; "1"; "3"; "2"; "2"; "1"; "1"; "3"; "125"; "2"; "2" ]
  ++ [ "750"; "0"; "0"; "0"; "0"; "0"; "10950"; "0" ]
  ++ [ "0"; "64"; "0"; "0"; "0"; "0"; "450"; "0" ]
  ++ map in_quotes [ "AUT"; "ANY"; "GO"; "NORTH"; "*WALK"; "SOUTH"; "GET" ]
  ++ [ "0"; "0"; "0"; "0"; "0"; "0"; in_quotes "" ]
  ++ [ "2"; "0"; "0"; "0"; "0"; "0"; in_quotes "forest" ]
  ++ [ "0"; "1"; "0"; "0"; "0"; "0";
       in_quotes ("*I'm in a sunny" +:+ nl +:+ "meadow // with flowers") ]
  ++ map in_quotes [ ""; "A fires."; "B fires." ]
  ++ [ in_quotes ""; "0"; in_quotes "Rusty axe/AXE/"; "1";
       in_quotes "*GOLD COIN*"; "2" ]
  ++ map in_quotes [ "chop"; "wander" ]
  ++ [ "416"; "1"; "420" ].

Definition sample_content : string :=
  "// a small adventure" +:+ nl +:+ one_per_line sample_tokens.

(** ** Shapes of tokens *)

(** A byte of an unquoted token: neither a quote nor white space. *)
Definition plain_byte (c : ascii) : bool :=
  negb (Ascii.eqb c quote) && negb (IsSpace c).

Definition starts_with_slash (s : string) : bool :=
  match s with
  | String c _ => Ascii.eqb c slash
  | EmptyString => false
  end.

(** Bytes of an unquoted token with no two slashes in a row. *)
Fixpoint plain_bytes (t : string) : bool :=
  match t with
  | EmptyString => true
  | String c rest =>
      plain_byte c && negb (Ascii.eqb c slash && starts_with_slash rest)
      && plain_bytes rest
  end.

(** A number or a word as the data files write them. *)
Definition plain_token (t : string) : bool :=
  match t with
  | EmptyString => false
  | _ => plain_bytes t
  end.

Fixpoint quote_free (text : string) : bool :=
  match text with
  | EmptyString => true
  | String c rest => negb (Ascii.eqb c quote) && quote_free rest
  end.

(** A token as it stands on a line of a data file: plain, or a text
    without quotes between two quotes. *)
Definition line_token (t : string) : Prop :=
  plain_token t = true
  \/ exists text, quote_free text = true /\ t = in_quotes text.

(** What tokenizeGameData guarantees of every token it returns: it is
    not empty, and if it starts with a quote it also has its closing
    quote. *)
Definition token_ok (t : string) : Prop :=
  t <> EmptyString /\ (quoted_token t = true -> (2 <= String.length t)%nat).

(** The tokens collected so far are well shaped, and so will be the
    token under way. *)
Definition scanner_ok (tokens : list string) (cur : string) (inQuotes : bool)
  : Prop :=
  Forall token_ok tokens
  /\ (if inQuotes then quoted_token cur = true
      else cur = EmptyString \/ quoted_token cur = false).

(** The ranges of the header values the engine computes with. *)
Definition header_in_range (h : GameHeader) : Prop :=
  is_int64 (NumItems h) /\ is_int64 (NumActions h) /\ is_int64 (NumWords h)
  /\ is_int64 (NumRooms h) /\ is_int64 (PlayerRoom h)
  /\ is_int64 (LightTime h) /\ is_int64 (NumMessages h).

(** Properties of a step of the loader.  The step returns a suffix of the
    tokens it was given. *)
Definition shrinking {A : Type} (m : Reader A) : Prop :=
  forall toks a rest, m toks = Parsed a rest -> rest `suffix_of` toks.

(** A step that stopped before the end of the tokens does the same when
    more tokens follow. *)
Definition stable {A : Type} (m : Reader A) : Prop :=
  forall toks a rest extra,
    m toks = Parsed a rest -> rest <> [] ->
    m (toks ++ extra) = Parsed a (rest ++ extra).

(** The rest of a load that reads at least one more token, and does the
    same when more tokens follow. *)
Definition closing {B : Type} (k : Reader B) : Prop :=
  forall toks b rest extra,
    k toks = Parsed b rest ->
    toks <> [] /\ k (toks ++ extra) = Parsed b (rest ++ extra).

(** A step that does not panic on well-shaped tokens. *)
Definition safe {A : Type} (m : Reader A) : Prop :=
  forall toks, Forall token_ok toks -> m toks <> Crashed.

(** A table size [make] refuses for elements of [size] bytes. *)
Definition bad_size (size n : Z) : Prop :=
  n < -1 \/ maxAlloc < size * (n + 1).

(** The state LoadGameData returns for the sample data file. *)
Definition sample_loaded : GameState :=
  mkGameState (mkGameHeader 0 2 1 3 2 2 1 1 3 125 2 2 416 1)
    [ mkRoom [0; 0; 0; 0; 0; 0] ""; mkRoom [2; 0; 0; 0; 0; 0] "forest";
      mkRoom [0; 1; 0; 0; 0; 0]
        ("*I'm in a sunny" +:+ nl +:+ "meadow // with flowers") ]
    [ mkItem "" 0 0 ""; mkItem "Rusty axe" 1 1 "AXE";
      mkItem "*GOLD COIN*" 2 2 "" ]
    [ mkAction 5 0 [0; 0; 0; 0; 0] [10950; 0];
      mkAction 0 0 [64; 0; 0; 0; 0] [450; 0] ]
    [ mkWord "AUT" false "verb"; mkWord "ANY" false "verb";
      mkWord "GO" false "noun"; mkWord "NORTH" false "noun";
      mkWord "WALK" true "noun"; mkWord "SOUTH" false "noun";
      mkWord "GET" false "noun" ]
    [ ""; "A fires."; "B fires." ] [ "chop"; "wander" ]
    1 [0; 1; 2] 0 0 [0; 0; 0; 0; 0; 0; 0; 0; 125] [0; 0; 0; 0; 0; 0]
    false false false 0.

(** ** Text of the player's commands

    Commands and vocabulary are ASCII text.  On ASCII text
    strings.ToUpper, strings.Fields and strings.EqualFold work byte by
    byte, as defined here; the statements about commands assume input,
    vocabulary and item names to be ASCII ([ascii_text]). *)

Definition ascii_byte (c : ascii) : bool := (N_of_ascii c <? 128)%N.

Fixpoint ascii_text (s : string) : bool :=
  match s with
  | EmptyString => true
  | String c rest => ascii_byte c && ascii_text rest
  end.

Definition upper_byte (c : ascii) : ascii :=
  let n := N_of_ascii c in
  if ((97 <=? n) && (n <=? 122))%N then ascii_of_N (n - 32) else c.

(** [strings.ToUpper(s)]. *)
Fixpoint ToUpper (s : string) : string :=
  match s with
  | EmptyString => EmptyString
  | String c rest => String (upper_byte c) (ToUpper rest)
  end.

(** [strings.Fields(s)], [current] being the field under way. *)
Fixpoint fields_loop (s : string) (current : string) : list string :=
  match s with
  | EmptyString => flush [] current
  | String c rest =>
      if is_space c then flush [] current ++ fields_loop rest EmptyString
      else fields_loop rest (WriteByte current c)
  end.

Definition Fields (s : string) : list string := fields_loop s EmptyString.

(** [strings.EqualFold(s, t)]. *)
Definition EqualFold (s t : string) : bool :=
  String.eqb (ToUpper s) (ToUpper t).

(** [strings.Contains(s, substr)]. *)
Fixpoint Contains (s substr : string) : bool :=
  HasPrefix s substr
  || match s with
     | String _ rest => Contains rest substr
     | EmptyString => false
     end.

(** [if len(word) > n { word = word[:n] }]; [None] is the panic of the
    slice expression for a negative [n]. *)
Definition truncate (word : string) (n : Z) : option string :=
  if n <? Z.of_nat (String.length word) then
    if n <? 0 then None else Some (substring 0 (Z.to_nat n) word)
  else Some word.

Definition set_Debug (v : bool) (s : GameState) : GameState :=
  mkGameState (Header s) (Rooms s) (Items s) (Actions s) (Words s)
    (Messages s) (ActionTitles s) (CurrentRoom s) (ItemLocations s)
    (BitFlags s) (Counter s) (AltCounters s) (AltRooms s) (ContinueFlag s)
    (DisplayedRoom s) v (CurrentAction s).

(** [fmt]'s [%v] of a bool. *)
Definition format_bool (b : bool) : string := if b then "true" else "false".

(** ** Vocabulary *)

(** The direction nouns of GetWordNumber and ParseCommand. *)
Definition direction_nouns : list (string * Z) :=
  [ ("NORTH", 1); ("SOUTH", 2); ("EAST", 3); ("WEST", 4); ("UP", 5);
    ("DOWN", 6); ("N", 1); ("S", 2); ("E", 3); ("W", 4); ("U", 5); ("D", 6) ].

(** A loop [for i, w := range state.Words] that returns at the first word
    passing [test]; [i] is the index of the head of [words]. *)
Fixpoint find_word (test : Word -> bool) (i : Z) (words : list Word)
  : option (Z * Word) :=
  match words with
  | [] => None
  | w :: rest => if test w then Some (i, w) else find_word test (i + 1) rest
  end.

(** The inner loop [for j := i - 1; j >= 0; j--] over the words before
    a synonym, nearest first; [j] is the index of the head of
    [before]. *)
Fixpoint find_base (wordType : string) (j : Z) (before : list Word)
  : option Z :=
  match before with
  | [] => None
  | w :: rest =>
      if negb (IsSynonym w) && String.eqb (WordType w) wordType then Some j
      else find_base wordType (j - 1) rest
  end.

(** A loop over the words that, at each synonym passing [test], looks
    for the word it stands for; [before] holds the words already passed,
    nearest first. *)
Fixpoint find_synonym (test : Word -> bool) (wordType : string) (i : Z)
    (before words : list Word) : option Z :=
  match words with
  | [] => None
  | w :: rest =>
      match (if test w then find_base wordType (i - 1) before else None) with
      | Some j => Some j
      | None => find_synonym test wordType (i + 1) (w :: before) rest
      end
  end.

Definition GetWordNumber (word wordType : string) : M Z :=
  s <- get ;;
  word <- must (truncate word (WordLength (Header s))) ;;
  match (if String.eqb wordType "noun" then assoc word direction_nouns
         else None) with
  | Some index => ret index
  | None =>
  match find_word (fun w => negb (IsSynonym w)
                            && String.eqb (WordType w) wordType
                            && EqualFold (WordText w) word) 0 (Words s) with
  | Some (i, w) =>
      when (Debug s)
        (fmt_Print ("[DEBUG] Exact word match: '" +:+ word +:+ "' -> "
                    +:+ format_int i +:+ " ('" +:+ WordText w +:+ "')"
                    +:+ nl)) ;;
      ret i
  | None =>
  match find_word (fun w => negb (IsSynonym w)
                            && String.eqb (WordType w) wordType
                            && HasPrefix (ToUpper (WordText w)) word)
          0 (Words s) with
  | Some (i, w) =>
      when (Debug s)
        (fmt_Print ("[DEBUG] Prefix word match: '" +:+ word +:+ "' -> "
                    +:+ format_int i +:+ " ('" +:+ WordText w +:+ "')"
                    +:+ nl)) ;;
      ret i
  | None =>
  match find_synonym (fun w => IsSynonym w
                               && String.eqb (WordType w) wordType
                               && EqualFold (WordText w) word)
          wordType 0 [] (Words s) with
  | Some j =>
      when (Debug s)
        (fmt_Print ("[DEBUG] Synonym exact match: '" +:+ word +:+ "' -> "
                    +:+ format_int j +:+ nl)) ;;
      ret j
  | None =>
  match find_synonym (fun w => IsSynonym w
                               && String.eqb (WordType w) wordType
                               && HasPrefix (ToUpper (WordText w)) word)
          wordType 0 [] (Words s) with
  | Some j =>
      when (Debug s)
        (fmt_Print ("[DEBUG] Synonym prefix match: '" +:+ word +:+ "' -> "
                    +:+ format_int j +:+ nl)) ;;
      ret j
  | None =>
      when (Debug s)
        (fmt_Print ("[DEBUG] No match for word: '" +:+ word +:+ "' (type: "
                    +:+ wordType +:+ ")" +:+ nl)) ;;
      ret 0
  end end end end end.

Definition ParseCommand (words : list string) : M (Z * Z) :=
  verb <- (match words with
           | word0 :: _ => GetWordNumber word0 "verb"
           | [] => ret 0
           end) ;;
  noun <- (match words with
           | _ :: word1 :: _ => GetWordNumber word1 "noun"
           | _ => ret 0
           end) ;;
  match words with
  | _ :: word1 :: _ =>
      if verb =? 1 then
        match assoc word1 direction_nouns with
        | Some dirIndex =>
            s <- get ;;
            when (Debug s)
              (fmt_Print ("[DEBUG] GO direction mapped: " +:+ word1 +:+ " -> "
                          +:+ format_int dirIndex +:+ nl)) ;;
            ret (verb, dirIndex)
        | None => ret (verb, noun)
        end
      else ret (verb, noun)
  | _ => ret (verb, noun)
  end.

(** The name FindItemByName compares with: the AutoGet word, or else the
    last word of the description. *)
Definition item_name (item : Item) : string :=
  ToUpper
    (if negb (String.eqb (AutoGet item) EmptyString) then AutoGet item
     else
       match last (Fields (Description item)) with
       | Some part => part
       | None => Description item
       end).

(** The loop of FindItemByName; [i] is the index of the head of
    [items]. *)
Fixpoint find_item (name : string) (i : Z) (items : list Item)
  : option (Z * bool * string) :=
  match items with
  | [] => None
  | item :: rest =>
      if i =? 0 then find_item name (i + 1) rest
      else if HasPrefix (item_name item) name || Contains (item_name item) name
      then Some (i, false, item_name item)
      else if String.eqb name "MUD"
              && Contains (ToUpper (Description item)) "MUD"
      then Some (i, true, item_name item)
      else find_item name (i + 1) rest
  end.

Definition FindItemByName (name : string) : M Z :=
  s <- get ;;
  name <- must (truncate (ToUpper name) (WordLength (Header s))) ;;
  match find_item name 0 (Items s) with
  | Some (i, false, itemName) =>
      when (Debug s)
        (fmt_Print ("[DEBUG] Found item match: '" +:+ name +:+ "' -> item "
                    +:+ format_int i +:+ " (" +:+ itemName +:+ ")" +:+ nl)) ;;
      ret i
  | Some (i, true, _) =>
      when (Debug s)
        (fmt_Print ("[DEBUG] Found mud special case: item " +:+ format_int i
                    +:+ nl)) ;;
      ret i
  | None =>
      when (Debug s)
        (fmt_Print ("[DEBUG] No item match for: '" +:+ name +:+ "'" +:+ nl)) ;;
      ret 0
  end.

(** ** The player's command *)

Definition DisplayHelp : M unit :=
  fmt_Println "Commands you can use:" ;;
  fmt_Println "- Direction commands: NORTH (N), SOUTH (S), EAST (E), WEST (W), UP (U), DOWN (D)" ;;
  fmt_Println "- GET/TAKE [item]: Pick up an item" ;;
  fmt_Println "- DROP [item]: Drop an item you're carrying" ;;
  fmt_Println "- INVENTORY/I: See what you're carrying" ;;
  fmt_Println "- LOOK: Look around again" ;;
  fmt_Println "- SCORE: See your current score" ;;
  fmt_Println "- SAVE/LOAD: Save or load your game" ;;
  fmt_Println "- QUIT: End the game".

(** The single-letter shortcuts of the first word. *)
Definition direction_shortcut (word : string) : string :=
  if (String.length word =? 1)%nat then
    if String.eqb word "N" then "NORTH"
    else if String.eqb word "S" then "SOUTH"
    else if String.eqb word "E" then "EAST"
    else if String.eqb word "W" then "WEST"
    else if String.eqb word "U" then "UP"
    else if String.eqb word "D" then "DOWN"
    else word
  else word.

(** The direction words of a bare direction command. *)
Definition direction_words : list (string * Z) :=
  [ ("NORTH", 0); ("SOUTH", 1); ("EAST", 2); ("WEST", 3); ("UP", 4);
    ("DOWN", 5) ].

(** The direction words after GO. *)
Definition go_direction_words : list (string * Z) :=
  direction_words
  ++ [ ("N", 0); ("S", 1); ("E", 2); ("W", 3); ("U", 4); ("D", 5) ].

(** The part of ProcessCommand that goes through the vocabulary. *)
Definition process_parsed (words : list string) : M unit :=
  parsed <- ParseCommand words ;;
  let (verb, noun) := (parsed : Z * Z) in
  s <- get ;;
  when (Debug s)
    (fmt_Print ("[DEBUG] Verb: " +:+ format_int verb +:+ ", Noun: "
                +:+ format_int noun +:+ nl)) ;;
  if (verb =? 1) && (1 <=? noun) && (noun <=? 6) then
    when (Debug s)
      (fmt_Print ("[DEBUG] GO direction via action system: direction "
                  +:+ format_int (noun - 1) +:+ nl)) ;;
    MovePlayer (noun - 1)
  else if (verb =? 10) && (0 <? noun) then
    when (Debug s)
      (fmt_Print ("[DEBUG] GET item via action system: item "
                  +:+ format_int noun +:+ nl)) ;;
    GetItem noun
  else if (verb =? 18) && (0 <? noun) then
    when (Debug s)
      (fmt_Print ("[DEBUG] DROP item via action system: item "
                  +:+ format_int noun +:+ nl)) ;;
    DropItem noun
  else ProcessActionsWithVerb verb noun.

(** The special cases GET/TAKE + item and DROP + item, then the
    vocabulary. *)
Definition process_items (words : list string) : M unit :=
  match words with
  | word0 :: word1 :: _ =>
      taken <- (if EqualFold word0 "GET" || EqualFold word0 "TAKE" then
                  itemIndex <- FindItemByName word1 ;;
                  if 0 <? itemIndex then
                    s <- get ;;
                    when (Debug s)
                      (fmt_Print ("[DEBUG] Direct GET command for item "
                                  +:+ format_int itemIndex +:+ " (" +:+ word1
                                  +:+ ")" +:+ nl)) ;;
                    GetItem itemIndex ;;
                    ret true
                  else ret false
                else ret false) ;;
      if (taken : bool) then ret tt
      else
        dropped <- (if EqualFold word0 "DROP" then
                      itemIndex <- FindItemByName word1 ;;
                      if 0 <? itemIndex then
                        s <- get ;;
                        when (Debug s)
                          (fmt_Print ("[DEBUG] Direct DROP command for item "
                                      +:+ format_int itemIndex +:+ " ("
                                      +:+ word1 +:+ ")" +:+ nl)) ;;
                        DropItem itemIndex ;;
                        ret true
                      else ret false
                    else ret false) ;;
        if (dropped : bool) then ret tt else process_parsed words
  | _ => process_parsed words
  end.

Definition ProcessCommand (command : string) : M unit :=
  let command := ToUpper command in
  match Fields command with
  | [] => ret tt
  | word0 :: others =>
      let word0 := direction_shortcut word0 in
      let words := word0 :: others in
      if String.eqb word0 "I" || String.eqb word0 "INV"
         || String.eqb word0 "INVENTORY" then DisplayInventory
      else if String.eqb word0 "LOOK" then modify (set_DisplayedRoom false)
      else if String.eqb word0 "SAVE" then SaveGame
      else if String.eqb word0 "LOAD"
              || match others with
                 | word1 :: _ =>
                     String.eqb word0 "RESTORE" && String.eqb word1 "GAME"
                 | [] => false
                 end then LoadGame
      else if String.eqb word0 "SCORE" then DisplayScore
      else if String.eqb word0 "DEBUG" then
        s <- get ;;
        modify (set_Debug (negb (Debug s))) ;;
        fmt_Print ("Debug mode: " +:+ format_bool (negb (Debug s)) +:+ nl)
      else if String.eqb word0 "HELP" then DisplayHelp
      else
        match assoc word0 direction_words with
        | Some dir => MovePlayer dir
        | None =>
            match (if EqualFold word0 "GO" then
                     match others with
                     | word1 :: _ =>
                         match assoc word1 go_direction_words with
                         | Some dir => Some (word1, dir)
                         | None => None
                         end
                     | [] => None
                     end
                   else None) with
            | Some (word1, dir) =>
                s <- get ;;
                when (Debug s)
                  (fmt_Print ("[DEBUG] Direct GO command: " +:+ word1
                              +:+ " -> direction " +:+ format_int dir +:+ nl)) ;;
                MovePlayer dir
            | None => process_items words
            end
        end
  end.

(** ** The main loop *)

(** RunGame, which need not terminate: [fuel] bounds the number of turns
    and of passes over the automatic actions, and the result tells
    whether the loop ended (the player typed QUIT) within them.  The
    terminal delivers one line per read. *)
Fixpoint RunGame (fuel : nat) : M bool :=
  match fuel with
  | O => ret false
  | S fuel' =>
      ended <- ProcessAutomaticActions fuel' ;;
      if negb ended then ret false
      else
        s <- get ;;
        (if negb (DisplayedRoom s) then
           DisplayCurrentLocation ;;
           modify (set_DisplayedRoom true)
         else ret tt) ;;
        fmt_Print "> " ;;
        input <- ReadLine ;;
        let input := TrimSpace input in
        modify (set_DisplayedRoom false) ;;
        if String.eqb (ToUpper input) "QUIT" then
          fmt_Println "Thanks for playing!" ;;
          ret true
        else
          ProcessCommand input ;;
          UpdateLightSource ;;
          RunGame fuel'
  end.

(** ** What a turn leaves alone *)

(** The tables of the adventure: what is read from the data file and
    never written afterwards. *)
Definition same_tables (s s' : GameState) : Prop :=
  Header s' = Header s /\ Rooms s' = Rooms s /\ Items s' = Items s
  /\ Actions s' = Actions s /\ Words s' = Words s
  /\ Messages s' = Messages s /\ ActionTitles s' = ActionTitles s.

(** Between a state and world and those a function of the interpreter
    returns: a room due to be displayed is still due, a standard input
    at its end is still at its end, and the tables are the same. *)
Definition quiet (s : GameState) (w : World) (s' : GameState) (w' : World)
  : Prop :=
  (DisplayedRoom s = false -> DisplayedRoom s' = false)
  /\ (stdin w = [] -> stdin w' = [])
  /\ same_tables s s'.

(** A function all of whose returns are quiet. *)
Definition quiet_run {A : Type} (m : M A) : Prop :=
  forall s w a s' w', m s w = Ok a s' w' -> quiet s w s' w'.

(** RunGame without the test of DisplayedRoom: the room is displayed at
    every turn. *)
Fixpoint RunGame_showing_every_turn (fuel : nat) : M bool :=
  match fuel with
  | O => ret false
  | S fuel' =>
      ended <- ProcessAutomaticActions fuel' ;;
      if negb ended then ret false
      else
        DisplayCurrentLocation ;;
        modify (set_DisplayedRoom true) ;;
        fmt_Print "> " ;;
        input <- ReadLine ;;
        let input := TrimSpace input in
        modify (set_DisplayedRoom false) ;;
        if String.eqb (ToUpper input) "QUIT" then
          fmt_Println "Thanks for playing!" ;;
          ret true
        else
          ProcessCommand input ;;
          UpdateLightSource ;;
          RunGame_showing_every_turn fuel'
  end.

(** A world whose standard input is at its end. *)
Definition closed_world : World := mkWorld [] [] [] [] (fun _ => 0) 0.

(** A command of white space only. *)
Fixpoint blank (s : string) : bool :=
  match s with
  | EmptyString => true
  | String c rest => is_space c && blank rest
  end.

(** ** The invariant of a whole session *)

(** Every exit of every room is a Go int. *)
Definition rooms_in_range (s : GameState) : Prop :=
  Forall (fun room => Forall is_int64 (Exits room)) (Rooms s).

(** A function that, started in a state of the adventure of [s0] that
    satisfies the invariant of the engine, returns in such a state. *)
Definition keeps (s0 : GameState) {A : Type} (m : M A) : Prop :=
  forall s w a s' w',
    state_ok s -> same_tables s0 s -> m s w = Ok a s' w' ->
    state_ok s' /\ same_tables s0 s'.

(** The sample data file with the word length -1 in its header. *)
Definition negative_length_content : string :=
  one_per_line (<[8%nat := "-1"]> sample_tokens).

(** ** Actions the built-in handling shadows *)

(** A verb and noun that ProcessCommand handles itself: GO with a
    direction noun, GET or DROP with a noun. *)
Definition shadowed_pair (verb noun : Z) : bool :=
  (verb =? 1) && (1 <=? noun) && (noun <=? 6)
  || ((verb =? 10) || (verb =? 18)) && (0 <? noun).

(** An action for such a verb and noun. *)
Definition shadowed (a : Action) : bool := shadowed_pair (Verb a) (Noun a).

(** Two action tables that differ in shadowed actions only. *)
Definition same_but_shadowed (acts acts' : list Action) : Prop :=
  Forall2 (fun a a' => a = a' \/ (shadowed a = true /\ shadowed a' = true))
    acts acts'.

(** A function run with the action table replaced by [acts] gives the
    result of the function itself, with the table replaced afterwards. *)
Definition framed {A : Type} (acts : list Action) (m : M A) (s : GameState)
    (w : World) : Prop :=
  m (set_Actions acts s) w = map_state (set_Actions acts) (m s w).

(** The sample adventure with a vocabulary in which GET is verb 10 and
    XYZZY noun 9, and with [row] put before its actions. *)
Definition shadow_words : list Word :=
  map (fun text => mkWord text false "verb")
    [ "AUT"; "GO"; "V2"; "V3"; "V4"; "V5"; "V6"; "V7"; "V8" ]
  ++ [ mkWord "XYZZY" false "noun"; mkWord "GET" false "verb" ].

Definition shadow_state (row : Action) : GameState :=
  initial_state sample_header (Rooms sample_state) sample_items
    (row :: sample_actions) shadow_words (Messages sample_state) [].

(** ** Stored treasures *)

(** Item [i] is a stored treasure: it lies in the treasure room and its
    description contains a star. *)
Definition stored_treasure (s : GameState) (i : Z) : bool :=
  match index (ItemLocations s) i, index (Items s) i with
  | Some loc, Some item =>
      (loc =? TreasureRoom (Header s)) && contains_star (Description item)
  | _, _ => false
  end.

(** The number of stored treasures among the items 0 to NumItems. *)
Definition stored_treasures (s : GameState) : Z :=
  Z.of_nat (length (List.filter (stored_treasure s)
                      (seqZ 0 (NumItems (Header s) + 1)))).

(** * Properties *)

(** ** Basic facts *)

Lemma bind_get {B : Type} (k : GameState -> M B) s w :
  bind get k s w = k s s w.
Proof. reflexivity. Qed.

(** ** Built-in GET and DROP *)

Lemma invalid_item_true s n :
  n <= 0 \/ NumItems (Header s) < n -> invalid_item s n = true.
Proof.
  intros H. unfold invalid_item.
  destruct (Z.leb_spec n 0); [reflexivity|].
  destruct (Z.ltb_spec (NumItems (Header s)) n); [reflexivity|lia].
Qed.

(** Claim C10.  For every item number that is at most 0 or greater than
    NumItems, GetItem and DropItem reject the request before they touch
    the item table: each prints its failure message and returns with the
    GameState unchanged, so neither slot 0 nor an index past the table
    can be picked up or dropped. *)
Theorem GetItem_DropItem_reject_invalid_index :
  forall (s : GameState) (w : World) (itemNumber : Z),
    itemNumber <= 0 \/ NumItems (Header s) < itemNumber ->
    GetItem itemNumber s w
      = Ok tt s (printed ["I don't see that here." +:+ nl] w)
    /\ DropItem itemNumber s w
      = Ok tt s (printed ["I don't have that." +:+ nl] w).
Proof.
  intros s w n H. apply invalid_item_true in H. unfold invalid_item in H.
  unfold GetItem, DropItem. run_monad. rewrite H. split; reflexivity.
Qed.

(** The theorem at item 0 (GET) and item 11 (DROP) of the sample
    adventure, which has items 0..10. *)
Lemma GetItem_DropItem_reject_invalid_index_witness :
  GetItem 0 sample_state sample_world
    = Ok tt sample_state (printed ["I don't see that here." +:+ nl] sample_world)
  /\ DropItem 11 sample_state sample_world
    = Ok tt sample_state (printed ["I don't have that." +:+ nl] sample_world).
Proof.
  split.
  - apply (GetItem_DropItem_reject_invalid_index sample_state sample_world 0).
    left. lia.
  - apply (GetItem_DropItem_reject_invalid_index sample_state sample_world 11).
    right. simpl. lia.
Defined.

Lemma index_is_Some {A : Type} (l : list A) (i : Z) :
  0 <= i < Z.of_nat (length l) -> exists v, index l i = Some v.
Proof.
  intros H. unfold index.
  destruct (Z.ltb_spec i 0) as [Hneg|Hpos]; [lia|].
  destruct (lookup_lt_is_Some_2 l (Z.to_nat i)) as [v Hv]; [lia|].
  exists v. exact Hv.
Qed.

Lemma index_Some_range {A : Type} (l : list A) (i : Z) (v : A) :
  index l i = Some v -> 0 <= i < Z.of_nat (length l).
Proof.
  unfold index. destruct (Z.ltb_spec i 0) as [Hneg|Hpos]; [discriminate|].
  intros H. apply lookup_lt_Some in H. lia.
Qed.

(** Claim C8.  When the number of carried items equals MaxCarry, a GET
    of an item that lies in the current room fails: GetItem prints one
    failure message and leaves the whole GameState, the item's location
    included, unchanged.  In every well-formed state a DROP of an item
    that is not carried fails: DropItem prints "I don't have that."
    (followed by a debug line in debug mode) and leaves the GameState
    unchanged. *)
Theorem GetItem_at_capacity_and_DropItem_uncarried_fail :
  forall (s : GameState) (w : World) (itemNumber : Z),
    (carried_items s = MaxCarry (Header s) ->
     index (ItemLocations s) itemNumber = Some (CurrentRoom s) ->
     GetItem itemNumber s w
       = Ok tt s
           (printed [(if invalid_item s itemNumber
                      then "I don't see that here."
                      else "I'm carrying too much already.") +:+ nl] w))
    /\ (wf s ->
        index (ItemLocations s) itemNumber <> Some CARRIED ->
        exists dbg : list string,
          DropItem itemNumber s w
            = Ok tt s (printed (("I don't have that." +:+ nl) :: dbg) w)
          /\ (Debug s = false -> dbg = [])).
Proof.
  intros s w n. split.
  - intros Hfull Hloc. unfold GetItem, invalid_item. run_monad.
    destruct ((n <=? 0) || (NumItems (Header s) <? n)); [reflexivity|].
    rewrite Hloc. run_monad. rewrite Z.eqb_refl. cbn [negb].
    rewrite Hfull, Z.leb_refl. reflexivity.
  - intros Hwf Hloc. unfold DropItem. run_monad.
    destruct (Z.leb_spec n 0) as [Hle|Hpos]; cbn [orb].
    { exists []. split; reflexivity. }
    destruct (Z.ltb_spec (NumItems (Header s)) n) as [Hgt|Hin].
    { exists []. split; reflexivity. }
    destruct (index_is_Some (ItemLocations s) n) as [loc Hn].
    { rewrite (wf_locations s Hwf). lia. }
    rewrite Hn in *. run_monad.
    destruct (Z.eqb_spec loc CARRIED) as [->|Hne]; [congruence|].
    cbn [negb]. destruct (Debug s); cbn beta iota.
    + exists ["[DEBUG] Item " +:+ format_int n
              +:+ " is not carried, it's in room " +:+ format_int loc +:+ nl].
      split; [|discriminate].
      unfold printed, set_stdout. cbn [stdout stdin files unwritable random drawn].
      rewrite <- app_assoc. reflexivity.
    + exists []. split; reflexivity.
Qed.

Lemma sample_state_wf : wf sample_state.
Proof.
  split; try reflexivity.
  repeat constructor.
Qed.

(** The theorem in the sample adventure: two items are carried and
    MaxCarry is 2, item 1 lies in the current room, item 2 is not
    carried. *)
Lemma GetItem_at_capacity_and_DropItem_uncarried_fail_witness :
  GetItem 1 sample_state sample_world
    = Ok tt sample_state
        (printed ["I'm carrying too much already." +:+ nl] sample_world)
  /\ exists dbg : list string,
       DropItem 2 sample_state sample_world
         = Ok tt sample_state
             (printed (("I don't have that." +:+ nl) :: dbg) sample_world)
       /\ (Debug sample_state = false -> dbg = []).
Proof.
  destruct (GetItem_at_capacity_and_DropItem_uncarried_fail
              sample_state sample_world 1) as [Hget _].
  destruct (GetItem_at_capacity_and_DropItem_uncarried_fail
              sample_state sample_world 2) as [_ Hdrop].
  split.
  - apply Hget; reflexivity.
  - apply Hdrop; [exact sample_state_wf | discriminate].
Defined.

(** ** Parameter fetch and message opcodes *)

Lemma wf_action s a i :
  wf s -> index (Actions s) i = Some a ->
  length (Conditions a) = 5%nat /\ length (Commands a) = 2%nat.
Proof.
  intros Hwf Ha. unfold index in Ha.
  destruct (i <? 0); [discriminate|].
  pose proof (wf_actions s Hwf) as Hall.
  rewrite Forall_lookup in Hall. exact (Hall _ _ Ha).
Qed.

Lemma condition_parameter_ok s w slot :
  wf s -> current_action_ok s -> 0 <= slot < 5 ->
  exists a c,
    index (Actions s) (CurrentAction s) = Some a
    /\ index (Conditions a) slot = Some c
    /\ condition_parameter slot s w = Ok (Z.quot c 20) s w.
Proof.
  intros Hwf Hcur Hslot.
  destruct (index_is_Some (Actions s) (CurrentAction s) Hcur) as [a Ha].
  destruct (wf_action s a _ Hwf Ha) as [Hc _].
  destruct (index_is_Some (Conditions a) slot) as [c Hcs]; [lia|].
  exists a, c. split; [exact Ha|]. split; [exact Hcs|].
  unfold condition_parameter. run_monad. rewrite Ha. run_monad.
  rewrite Hcs. reflexivity.
Qed.

Lemma fetch_parameter_ok s w pos :
  wf s -> current_action_ok s -> 0 <= pos ->
  exists p, fetch_parameter pos s w = Ok p s w.
Proof.
  intros Hwf Hcur Hpos. unfold fetch_parameter.
  destruct (Z.ltb_spec pos 5).
  - destruct (condition_parameter_ok s w pos Hwf Hcur) as (a & c & _ & _ & H');
      [lia|]. eauto.
  - eexists. reflexivity.
Qed.

(** Claim C9, amended.  For every opcode [cmd] with 1 <= cmd <= 51 whose
    message exists, execution prints message [cmd], and for every opcode
    with 102 <= cmd <= 149 whose message exists it prints message
    [cmd - 50]; in both ranges the GameState is unchanged.  Opcodes 150
    and 151 print nothing and change nothing. *)
Theorem message_opcodes_are_pure_output :
  forall (s : GameState) (w : World) (cmd cmdPosition : Z),
    wf s -> current_action_ok s -> 0 <= cmdPosition ->
    (forall msg, 1 <= cmd <= 51 -> index (Messages s) cmd = Some msg ->
       ExecuteCommand cmd cmdPosition s w = Ok tt s (printed [msg +:+ nl] w))
    /\ (forall msg, 102 <= cmd <= 149 ->
        index (Messages s) (cmd - 50) = Some msg ->
        ExecuteCommand cmd cmdPosition s w = Ok tt s (printed [msg +:+ nl] w))
    /\ (150 <= cmd <= 151 -> ExecuteCommand cmd cmdPosition s w = Ok tt s w).
Proof.
  intros s w cmd pos Hwf Hcur Hpos.
  destruct (fetch_parameter_ok s w pos Hwf Hcur Hpos) as [p Hp].
  repeat split.
  - intros msg Hcmd Hmsg. unfold ExecuteCommand. unfold bind at 1.
    rewrite Hp. run_monad.
    destruct (Z.leb_spec 1 cmd); [|lia].
    destruct (Z.leb_spec cmd 51); [|lia].
    cbn [andb]. rewrite Hmsg. reflexivity.
  - intros msg Hcmd Hmsg. unfold ExecuteCommand. unfold bind at 1.
    rewrite Hp. run_monad.
    destruct (Z.leb_spec cmd 51); [lia|]. rewrite andb_false_r.
    destruct (Z.leb_spec 102 cmd); [|lia].
    destruct (Z.leb_spec cmd 149); [|lia].
    cbn [andb]. rewrite Hmsg. reflexivity.
  - intros Hcmd. unfold ExecuteCommand. unfold bind at 1.
    rewrite Hp. run_monad.
    assert (cmd = 150 \/ cmd = 151) as [-> | ->] by lia; reflexivity.
Qed.

Lemma sample_state_current_action_ok : current_action_ok sample_state.
Proof. unfold current_action_ok. simpl. lia. Qed.

(** The theorem at opcodes 2 and 150 in the sample adventure. *)
Lemma message_opcodes_are_pure_output_witness :
  ExecuteCommand 2 0 sample_state sample_world
    = Ok tt sample_state (printed ["C fires." +:+ nl] sample_world)
  /\ ExecuteCommand 150 0 sample_state sample_world
    = Ok tt sample_state sample_world.
Proof.
  destruct (message_opcodes_are_pure_output sample_state sample_world 2 0
              sample_state_wf sample_state_current_action_ok)
    as (Hlow & _ & _); [lia|].
  destruct (message_opcodes_are_pure_output sample_state sample_world 150 0
              sample_state_wf sample_state_current_action_ok)
    as (_ & _ & Hnone); [lia|].
  split.
  - apply Hlow; [lia | reflexivity].
  - apply Hnone. lia.
Defined.

(** Claim C9, counterexample.  Opcode 150 lies in 102..151 and message
    150 - 50 exists, yet executing the opcode prints nothing. *)
Lemma opcode_150_displays_nothing :
  102 <= 150 <= 151
  /\ index (Messages long_messages_state) (150 - 50) = Some "A voice booms."
  /\ ExecuteCommand 150 0 long_messages_state sample_world
     = Ok tt long_messages_state sample_world
  /\ ExecuteCommand 150 0 long_messages_state sample_world
     <> Ok tt long_messages_state
          (printed ["A voice booms." +:+ nl] sample_world).
Proof.
  split; [lia|]. split; [reflexivity|]. split; [reflexivity|].
  intros H.
  apply (f_equal (fun r => match r with
                           | Ok _ _ w => length (stdout w)
                           | _ => 0%nat
                           end)) in H.
  vm_compute in H. discriminate.
Qed.

(** ** Light source *)

Lemma wrap64_id z : is_int64 z -> wrap64 z = z.
Proof.
  unfold is_int64, minInt64, maxInt64, wrap64. intros H.
  rewrite Z.mod_small; lia.
Qed.

Lemma store_Some {A : Type} (l : list A) (i : Z) (v : A) :
  0 <= i < Z.of_nat (length l) ->
  store l i v = Some (<[Z.to_nat i := v]> l).
Proof.
  intros H. unfold store.
  destruct (Z.leb_spec 0 i); [|lia].
  destruct (Z.ltb_spec i (Z.of_nat (length l))); [|lia]. reflexivity.
Qed.

Lemma flag_set_lor s p :
  0 <= p < 32 ->
  flag_set (set_BitFlags (Z.lor (BitFlags s) (bit32 p)) s) p = true.
Proof.
  intros Hp. unfold flag_set. cbn [BitFlags set_BitFlags].
  assert (Hm : Z.land (Z.lor (BitFlags s) (bit32 p)) (bit32 p) = bit32 p).
  { apply Z.bits_inj'. intros n _. rewrite Z.land_spec, Z.lor_spec.
    destruct (Z.testbit (BitFlags s) n), (Z.testbit (bit32 p) n); reflexivity. }
  rewrite Hm. unfold bit32.
  destruct (Z.leb_spec 0 p); [|lia]. destruct (Z.ltb_spec p 32); [|lia].
  cbn [andb]. rewrite Z.shiftl_1_l.
  destruct (Z.eqb_spec (2 ^ p) 0) as [E|E]; [|reflexivity].
  pose proof (Z.pow_pos_nonneg 2 p). lia.
Qed.

Lemma IsDark_carried s :
  index (ItemLocations s) LIGHT_SOURCE = Some CARRIED -> IsDark s = Some false.
Proof.
  intros H. unfold IsDark. rewrite H. destruct (flag_set s DARKBIT); reflexivity.
Qed.

Lemma UpdateLightSource_carried s w light :
  wf s ->
  index (ItemLocations s) LIGHT_SOURCE = Some CARRIED ->
  index (AltCounters s) 8 = Some light ->
  UpdateLightSource s w
    = Ok tt (light_updated light s) (printed (light_warning light) w).
Proof.
  intros Hwf Hlamp Hlight.
  pose proof (index_Some_range _ _ _ Hlamp) as Hr9.
  pose proof (index_Some_range _ _ _ Hlight) as Hr8.
  unfold UpdateLightSource, light_updated, light_warning. run_monad.
  rewrite Hlamp. run_monad. change (CARRIED =? CARRIED) with true.
  cbn beta iota. rewrite (IsDark_carried s Hlamp). run_monad.
  cbn [negb]. rewrite Hlight. run_monad.
  rewrite (store_Some _ 8) by exact Hr8. run_monad.
  destruct (wrap64 (light - 1) <=? 0).
  - cbn [ItemLocations set_BitFlags set_AltCounters].
    rewrite (store_Some _ LIGHT_SOURCE) by exact Hr9. reflexivity.
  - destruct (wrap64 (light - 1) <=? 10).
    + reflexivity.
    + unfold printed. rewrite app_nil_r. destruct w; reflexivity.
Qed.

Lemma UpdateLightSource_not_carried s w loc :
  index (ItemLocations s) LIGHT_SOURCE = Some loc -> loc <> CARRIED ->
  UpdateLightSource s w = Ok tt s w.
Proof.
  intros Hlamp Hne. unfold UpdateLightSource. run_monad.
  rewrite Hlamp. run_monad.
  destruct (Z.eqb_spec loc CARRIED); [contradiction|reflexivity].
Qed.

Lemma index_insert_eq {A : Type} (l : list A) (i : nat) (v : A) :
  (i < length l)%nat -> index (<[i := v]> l) (Z.of_nat i) = Some v.
Proof.
  intros H. unfold index. destruct (Z.ltb_spec (Z.of_nat i) 0); [lia|].
  rewrite Nat2Z.id. apply list_lookup_insert_eq. exact H.
Qed.

Lemma light_updated_wf light s : wf s -> wf (light_updated light s).
Proof.
  intros [H1 H2 H3 H4 H5]. unfold light_updated.
  destruct (wrap64 (light - 1) <=? 0); split; cbn; rewrite ?length_insert;
    assumption.
Qed.

Lemma light_updated_counter light s :
  wf s -> index (AltCounters (light_updated light s)) 8
          = Some (wrap64 (light - 1)).
Proof.
  intros Hwf. pose proof (wf_counters s Hwf) as H9. unfold light_updated.
  destruct (wrap64 (light - 1) <=? 0); cbn [AltCounters set_AltCounters
    set_ItemLocations set_BitFlags];
    apply (index_insert_eq _ 8); lia.
Qed.

Lemma light_updated_flag light s :
  flag_set (light_updated light s) LIGHTOUTBIT
  = if wrap64 (light - 1) <=? 0 then true else flag_set s LIGHTOUTBIT.
Proof.
  unfold light_updated. destruct (wrap64 (light - 1) <=? 0); [|reflexivity].
  change (flag_set (set_BitFlags (Z.lor (BitFlags s) (bit32 LIGHTOUTBIT)) s)
            LIGHTOUTBIT = true).
  apply flag_set_lor. unfold LIGHTOUTBIT. lia.
Qed.

(** After [n <= 125] lit turns from a full counter of 125 the counter is
    [125 - n] and the flag is set exactly when [n = 125]. *)
Lemma lit_turns_invariant s n s' :
  wf s ->
  index (AltCounters s) 8 = Some 125 ->
  flag_set s LIGHTOUTBIT = false ->
  lit_turns n s s' ->
  (n <= 125)%nat ->
  wf s'
  /\ index (AltCounters s') 8 = Some (125 - Z.of_nat n)
  /\ flag_set s' LIGHTOUTBIT = (n =? 125)%nat.
Proof.
  intros Hwf Hlight Hflag Hrun. induction Hrun as [s|n s0 s1 s2 s3 w w' Hrun IH Hplay Hupd].
  - intros _. split; [assumption|]. split; [exact Hlight | exact Hflag].
  - intros Hn. destruct IH as (Hwf1 & Hl1 & Hf1); try assumption; [lia|].
    destruct Hplay as (Hwf2 & Hl2 & Hf2 & Hlamp).
    rewrite Hl1 in Hl2. rewrite Hf1 in Hf2.
    rewrite (UpdateLightSource_carried s2 w _ Hwf2 Hlamp Hl2) in Hupd.
    injection Hupd as <- _.
    assert (Hw : wrap64 (125 - Z.of_nat n - 1) = 125 - Z.of_nat (S n)).
    { rewrite wrap64_id; [lia|]. unfold is_int64, minInt64, maxInt64. lia. }
    split; [apply light_updated_wf; exact Hwf2|].
    split; [rewrite light_updated_counter by exact Hwf2; congruence|].
    rewrite light_updated_flag, Hw, Hf2.
    destruct (Nat.eqb_spec n 125); [lia|].
    destruct (Z.leb_spec (125 - Z.of_nat (S n)) 0);
      destruct (Nat.eqb_spec (S n) 125); try reflexivity; lia.
Qed.

(** On exhaustion the light source goes to room 0, and only it moves. *)
Lemma light_updated_destroyed light s loc :
  index (ItemLocations s) LIGHT_SOURCE = Some loc ->
  wrap64 (light - 1) <= 0 ->
  index (ItemLocations (light_updated light s)) LIGHT_SOURCE = Some DESTROYED
  /\ (forall i, i <> LIGHT_SOURCE ->
      index (ItemLocations (light_updated light s)) i
      = index (ItemLocations s) i).
Proof.
  intros Hloc Hle. pose proof (index_Some_range _ _ _ Hloc) as Hr.
  unfold LIGHT_SOURCE in *. unfold light_updated.
  destruct (Z.leb_spec (wrap64 (light - 1)) 0); [|lia].
  cbn [ItemLocations set_ItemLocations]. split.
  - apply (index_insert_eq _ 9). lia.
  - intros i Hi. unfold index. destruct (i <? 0); [reflexivity|].
    apply list_lookup_insert_ne. lia.
Qed.

Lemma light_updated_lamp light s :
  0 < wrap64 (light - 1) ->
  ItemLocations (light_updated light s) = ItemLocations s.
Proof.
  intros H. unfold light_updated.
  destruct (Z.leb_spec (wrap64 (light - 1)) 0); [lia|reflexivity].
Qed.

(** The 125th lit turn from a full counter of 125 puts the light source
    in room 0. *)
Lemma lit_turns_destroy_lamp s s' :
  wf s ->
  index (AltCounters s) 8 = Some 125 ->
  flag_set s LIGHTOUTBIT = false ->
  lit_turns 125 s s' ->
  index (ItemLocations s') LIGHT_SOURCE = Some DESTROYED.
Proof.
  intros Hwf Hlight Hflag Hrun.
  inversion Hrun as [|n s0 s1 s2 s3 w w' Hturns Hplay Hupd]; subst.
  destruct (lit_turns_invariant s 124 s1 Hwf Hlight Hflag Hturns ltac:(lia))
    as (_ & Hl1 & _).
  destruct Hplay as (Hwf2 & Hl2 & _ & Hlamp).
  rewrite Hl1 in Hl2.
  rewrite (UpdateLightSource_carried s2 w _ Hwf2 Hlamp Hl2) in Hupd.
  injection Hupd as <- _.
  apply (light_updated_destroyed _ s2 CARRIED Hlamp).
  vm_compute. discriminate.
Qed.

(** Claim C3, amended.  In a well-formed state the light update of a turn
    leaves everything unchanged when the light source (item 9) is not
    carried; when it is carried the light counter AltCounters[8] is
    decremented, whether or not the light-exhausted flag (bit 16) is
    set.  When the decremented counter is 0 or below, the flag is set,
    "Light has run out!" is printed and the light source is moved to
    room 0, every other item staying where it is; otherwise the flag
    keeps its value and no item moves.  Starting from a counter of 125
    with the flag clear and the light source carried on every turn, the
    counter is [125 - n] after [n] turns, the flag is set after exactly
    125 of them, never earlier, and the 125th puts the light source in
    room 0. *)
Theorem light_counter_depletion :
  forall (s : GameState) (w : World),
    wf s ->
    (forall loc,
        index (ItemLocations s) LIGHT_SOURCE = Some loc -> loc <> CARRIED ->
        UpdateLightSource s w = Ok tt s w)
    /\ (forall light,
        index (ItemLocations s) LIGHT_SOURCE = Some CARRIED ->
        index (AltCounters s) 8 = Some light ->
        exists s' w',
          UpdateLightSource s w = Ok tt s' w'
          /\ index (AltCounters s') 8 = Some (wrap64 (light - 1))
          /\ (wrap64 (light - 1) <= 0 ->
              flag_set s' LIGHTOUTBIT = true
              /\ w' = printed ["Light has run out!" +:+ nl] w
              /\ index (ItemLocations s') LIGHT_SOURCE = Some 0
              /\ (forall i, i <> LIGHT_SOURCE ->
                  index (ItemLocations s') i = index (ItemLocations s) i))
          /\ (0 < wrap64 (light - 1) ->
              flag_set s' LIGHTOUTBIT = flag_set s LIGHTOUTBIT
              /\ ItemLocations s' = ItemLocations s))
    /\ (forall n s',
        index (AltCounters s) 8 = Some 125 ->
        flag_set s LIGHTOUTBIT = false ->
        lit_turns n s s' ->
        (n <= 125)%nat ->
        index (AltCounters s') 8 = Some (125 - Z.of_nat n)
        /\ (flag_set s' LIGHTOUTBIT = true <-> n = 125%nat)
        /\ (n = 125%nat -> index (ItemLocations s') LIGHT_SOURCE = Some 0)).
Proof.
  intros s w Hwf. split; [|split].
  - intros loc Hloc Hne. exact (UpdateLightSource_not_carried s w loc Hloc Hne).
  - intros light Hlamp Hlight.
    exists (light_updated light s), (printed (light_warning light) w).
    split; [exact (UpdateLightSource_carried s w light Hwf Hlamp Hlight)|].
    split; [exact (light_updated_counter light s Hwf)|].
    rewrite light_updated_flag. unfold light_warning.
    destruct (Z.leb_spec (wrap64 (light - 1)) 0) as [Hle|Hgt]; split;
      intros; try lia.
    + split; [reflexivity|]. split; [reflexivity|].
      exact (light_updated_destroyed light s CARRIED Hlamp Hle).
    + split; [reflexivity|]. exact (light_updated_lamp light s Hgt).
  - intros n s' Hlight Hflag Hrun Hn.
    destruct (lit_turns_invariant s n s' Hwf Hlight Hflag Hrun Hn)
      as (_ & Hc & Hf).
    split; [exact Hc|]. split.
    + rewrite Hf. destruct (Nat.eqb_spec n 125); split; intros; congruence.
    + intros ->. exact (lit_turns_destroy_lamp s s' Hwf Hlight Hflag Hrun).
Qed.

(** Letting the light burn is a run of lit turns, and it returns. *)
Lemma light_turns_lit n s w :
  wf s ->
  index (ItemLocations s) LIGHT_SOURCE = Some CARRIED ->
  index (AltCounters s) 8 = Some 125 ->
  flag_set s LIGHTOUTBIT = false ->
  (n <= 125)%nat ->
  exists s' w',
    light_turns n s w = Ok tt s' w'
    /\ lit_turns n s s'
    /\ ((n < 125)%nat -> index (ItemLocations s') LIGHT_SOURCE = Some CARRIED).
Proof.
  intros Hwf Hlamp Hlight Hflag. induction n as [|n IH]; intros Hn.
  - exists s, w. split; [reflexivity|]. split; [constructor|]. intros _. exact Hlamp.
  - destruct IH as (s1 & w1 & Hrun & Hturns & Hlamp1); [lia|].
    specialize (Hlamp1 ltac:(lia)).
    destruct (lit_turns_invariant s n s1 Hwf Hlight Hflag Hturns ltac:(lia))
      as (Hwf1 & Hl1 & Hf1).
    pose proof (UpdateLightSource_carried s1 w1 _ Hwf1 Hlamp1 Hl1) as Hupd.
    eexists _, _. split; [|split].
    + cbn [light_turns]. unfold bind. rewrite Hrun. exact Hupd.
    + eapply lit_turns_S; [exact Hturns| |exact Hupd].
      split; [exact Hwf1|]. split; [reflexivity|]. split; [reflexivity|].
      exact Hlamp1.
    + intros Hlt. rewrite light_updated_lamp; [exact Hlamp1|].
      rewrite wrap64_id; [lia|]. unfold is_int64, minInt64, maxInt64. lia.
Qed.

Lemma lit_state_wf : wf lit_state.
Proof. split; try reflexivity. repeat constructor. Qed.

(** The theorem on the run of 125 turns that lets the light of the
    sample adventure burn down. *)
Lemma light_counter_depletion_witness :
  exists s' : GameState,
    lit_turns 125 lit_state s'
    /\ index (AltCounters s') 8 = Some 0
    /\ flag_set s' LIGHTOUTBIT = true
    /\ index (ItemLocations s') LIGHT_SOURCE = Some 0.
Proof.
  destruct (light_turns_lit 125 lit_state sample_world lit_state_wf)
    as (s' & w' & _ & Hturns & _);
    [reflexivity | reflexivity | reflexivity | lia |].
  exists s'. split; [exact Hturns|].
  destruct (light_counter_depletion lit_state sample_world lit_state_wf)
    as (_ & _ & Hrun).
  destruct (Hrun 125%nat s') as (Hcount & Hset & Hlamp);
    [reflexivity | reflexivity | exact Hturns | lia |].
  split; [exact Hcount|]. split; [apply Hset; reflexivity|].
  apply Hlamp. reflexivity.
Defined.

(** Claim C3, counterexample.  The first action of the lamp adventure
    picks up the light source and sets flag 16; the next light update
    decrements the light counter all the same. *)
Lemma light_counter_decrements_with_exhausted_flag_set :
  exists s1 w1 s2 w2,
    ExecuteCommands 0 lamp_state sample_world = Ok tt s1 w1
    /\ index (ItemLocations s1) LIGHT_SOURCE = Some CARRIED
    /\ flag_set s1 LIGHTOUTBIT = true
    /\ index (AltCounters s1) 8 = Some 125
    /\ UpdateLightSource s1 w1 = Ok tt s2 w2
    /\ index (AltCounters s2) 8 = Some 124.
Proof.
  do 4 eexists. split; [vm_compute; reflexivity|].
  repeat split; vm_compute; reflexivity.
Qed.

(** ** The primary counter *)

Lemma subtracted_floor c p : -1 <= subtracted c p.
Proof. unfold subtracted. destruct (Z.ltb_spec (wrap64 (c - p)) (-1)); lia. Qed.

(** What the four counter opcodes do, given the parameter [p] fetched for
    the command position. *)
Lemma counter_opcodes s w pos p :
  fetch_parameter pos s w = Ok p s w ->
  ExecuteCommand 77 pos s w = Ok tt (set_Counter (wrap64 (Counter s - 1)) s) w
  /\ ExecuteCommand 82 pos s w
     = Ok tt (set_Counter (wrap64 (Counter s + p)) s) w
  /\ ExecuteCommand 83 pos s w
     = Ok tt (set_Counter (subtracted (Counter s) p) s) w
  /\ (forall alt, index (AltCounters s) p = Some alt ->
      ExecuteCommand 81 pos s w
      = Ok tt (set_AltCounters (<[Z.to_nat p := Counter s]> (AltCounters s))
                 (set_Counter alt s)) w).
Proof.
  intros Hp.
  repeat split; try intros alt Halt;
    unfold ExecuteCommand; unfold bind at 1; rewrite Hp; run_monad;
    try reflexivity.
  cbn [andb Z.leb Z.compare Pos.compare Pos.compare_cont].
  rewrite Halt. run_monad.
  rewrite (store_Some _ p) by exact (index_Some_range _ _ _ Halt).
  reflexivity.
Qed.

(** Claim C4, amended.  In a well-formed state whose current action
    exists, the four counter opcodes return, and with [p] the parameter
    of the command position: the subtract opcode (83) always leaves
    counter >= -1; the decrement opcode (77) has no floor, it turns a
    counter [c >= -1] into [c - 1], which is >= -1 exactly when
    [c >= 0]; the add opcode (82) preserves counter >= -1 when [p >= 0]
    and the sum does not overflow; the counter-swap opcode (81) exchanges
    the counter with alternate counter [p], so it preserves counter >= -1
    exactly when that alternate counter is >= -1. *)
Theorem counter_floor_by_opcode :
  forall (s : GameState) (w : World) (cmdPosition : Z),
    wf s -> current_action_ok s -> 0 <= cmdPosition ->
    is_int64 (Counter s) ->
    exists p s77 s81 s82 s83,
      fetch_parameter cmdPosition s w = Ok p s w
      /\ ExecuteCommand 77 cmdPosition s w = Ok tt s77 w
      /\ ExecuteCommand 82 cmdPosition s w = Ok tt s82 w
      /\ ExecuteCommand 83 cmdPosition s w = Ok tt s83 w
      /\ -1 <= Counter s83
      /\ (-1 <= Counter s ->
          Counter s77 = Counter s - 1 /\ (-1 <= Counter s77 <-> 0 <= Counter s))
      /\ (-1 <= Counter s -> 0 <= p -> Counter s + p <= maxInt64 ->
          -1 <= Counter s82)
      /\ (forall alt, index (AltCounters s) p = Some alt ->
          ExecuteCommand 81 cmdPosition s w = Ok tt s81 w
          /\ Counter s81 = alt
          /\ index (AltCounters s81) p = Some (Counter s)).
Proof.
  intros s w pos Hwf Hcur Hpos Hint.
  destruct (fetch_parameter_ok s w pos Hwf Hcur Hpos) as [p Hp].
  destruct (counter_opcodes s w pos p Hp) as (H77 & H82 & H83 & H81).
  exists p, (set_Counter (wrap64 (Counter s - 1)) s),
    (set_AltCounters (<[Z.to_nat p := Counter s]> (AltCounters s))
       (set_Counter (match index (AltCounters s) p with
                     | Some alt => alt | None => 0 end) s)),
    (set_Counter (wrap64 (Counter s + p)) s),
    (set_Counter (subtracted (Counter s) p) s).
  split; [exact Hp|]. split; [exact H77|]. split; [exact H82|].
  split; [exact H83|]. cbn [Counter set_Counter set_AltCounters AltCounters].
  split; [apply subtracted_floor|].
  unfold is_int64, minInt64, maxInt64 in Hint.
  split; [|split].
  - intros Hc. rewrite wrap64_id by (unfold is_int64, minInt64, maxInt64; lia).
    split; [reflexivity|lia].
  - intros Hc H0 Hmax. unfold maxInt64 in Hmax.
    rewrite wrap64_id by (unfold is_int64, minInt64, maxInt64; lia). lia.
  - intros alt Halt. rewrite Halt. split; [exact (H81 alt Halt)|].
    split; [reflexivity|].
    pose proof (index_Some_range _ _ _ Halt) as Hr.
    replace p with (Z.of_nat (Z.to_nat p)) at 2 by lia.
    apply index_insert_eq. lia.
Qed.

(** The theorem at command position 2 of the lamp adventure. *)
Lemma counter_floor_by_opcode_witness :
  exists p s77 s81 s82 s83,
    fetch_parameter 2 lamp_state sample_world = Ok p lamp_state sample_world
    /\ ExecuteCommand 77 2 lamp_state sample_world = Ok tt s77 sample_world
    /\ ExecuteCommand 82 2 lamp_state sample_world = Ok tt s82 sample_world
    /\ ExecuteCommand 83 2 lamp_state sample_world = Ok tt s83 sample_world
    /\ -1 <= Counter s83
    /\ (-1 <= Counter lamp_state ->
        Counter s77 = Counter lamp_state - 1
        /\ (-1 <= Counter s77 <-> 0 <= Counter lamp_state))
    /\ (-1 <= Counter lamp_state -> 0 <= p ->
        Counter lamp_state + p <= maxInt64 -> -1 <= Counter s82)
    /\ (forall alt, index (AltCounters lamp_state) p = Some alt ->
        ExecuteCommand 81 2 lamp_state sample_world = Ok tt s81 sample_world
        /\ Counter s81 = alt
        /\ index (AltCounters s81) p = Some (Counter lamp_state)).
Proof.
  apply (counter_floor_by_opcode lamp_state sample_world 2).
  - split; try reflexivity. repeat constructor.
  - unfold current_action_ok. simpl. lia.
  - lia.
  - unfold is_int64, minInt64, maxInt64. simpl. lia.
Defined.

(** Claim C4, counterexample.  The action of the countdown adventure
    decrements the counter twice from its initial value 0: the state it
    reaches has counter -2. *)
Lemma counter_falls_below_minus_one :
  exists s w,
    ExecuteCommands 0 countdown_state sample_world = Ok tt s w
    /\ reachable countdown_state s
    /\ Counter s = -2
    /\ ~ (-1 <= Counter s).
Proof.
  do 2 eexists. split; [vm_compute; reflexivity|].
  split; [|split; [reflexivity | cbn; lia]].
  eapply (reach_action countdown_state countdown_state 0 sample_world);
    [apply reach_start|].
  vm_compute. reflexivity.
Qed.

(** ** Out-of-range parameters *)

Lemma index_out_of_range {A : Type} (l : list A) (i : Z) :
  i < 0 \/ Z.of_nat (length l) <= i -> index l i = None.
Proof.
  intros H. unfold index. destruct (Z.ltb_spec i 0); [reflexivity|].
  apply lookup_ge_None. lia.
Qed.

Lemma store_out_of_range {A : Type} (l : list A) (i : Z) (v : A) :
  i < 0 \/ Z.of_nat (length l) <= i -> store l i v = None.
Proof.
  intros H. unfold store.
  destruct (Z.leb_spec 0 i); [|reflexivity].
  destruct (Z.ltb_spec i (Z.of_nat (length l))); [lia|reflexivity].
Qed.

Lemma condition_parameter_cases slot s w :
  (exists v, condition_parameter slot s w = Ok v s w)
  \/ condition_parameter slot s w = Panicked.
Proof.
  unfold condition_parameter. run_monad.
  destruct (index (Actions s) (CurrentAction s)) as [a|]; [|right; reflexivity].
  run_monad.
  destruct (index (Conditions a) slot) as [c|]; [|right; reflexivity].
  left. eexists. reflexivity.
Qed.

(** Claim C6, the code at the failing inputs.  In a well-formed state,
    with a parameter below 0 or above NumItems, each of the ten condition
    opcodes that index ItemLocations and each of the six command opcodes
    that index it by their parameter ends in a runtime panic: the session
    terminates instead of continuing the turn. *)
Theorem out_of_range_item_parameter_panics :
  forall (s : GameState) (w : World) (parameter : Z),
    wf s ->
    parameter < 0 \/ NumItems (Header s) < parameter ->
    (forall code, In code item_conditions ->
        EvaluateCondition code parameter s w = Panicked)
    /\ (forall cmd cmdPosition,
        In cmd item_commands ->
        cmdPosition < 4 ->
        fetch_parameter cmdPosition s w = Ok parameter s w ->
        ExecuteCommand cmd cmdPosition s w = Panicked).
Proof.
  intros s w p Hwf Hp.
  assert (Hidx : index (ItemLocations s) p = None).
  { apply index_out_of_range. rewrite (wf_locations s Hwf). lia. }
  assert (Hst : forall v, store (ItemLocations s) p v = None).
  { intros v. apply store_out_of_range. rewrite (wf_locations s Hwf). lia. }
  split.
  - intros code Hcode. unfold item_conditions in Hcode. cbn [In] in Hcode.
    unfold EvaluateCondition. run_monad.
    repeat (destruct Hcode as [<- | Hcode]; [rewrite Hidx; reflexivity|]).
    contradiction.
  - intros cmd pos Hcmd Hpos Hfetch.
    unfold item_commands in Hcmd. cbn [In] in Hcmd.
    unfold ExecuteCommand. unfold bind at 1. rewrite Hfetch. run_monad.
    destruct (Z.ltb_spec pos 5); [|lia]. destruct (Z.ltb_spec pos 4); [|lia].
    destruct (condition_parameter_cases (pos + 1) s w) as [[v E] | E].
    + repeat (destruct Hcmd as [<- | Hcmd];
              [ cbn [andb Z.leb Z.compare Pos.compare Pos.compare_cont];
                rewrite ?E; run_monad; rewrite ?Hst, ?Hidx; try reflexivity;
                destruct (index (ItemLocations s) v); run_monad;
                rewrite ?Hst; reflexivity
              |]).
      contradiction.
    + repeat (destruct Hcmd as [<- | Hcmd];
              [ cbn [andb Z.leb Z.compare Pos.compare Pos.compare_cont];
                rewrite ?E, ?Hst, ?Hidx; reflexivity
              |]).
      contradiction.
Qed.

Lemma stray_state_wf : wf stray_state.
Proof. split; try reflexivity. repeat constructor. Qed.

(** The theorem at parameter 11 of the stray adventure (items 0..10):
    condition HAS and opcode 55. *)
Lemma out_of_range_item_parameter_panics_witness :
  EvaluateCondition 1 11 stray_state sample_world = Panicked
  /\ ExecuteCommand 55 0 (set_CurrentAction 1 stray_state) sample_world
     = Panicked.
Proof.
  split.
  - destruct (out_of_range_item_parameter_panics stray_state sample_world 11)
      as [Hcond _]; [exact stray_state_wf | right; vm_compute; reflexivity |].
    apply Hcond. simpl. tauto.
  - destruct (out_of_range_item_parameter_panics
                (set_CurrentAction 1 stray_state) sample_world 11)
      as [_ Hcmd]; [split; try reflexivity; repeat constructor | right; vm_compute; reflexivity |].
    apply Hcmd; [simpl; tauto | lia | vm_compute; reflexivity].
Defined.

(** The same two failures seen from the dispatcher: the player commands
    that select the two actions of the adventure end in a panic. *)
Lemma stray_actions_crash_the_session :
  CheckConditions 0 stray_state sample_world = Panicked
  /\ ProcessActionsWithVerb 5 0 stray_state sample_world = Panicked
  /\ ProcessActionsWithVerb 6 0 stray_state sample_world = Panicked.
Proof. repeat split; vm_compute; reflexivity. Qed.

(** ** The dispatcher and CONT *)

(** Actions with another verb or noun are passed over by the scan of
    ProcessExactAction, also while the continuation flag is set. *)
Lemma exact_scan_skips verb noun rest :
  Forall (fun b => Verb b <> verb \/ Noun b <> noun) rest ->
  forall i found s w, exact_scan verb noun i rest found s w = Ok found s w.
Proof.
  induction 1 as [|b rest Hb _ IH]; intros i found s w.
  - reflexivity.
  - cbn [exact_scan].
    assert (E : (Verb b =? verb) && (Noun b =? noun) = false).
    { destruct (Z.eqb_spec (Verb b) verb); [|reflexivity].
      destruct (Z.eqb_spec (Noun b) noun); [|reflexivity].
      destruct Hb; contradiction. }
    rewrite E. apply IH.
Qed.

Lemma exact_scan_prefix verb noun pre :
  Forall (fun b => Verb b <> verb \/ Noun b <> noun) pre ->
  forall i actions found s w,
    exact_scan verb noun i (pre ++ actions) found s w
    = exact_scan verb noun (i + Z.of_nat (length pre)) actions found s w.
Proof.
  induction 1 as [|b pre Hb _ IH]; intros i actions found s w.
  - cbn [app length]. rewrite Z.add_0_r. reflexivity.
  - cbn [app exact_scan].
    assert (E : (Verb b =? verb) && (Noun b =? noun) = false).
    { destruct (Z.eqb_spec (Verb b) verb); [|reflexivity].
      destruct (Z.eqb_spec (Noun b) noun); [|reflexivity].
      destruct Hb; contradiction. }
    rewrite E, IH. f_equal. cbn [length]. lia.
Qed.

(** Claim C1, the code on tables like the one of the claim.  When exactly
    one action of the table has the player's verb and noun,
    ProcessExactAction checks and executes that one action and nothing
    else, whether or not it issues CONT: the scan that goes on after
    CONT only looks for further actions with the player's verb and noun,
    so the continuation actions (verb 0, noun 0) that follow are never
    considered. *)
Theorem ProcessExactAction_never_runs_continuation_actions :
  forall (s : GameState) (w : World) (verb noun : Z)
         (before : list Action) (a : Action) (rest : list Action),
    Actions s = before ++ a :: rest ->
    Verb a = verb -> Noun a = noun ->
    Forall (fun b => Verb b <> verb \/ Noun b <> noun) before ->
    Forall (fun b => Verb b <> verb \/ Noun b <> noun) rest ->
    ProcessExactAction verb noun s w
    = (ok <- CheckConditions (Z.of_nat (length before)) ;;
       if ok then ExecuteCommands (Z.of_nat (length before)) ;; ret true
       else ret false) s w.
Proof.
  intros s w verb noun before a rest Hacts Hv Hn Hbefore Hrest.
  unfold ProcessExactAction. rewrite bind_get, Hacts.
  rewrite (exact_scan_prefix verb noun before Hbefore), Z.add_0_l.
  cbn [exact_scan]. rewrite Hv, Hn, !Z.eqb_refl. cbn [andb].
  unfold bind.
  destruct (CheckConditions (Z.of_nat (length before)) s w)
    as [ok s1 w1| |]; try reflexivity.
  destruct ok.
  - destruct (ExecuteCommands (Z.of_nat (length before)) s1 w1)
      as [[] s2 w2| |]; try reflexivity.
    unfold get. cbn beta iota.
    destruct (ContinueFlag s2); cbn [negb]; [|reflexivity].
    apply exact_scan_skips. exact Hrest.
  - apply exact_scan_skips. exact Hrest.
Qed.

(** The theorem on the table A, B, C of the sample adventure. *)
Lemma ProcessExactAction_never_runs_continuation_actions_witness :
  ProcessExactAction 5 0 sample_state sample_world
  = Ok true (set_ContinueFlag true sample_state)
      (printed ["A fires." +:+ nl] sample_world).
Proof.
  rewrite (ProcessExactAction_never_runs_continuation_actions
             sample_state sample_world 5 0 []
             (mkAction 5 0 [0; 0; 0; 0; 0] [1 * 150 + 73; 0])
             [ mkAction 0 0 [3 * 20 + 4; 0; 0; 0; 0] [3 * 150 + 0; 0];
               mkAction 0 0 [0; 0; 0; 0; 0] [2 * 150 + 67; 0] ]).
  - vm_compute. reflexivity.
  - reflexivity.
  - reflexivity.
  - reflexivity.
  - constructor.
  - repeat constructor; cbn; lia.
Defined.

(** The CONT scenario of the sample adventure, seen from the player's
    command: action A runs and leaves the continuation flag set, action C
    does not run although its conditions hold (message 2 is not printed
    and flag 0 stays clear). *)
Lemma CONT_scenario_player_command :
  ProcessActionsWithVerb 5 0 sample_state sample_world
  = Ok tt (set_ContinueFlag true sample_state)
      (printed ["A fires." +:+ nl] sample_world)
  /\ CheckConditions 2 (set_ContinueFlag true sample_state) sample_world
     = Ok true (set_ContinueFlag true sample_state) sample_world
  /\ flag_set (set_ContinueFlag true sample_state) 0 = false.
Proof. repeat split; vm_compute; reflexivity. Qed.

(** Action C runs in the automatic pass of every turn, whether or not A
    was selected: it is an ordinary automatic action for the code. *)
Lemma CONT_scenario_automatic_pass :
  exists s w,
    ProcessAutomaticActions 1 sample_state sample_world = Ok true s w
    /\ stdout w = ["C fires." +:+ nl]
    /\ flag_set s 0 = true.
Proof. do 2 eexists. repeat split; vm_compute; reflexivity. Qed.

(** ** Decimal text round trip *)

Lemma digit_val_digit_char d :
  0 <= d <= 9 -> digit_val (digit_char d) = Some d.
Proof.
  intros H.
  assert (d = 0 \/ d = 1 \/ d = 2 \/ d = 3 \/ d = 4 \/ d = 5 \/ d = 6
          \/ d = 7 \/ d = 8 \/ d = 9) as Hd by lia.
  repeat (destruct Hd as [-> | Hd]; [reflexivity|]). subst d. reflexivity.
Qed.

Lemma parse_digits_digits_of maxVal fuel :
  forall n acc,
    0 <= n < 10 ^ Z.of_nat fuel -> n <= maxVal ->
    parse_digits maxVal (digits_of fuel n acc) 0 = parse_digits maxVal acc n.
Proof.
  induction fuel as [|fuel IH]; intros n acc Hn Hmax.
  - cbn [digits_of]. replace n with 0 by (cbn in Hn; lia). reflexivity.
  - cbn [digits_of].
    assert (Hd : 0 <= n mod 10 <= 9) by (pose proof (Z.mod_pos_bound n 10); lia).
    destruct (Z.ltb_spec n 10) as [Hlt|Hge].
    + cbn [parse_digits]. rewrite Z.mod_small by lia.
      rewrite digit_val_digit_char by lia. cbv zeta.
      replace (0 * 10 + n) with n by lia.
      destruct (Z.ltb_spec maxVal n); [lia|reflexivity].
    + rewrite IH.
      * cbn [parse_digits]. rewrite digit_val_digit_char by exact Hd.
        cbv zeta.
        replace (n / 10 * 10 + n mod 10) with n
          by (pose proof (Z.div_mod n 10); lia).
        destruct (Z.ltb_spec maxVal n); [lia|reflexivity].
      * rewrite Nat2Z.inj_succ, Z.pow_succ_r in Hn by lia.
        split; [apply Z.div_pos; lia|].
        apply Z.div_lt_upper_bound; lia.
      * assert (n / 10 <= n) by (apply Z.div_le_upper_bound; lia). lia.
Qed.

Lemma format_uint_fuel n :
  0 <= n -> n < 10 ^ Z.of_nat (S (Z.to_nat (Z.log2 n))).
Proof.
  intros Hn. pose proof (Z.log2_nonneg n) as Hl.
  rewrite Nat2Z.inj_succ, Z2Nat.id by exact Hl.
  apply Z.lt_le_trans with (2 ^ Z.succ (Z.log2 n)).
  - destruct (Z.eq_dec n 0) as [->|Hne]; [reflexivity|].
    apply Z.log2_spec. lia.
  - apply Z.pow_le_mono_l. lia.
Qed.

Lemma parse_format_uint maxVal n :
  0 <= n <= maxVal -> parse_digits maxVal (format_uint n) 0 = inl n.
Proof.
  intros Hn. unfold format_uint. rewrite parse_digits_digits_of.
  - reflexivity.
  - split; [lia|]. apply format_uint_fuel. lia.
  - lia.
Qed.

(** The first character of a formatted natural number is a digit. *)
Lemma digits_of_head fuel :
  forall n acc, 0 <= n ->
    exists c rest,
      digits_of (S fuel) n acc = String c rest
      /\ Ascii.eqb c "-" = false /\ Ascii.eqb c "+" = false.
Proof.
  assert (Hdigit : forall d, 0 <= d <= 9 ->
            Ascii.eqb (digit_char d) "-" = false
            /\ Ascii.eqb (digit_char d) "+" = false).
  { intros d H.
    assert (d = 0 \/ d = 1 \/ d = 2 \/ d = 3 \/ d = 4 \/ d = 5 \/ d = 6
            \/ d = 7 \/ d = 8 \/ d = 9) as Hd by lia.
    repeat (destruct Hd as [-> | Hd]; [split; reflexivity|]).
    subst d. split; reflexivity. }
  induction fuel as [|fuel IH]; intros n acc Hn.
  - cbn [digits_of].
    assert (Hd : 0 <= n mod 10 <= 9) by (pose proof (Z.mod_pos_bound n 10); lia).
    destruct (n <? 10); eexists _, _; (split; [reflexivity|]);
      apply Hdigit; exact Hd.
  - change (digits_of (S (S fuel)) n acc)
      with (let acc' := String (digit_char (n mod 10)) acc in
            if n <? 10 then acc' else digits_of (S fuel) (n / 10) acc').
    cbv zeta.
    assert (Hd : 0 <= n mod 10 <= 9) by (pose proof (Z.mod_pos_bound n 10); lia).
    destruct (n <? 10).
    + eexists _, _. split; [reflexivity|]. apply Hdigit. exact Hd.
    + apply IH. apply Z.div_pos; lia.
Qed.

Lemma Atoi_format_int z : is_int64 z -> Atoi (format_int z) = (z, true).
Proof.
  unfold is_int64, minInt64, maxInt64. intros Hz.
  unfold Atoi, ParseInt, format_int.
  destruct (Z.ltb_spec z 0) as [Hneg|Hpos].
  - change (Ascii.eqb "-" "-") with true. cbn [orb negb andb].
    destruct (digits_of_head (Z.to_nat (Z.log2 (- z))) (- z) EmptyString)
      as (c & rest & Hs & _); [lia|].
    fold (format_uint (- z)) in Hs.
    pose proof (parse_format_uint maxUint64 (- z)) as Hp.
    rewrite Hs in *. rewrite Hp by (unfold maxUint64; lia).
    destruct (Z.ltb_spec (2 ^ 63) (- z)); [lia|].
    f_equal. lia.
  - destruct (digits_of_head (Z.to_nat (Z.log2 z)) z EmptyString)
      as (c & rest & Hs & Hm & Hp'); [lia|].
    fold (format_uint z) in Hs.
    pose proof (parse_format_uint maxUint64 z) as Hp.
    rewrite Hs in *. rewrite Hm, Hp'. cbn [orb negb andb].
    rewrite Hp by (unfold maxUint64; lia).
    destruct (Z.leb_spec (2 ^ 63) z); [lia|]. reflexivity.
Qed.

Lemma ParseUint_format_int z :
  is_uint32 z -> ParseUint (format_int z) maxUint32 = (z, true).
Proof.
  unfold is_uint32. intros Hz. unfold ParseUint, format_int.
  destruct (Z.ltb_spec z 0) as [Hneg|Hpos]; [lia|].
  destruct (digits_of_head (Z.to_nat (Z.log2 z)) z EmptyString)
    as (c & rest & Hs & _); [lia|].
  fold (format_uint z) in Hs.
  pose proof (parse_format_uint maxUint32 z Hz) as Hp.
  rewrite Hs in *. rewrite Hp. reflexivity.
Qed.

(** ** Load failures *)




(** ** Save / load round trip *)

Lemma slots_take (l : list Z) (n : Z) :
  0 <= n <= Z.of_nat (length l) -> slots l n = Some (take (Z.to_nat n) l).
Proof.
  intros Hn. unfold slots. apply mapM_Some.
  apply Forall2_same_length_lookup. split.
  - rewrite length_seqZ, length_take. lia.
  - intros i x y Hx Hy. apply lookup_seqZ in Hx as [-> Hi].
    rewrite lookup_take_lt in Hy by lia.
    unfold index. destruct (Z.ltb_spec (0 + Z.of_nat i) 0); [lia|].
    replace (Z.to_nat (0 + Z.of_nat i)) with i by lia. exact Hy.
Qed.

Lemma save_lines_wf s light :
  wf s -> index (AltCounters s) 8 = Some light ->
  save_lines s
  = Some (map format_int
            ([AdventureNumber (Header s); CurrentRoom s; Counter s;
              BitFlags s; light]
             ++ AltRooms s ++ take 8 (AltCounters s) ++ ItemLocations s)).
Proof.
  intros Hwf Hlight. unfold save_lines. rewrite Hlight.
  rewrite (slots_take (AltRooms s) 6) by (rewrite (wf_rooms s Hwf); lia).
  rewrite (slots_take (AltCounters s) 8) by (rewrite (wf_counters s Hwf); lia).
  rewrite (slots_take (ItemLocations s))
    by (pose proof (wf_locations s Hwf); lia).
  change (Z.to_nat 6) with 6%nat. change (Z.to_nat 8) with 8%nat.
  rewrite <- (wf_rooms s Hwf), firstn_all.
  rewrite <- (wf_locations s Hwf), Nat2Z.id, firstn_all. reflexivity.
Qed.

Section LoadLoop.
(** One of the three array fields LoadGame fills in a loop, with its
    assignment. *)
Variable getf : GameState -> list Z.
Variable setf : list Z -> GameState -> GameState.
Variable assign : Z -> Z -> M unit.
Hypothesis get_set : forall l s, getf (setf l s) = l.
Hypothesis set_set : forall l l' s, setf l' (setf l s) = setf l' s.
Hypothesis set_get : forall s, setf (getf s) s = s.
Hypothesis assign_spec : forall i v s w,
    assign i v s w
    = match store (getf s) i v with
      | Some l => Ok tt (setf l s) w
      | None => Panicked
      end.

Lemma load_loop_reads (vs : list Z) :
  forall (i : nat) (lines : list string) (s : GameState) (w : World),
    Forall is_int64 vs ->
    (i + length vs <= length (getf s))%nat ->
    load_loop (length vs) (Z.of_nat i) assign
      (map format_int vs ++ lines) s w
    = Ok (Some lines)
        (setf (take i (getf s) ++ vs ++ drop (i + length vs) (getf s)) s) w.
Proof.
  induction vs as [|v vs IH]; intros i lines s w Hvs Hlen.
  - cbn [length load_loop map app]. unfold ret.
    rewrite Nat.add_0_r, take_drop, set_get. reflexivity.
  - cbn [length] in Hlen. inversion Hvs as [|? ? Hv Hvs']; subst.
    cbn [length load_loop map app]. rewrite Atoi_format_int by exact Hv.
    cbn [fst]. unfold bind at 1. rewrite assign_spec.
    rewrite store_Some by lia. rewrite Nat2Z.id.
    replace (Z.of_nat i + 1) with (Z.of_nat (S i)) by lia.
    rewrite IH; [|exact Hvs'|rewrite get_set, length_insert; lia].
    rewrite get_set, set_set. f_equal. f_equal.
    rewrite (take_S_r _ _ v) by (apply list_lookup_insert_eq; lia).
    rewrite take_insert_ge by lia.
    rewrite drop_insert_lt by lia.
    rewrite <- app_assoc. cbn [app].
    replace (S i + length vs)%nat with (i + S (length vs))%nat by lia.
    reflexivity.
Qed.
End LoadLoop.

Lemma assign_AltRoom_spec i v s w :
  assign_AltRoom i v s w
  = match store (AltRooms s) i v with
    | Some l => Ok tt (set_AltRooms l s) w
    | None => Panicked
    end.
Proof.
  unfold assign_AltRoom. run_monad. destruct (store (AltRooms s) i v); reflexivity.
Qed.

Lemma assign_AltCounter_spec i v s w :
  assign_AltCounter i v s w
  = match store (AltCounters s) i v with
    | Some l => Ok tt (set_AltCounters l s) w
    | None => Panicked
    end.
Proof.
  unfold assign_AltCounter. run_monad.
  destruct (store (AltCounters s) i v); reflexivity.
Qed.

Lemma assign_ItemLocation_spec i v s w :
  assign_ItemLocation i v s w
  = match store (ItemLocations s) i v with
    | Some l => Ok tt (set_ItemLocations l s) w
    | None => Panicked
    end.
Proof.
  unfold assign_ItemLocation. run_monad.
  destruct (store (ItemLocations s) i v); reflexivity.
Qed.

Lemma set_AltRooms_get s : set_AltRooms (AltRooms s) s = s.
Proof. destruct s; reflexivity. Qed.
Lemma set_AltCounters_get s : set_AltCounters (AltCounters s) s = s.
Proof. destruct s; reflexivity. Qed.
Lemma set_ItemLocations_get s : set_ItemLocations (ItemLocations s) s = s.
Proof. destruct s; reflexivity. Qed.

(** Loading what save_lines wrote for [s] into a state [t] of the same
    adventure. *)
Lemma load_from_saved s t w light :
  wf s -> in_range s -> wf t -> Header t = Header s ->
  index (AltCounters s) 8 = Some light ->
  load_from
    (map format_int
       ([AdventureNumber (Header s); CurrentRoom s; Counter s; BitFlags s;
         light]
        ++ AltRooms s ++ take 8 (AltCounters s) ++ ItemLocations s)) t w
  = Ok tt (loaded s t) (printed ["Game loaded." +:+ nl] w).
Proof.
  intros Hs Hr Ht Hh Hlight.
  destruct Hr as [Ra Rr Rc Rf Rcs Rrs Rls].
  assert (Rl : is_int64 light).
  { unfold index in Hlight. cbn in Hlight.
    rewrite Forall_lookup in Rcs. exact (Rcs _ _ Hlight). }
  pose proof (wf_locations s Hs) as Ls. pose proof (wf_counters s Hs) as Cs.
  pose proof (wf_rooms s Hs) as Rs.
  pose proof (wf_locations t Ht) as Lt. pose proof (wf_counters t Ht) as Ct.
  pose proof (wf_rooms t Ht) as Rt. rewrite Hh in Lt.
  rewrite !map_app. cbn [map app]. unfold load_from.
  unfold bind at 1. unfold get. cbn beta iota.
  rewrite Hh, (Atoi_format_int _ Ra). cbn [fst]. rewrite Z.eqb_refl.
  cbn [negb]. rewrite (Atoi_format_int _ Rr), (Atoi_format_int _ Rc),
    (ParseUint_format_int _ Rf), (Atoi_format_int _ Rl). cbn [fst].
  unfold bind at 1. unfold modify at 1.
  unfold bind at 1. unfold modify at 1.
  unfold bind at 1. unfold modify at 1.
  unfold bind at 1. rewrite assign_AltCounter_spec.
  cbn [AltCounters set_BitFlags set_Counter set_CurrentRoom].
  rewrite (store_Some _ 8) by lia. change (Z.to_nat 8) with 8%nat.
  unfold bind at 1.
  change 6%nat with (length (AltRooms s)) at 1 || rewrite <- Rs at 1.
  rewrite (load_loop_reads AltRooms set_AltRooms assign_AltRoom
             (fun _ _ => eq_refl) (fun _ _ _ => eq_refl) set_AltRooms_get
             assign_AltRoom_spec (AltRooms s) 0);
    [|exact Rrs|cbn [AltRooms set_AltCounters set_BitFlags set_Counter
                     set_CurrentRoom]; lia].
  unfold bind at 1.
  assert (L8 : length (take 8 (AltCounters s)) = 8%nat)
    by (rewrite length_take; lia).
  rewrite <- L8 at 1.
  rewrite (load_loop_reads AltCounters set_AltCounters assign_AltCounter
             (fun _ _ => eq_refl) (fun _ _ _ => eq_refl) set_AltCounters_get
             assign_AltCounter_spec (take 8 (AltCounters s)) 0);
    [|apply Forall_take; exact Rcs
     |cbn [AltCounters set_AltRooms set_AltCounters]; rewrite length_insert; lia].
  unfold bind at 1.
  replace (Z.to_nat (NumItems (Header s) + 1))
    with (length (ItemLocations s)) by lia.
  rewrite <- (app_nil_r (map format_int (ItemLocations s))).
  rewrite (load_loop_reads ItemLocations set_ItemLocations assign_ItemLocation
             (fun _ _ => eq_refl) (fun _ _ _ => eq_refl) set_ItemLocations_get
             assign_ItemLocation_spec (ItemLocations s) 0);
    [|exact Rls|cbn [ItemLocations set_AltRooms set_AltCounters set_BitFlags
                     set_Counter set_CurrentRoom set_ItemLocations]; lia].
  run_monad. unfold printed, loaded. f_equal.
  cbn [Header Rooms Items Actions Words Messages ActionTitles CurrentRoom
       ItemLocations BitFlags Counter AltCounters AltRooms ContinueFlag
       DisplayedRoom Debug CurrentAction set_DisplayedRoom set_ItemLocations
       set_AltCounters set_AltRooms set_BitFlags set_Counter set_CurrentRoom
       take app Nat.add].
  rewrite (drop_ge (AltRooms t)) by lia.
  rewrite (drop_ge (ItemLocations t)) by lia.
  rewrite !app_nil_r. rewrite L8.
  assert (Hd : drop 8 (<[8%nat:=light]> (AltCounters t)) = [light]).
  { destruct (AltCounters t) as [|? [|? [|? [|? [|? [|? [|? [|? [|? [|]]]]]]]]]];
      try discriminate Ct. reflexivity. }
  rewrite Hd.
  assert (Hc : take 8 (AltCounters s) ++ [light] = AltCounters s).
  { rewrite <- (take_drop 8 (AltCounters s)) at 2. f_equal.
    destruct (AltCounters s) as [|? [|? [|? [|? [|? [|? [|? [|? [|? [|]]]]]]]]]];
      try discriminate Cs. unfold index in Hlight.
    change (Z.to_nat 8) with 8%nat in Hlight. cbn in Hlight. cbn. congruence. }
  rewrite Hc. destruct t; reflexivity.
Qed.

Lemma assoc_head {A : Type} (k : string) (v : A) (l : list (string * A)) :
  assoc k ((k, v) :: l) = Some v.
Proof. cbn [assoc]. rewrite String.eqb_refl. reflexivity. Qed.

(** Saving a well-formed state [s] with its fields in range and loading
    the file into a well-formed state [t] of the same adventure. *)
Lemma save_then_load :
  forall (s t : GameState) (w : World) (name : string) (rest : list string),
    wf s -> in_range s ->
    wf t -> Header t = Header s ->
    stdin w = name :: name :: rest ->
    assoc (default_save_name name) (unwritable w) = None ->
    exists w1 w2,
      SaveGame s w = Ok tt s w1
      /\ LoadGame t w1 = Ok tt (loaded s t) w2
      /\ CurrentRoom (loaded s t) = CurrentRoom s
      /\ Counter (loaded s t) = Counter s
      /\ BitFlags (loaded s t) = BitFlags s
      /\ AltCounters (loaded s t) = AltCounters s
      /\ AltRooms (loaded s t) = AltRooms s
      /\ ItemLocations (loaded s t) = ItemLocations s
      /\ loaded s s = set_DisplayedRoom false s
      /\ last (stdout w2) = Some ("Game loaded." +:+ nl).
Proof.
  intros s t [si so fi un ra dr] name rest Hs Hr Ht Hh Hin Hun.
  cbn [stdin unwritable] in Hin, Hun. subst si.
  destruct (index_is_Some (AltCounters s) 8) as [light Hlight];
    [rewrite (wf_counters s Hs); lia|].
  pose proof (save_lines_wf s light Hs Hlight) as Hsave.
  eexists _, _. split; [|split].
  - unfold SaveGame, ReadLine. run_monad.
    cbn [stdin stdout files unwritable set_stdin set_stdout set_files].
    rewrite Hun. run_monad. rewrite Hsave. run_monad. reflexivity.
  - unfold LoadGame, ReadLine. run_monad.
    cbn [stdin stdout files unwritable set_stdin set_stdout set_files].
    rewrite assoc_head. apply load_from_saved; assumption.
  - repeat split; try reflexivity.
    unfold printed. cbn [stdout set_stdout]. apply last_snoc.
Qed.

(** ** The parameter channel: independence from the action table *)

Lemma getItemDescription_frame acts s n :
  getItemDescription (set_Actions acts s) n = getItemDescription s n.
Proof. reflexivity. Qed.

Lemma treasure_loop_frame acts s locs :
  forall i count,
    treasure_loop (set_Actions acts s) i locs count
    = treasure_loop s i locs count.
Proof.
  induction locs as [|loc locs IH]; intros i count; [reflexivity|].
  cbn [treasure_loop Header Items set_Actions]. rewrite !IH.
  destruct ((i <=? NumItems (Header s)) && (loc =? TreasureRoom (Header s)));
    [|reflexivity].
  destruct (index (Items s) i); [apply IH|reflexivity].
Qed.

Lemma save_lines_frame acts s : save_lines (set_Actions acts s) = save_lines s.
Proof. reflexivity. Qed.

Ltac frame_simpl :=
  run_monad;
  rewrite ?getItemDescription_frame, ?treasure_loop_frame, ?save_lines_frame;
  cbn [Header Rooms Items Actions Words Messages ActionTitles CurrentRoom
       ItemLocations BitFlags Counter AltCounters AltRooms ContinueFlag
       DisplayedRoom Debug CurrentAction set_Actions set_ItemLocations
       set_CurrentRoom set_BitFlags set_Counter set_AltCounters set_AltRooms
       set_ContinueFlag set_DisplayedRoom set_CurrentAction map_state].

Ltac destruct_innermost x :=
  lazymatch x with
  | context [match ?y with _ => _ end] => destruct_innermost y
  | _ => destruct x eqn:?
  end.

Ltac frame_step :=
  match goal with
  | |- context [match ?x with _ => _ end] => destruct_innermost x
  end.

Ltac frame_tac := frame_simpl; repeat (frame_step; frame_simpl); try reflexivity.

Lemma GetItem_frame acts n s w :
  GetItem n (set_Actions acts s) w = map_state (set_Actions acts) (GetItem n s w).
Proof.
  unfold GetItem, carried_items. frame_simpl.
  rewrite ?getItemDescription_frame. frame_tac.
Qed.

Lemma DropItem_frame acts n s w :
  DropItem n (set_Actions acts s) w
  = map_state (set_Actions acts) (DropItem n s w).
Proof.
  unfold DropItem. frame_simpl. rewrite ?getItemDescription_frame. frame_tac.
Qed.

Lemma inventory_loop_frame acts locs :
  forall i count s w,
    inventory_loop i locs count (set_Actions acts s) w
    = map_state (set_Actions acts) (inventory_loop i locs count s w).
Proof.
  induction locs as [|loc locs IH]; intros i count s w.
  - reflexivity.
  - cbn [inventory_loop]. frame_simpl. rewrite ?getItemDescription_frame.
    destruct ((i <=? NumItems (Header s)) && (loc =? CARRIED)).
    + destruct (getItemDescription s i); frame_simpl; [apply IH|reflexivity].
    + apply IH.
Qed.

Lemma DisplayInventory_frame acts s w :
  DisplayInventory (set_Actions acts s) w
  = map_state (set_Actions acts) (DisplayInventory s w).
Proof.
  unfold DisplayInventory. frame_simpl. rewrite inventory_loop_frame.
  destruct (inventory_loop 0 (ItemLocations s) 0 s _) as [count s' w'| |];
    frame_simpl; try reflexivity.
  destruct (count =? 0); reflexivity.
Qed.

Lemma DisplayScore_frame acts s w :
  DisplayScore (set_Actions acts s) w
  = map_state (set_Actions acts) (DisplayScore s w).
Proof.
  unfold DisplayScore. frame_tac.
Qed.

Lemma SaveGame_frame acts s w :
  SaveGame (set_Actions acts s) w
  = map_state (set_Actions acts) (SaveGame s w).
Proof.
  unfold SaveGame, ReadLine. frame_simpl.
  frame_tac.
Qed.

Lemma fetch_parameter_cases pos s w :
  (exists p, fetch_parameter pos s w = Ok p s w)
  \/ fetch_parameter pos s w = Panicked.
Proof.
  unfold fetch_parameter. destruct (pos <? 5).
  - apply condition_parameter_cases.
  - left. eexists. reflexivity.
Qed.

Lemma bind_frame {A B : Type} (f : GameState -> GameState)
    (m : M A) (k : A -> M B) s w :
  m (f s) w = map_state f (m s w) ->
  (forall a s' w', m s w = Ok a s' w' ->
                   k a (f s') w' = map_state f (k a s' w')) ->
  bind m k (f s) w = map_state f (bind m k s w).
Proof.
  intros Hm Hk. unfold bind. rewrite Hm.
  destruct (m s w) as [a s' w'| |]; cbn [map_state]; auto.
Qed.

Ltac frame_leaf H2 :=
  first
    [ reflexivity
    | apply GetItem_frame
    | apply DropItem_frame
    | apply DisplayScore_frame
    | apply DisplayInventory_frame
    | apply SaveGame_frame
    | match goal with
      | |- context [condition_parameter] =>
          cbn [Header Rooms Items Actions Words Messages ActionTitles
               CurrentRoom ItemLocations BitFlags Counter AltCounters
               AltRooms ContinueFlag DisplayedRoom Debug CurrentAction
               set_Actions];
          match goal with
          | |- (if ?b then _ else _) _ _ = _ =>
              destruct b; [|reflexivity];
              apply bind_frame; [exact H2|]; intros; frame_tac
          end
      end
    | frame_tac ].

(** Executing a command in two states that differ only in their action
    tables gives the same result whenever the two decoded parameters the
    command can read, at its position and one slot ahead, are the same. *)
Lemma ExecuteCommand_frame acts cmd pos s w :
  fetch_parameter pos (set_Actions acts s) w
  = map_state (set_Actions acts) (fetch_parameter pos s w) ->
  condition_parameter (pos + 1) (set_Actions acts s) w
  = map_state (set_Actions acts) (condition_parameter (pos + 1) s w) ->
  ExecuteCommand cmd pos (set_Actions acts s) w
  = map_state (set_Actions acts) (ExecuteCommand cmd pos s w).
Proof.
  intros H1 H2. unfold ExecuteCommand.
  apply bind_frame; [exact H1|]. intros p s' w' E.
  destruct (fetch_parameter_cases pos s w) as [[p' E']|E'];
    rewrite E' in E; [|discriminate]. injection E as <- <- <-.
  rewrite !bind_get. cbn [Messages set_Actions].
  destruct ((1 <=? cmd) && (cmd <=? 51)); [frame_tac|].
  destruct ((102 <=? cmd) && (cmd <=? 149)); [frame_tac|].
  destruct cmd as [|c|c]; [reflexivity| |reflexivity].
  do 7 (try (destruct c as [c|c|])); frame_leaf H2.
Qed.

Lemma index_map {A B : Type} (g : A -> B) (l : list A) (i : Z) :
  index (map g l) i = option_map g (index l i).
Proof.
  unfold index. destruct (i <? 0); [reflexivity|].
  generalize (Z.to_nat i). induction l as [|x l IH]; intros [|n]; cbn; auto.
Qed.

(** Replacing the command slots of every action changes no parameter. *)
Lemma condition_parameter_recode f slot s w :
  condition_parameter slot (set_Actions (map (recode f) (Actions s)) s) w
  = map_state (set_Actions (map (recode f) (Actions s)))
      (condition_parameter slot s w).
Proof.
  unfold condition_parameter. rewrite !bind_get.
  cbn [Actions CurrentAction set_Actions]. rewrite index_map.
  destruct (index (Actions s) (CurrentAction s)) as [a|]; [|reflexivity].
  cbn [option_map]. run_monad. cbn [Conditions recode].
  destruct (index (Conditions a) slot); reflexivity.
Qed.

Lemma fetch_parameter_recode f pos s w :
  fetch_parameter pos (set_Actions (map (recode f) (Actions s)) s) w
  = map_state (set_Actions (map (recode f) (Actions s)))
      (fetch_parameter pos s w).
Proof.
  unfold fetch_parameter. destruct (pos <? 5); [|reflexivity].
  apply condition_parameter_recode.
Qed.

(** The opcodes with one and with two parameters, in terms of the
    parameter [p] of the command position and the parameter [q] one slot
    ahead. *)
Lemma parameter_opcodes s w pos p q :
  pos < 4 ->
  fetch_parameter pos s w = Ok p s w ->
  condition_parameter (pos + 1) s w = Ok q s w ->
  ExecuteCommand 54 pos s w
  = Ok tt (set_DisplayedRoom false (set_CurrentRoom p s)) w
  /\ ExecuteCommand 62 pos s w
     = match store (ItemLocations s) p q with
       | Some locs => Ok tt (set_ItemLocations locs s) w
       | None => Panicked
       end
  /\ ExecuteCommand 75 pos s w
     = match index (ItemLocations s) q with
       | Some loc2 =>
           match store (ItemLocations s) p loc2 with
           | Some locs => Ok tt (set_ItemLocations locs s) w
           | None => Panicked
           end
       | None => Panicked
       end
  /\ ExecuteCommand 72 pos s w
     = match index (ItemLocations s) q, index (ItemLocations s) p with
       | Some loc2, Some loc1 =>
           match store (ItemLocations s) p loc2 with
           | Some locs =>
               match store locs q loc1 with
               | Some locs' => Ok tt (set_ItemLocations locs' s) w
               | None => Panicked
               end
           | None => Panicked
           end
       | _, _ => Panicked
       end.
Proof.
  intros Hpos Hp Hq.
  assert (H5 : (pos <? 5) = true) by (apply Z.ltb_lt; lia).
  assert (H4 : (pos <? 4) = true) by (apply Z.ltb_lt; lia).
  repeat split; unfold ExecuteCommand; unfold bind at 1; rewrite Hp;
    rewrite bind_get; cbn [andb Z.leb Z.compare Pos.compare Pos.compare_cont];
    rewrite ?H5, ?H4; try reflexivity;
    unfold bind at 1; rewrite Hq; run_monad.
  - destruct (store (ItemLocations s) p q); reflexivity.
  - destruct (index (ItemLocations s) q); [|reflexivity]. run_monad.
    destruct (store (ItemLocations s) p z); reflexivity.
  - destruct (index (ItemLocations s) q) as [loc2|]; [|reflexivity]. run_monad.
    destruct (index (ItemLocations s) p) as [loc1|]; [|reflexivity]. run_monad.
    destruct (store (ItemLocations s) p loc2) as [locs|]; [|reflexivity].
    run_monad. destruct (store locs q loc1); reflexivity.
Qed.

(** ExecuteCommands runs the two command slots in order; the first half
    of either slot reads condition slot 0, the second half of slot [i]
    reads condition slot [i + 1]. *)
Lemma ExecuteCommands_slots s w actionIndex action c0 c1 :
  index (Actions s) actionIndex = Some action ->
  Commands action = [c0; c1] ->
  ExecuteCommands actionIndex s w
  = (modify (set_CurrentAction actionIndex) ;;
     run_slot c0 1 ;; run_slot c1 2 ;; debug_executed actionIndex) s w.
Proof.
  intros Ha Hc. unfold ExecuteCommands, execute_pair, run_slot.
  unfold bind at 1 5. unfold modify. cbn beta iota. rewrite bind_get.
  cbn [Actions set_CurrentAction]. rewrite Ha. unfold must at 1.
  unfold bind at 1. unfold ret at 1. cbn beta iota.
  rewrite Hc. reflexivity.
Qed.

(** The opcodes with one operand, in terms of the parameter [p] of the
    command position. *)
Lemma single_parameter_opcodes s w pos p :
  fetch_parameter pos s w = Ok p s w ->
  ExecuteCommand 52 pos s w = GetItem p s w
  /\ ExecuteCommand 53 pos s w = DropItem p s w
  /\ (forall cmd, cmd = 55 \/ cmd = 59 ->
      ExecuteCommand cmd pos s w
      = match store (ItemLocations s) p DESTROYED with
        | Some locs => Ok tt (set_ItemLocations locs s) w
        | None => Panicked
        end)
  /\ ExecuteCommand 58 pos s w
     = Ok tt (set_BitFlags (Z.lor (BitFlags s) (bit32 p)) s) w
  /\ ExecuteCommand 60 pos s w
     = Ok tt (set_BitFlags (Z.land (BitFlags s) (not32 (bit32 p))) s) w
  /\ ExecuteCommand 74 pos s w
     = match store (ItemLocations s) p CARRIED with
       | Some locs => Ok tt (set_ItemLocations locs s) w
       | None => Panicked
       end
  /\ ExecuteCommand 79 pos s w = Ok tt (set_Counter p s) w
  /\ ExecuteCommand 81 pos s w
     = match index (AltCounters s) p with
       | Some alt =>
           match store (AltCounters s) p (Counter s) with
           | Some counters =>
               Ok tt (set_AltCounters counters (set_Counter alt s)) w
           | None => Panicked
           end
       | None => Panicked
       end
  /\ ExecuteCommand 82 pos s w
     = Ok tt (set_Counter (wrap64 (Counter s + p)) s) w
  /\ ExecuteCommand 83 pos s w
     = Ok tt (set_Counter (if wrap64 (Counter s - p) <? -1 then -1
                           else wrap64 (Counter s - p)) s) w
  /\ ExecuteCommand 87 pos s w
     = match index (AltRooms s) p with
       | Some alt =>
           match store (AltRooms s) p (CurrentRoom s) with
           | Some rooms =>
               Ok tt (set_DisplayedRoom false
                        (set_AltRooms rooms (set_CurrentRoom alt s))) w
           | None => Panicked
           end
       | None => Panicked
       end.
Proof.
  intros Hp.
  repeat split; try (intros cmd [-> | ->]);
    unfold ExecuteCommand; unfold bind at 1; rewrite Hp; rewrite bind_get;
    cbn [andb Z.leb Z.compare Pos.compare Pos.compare_cont];
    try reflexivity; run_monad.
  - destruct (store (ItemLocations s) p DESTROYED); reflexivity.
  - destruct (store (ItemLocations s) p DESTROYED); reflexivity.
  - destruct (store (ItemLocations s) p CARRIED); reflexivity.
  - destruct (index (AltCounters s) p); [|reflexivity]. run_monad.
    destruct (store (AltCounters s) p (Counter s)); reflexivity.
  - destruct (index (AltRooms s) p); [|reflexivity]. run_monad.
    destruct (store (AltRooms s) p (CurrentRoom s)); reflexivity.
Qed.

(** The other opcodes have no operand: whatever parameter was fetched for
    the command position, they do what they do at a position beyond the
    condition slots, where no parameter is read. *)
Lemma other_opcodes_ignore_parameter s w cmd pos p :
  fetch_parameter pos s w = Ok p s w ->
  takes_parameter cmd = false ->
  ExecuteCommand cmd pos s w = ExecuteCommand cmd 5 s w.
Proof.
  intros Hp Ht. unfold ExecuteCommand. unfold bind at 1 6. rewrite Hp.
  change (fetch_parameter 5 s w) with (Ok 0 s w). cbn beta iota.
  rewrite !bind_get.
  destruct ((1 <=? cmd) && (cmd <=? 51)); [reflexivity|].
  destruct ((102 <=? cmd) && (cmd <=? 149)); [reflexivity|].
  destruct cmd as [|c|c]; [reflexivity| |reflexivity].
  do 7 (try (destruct c as [c|c|])); try reflexivity;
    exfalso; revert Ht; vm_compute; discriminate.
Qed.

(** Claim C2.  ExecuteCommands runs the two command slots in order; the
    first half of a slot executes at position 0 and the second half of
    slot [i] at position [i + 1].  The parameter a command reads at its
    position is the decoded parameter of the condition slot at that
    position: the condition value divided by 20 (Go's division, which is
    [div] for the non-negative values of an encoding).  The result of a
    command does not depend on the command slots of the action table,
    nor on anything else in the table but the decoded parameters at its
    position and one slot ahead.  Every opcode that has an operand takes
    it from there: with [p] the decoded parameter at the command
    position, 52 is GetItem [p], 53 is DropItem [p], 54 moves the player
    to room [p], 55 and 59 move item [p] to room 0, 58 and 60 set and
    clear flag [p], 74 makes item [p] carried, 79 sets the counter to
    [p], 81 exchanges the counter with alternate counter [p], 82 and 83
    add [p] to and subtract [p] from the counter, and 87 exchanges the
    current room with alternate room [p].  The two-parameter opcodes
    (62, 72, 75) take their second parameter from the next condition
    slot.  Every other opcode has no operand: it does the same whatever
    the parameter at its position is. *)
Theorem command_parameters_come_from_condition_slots :
  forall (s : GameState) (w : World) (actionIndex : Z) (action : Action)
         (c0 c1 : Z),
    wf s ->
    index (Actions s) actionIndex = Some action ->
    Commands action = [c0; c1] ->
    let s1 := set_CurrentAction actionIndex s in
    ExecuteCommands actionIndex s w
    = (modify (set_CurrentAction actionIndex) ;;
       run_slot c0 1 ;; run_slot c1 2 ;; debug_executed actionIndex) s w
    /\ (forall slot c,
        index (Conditions action) slot = Some c ->
        fetch_parameter slot s1 w = Ok (Z.quot c 20) s1 w
        /\ condition_parameter slot s1 w = Ok (Z.quot c 20) s1 w
        /\ (0 <= c -> Z.quot c 20 = c / 20))
    /\ (forall cmd cmdPosition f,
        ExecuteCommand cmd cmdPosition
          (set_Actions (map (recode f) (Actions s1)) s1) w
        = map_state (set_Actions (map (recode f) (Actions s1)))
            (ExecuteCommand cmd cmdPosition s1 w))
    /\ (forall cmd cmdPosition actions',
        fetch_parameter cmdPosition (set_Actions actions' s1) w
        = map_state (set_Actions actions') (fetch_parameter cmdPosition s1 w) ->
        condition_parameter (cmdPosition + 1) (set_Actions actions' s1) w
        = map_state (set_Actions actions')
            (condition_parameter (cmdPosition + 1) s1 w) ->
        ExecuteCommand cmd cmdPosition (set_Actions actions' s1) w
        = map_state (set_Actions actions')
            (ExecuteCommand cmd cmdPosition s1 w))
    /\ (forall cmdPosition c d,
        index (Conditions action) cmdPosition = Some c ->
        index (Conditions action) (cmdPosition + 1) = Some d ->
        let p := Z.quot c 20 in
        let q := Z.quot d 20 in
        ExecuteCommand 54 cmdPosition s1 w
        = Ok tt (set_DisplayedRoom false (set_CurrentRoom p s1)) w
        /\ ExecuteCommand 62 cmdPosition s1 w
           = match store (ItemLocations s1) p q with
             | Some locs => Ok tt (set_ItemLocations locs s1) w
             | None => Panicked
             end
        /\ ExecuteCommand 75 cmdPosition s1 w
           = match index (ItemLocations s1) q with
             | Some loc2 =>
                 match store (ItemLocations s1) p loc2 with
                 | Some locs => Ok tt (set_ItemLocations locs s1) w
                 | None => Panicked
                 end
             | None => Panicked
             end
        /\ ExecuteCommand 72 cmdPosition s1 w
           = match index (ItemLocations s1) q, index (ItemLocations s1) p with
             | Some loc2, Some loc1 =>
                 match store (ItemLocations s1) p loc2 with
                 | Some locs =>
                     match store locs q loc1 with
                     | Some locs' => Ok tt (set_ItemLocations locs' s1) w
                     | None => Panicked
                     end
                 | None => Panicked
                 end
             | _, _ => Panicked
             end)
    /\ (forall cmdPosition c,
        index (Conditions action) cmdPosition = Some c ->
        let p := Z.quot c 20 in
        ExecuteCommand 52 cmdPosition s1 w = GetItem p s1 w
        /\ ExecuteCommand 53 cmdPosition s1 w = DropItem p s1 w
        /\ (forall cmd, cmd = 55 \/ cmd = 59 ->
            ExecuteCommand cmd cmdPosition s1 w
            = match store (ItemLocations s1) p DESTROYED with
              | Some locs => Ok tt (set_ItemLocations locs s1) w
              | None => Panicked
              end)
        /\ ExecuteCommand 58 cmdPosition s1 w
           = Ok tt (set_BitFlags (Z.lor (BitFlags s1) (bit32 p)) s1) w
        /\ ExecuteCommand 60 cmdPosition s1 w
           = Ok tt (set_BitFlags (Z.land (BitFlags s1) (not32 (bit32 p)))
                      s1) w
        /\ ExecuteCommand 74 cmdPosition s1 w
           = match store (ItemLocations s1) p CARRIED with
             | Some locs => Ok tt (set_ItemLocations locs s1) w
             | None => Panicked
             end
        /\ ExecuteCommand 79 cmdPosition s1 w = Ok tt (set_Counter p s1) w
        /\ ExecuteCommand 81 cmdPosition s1 w
           = match index (AltCounters s1) p with
             | Some alt =>
                 match store (AltCounters s1) p (Counter s1) with
                 | Some counters =>
                     Ok tt (set_AltCounters counters (set_Counter alt s1)) w
                 | None => Panicked
                 end
             | None => Panicked
             end
        /\ ExecuteCommand 82 cmdPosition s1 w
           = Ok tt (set_Counter (wrap64 (Counter s1 + p)) s1) w
        /\ ExecuteCommand 83 cmdPosition s1 w
           = Ok tt (set_Counter (if wrap64 (Counter s1 - p) <? -1 then -1
                                 else wrap64 (Counter s1 - p)) s1) w
        /\ ExecuteCommand 87 cmdPosition s1 w
           = match index (AltRooms s1) p with
             | Some alt =>
                 match store (AltRooms s1) p (CurrentRoom s1) with
                 | Some rooms =>
                     Ok tt (set_DisplayedRoom false
                              (set_AltRooms rooms (set_CurrentRoom alt s1))) w
                 | None => Panicked
                 end
             | None => Panicked
             end)
    /\ (forall cmd cmdPosition c,
        index (Conditions action) cmdPosition = Some c ->
        takes_parameter cmd = false ->
        ExecuteCommand cmd cmdPosition s1 w = ExecuteCommand cmd 5 s1 w).
Proof.
  intros s w ai action c0 c1 Hwf Ha Hc s1.
  destruct (wf_action s action ai Hwf Ha) as [Hlen _].
  pose proof (index_Some_range _ _ _ Ha) as Hai.
  assert (Hparam : forall slot c,
             index (Conditions action) slot = Some c ->
             condition_parameter slot s1 w = Ok (Z.quot c 20) s1 w).
  { intros slot c Hs. unfold condition_parameter. rewrite bind_get.
    subst s1. cbn [Actions CurrentAction set_CurrentAction]. rewrite Ha.
    run_monad. rewrite Hs. reflexivity. }
  assert (Hfetch : forall slot c,
             index (Conditions action) slot = Some c ->
             fetch_parameter slot s1 w = Ok (Z.quot c 20) s1 w).
  { intros slot c Hs. unfold fetch_parameter.
    pose proof (index_Some_range _ _ _ Hs) as Hr.
    destruct (Z.ltb_spec slot 5); [|lia]. exact (Hparam slot c Hs). }
  split; [exact (ExecuteCommands_slots s w ai action c0 c1 Ha Hc)|].
  split.
  { intros slot c Hs. split; [exact (Hfetch slot c Hs)|].
    split; [exact (Hparam slot c Hs)|].
    intros Hc0. apply Z.quot_div_nonneg; lia. }
  split.
  { intros cmd pos f. apply ExecuteCommand_frame.
    - apply fetch_parameter_recode.
    - apply condition_parameter_recode. }
  split.
  { intros cmd pos acts' H1 H2. apply ExecuteCommand_frame; assumption. }
  split.
  { intros pos c d Hpc Hpd p q.
    pose proof (index_Some_range _ _ _ Hpd) as Hr.
    apply parameter_opcodes;
      [lia | exact (Hfetch pos c Hpc) | exact (Hparam _ d Hpd)]. }
  split.
  { intros pos c Hpc p.
    exact (single_parameter_opcodes s1 w pos p (Hfetch pos c Hpc)). }
  intros cmd pos c Hpc Ht.
  exact (other_opcodes_ignore_parameter s1 w cmd pos _ (Hfetch pos c Hpc) Ht).
Qed.

Lemma lamp_state_wf : wf lamp_state.
Proof. split; try reflexivity. repeat constructor. Qed.

(** The theorem on the action of the lamp adventure, whose condition
    slots 0 and 1 carry the parameters 9 and 16: its commands AGET and
    SET, at positions 0 and 1, pick up item 9 and set flag 16, and x->y
    at position 0 moves item 9 to room 16. *)
Lemma command_parameters_come_from_condition_slots_witness :
  fetch_parameter 0 (set_CurrentAction 0 lamp_state) sample_world
  = Ok 9 (set_CurrentAction 0 lamp_state) sample_world
  /\ ExecuteCommand 62 0 (set_CurrentAction 0 lamp_state) sample_world
     = Ok tt (set_ItemLocations (<[9%nat := 16]> (ItemLocations lamp_state))
                (set_CurrentAction 0 lamp_state)) sample_world
  /\ ExecuteCommand 74 0 (set_CurrentAction 0 lamp_state) sample_world
     = Ok tt (set_ItemLocations
                (<[9%nat := CARRIED]> (ItemLocations lamp_state))
                (set_CurrentAction 0 lamp_state)) sample_world
  /\ ExecuteCommand 58 1 (set_CurrentAction 0 lamp_state) sample_world
     = Ok tt (set_BitFlags (bit32 16) (set_CurrentAction 0 lamp_state))
         sample_world
  /\ ExecuteCommand 73 1 (set_CurrentAction 0 lamp_state) sample_world
     = ExecuteCommand 73 5 (set_CurrentAction 0 lamp_state) sample_world.
Proof.
  destruct (command_parameters_come_from_condition_slots
              lamp_state sample_world 0
              (mkAction 1 0 [9 * 20; 16 * 20; 0; 0; 0] [74 * 150 + 58; 0])
              (74 * 150 + 58) 0 lamp_state_wf eq_refl eq_refl)
    as (_ & Hparam & _ & _ & Htwo & Hone & Hnone).
  split; [exact (proj1 (Hparam 0 (9 * 20) eq_refl))|].
  split.
  { destruct (Htwo 0 (9 * 20) (16 * 20) eq_refl eq_refl) as (_ & Hmove & _).
    exact Hmove. }
  split.
  { destruct (Hone 0 (9 * 20) eq_refl) as (_ & _ & _ & _ & _ & Hget & _).
    exact Hget. }
  split.
  { destruct (Hone 1 (16 * 20) eq_refl) as (_ & _ & _ & Hset & _).
    exact Hset. }
  exact (Hnone 73 1 (16 * 20) eq_refl eq_refl).
Defined.

(** ** The invariant of the engine

    Every state the engine reaches is well formed and has its integers
    in the ranges of their Go types. *)

Lemma wrap64_range z : is_int64 (wrap64 z).
Proof.
  unfold is_int64, minInt64, maxInt64, wrap64.
  pose proof (Z.mod_pos_bound (z + 2 ^ 63) (2 ^ 64) ltac:(lia)). lia.
Qed.

Lemma quot_range c d : 0 < d -> is_int64 c -> is_int64 (Z.quot c d).
Proof.
  unfold is_int64, minInt64, maxInt64. intros Hd Hc.
  destruct (Z.le_ge_cases 0 c) as [H|H].
  - pose proof (Z.quot_pos c d H Hd).
    assert (Z.quot c d <= c) by (apply Z.quot_le_upper_bound; nia). lia.
  - assert (Hopp : Z.quot c d = - Z.quot (- c) d).
    { rewrite Z.quot_opp_l by lia. lia. }
    pose proof (Z.quot_pos (- c) d ltac:(lia) Hd).
    assert (Z.quot (- c) d <= - c) by (apply Z.quot_le_upper_bound; nia). lia.
Qed.

Lemma uint32_land_ones x : is_uint32 x <-> Z.land x (Z.ones 32) = x.
Proof.
  unfold is_uint32, maxUint32. rewrite Z.land_ones by lia. split.
  - intros H. apply Z.mod_small. lia.
  - intros H. pose proof (Z.mod_pos_bound x (2 ^ 32) ltac:(lia)). lia.
Qed.

Lemma lor_uint32 a b : is_uint32 a -> is_uint32 b -> is_uint32 (Z.lor a b).
Proof.
  rewrite !uint32_land_ones. intros Ha Hb.
  rewrite Z.land_lor_distr_l, Ha, Hb. reflexivity.
Qed.

Lemma land_uint32 a b : is_uint32 a -> is_uint32 (Z.land a b).
Proof.
  rewrite !uint32_land_ones. intros Ha.
  rewrite <- Z.land_assoc, (Z.land_comm b), Z.land_assoc, Ha. reflexivity.
Qed.

Lemma bit32_uint32 p : is_uint32 (bit32 p).
Proof.
  unfold bit32, is_uint32, maxUint32.
  destruct (Z.leb_spec 0 p); cbn [andb]; [|lia].
  destruct (Z.ltb_spec p 32); [|lia].
  rewrite Z.shiftl_1_l.
  pose proof (Z.pow_pos_nonneg 2 p ltac:(lia) ltac:(lia)).
  assert (2 ^ p < 2 ^ 32) by (apply Z.pow_lt_mono_r; lia). lia.
Qed.

Lemma store_keeps {A : Type} (P : A -> Prop) (l l' : list A) i v :
  store l i v = Some l' ->
  length l' = length l /\ (Forall P l -> P v -> Forall P l').
Proof.
  unfold store. destruct ((0 <=? i) && (i <? Z.of_nat (length l)));
    [|discriminate].
  intros H. injection H as <-. split; [apply length_insert|].
  intros Hl Hv. apply Forall_insert; assumption.
Qed.

Lemma index_keeps {A : Type} (P : A -> Prop) (l : list A) i v :
  index l i = Some v -> Forall P l -> P v.
Proof.
  unfold index. destruct (i <? 0); [discriminate|].
  intros H Hl. rewrite Forall_lookup in Hl. exact (Hl _ _ H).
Qed.

Section Setters.
Variable s : GameState.
Hypothesis Hok : state_ok s.

Lemma ok_CurrentRoom v : is_int64 v -> state_ok (set_CurrentRoom v s).
Proof.
  destruct Hok as ([] & [] & []). intros Hv.
  split; [|split]; constructor; assumption.
Qed.

Lemma ok_Counter v : is_int64 v -> state_ok (set_Counter v s).
Proof.
  destruct Hok as ([] & [] & []). intros Hv.
  split; [|split]; constructor; assumption.
Qed.

Lemma ok_BitFlags v : is_uint32 v -> state_ok (set_BitFlags v s).
Proof.
  destruct Hok as ([] & [] & []). intros Hv.
  split; [|split]; constructor; assumption.
Qed.

Lemma ok_ItemLocations l :
  length l = length (ItemLocations s) -> Forall is_int64 l ->
  state_ok (set_ItemLocations l s).
Proof.
  destruct Hok as ([] & [] & []). intros Hl Hv.
  split; [|split]; constructor; cbn [ItemLocations set_ItemLocations Header
    Items AltCounters AltRooms Actions]; try assumption; congruence.
Qed.

Lemma ok_AltCounters l :
  length l = length (AltCounters s) -> Forall is_int64 l ->
  state_ok (set_AltCounters l s).
Proof.
  destruct Hok as ([] & [] & []). intros Hl Hv.
  split; [|split]; constructor; cbn [ItemLocations set_AltCounters Header
    Items AltCounters AltRooms Actions]; try assumption; congruence.
Qed.

Lemma ok_AltRooms l :
  length l = length (AltRooms s) -> Forall is_int64 l ->
  state_ok (set_AltRooms l s).
Proof.
  destruct Hok as ([] & [] & []). intros Hl Hv.
  split; [|split]; constructor; cbn [ItemLocations set_AltRooms Header
    Items AltCounters AltRooms Actions]; try assumption; congruence.
Qed.

Lemma ok_ContinueFlag b : state_ok (set_ContinueFlag b s).
Proof. destruct Hok as ([] & [] & []). split; [|split]; constructor; assumption. Qed.

Lemma ok_DisplayedRoom b : state_ok (set_DisplayedRoom b s).
Proof. destruct Hok as ([] & [] & []). split; [|split]; constructor; assumption. Qed.

Lemma ok_CurrentAction i : state_ok (set_CurrentAction i s).
Proof. destruct Hok as ([] & [] & []). split; [|split]; constructor; assumption. Qed.
End Setters.

Ltac projections_in H :=
  cbn [Header Rooms Items Actions Words Messages ActionTitles CurrentRoom
       ItemLocations BitFlags Counter AltCounters AltRooms ContinueFlag
       DisplayedRoom Debug CurrentAction set_Actions set_ItemLocations
       set_CurrentRoom set_BitFlags set_Counter set_AltCounters set_AltRooms
       set_ContinueFlag set_DisplayedRoom set_CurrentAction] in H.

Ltac run_monad_in H :=
  unfold must, when, fmt_Println, fmt_Print in H;
  unfold bind, ret, get, modify, panic, get_world, modify_world in H;
  cbn beta iota in H; projections_in H.

(** Follow the run recorded in [H : ... = Ok a s' w'] to its end. *)
Ltac invert_run H :=
  run_monad_in H;
  repeat (match type of H with
          | context [match ?x with _ => _ end] => destruct_innermost x
          end; run_monad_in H; try discriminate H);
  try (injection H as <- <-).

Ltac range_tac :=
  match goal with
  | |- length _ = length _ => congruence
  | |- is_int64 (wrap64 _) => apply wrap64_range
  | |- is_int64 (Z.quot _ _) => apply quot_range; [lia | range_tac]
  | |- is_int64 (if ?b then _ else _) => destruct b; range_tac
  | |- is_uint32 (Z.lor _ _) =>
      apply lor_uint32; [range_tac | apply bit32_uint32]
  | |- is_uint32 (Z.land _ _) => apply land_uint32; range_tac
  | H : _ -> _ -> Forall is_int64 ?l |- Forall is_int64 ?l =>
      apply H; range_tac
  | H : _ -> is_int64 ?v |- is_int64 ?v => apply H; range_tac
  | |- _ =>
      solve [ assumption
            | unfold is_int64, minInt64, maxInt64, CARRIED, DESTROYED; lia ]
  end.

Ltac side_ok :=
  cbn [Header Rooms Items Actions Words Messages ActionTitles CurrentRoom
       ItemLocations BitFlags Counter AltCounters AltRooms ContinueFlag
       DisplayedRoom Debug CurrentAction set_Actions set_ItemLocations
       set_CurrentRoom set_BitFlags set_Counter set_AltCounters set_AltRooms
       set_ContinueFlag set_DisplayedRoom set_CurrentAction];
  repeat match goal with
         | H : store _ _ _ = Some _ |- _ =>
             destruct (store_keeps is_int64 _ _ _ _ H); clear H
         | H : @index Z _ _ = Some _ |- _ =>
             pose proof (index_keeps is_int64 _ _ _ H); clear H
         end;
  try match goal with
      | Hok : state_ok _ |- _ => destruct Hok as ([] & [] & []); range_tac
      end.

Ltac ok_tac :=
  repeat first
    [ apply ok_CurrentRoom | apply ok_Counter | apply ok_BitFlags
    | apply ok_ItemLocations | apply ok_AltCounters | apply ok_AltRooms
    | apply ok_ContinueFlag | apply ok_DisplayedRoom | apply ok_CurrentAction ];
  try assumption; side_ok.

Lemma GetItem_ok n s w s' w' :
  state_ok s -> GetItem n s w = Ok tt s' w' -> state_ok s'.
Proof.
  intros Hok H. unfold GetItem in H. invert_run H; ok_tac.
Qed.

Lemma DropItem_ok n s w s' w' :
  state_ok s -> DropItem n s w = Ok tt s' w' -> state_ok s'.
Proof.
  intros Hok H. unfold DropItem in H. invert_run H; ok_tac.
Qed.

Lemma inventory_loop_pure locs :
  forall i count s w c s' w',
    inventory_loop i locs count s w = Ok c s' w' -> s' = s.
Proof.
  induction locs as [|loc locs IH]; intros i count s w c s' w' H.
  - injection H as _ <- _. reflexivity.
  - cbn [inventory_loop] in H. rewrite bind_get in H.
    destruct ((i <=? NumItems (Header s)) && (loc =? CARRIED)).
    + unfold bind, must, fmt_Print in H.
      destruct (getItemDescription s i); [|discriminate].
      cbn beta iota in H. exact (IH _ _ _ _ _ _ _ H).
    + exact (IH _ _ _ _ _ _ _ H).
Qed.

Lemma DisplayInventory_pure s w s' w' :
  DisplayInventory s w = Ok tt s' w' -> s' = s.
Proof.
  unfold DisplayInventory. run_monad.
  destruct (inventory_loop 0 (ItemLocations s) 0 s _) as [c s1 w1| |] eqn:E;
    try discriminate.
  apply inventory_loop_pure in E. subst s1.
  destruct (c =? 0); intros H; injection H as <- _; reflexivity.
Qed.

Lemma DisplayScore_pure s w s' w' :
  DisplayScore s w = Ok tt s' w' -> s' = s.
Proof.
  intros H. unfold DisplayScore in H. invert_run H; reflexivity.
Qed.

Lemma SaveGame_pure s w s' w' : SaveGame s w = Ok tt s' w' -> s' = s.
Proof.
  intros H. unfold SaveGame, ReadLine in H. invert_run H; reflexivity.
Qed.

Lemma condition_parameter_range slot s w p s' w' :
  state_ok s -> condition_parameter slot s w = Ok p s' w' ->
  s' = s /\ w' = w /\ is_int64 p.
Proof.
  intros (Hwf & Hr & [Hc _ _]) H. unfold condition_parameter in H.
  run_monad_in H.
  destruct (index (Actions s) (CurrentAction s)) as [a|] eqn:Ea;
    [|discriminate].
  run_monad_in H.
  destruct (index (Conditions a) slot) as [c|] eqn:Ec; [|discriminate].
  injection H as <- <- <-. split; [reflexivity|]. split; [reflexivity|].
  apply quot_range; [lia|].
  apply (index_keeps is_int64 _ _ _ Ec).
  exact (index_keeps _ _ _ _ Ea Hc).
Qed.

Lemma fetch_parameter_range pos s w p s' w' :
  state_ok s -> fetch_parameter pos s w = Ok p s' w' ->
  s' = s /\ w' = w /\ is_int64 p.
Proof.
  intros Hok. unfold fetch_parameter. destruct (pos <? 5).
  - apply condition_parameter_range. exact Hok.
  - intros H. injection H as <- <- <-.
    split; [reflexivity|]. split; [reflexivity|].
    unfold is_int64, minInt64, maxInt64. lia.
Qed.

(** Every command preserves the invariant. *)
Lemma ExecuteCommand_ok cmd pos s w s' w' :
  state_ok s -> ExecuteCommand cmd pos s w = Ok tt s' w' -> state_ok s'.
Proof.
  intros Hok H. unfold ExecuteCommand in H. unfold bind at 1 in H.
  destruct (fetch_parameter pos s w) as [p s1 w1| |] eqn:Ep; try discriminate.
  destruct (fetch_parameter_range _ _ _ _ _ _ Hok Ep) as (-> & -> & Hp).
  rewrite bind_get in H.
  destruct ((1 <=? cmd) && (cmd <=? 51)); [invert_run H; exact Hok|].
  destruct ((102 <=? cmd) && (cmd <=? 149)); [invert_run H; exact Hok|].
  destruct cmd as [|c|c]; [injection H as <- _; exact Hok| |
                           injection H as <- _; exact Hok].
  do 7 (try (destruct c as [c|c|]));
    try (injection H as <- _; exact Hok);
    try (apply GetItem_ok in H; assumption);
    try (apply DropItem_ok in H; assumption);
    try (apply DisplayScore_pure in H; subst; assumption);
    try (apply DisplayInventory_pure in H; subst; assumption);
    try (apply SaveGame_pure in H; subst; assumption).
  all: try (destruct (pos <? 5));
    try (destruct (pos <? 4));
    try (injection H as <- _; exact Hok);
    try (unfold bind at 1 in H;
         destruct (condition_parameter (pos + 1) s w) as [q s1 w1| |] eqn:Eq;
         try discriminate;
         destruct (condition_parameter_range _ _ _ _ _ _ Hok Eq)
           as (-> & -> & Hq)).
  all: invert_run H; ok_tac.
Qed.

Lemma EvaluateCondition_pure code p s w b s' w' :
  EvaluateCondition code p s w = Ok b s' w' -> s' = s.
Proof.
  intros H. unfold EvaluateCondition in H. rewrite bind_get in H.
  destruct code as [|c|c]; [injection H as _ <- _; reflexivity| |
                            invert_run H; reflexivity].
  do 5 (try (destruct c as [c|c|])); invert_run H; reflexivity.
Qed.

Lemma check_slots_pure conds :
  forall s w b s' w', check_slots conds s w = Ok b s' w' -> s' = s.
Proof.
  induction conds as [|c conds IH]; intros s w b s' w' H.
  - injection H as _ <- _. reflexivity.
  - cbn [check_slots] in H. destruct (c =? 0); [exact (IH _ _ _ _ _ H)|].
    unfold bind in H.
    destruct (EvaluateCondition (Z.rem c 20) (Z.quot c 20) s w)
      as [ok s1 w1| |] eqn:E; try discriminate.
    apply EvaluateCondition_pure in E. subst s1.
    destruct ok; [exact (IH _ _ _ _ _ H)|].
    injection H as _ <- _. reflexivity.
Qed.

Lemma execute_pair_ok action i s w s' w' :
  state_ok s -> execute_pair action i s w = Ok tt s' w' -> state_ok s'.
Proof.
  intros Hok H. unfold execute_pair in H. unfold bind at 1 in H.
  unfold must in H. destruct (index (Commands action) i) as [cmd|];
    [|discriminate].
  unfold ret at 1 in H. cbn beta iota in H.
  destruct (cmd =? 0); [injection H as <- _; exact Hok|].
  unfold bind in H.
  destruct (ExecuteCommand (Z.quot cmd 150) 0 s w) as [[] s1 w1| |] eqn:E1;
    try discriminate.
  apply (ExecuteCommand_ok _ _ _ _ _ _ Hok) in E1.
  exact (ExecuteCommand_ok _ _ _ _ _ _ E1 H).
Qed.

Lemma ExecuteCommands_ok actionIndex s w s' w' :
  state_ok s -> ExecuteCommands actionIndex s w = Ok tt s' w' -> state_ok s'.
Proof.
  intros Hok H. unfold ExecuteCommands in H.
  unfold bind at 1 in H. unfold modify in H. cbn beta iota in H.
  rewrite bind_get in H. unfold bind at 1 in H. unfold must in H.
  destruct (index (Actions (set_CurrentAction actionIndex s)) actionIndex)
    as [action|]; [|discriminate].
  unfold ret at 1 in H. cbn beta iota in H.
  pose proof (ok_CurrentAction s Hok actionIndex) as Hok1.
  unfold bind at 1 in H.
  destruct (execute_pair action 0 _ w) as [[] s1 w1| |] eqn:E0;
    try discriminate.
  apply (execute_pair_ok _ _ _ _ _ _ Hok1) in E0.
  unfold bind at 1 in H.
  destruct (execute_pair action 1 s1 w1) as [[] s2 w2| |] eqn:E1;
    try discriminate.
  apply (execute_pair_ok _ _ _ _ _ _ E0) in E1.
  unfold debug_executed in H. invert_run H; exact E1.
Qed.

Lemma UpdateLightSource_ok s w s' w' :
  state_ok s -> UpdateLightSource s w = Ok tt s' w' -> state_ok s'.
Proof.
  intros Hok H. unfold UpdateLightSource in H. invert_run H; ok_tac.
Qed.

Lemma digit_val_range c d : digit_val c = Some d -> 0 <= d <= 9.
Proof.
  unfold digit_val.
  destruct (Z.leb_spec 48 (Z.of_N (N_of_ascii c))) as [Hlo|Hlo];
    destruct (Z.leb_spec (Z.of_N (N_of_ascii c)) 57) as [Hhi|Hhi];
    cbn [andb]; try discriminate.
  intros E. injection E as <-. lia.
Qed.

Lemma parse_digits_range maxVal s :
  forall n v, 0 <= n -> parse_digits maxVal s n = inl v -> 0 <= v <= maxVal \/ (s = EmptyString /\ v = n).
Proof.
  induction s as [|c s IH]; intros n v Hn H.
  - injection H as <-. right. split; reflexivity.
  - cbn [parse_digits] in H. destruct (digit_val c) as [d|] eqn:Ed;
      [|discriminate].
    apply digit_val_range in Ed. cbv zeta in H.
    destruct (Z.ltb_spec maxVal (n * 10 + d)) as [Hgt|Hle]; [discriminate|].
    assert (Hn1 : 0 <= n * 10 + d) by lia.
    destruct (IH _ _ Hn1 H) as [Hv | [_ ->]]; left; lia.
Qed.

Lemma ParseUint_range s : is_uint32 (fst (ParseUint s maxUint32)).
Proof.
  assert (Hm : 0 <= maxUint32) by (unfold maxUint32; lia).
  unfold ParseUint, is_uint32. destruct s as [|c s]; [cbn [fst]; lia|].
  destruct (parse_digits maxUint32 (String c s) 0) as [v|[]] eqn:E;
    cbn [fst]; try lia.
  destruct (parse_digits_range _ _ _ _ (Z.le_refl 0) E) as [H | [H _]];
    [exact H | discriminate].
Qed.

Lemma Atoi_range s : is_int64 (fst (Atoi s)).
Proof.
  assert (Hm : maxUint64 = 2 ^ 64 - 1) by reflexivity.
  unfold Atoi, ParseInt, is_int64, minInt64, maxInt64.
  destruct s as [|c s]; [cbn [fst]; lia|].
  set (neg := Ascii.eqb c "-").
  set (body := if neg || Ascii.eqb c "+" then s else String c s).
  destruct body as [|c' body']; [cbn [fst]; lia|].
  destruct (parse_digits maxUint64 (String c' body') 0) as [v|[]] eqn:E.
  - destruct (parse_digits_range _ _ _ _ (Z.le_refl 0) E) as [H | [H _]];
      [|discriminate].
    destruct neg; cbn [negb andb].
    + destruct (Z.ltb_spec (2 ^ 63) v); cbn [fst]; lia.
    + destruct (Z.leb_spec (2 ^ 63) v); cbn [fst]; lia.
  - cbn [fst]. lia.
  - destruct neg; cbn [negb andb].
    + destruct (Z.ltb_spec (2 ^ 63) maxUint64); cbn [fst]; lia.
    + destruct (Z.leb_spec (2 ^ 63) maxUint64); cbn [fst]; lia.
Qed.

Lemma load_loop_ok assign :
  (forall i v s w s' w', is_int64 v -> state_ok s ->
                         assign i v s w = Ok tt s' w' -> state_ok s') ->
  forall n i lines s w r s' w',
    state_ok s -> load_loop n i assign lines s w = Ok r s' w' -> state_ok s'.
Proof.
  intros Hassign. induction n as [|n IH]; intros i lines s w r s' w' Hok H.
  - injection H as _ <- _. exact Hok.
  - cbn [load_loop] in H. destruct lines as [|l rest].
    + unfold read_error in H. invert_run H. exact Hok.
    + unfold bind in H.
      destruct (assign i (fst (Atoi l)) s w) as [[] s1 w1| |] eqn:E;
        try discriminate.
      apply (Hassign _ _ _ _ _ _ (Atoi_range l) Hok) in E.
      exact (IH _ _ _ _ _ _ _ E H).
Qed.

Lemma assign_AltRoom_ok i v s w s' w' :
  is_int64 v -> state_ok s -> assign_AltRoom i v s w = Ok tt s' w' ->
  state_ok s'.
Proof.
  intros Hv Hok H. rewrite assign_AltRoom_spec in H.
  destruct (store (AltRooms s) i v) eqn:E; [|discriminate].
  injection H as <- _. ok_tac.
Qed.

Lemma assign_AltCounter_ok i v s w s' w' :
  is_int64 v -> state_ok s -> assign_AltCounter i v s w = Ok tt s' w' ->
  state_ok s'.
Proof.
  intros Hv Hok H. rewrite assign_AltCounter_spec in H.
  destruct (store (AltCounters s) i v) eqn:E; [|discriminate].
  injection H as <- _. ok_tac.
Qed.

Lemma assign_ItemLocation_ok i v s w s' w' :
  is_int64 v -> state_ok s -> assign_ItemLocation i v s w = Ok tt s' w' ->
  state_ok s'.
Proof.
  intros Hv Hok H. rewrite assign_ItemLocation_spec in H.
  destruct (store (ItemLocations s) i v) eqn:E; [|discriminate].
  injection H as <- _. ok_tac.
Qed.

Lemma read_error_pure s w s' w' : read_error s w = Ok tt s' w' -> s' = s.
Proof. intros H. injection H as <- _. reflexivity. Qed.

Lemma load_from_ok lines s w s' w' :
  state_ok s -> load_from lines s w = Ok tt s' w' -> state_ok s'.
Proof.
  intros Hok H. unfold load_from in H. rewrite bind_get in H.
  destruct lines as [|l0 lines];
    [apply read_error_pure in H; subst; exact Hok|].
  destruct (negb (fst (Atoi l0) =? AdventureNumber (Header s)));
    [injection H as <- _; exact Hok|].
  destruct lines as [|l1 lines];
    [apply read_error_pure in H; subst; exact Hok|].
  unfold bind at 1 in H. unfold modify at 1 in H. cbn beta iota in H.
  pose proof (ok_CurrentRoom s Hok _ (Atoi_range l1)) as Hok1.
  destruct lines as [|l2 lines];
    [apply read_error_pure in H; subst; exact Hok1|].
  unfold bind at 1 in H. unfold modify at 1 in H. cbn beta iota in H.
  pose proof (ok_Counter _ Hok1 _ (Atoi_range l2)) as Hok2.
  destruct lines as [|l3 lines];
    [apply read_error_pure in H; subst; exact Hok2|].
  unfold bind at 1 in H. unfold modify at 1 in H. cbn beta iota in H.
  pose proof (ok_BitFlags _ Hok2 _ (ParseUint_range l3)) as Hok3.
  destruct lines as [|l4 lines];
    [apply read_error_pure in H; subst; exact Hok3|].
  unfold bind at 1 in H.
  destruct (assign_AltCounter 8 (fst (Atoi l4)) _ w) as [[] s4 w4| |] eqn:E4;
    try discriminate.
  apply (assign_AltCounter_ok _ _ _ _ _ _ (Atoi_range l4) Hok3) in E4.
  unfold bind at 1 in H.
  destruct (load_loop 6 0 assign_AltRoom lines s4 w4) as [r s5 w5| |] eqn:E5;
    try discriminate.
  apply (load_loop_ok _ assign_AltRoom_ok _ _ _ _ _ _ _ _ E4) in E5.
  destruct r as [lines5|]; [|injection H as <- _; exact E5].
  unfold bind at 1 in H.
  destruct (load_loop 8 0 assign_AltCounter lines5 s5 w5)
    as [r s6 w6| |] eqn:E6; try discriminate.
  apply (load_loop_ok _ assign_AltCounter_ok _ _ _ _ _ _ _ _ E5) in E6.
  destruct r as [lines6|]; [|injection H as <- _; exact E6].
  unfold bind at 1 in H.
  destruct (load_loop _ 0 assign_ItemLocation lines6 s6 w6)
    as [r s7 w7| |] eqn:E7; try discriminate.
  apply (load_loop_ok _ assign_ItemLocation_ok _ _ _ _ _ _ _ _ E6) in E7.
  destruct r as [lines7|]; [|injection H as <- _; exact E7].
  invert_run H. apply ok_DisplayedRoom. exact E7.
Qed.

Lemma LoadGame_ok s w s' w' :
  state_ok s -> LoadGame s w = Ok tt s' w' -> state_ok s'.
Proof.
  intros Hok H. unfold LoadGame, ReadLine in H.
  unfold bind at 1 in H. unfold fmt_Print at 1 in H. cbn beta iota in H.
  unfold bind at 1 in H.
  destruct (stdin _) as [|l rest]; cbn beta iota in H;
    unfold bind at 1 in H; unfold get_world in H; cbn beta iota in H;
    match type of H with
    | context [assoc ?k ?fs] => destruct (assoc k fs) as [lines|]
    end;
    try (injection H as <- _; exact Hok);
    exact (load_from_ok _ _ _ _ _ Hok H).
Qed.

(** Every reachable state satisfies the invariant. *)
Lemma reachable_state_ok s0 s :
  state_ok s0 -> reachable s0 s -> state_ok s.
Proof.
  intros Hok Hreach.
  induction Hreach as
    [ | s code p w b s' w' _ IH H | s cmd pos w s' w' _ IH H
      | s ai w s' w' _ IH H | s n w s' w' _ IH H | s n w s' w' _ IH H
      | s w s' w' _ IH H | s w s' w' _ IH H ].
  - exact Hok.
  - apply EvaluateCondition_pure in H. subst. exact IH.
  - exact (ExecuteCommand_ok _ _ _ _ _ _ IH H).
  - exact (ExecuteCommands_ok _ _ _ _ _ IH H).
  - exact (GetItem_ok _ _ _ _ _ IH H).
  - exact (DropItem_ok _ _ _ _ _ IH H).
  - exact (UpdateLightSource_ok _ _ _ _ IH H).
  - exact (LoadGame_ok _ _ _ _ IH H).
Qed.

(** ** Save / load round trip on reachable states *)

(** Claim C7.  For every state [s] reachable from an initial state that
    is well formed with its integers in the ranges of their Go types,
    saving [s] and then loading the saved file into any well-formed
    state [t] of the same adventure succeeds and restores the saved
    fields exactly: current room, counter, flag word, the alternate
    counters with the light counter, the alternate rooms and the whole
    item-location table are those of [s].  Loading into [s] itself gives
    [s] back, with the room due to be displayed. *)
Theorem save_then_load_restores_saved_fields :
  forall (s0 s t : GameState) (w : World) (name : string)
         (rest : list string),
    state_ok s0 -> reachable s0 s ->
    wf t -> Header t = Header s ->
    stdin w = name :: name :: rest ->
    assoc (default_save_name name) (unwritable w) = None ->
    exists w1 w2,
      SaveGame s w = Ok tt s w1
      /\ LoadGame t w1 = Ok tt (loaded s t) w2
      /\ CurrentRoom (loaded s t) = CurrentRoom s
      /\ Counter (loaded s t) = Counter s
      /\ BitFlags (loaded s t) = BitFlags s
      /\ AltCounters (loaded s t) = AltCounters s
      /\ AltRooms (loaded s t) = AltRooms s
      /\ ItemLocations (loaded s t) = ItemLocations s
      /\ loaded s s = set_DisplayedRoom false s
      /\ last (stdout w2) = Some ("Game loaded." +:+ nl).
Proof.
  intros s0 s t w name rest Hok0 Hreach Ht Hh Hin Hun.
  destruct (reachable_state_ok s0 s Hok0 Hreach) as (Hwf & Hrange & _).
  exact (save_then_load s t w name rest Hwf Hrange Ht Hh Hin Hun).
Qed.

Lemma lamp_state_ok : state_ok lamp_state.
Proof.
  split; [exact lamp_state_wf|]. split.
  - split; unfold is_int64, is_uint32, minInt64, maxInt64, maxUint32;
      cbn; unfold CARRIED; try lia;
      repeat (constructor; [unfold is_int64, minInt64, maxInt64; lia|]);
      constructor.
  - split; unfold is_int64, minInt64, maxInt64; cbn; try lia.
    repeat constructor; unfold is_int64, minInt64, maxInt64; lia.
Qed.

(** The theorem for the lamp adventure, saved after its first action
    (which picks up the lamp and sets flag 16) and loaded back into its
    initial state. *)
Lemma save_then_load_restores_saved_fields_witness :
  exists s w0 w1 w2,
    ExecuteCommands 0 lamp_state sample_world = Ok tt s w0
    /\ SaveGame s sample_world = Ok tt s w1
    /\ LoadGame lamp_state w1 = Ok tt (loaded s lamp_state) w2
    /\ ItemLocations (loaded s lamp_state) = ItemLocations s
    /\ BitFlags (loaded s lamp_state) = 65536.
Proof.
  destruct (ExecuteCommands 0 lamp_state sample_world) as [[] s w0| |] eqn:E;
    try (vm_compute in E; discriminate E).
  destruct (save_then_load_restores_saved_fields lamp_state s lamp_state
              sample_world "game.sav" [])
    as (w1 & w2 & Hsave & Hload & _ & _ & Hflags & _ & _ & Hitems & _).
  - exact lamp_state_ok.
  - exact (reach_action lamp_state lamp_state 0 sample_world s w0
             (reach_start lamp_state) E).
  - exact lamp_state_wf.
  - vm_compute in E. injection E as <- _. reflexivity.
  - reflexivity.
  - reflexivity.
  - exists s, w0, w1, w2. split; [reflexivity|]. split; [exact Hsave|].
    split; [exact Hload|]. split; [exact Hitems|].
    rewrite Hflags. vm_compute in E. injection E as <- _. reflexivity.
Defined.

(** ** Picking up and dropping *)

Ltac world_simpl :=
  unfold printed, set_stdout;
  cbn [stdout stdin files unwritable random drawn app];
  rewrite <- ?app_assoc; cbn [app].

Lemma count_carried_insert numItems v :
  forall (l : list Z) (i : Z) (k : nat),
    count_carried numItems i (<[k := v]> l) <= count_carried numItems i l + 1.
Proof.
  induction l as [|x l IH]; intros i k.
  - destruct k; cbn; lia.
  - destruct k as [|k].
    + change (<[0%nat := v]> (x :: l)) with (v :: l). cbn [count_carried].
      destruct ((i <=? numItems) && (v =? CARRIED));
        destruct ((i <=? numItems) && (x =? CARRIED)); lia.
    + specialize (IH (i + 1) k).
      change (<[S k := v]> (x :: l)) with (x :: <[k := v]> l).
      cbn [count_carried].
      destruct ((i <=? numItems) && (x =? CARRIED)); lia.
Qed.

Lemma getItemDescription_is_Some s n :
  wf s -> 0 <= n <= NumItems (Header s) ->
  exists desc, getItemDescription s n = Some desc.
Proof.
  intros Hwf Hn. unfold getItemDescription.
  destruct (Z.ltb_spec n 0); [lia|].
  destruct (Z.ltb_spec (NumItems (Header s)) n); [lia|]. cbn [orb].
  destruct (index_is_Some (Items s) n) as [item Hitem].
  { rewrite (wf_items s Hwf). pose proof (wf_locations s Hwf). lia. }
  rewrite Hitem. eauto.
Qed.

(** A successful GET: the item lies in the current room and the player
    carries fewer than MaxCarry items. *)
Lemma GetItem_success s w n :
  wf s -> 0 < n <= NumItems (Header s) ->
  index (ItemLocations s) n = Some (CurrentRoom s) ->
  carried_items s < MaxCarry (Header s) ->
  exists desc dbg,
    getItemDescription s n = Some desc
    /\ GetItem n s w
       = Ok tt (set_ItemLocations (<[Z.to_nat n := CARRIED]> (ItemLocations s)) s)
           (printed (("I'm now carrying the " +:+ desc +:+ nl) :: dbg) w)
    /\ (Debug s = false -> dbg = []).
Proof.
  intros Hwf Hn Hloc Hroom.
  destruct (getItemDescription_is_Some s n Hwf) as [desc Hdesc]; [lia|].
  pose proof (index_Some_range _ _ _ Hloc) as Hr.
  exists desc.
  exists (if Debug s
          then ["[DEBUG] Picked up item " +:+ format_int n
                +:+ ", now in inventory" +:+ nl]
          else []).
  split; [exact Hdesc|]. split; [|intros ->; reflexivity].
  unfold GetItem. run_monad.
  destruct (Z.leb_spec n 0); [lia|].
  destruct (Z.ltb_spec (NumItems (Header s)) n); [lia|]. cbn [orb].
  rewrite Hloc. run_monad. rewrite Z.eqb_refl. cbn [negb].
  destruct (Z.leb_spec (MaxCarry (Header s)) (carried_items s)); [lia|].
  rewrite (store_Some _ n) by exact Hr. run_monad.
  rewrite Hdesc. run_monad.
  destruct (Debug s); cbn beta iota; world_simpl; reflexivity.
Qed.

(** A successful DROP: the item is carried. *)
Lemma DropItem_success s w n :
  wf s -> 0 < n <= NumItems (Header s) ->
  index (ItemLocations s) n = Some CARRIED ->
  exists desc dbg,
    getItemDescription s n = Some desc
    /\ DropItem n s w
       = Ok tt (set_ItemLocations (<[Z.to_nat n := CurrentRoom s]> (ItemLocations s)) s)
           (printed (("I've dropped the " +:+ desc +:+ nl) :: dbg) w)
    /\ (Debug s = false -> dbg = []).
Proof.
  intros Hwf Hn Hloc.
  destruct (getItemDescription_is_Some s n Hwf) as [desc Hdesc]; [lia|].
  pose proof (index_Some_range _ _ _ Hloc) as Hr.
  exists desc.
  exists (if Debug s
          then ["[DEBUG] Dropped item " +:+ format_int n
                +:+ ", now in room " +:+ format_int (CurrentRoom s) +:+ nl]
          else []).
  split; [exact Hdesc|]. split; [|intros ->; reflexivity].
  unfold DropItem. run_monad.
  destruct (Z.leb_spec n 0); [lia|].
  destruct (Z.ltb_spec (NumItems (Header s)) n); [lia|]. cbn [orb].
  rewrite Hloc. run_monad. change (CARRIED =? CARRIED) with true. cbn [negb].
  rewrite (store_Some _ n) by exact Hr. run_monad.
  rewrite Hdesc. run_monad.
  destruct (Debug s); cbn beta iota; world_simpl; reflexivity.
Qed.

Lemma set_ItemLocations_wf l s :
  wf s -> length l = length (ItemLocations s) -> wf (set_ItemLocations l s).
Proof.
  intros [H1 H2 H3 H4 H5] Hl. split; cbn; rewrite ?Hl; assumption.
Qed.

Lemma index_insert_ne {A : Type} (l : list A) (i : nat) (m : Z) (v : A) :
  m <> Z.of_nat i -> index (<[i := v]> l) m = index l m.
Proof.
  intros H. unfold index. destruct (Z.ltb_spec m 0); [reflexivity|].
  apply list_lookup_insert_ne. lia.
Qed.

Lemma roomy_state_wf : wf roomy_state.
Proof. split; try reflexivity. repeat constructor. Qed.

(** GET followed by DROP.  When an item of the current room is picked up
    with room left in the inventory, the item, and only the item, becomes
    carried; dropping it at once puts the game state back exactly as it
    was before the GET. *)
Theorem GetItem_then_DropItem_restores_state :
  forall (s : GameState) (w : World) (itemNumber : Z),
    wf s ->
    0 < itemNumber <= NumItems (Header s) ->
    index (ItemLocations s) itemNumber = Some (CurrentRoom s) ->
    carried_items s < MaxCarry (Header s) ->
    exists s1 w1 w2,
      GetItem itemNumber s w = Ok tt s1 w1
      /\ index (ItemLocations s1) itemNumber = Some CARRIED
      /\ (forall m, m <> itemNumber ->
          index (ItemLocations s1) m = index (ItemLocations s) m)
      /\ DropItem itemNumber s1 w1 = Ok tt s w2.
Proof.
  intros s w n Hwf Hn Hloc Hroom.
  destruct (GetItem_success s w n Hwf Hn Hloc Hroom) as (desc & dbg & _ & Hget & _).
  pose proof (index_Some_range _ _ _ Hloc) as Hr.
  set (s1 := set_ItemLocations (<[Z.to_nat n := CARRIED]> (ItemLocations s)) s) in *.
  assert (Hwf1 : wf s1).
  { apply set_ItemLocations_wf; [exact Hwf|]. apply length_insert. }
  assert (Hc : index (ItemLocations s1) n = Some CARRIED).
  { unfold s1. cbn [ItemLocations set_ItemLocations].
    replace n with (Z.of_nat (Z.to_nat n)) at 2 by lia.
    apply index_insert_eq. lia. }
  destruct (DropItem_success s1 (printed (("I'm now carrying the " +:+ desc +:+ nl) :: dbg) w)
              n Hwf1 Hn Hc) as (desc' & dbg' & _ & Hdrop & _).
  eexists s1, _, _. split; [exact Hget|]. split; [exact Hc|]. split.
  - intros m Hm. unfold s1. cbn [ItemLocations set_ItemLocations].
    apply index_insert_ne. lia.
  - rewrite Hdrop. f_equal.
    unfold s1. cbn [ItemLocations set_ItemLocations CurrentRoom].
    rewrite list_insert_insert_eq.
    unfold index in Hloc. destruct (n <? 0); [discriminate|].
    rewrite (list_insert_id _ _ _ Hloc). destruct s; reflexivity.
Qed.

(** The theorem on the axe (item 1) of the sample adventure, in the start
    room, once the bottle has been put down to make room for it. *)
Lemma GetItem_then_DropItem_restores_state_witness :
  exists s1 w1 w2,
    GetItem 1 roomy_state sample_world = Ok tt s1 w1
    /\ index (ItemLocations s1) 1 = Some CARRIED
    /\ (forall m, m <> 1 ->
        index (ItemLocations s1) m = index (ItemLocations roomy_state) m)
    /\ DropItem 1 s1 w1 = Ok tt roomy_state w2.
Proof.
  apply (GetItem_then_DropItem_restores_state roomy_state sample_world 1).
  - exact roomy_state_wf.
  - simpl. lia.
  - reflexivity.
  - vm_compute. reflexivity.
Defined.

(** GET keeps the carry limit.  Whatever GetItem is asked to pick up, an
    inventory that held at most MaxCarry items before holds at most
    MaxCarry items afterwards. *)
Theorem GetItem_keeps_carry_limit :
  forall (s : GameState) (w : World) (itemNumber : Z) (s' : GameState)
         (w' : World),
    GetItem itemNumber s w = Ok tt s' w' ->
    carried_items s <= MaxCarry (Header s) ->
    carried_items s' <= MaxCarry (Header s').
Proof.
  intros s w n s' w' Hrun Hle. unfold GetItem in Hrun. revert Hrun. run_monad.
  destruct ((n <=? 0) || (NumItems (Header s) <? n)).
  { intros [= <- _]. exact Hle. }
  destruct (index (ItemLocations s) n) as [loc|]; [|discriminate].
  cbn beta iota. destruct (negb (loc =? CurrentRoom s)).
  { destruct (Debug s); intros [= <- _]; exact Hle. }
  destruct (Z.leb_spec (MaxCarry (Header s)) (carried_items s)) as [Hfull|Hroom].
  { intros [= <- _]. exact Hle. }
  unfold store. destruct ((0 <=? n) && (n <? Z.of_nat (length (ItemLocations s))));
    [|discriminate].
  cbn beta iota. destruct (getItemDescription s n); [|discriminate].
  cbn beta iota.
  assert (Hcount : carried_items
                     (set_ItemLocations (<[Z.to_nat n := CARRIED]> (ItemLocations s)) s)
                   <= MaxCarry (Header s)).
  { unfold carried_items. cbn [Header ItemLocations set_ItemLocations].
    pose proof (count_carried_insert (NumItems (Header s)) CARRIED
                  (ItemLocations s) 0 (Z.to_nat n)).
    unfold carried_items in Hroom. lia. }
  destruct (Debug s); intros [= <- _]; exact Hcount.
Qed.

(** The theorem on the same GET of the axe. *)
Lemma GetItem_keeps_carry_limit_witness :
  exists s' w',
    GetItem 1 roomy_state sample_world = Ok tt s' w'
    /\ carried_items s' <= MaxCarry (Header s').
Proof.
  do 2 eexists. split; [vm_compute; reflexivity|].
  eapply (GetItem_keeps_carry_limit roomy_state sample_world 1).
  - vm_compute. reflexivity.
  - vm_compute. discriminate.
Defined.

(** ** Conditions and their negations *)

(** Opposite conditions.  The condition codes come in pairs of a test
    and its negation (1/6, 2/5, 3/12, 4/7, 8/9, 10/11, 13/14, 15/16,
    17/18): on every state and parameter the second code of a pair
    answers the opposite of the first, and it panics exactly when the
    first does. *)
Theorem opposite_conditions_negate_each_other :
  forall (code code' parameter : Z) (s : GameState) (w : World),
    In (code, code') opposite_conditions ->
    EvaluateCondition code' parameter s w
    = negated (EvaluateCondition code parameter s w).
Proof.
  intros code code' p s w Hin.
  unfold opposite_conditions in Hin. cbn [In] in Hin.
  repeat (destruct Hin as [[= <- <-]|Hin]); [..|contradiction];
    unfold EvaluateCondition; run_monad;
    try (destruct (index (ItemLocations s) p) as [loc|]; [|reflexivity]);
    try (destruct (index (Items s) p) as [item|]; [|reflexivity]);
    cbn [negated]; rewrite ?negb_involutive, ?negb_orb; try reflexivity.
  rewrite Z.leb_antisym, negb_involutive. reflexivity.
Qed.

(** The theorem on the pair HAS / -HAVE and the bottle of the sample
    adventure. *)
Lemma opposite_conditions_negate_each_other_witness :
  EvaluateCondition 6 4 sample_state sample_world
  = negated (EvaluateCondition 1 4 sample_state sample_world).
Proof.
  apply (opposite_conditions_negate_each_other 1 6 4 sample_state sample_world).
  left. reflexivity.
Defined.

(** ** Bit flags *)

Lemma land_bit x p :
  0 <= p -> Z.land x (Z.shiftl 1 p) = if Z.testbit x p then 2 ^ p else 0.
Proof.
  intros Hp. rewrite Z.shiftl_1_l. apply Z.bits_inj'. intros n Hn.
  rewrite Z.land_spec, Z.pow2_bits_eqb by exact Hp.
  destruct (Z.eqb_spec p n) as [->|Hne].
  - rewrite andb_true_r. destruct (Z.testbit x n).
    + rewrite Z.pow2_bits_eqb, Z.eqb_refl by exact Hn. reflexivity.
    + rewrite Z.bits_0. reflexivity.
  - rewrite andb_false_r. destruct (Z.testbit x p).
    + rewrite Z.pow2_bits_eqb by exact Hp.
      destruct (Z.eqb_spec p n); [contradiction|reflexivity].
    + rewrite Z.bits_0. reflexivity.
Qed.

(** A flag is set when its bit of the flag word is; flag numbers outside
    0..31 are never set. *)
Lemma flag_set_testbit s p :
  flag_set s p = is_flag p && Z.testbit (BitFlags s) p.
Proof.
  unfold flag_set, bit32, is_flag.
  destruct (Z.leb_spec 0 p) as [Hp|Hp]; cbn [andb].
  - destruct (p <? 32); cbn [andb].
    + rewrite land_bit by exact Hp. destruct (Z.testbit (BitFlags s) p).
      * destruct (Z.eqb_spec (2 ^ p) 0) as [E|E]; [|reflexivity].
        pose proof (Z.pow_pos_nonneg 2 p). lia.
      * reflexivity.
    + rewrite Z.land_0_r. reflexivity.
  - rewrite Z.land_0_r. reflexivity.
Qed.

Lemma bit32_testbit z p :
  0 <= p -> Z.testbit (bit32 z) p = is_flag z && (p =? z).
Proof.
  intros Hp. unfold bit32, is_flag.
  destruct (Z.leb_spec 0 z) as [Hz|Hz]; cbn [andb].
  - destruct (z <? 32); cbn [andb].
    + rewrite Z.shiftl_1_l, Z.pow2_bits_eqb by exact Hz. apply Z.eqb_sym.
    + apply Z.bits_0.
  - apply Z.bits_0.
Qed.

Lemma maxUint32_testbit p : 0 <= p < 32 -> Z.testbit maxUint32 p = true.
Proof.
  intros Hp. change maxUint32 with (Z.ones 32). apply Z.ones_spec_low. lia.
Qed.

(** SET and CLR.  With [z] the parameter of the command position, SETz
    (opcode 58) and CLRz (opcode 60) change nothing but the flag word.
    After SETz flag [z] tests as set if [z] is one of the flags 0..31;
    after CLRz it tests as clear; every other flag tests as it did
    before.  A flag number outside 0..31 names no flag: SET does not set
    anything and the BIT condition on it is false. *)
Theorem flag_opcodes_set_and_clear_one_flag :
  forall (s : GameState) (w : World) (cmdPosition z : Z),
    fetch_parameter cmdPosition s w = Ok z s w ->
    exists s58 s60,
      ExecuteCommand 58 cmdPosition s w = Ok tt s58 w
      /\ ExecuteCommand 60 cmdPosition s w = Ok tt s60 w
      /\ s58 = set_BitFlags (BitFlags s58) s
      /\ s60 = set_BitFlags (BitFlags s60) s
      /\ EvaluateCondition 8 z s58 w = Ok (is_flag z) s58 w
      /\ EvaluateCondition 8 z s60 w = Ok false s60 w
      /\ (forall p, p <> z ->
          EvaluateCondition 8 p s58 w = Ok (flag_set s p) s58 w
          /\ EvaluateCondition 8 p s60 w = Ok (flag_set s p) s60 w)
      /\ (is_flag z = false -> BitFlags s58 = BitFlags s).
Proof.
  intros s w pos z Hz.
  exists (set_BitFlags (Z.lor (BitFlags s) (bit32 z)) s),
    (set_BitFlags (Z.land (BitFlags s) (not32 (bit32 z))) s).
  split. { unfold ExecuteCommand. unfold bind at 1. rewrite Hz. reflexivity. }
  split. { unfold ExecuteCommand. unfold bind at 1. rewrite Hz. reflexivity. }
  split; [reflexivity|]. split; [reflexivity|].
  unfold EvaluateCondition. run_monad.
  rewrite !flag_set_testbit. cbn [BitFlags set_BitFlags]. unfold not32.
  split; [|split; [|split]].
  - f_equal. unfold is_flag.
    destruct (Z.leb_spec 0 z) as [H0|H0]; [|reflexivity].
    destruct (Z.ltb_spec z 32) as [H32|H32]; [|reflexivity]. cbn [andb].
    rewrite Z.lor_spec, bit32_testbit by exact H0. unfold is_flag.
    destruct (Z.leb_spec 0 z); [|lia]. destruct (Z.ltb_spec z 32); [|lia].
    rewrite Z.eqb_refl. apply orb_true_r.
  - f_equal. unfold is_flag.
    destruct (Z.leb_spec 0 z) as [H0|H0]; [|reflexivity].
    destruct (Z.ltb_spec z 32) as [H32|H32]; [|reflexivity]. cbn [andb].
    rewrite Z.land_spec, Z.lxor_spec, bit32_testbit by exact H0.
    rewrite maxUint32_testbit by lia. unfold is_flag.
    destruct (Z.leb_spec 0 z); [|lia]. destruct (Z.ltb_spec z 32); [|lia].
    rewrite Z.eqb_refl. apply andb_false_r.
  - intros p Hp. rewrite !flag_set_testbit. cbn [BitFlags set_BitFlags].
    unfold is_flag.
    destruct (Z.leb_spec 0 p) as [H0|H0]; [|split; reflexivity].
    destruct (Z.ltb_spec p 32) as [H32|H32]; [|split; reflexivity].
    cbn [andb].
    rewrite Z.land_spec, Z.lxor_spec, Z.lor_spec, bit32_testbit by exact H0.
    rewrite maxUint32_testbit by lia.
    destruct (Z.eqb_spec p z); [contradiction|].
    rewrite andb_false_r, orb_false_r. cbn [xorb]. rewrite andb_true_r.
    split; reflexivity.
  - intros Hflag. unfold bit32. unfold is_flag in Hflag. rewrite Hflag.
    apply Z.lor_0_r.
Qed.

(** The theorem on the second condition slot of the lamp adventure, whose
    parameter is 16. *)
Lemma flag_opcodes_set_and_clear_one_flag_witness :
  exists s58 s60,
    ExecuteCommand 58 1 lamp_state sample_world = Ok tt s58 sample_world
    /\ ExecuteCommand 60 1 lamp_state sample_world = Ok tt s60 sample_world
    /\ s58 = set_BitFlags (BitFlags s58) lamp_state
    /\ s60 = set_BitFlags (BitFlags s60) lamp_state
    /\ EvaluateCondition 8 16 s58 sample_world = Ok (is_flag 16) s58 sample_world
    /\ EvaluateCondition 8 16 s60 sample_world = Ok false s60 sample_world
    /\ (forall p, p <> 16 ->
        EvaluateCondition 8 p s58 sample_world
        = Ok (flag_set lamp_state p) s58 sample_world
        /\ EvaluateCondition 8 p s60 sample_world
           = Ok (flag_set lamp_state p) s60 sample_world)
    /\ (is_flag 16 = false -> BitFlags s58 = BitFlags lamp_state).
Proof.
  apply (flag_opcodes_set_and_clear_one_flag lamp_state sample_world 1 16).
  reflexivity.
Defined.

(** ** Exchange opcodes *)

(** The parameters of a command are read from the action table and the
    index of the current action only. *)
Lemma condition_parameter_same slot s w p s1 w1 :
  Actions s1 = Actions s -> CurrentAction s1 = CurrentAction s ->
  condition_parameter slot s w = Ok p s w ->
  condition_parameter slot s1 w1 = Ok p s1 w1.
Proof.
  intros Ha Hc. unfold condition_parameter. rewrite !bind_get, Ha, Hc.
  destruct (index (Actions s) (CurrentAction s)) as [a|]; [|discriminate].
  run_monad. destruct (index (Conditions a) slot); [|discriminate].
  intros [= <-]. reflexivity.
Qed.

Lemma fetch_parameter_same pos s w p s1 w1 :
  Actions s1 = Actions s -> CurrentAction s1 = CurrentAction s ->
  fetch_parameter pos s w = Ok p s w ->
  fetch_parameter pos s1 w1 = Ok p s1 w1.
Proof.
  intros Ha Hc. unfold fetch_parameter. destruct (pos <? 5).
  - apply condition_parameter_same; assumption.
  - intros [= <-]. reflexivity.
Qed.

(** What the room exchanges (opcodes 80 and 87) do, given the parameter
    [p] of the command position. *)
Lemma room_exchange_opcodes s w pos p :
  fetch_parameter pos s w = Ok p s w ->
  (forall alt, index (AltRooms s) 0 = Some alt ->
     ExecuteCommand 80 pos s w
     = Ok tt (set_DisplayedRoom false
                (set_AltRooms (<[0%nat := CurrentRoom s]> (AltRooms s))
                   (set_CurrentRoom alt s))) w)
  /\ (forall alt, index (AltRooms s) p = Some alt ->
      ExecuteCommand 87 pos s w
      = Ok tt (set_DisplayedRoom false
                 (set_AltRooms (<[Z.to_nat p := CurrentRoom s]> (AltRooms s))
                    (set_CurrentRoom alt s))) w).
Proof.
  intros Hp.
  split; intros alt Halt;
    unfold ExecuteCommand; unfold bind at 1; rewrite Hp; run_monad;
    cbn [andb Z.leb Z.compare Pos.compare Pos.compare_cont];
    rewrite Halt; run_monad;
    rewrite (store_Some _ _) by exact (index_Some_range _ _ _ Halt);
    reflexivity.
Qed.

Lemma insert_back {A : Type} (l : list A) (i : nat) (v x : A) :
  l !! i = Some x -> <[i := x]> (<[i := v]> l) = l.
Proof.
  intros H. rewrite list_insert_insert_eq. apply list_insert_id. exact H.
Qed.

Lemma index_lookup {A : Type} (l : list A) (i : Z) (v : A) :
  index l i = Some v -> l !! Z.to_nat i = Some v.
Proof. unfold index. destruct (i <? 0); [discriminate|auto]. Qed.

(** Exchanges undo themselves.  With [p] the parameter of the command
    position and [q] the parameter one slot ahead: executing the exchange
    of the current room with alternate room 0 (opcode 80) or with
    alternate room [p] (opcode 87) twice in a row puts the room and the
    alternate rooms back, leaving only the room due to be displayed
    again; executing the exchange of the counter with alternate counter
    [p] (opcode 81) twice restores the state; and the exchange of the
    locations of items [p] and [q] (opcode 72) gives item [p] the
    location of item [q] and item [q] that of item [p], and a second
    exchange restores the state. *)
Theorem exchange_opcodes_undo_themselves :
  forall (s : GameState) (w : World) (cmdPosition p : Z),
    wf s ->
    fetch_parameter cmdPosition s w = Ok p s w ->
    (ExecuteCommand 80 cmdPosition ;; ExecuteCommand 80 cmdPosition) s w
    = Ok tt (set_DisplayedRoom false s) w
    /\ (0 <= p < 6 ->
        (ExecuteCommand 87 cmdPosition ;; ExecuteCommand 87 cmdPosition) s w
        = Ok tt (set_DisplayedRoom false s) w)
    /\ (0 <= p < 9 ->
        (ExecuteCommand 81 cmdPosition ;; ExecuteCommand 81 cmdPosition) s w
        = Ok tt s w)
    /\ (forall q,
        cmdPosition < 4 ->
        condition_parameter (cmdPosition + 1) s w = Ok q s w ->
        0 <= p <= NumItems (Header s) -> 0 <= q <= NumItems (Header s) ->
        exists s1,
          ExecuteCommand 72 cmdPosition s w = Ok tt s1 w
          /\ index (ItemLocations s1) p = index (ItemLocations s) q
          /\ index (ItemLocations s1) q = index (ItemLocations s) p
          /\ ExecuteCommand 72 cmdPosition s1 w = Ok tt s w).
Proof.
  intros s w pos p Hwf Hp.
  pose proof (wf_rooms s Hwf) as Hrooms.
  pose proof (wf_counters s Hwf) as Hcounters.
  pose proof (wf_locations s Hwf) as Hlocs.
  split; [|split; [|split]].
  - destruct (index_is_Some (AltRooms s) 0) as [alt Halt]; [lia|].
    destruct (room_exchange_opcodes s w pos p Hp) as [H80 _].
    set (s1 := set_DisplayedRoom false
                 (set_AltRooms (<[0%nat := CurrentRoom s]> (AltRooms s))
                    (set_CurrentRoom alt s))).
    assert (Hp1 : fetch_parameter pos s1 w = Ok p s1 w).
    { apply (fetch_parameter_same pos s w); [reflexivity|reflexivity|exact Hp]. }
    destruct (room_exchange_opcodes s1 w pos p Hp1) as [H80' _].
    assert (Hback : index (AltRooms s1) 0 = Some (CurrentRoom s)).
    { unfold s1. cbn [AltRooms set_DisplayedRoom set_AltRooms].
      apply (index_insert_eq _ 0). lia. }
    unfold bind. rewrite (H80 alt Halt). fold s1. rewrite (H80' _ Hback).
    f_equal. unfold s1.
    cbn [AltRooms CurrentRoom set_DisplayedRoom set_AltRooms set_CurrentRoom].
    rewrite (insert_back _ _ _ alt) by exact (index_lookup _ _ _ Halt).
    destruct s; reflexivity.
  - intros Hr.
    destruct (index_is_Some (AltRooms s) p) as [alt Halt]; [lia|].
    destruct (room_exchange_opcodes s w pos p Hp) as [_ H87].
    set (s1 := set_DisplayedRoom false
                 (set_AltRooms (<[Z.to_nat p := CurrentRoom s]> (AltRooms s))
                    (set_CurrentRoom alt s))).
    assert (Hp1 : fetch_parameter pos s1 w = Ok p s1 w).
    { apply (fetch_parameter_same pos s w); [reflexivity|reflexivity|exact Hp]. }
    destruct (room_exchange_opcodes s1 w pos p Hp1) as [_ H87'].
    assert (Hback : index (AltRooms s1) p = Some (CurrentRoom s)).
    { unfold s1. cbn [AltRooms set_DisplayedRoom set_AltRooms].
      replace p with (Z.of_nat (Z.to_nat p)) at 2 by lia.
      apply index_insert_eq. lia. }
    unfold bind. rewrite (H87 alt Halt). fold s1. rewrite (H87' _ Hback).
    f_equal. unfold s1.
    cbn [AltRooms CurrentRoom set_DisplayedRoom set_AltRooms set_CurrentRoom].
    rewrite (insert_back _ _ _ alt) by exact (index_lookup _ _ _ Halt).
    destruct s; reflexivity.
  - intros Hr.
    destruct (index_is_Some (AltCounters s) p) as [alt Halt]; [lia|].
    destruct (counter_opcodes s w pos p Hp) as (_ & _ & _ & H81).
    set (s1 := set_AltCounters (<[Z.to_nat p := Counter s]> (AltCounters s))
                 (set_Counter alt s)).
    assert (Hp1 : fetch_parameter pos s1 w = Ok p s1 w).
    { apply (fetch_parameter_same pos s w); [reflexivity|reflexivity|exact Hp]. }
    destruct (counter_opcodes s1 w pos p Hp1) as (_ & _ & _ & H81').
    assert (Hback : index (AltCounters s1) p = Some (Counter s)).
    { unfold s1. cbn [AltCounters set_AltCounters].
      replace p with (Z.of_nat (Z.to_nat p)) at 2 by lia.
      apply index_insert_eq. lia. }
    unfold bind. rewrite (H81 alt Halt). fold s1. rewrite (H81' _ Hback).
    f_equal. unfold s1.
    cbn [AltCounters Counter set_AltCounters set_Counter].
    rewrite (insert_back _ _ _ alt) by exact (index_lookup _ _ _ Halt).
    destruct s; reflexivity.
  - intros q Hpos Hq Hrp Hrq.
    destruct (index_is_Some (ItemLocations s) p) as [loc1 H1]; [lia|].
    destruct (index_is_Some (ItemLocations s) q) as [loc2 H2]; [lia|].
    destruct (parameter_opcodes s w pos p q Hpos Hp Hq) as (_ & _ & _ & H72).
    rewrite H1, H2, (store_Some _ p) in H72 by lia.
    rewrite (store_Some _ q) in H72 by (rewrite length_insert; lia).
    set (locs := <[Z.to_nat q := loc1]> (<[Z.to_nat p := loc2]> (ItemLocations s)))
      in *.
    set (s1 := set_ItemLocations locs s) in *.
    assert (Hq1 : index locs q = Some loc1).
    { unfold locs. replace q with (Z.of_nat (Z.to_nat q)) at 2 by lia.
      apply index_insert_eq. rewrite length_insert. lia. }
    assert (Hp1 : index locs p = Some loc2).
    { destruct (Z.eq_dec p q) as [->|Hne].
      - rewrite Hq1. congruence.
      - unfold locs. rewrite index_insert_ne by lia.
        replace p with (Z.of_nat (Z.to_nat p)) at 2 by lia.
        apply index_insert_eq. lia. }
    exists s1. split; [exact H72|].
    split; [unfold s1; cbn [ItemLocations set_ItemLocations]; congruence|].
    split; [unfold s1; cbn [ItemLocations set_ItemLocations]; congruence|].
    assert (Hp' : fetch_parameter pos s1 w = Ok p s1 w).
    { apply (fetch_parameter_same pos s w); [reflexivity|reflexivity|exact Hp]. }
    assert (Hq' : condition_parameter (pos + 1) s1 w = Ok q s1 w).
    { apply (condition_parameter_same _ s w); [reflexivity|reflexivity|exact Hq]. }
    destruct (parameter_opcodes s1 w pos p q Hpos Hp' Hq') as (_ & _ & _ & H72').
    change (ItemLocations s1) with locs in H72'.
    assert (Hlen : length locs = length (ItemLocations s)).
    { unfold locs. rewrite !length_insert. reflexivity. }
    rewrite Hp1, Hq1, (store_Some _ p) in H72' by lia.
    rewrite (store_Some _ q) in H72' by (rewrite length_insert; lia).
    rewrite H72'. f_equal. unfold s1. cbn [set_ItemLocations].
    assert (Hl : <[Z.to_nat q := loc2]> (<[Z.to_nat p := loc1]> locs)
                 = ItemLocations s).
    { apply index_lookup in H1, H2. apply list_eq. intros k.
      destruct (decide (k = Z.to_nat q)) as [->|Hkq].
      - rewrite list_lookup_insert_eq by (rewrite length_insert; lia).
        symmetry. exact H2.
      - rewrite list_lookup_insert_ne by congruence.
        destruct (decide (k = Z.to_nat p)) as [->|Hkp].
        + rewrite list_lookup_insert_eq by lia. symmetry. exact H1.
        + rewrite list_lookup_insert_ne by congruence. unfold locs.
          rewrite !list_lookup_insert_ne by congruence. reflexivity. }
    rewrite Hl. destruct s; reflexivity.
Qed.

Lemma exchange_state_wf : wf exchange_state.
Proof. split; try reflexivity. repeat constructor. Qed.

(** The theorem at command position 0 of the exchange adventure, whose
    parameters are 2 and 3. *)
Lemma exchange_opcodes_undo_themselves_witness :
  (ExecuteCommand 80 0 ;; ExecuteCommand 80 0) exchange_state sample_world
  = Ok tt (set_DisplayedRoom false exchange_state) sample_world
  /\ (ExecuteCommand 87 0 ;; ExecuteCommand 87 0) exchange_state sample_world
     = Ok tt (set_DisplayedRoom false exchange_state) sample_world
  /\ (ExecuteCommand 81 0 ;; ExecuteCommand 81 0) exchange_state sample_world
     = Ok tt exchange_state sample_world
  /\ exists s1,
       ExecuteCommand 72 0 exchange_state sample_world = Ok tt s1 sample_world
       /\ index (ItemLocations s1) 2 = index (ItemLocations exchange_state) 3
       /\ index (ItemLocations s1) 3 = index (ItemLocations exchange_state) 2
       /\ ExecuteCommand 72 0 s1 sample_world = Ok tt exchange_state sample_world.
Proof.
  destruct (exchange_opcodes_undo_themselves exchange_state sample_world 0 2
              exchange_state_wf eq_refl) as (H80 & H87 & H81 & H72).
  split; [exact H80|]. split; [apply H87; lia|]. split; [apply H81; lia|].
  apply (H72 3); [lia | reflexivity | simpl; lia | simpl; lia].
Defined.

(** ** The dispatcher: fall-back and automatic passes *)

Lemma index_app_length {A : Type} (pre : list A) (a : A) (rest : list A) :
  index (pre ++ a :: rest) (Z.of_nat (length pre)) = Some a.
Proof.
  unfold index. destruct (Z.ltb_spec (Z.of_nat (length pre)) 0); [lia|].
  rewrite Nat2Z.id. apply list_lookup_middle. reflexivity.
Qed.

Lemma CheckConditions_at s w pre a rest :
  Actions s = pre ++ a :: rest ->
  CheckConditions (Z.of_nat (length pre)) s w = check_slots (Conditions a) s w.
Proof.
  intros Ha. unfold CheckConditions. rewrite bind_get, Ha, index_app_length.
  reflexivity.
Qed.

(** A scan over actions none of which fires: the actions with the
    player's verb and noun all fail their conditions without output. *)
Lemma exact_scan_none_fires verb noun s w :
  forall actions pre found,
    Actions s = pre ++ actions ->
    Forall (fun a => Verb a = verb -> Noun a = noun ->
                     check_slots (Conditions a) s w = Ok false s w) actions ->
    exact_scan verb noun (Z.of_nat (length pre)) actions found s w
    = Ok found s w.
Proof.
  induction actions as [|a actions IH]; intros pre found Hacts Hall.
  - reflexivity.
  - inversion Hall as [|? ? Ha Hrest]; subst.
    assert (Hnext : exact_scan verb noun (Z.of_nat (length pre) + 1) actions
                      found s w = Ok found s w).
    { replace (Z.of_nat (length pre) + 1) with (Z.of_nat (length (pre ++ [a])))
        by (rewrite length_app; cbn [length]; lia).
      apply IH; [|exact Hrest]. rewrite <- app_assoc. exact Hacts. }
    cbn [exact_scan].
    destruct (Z.eqb_spec (Verb a) verb) as [Hv|Hv]; cbn [andb]; [|exact Hnext].
    destruct (Z.eqb_spec (Noun a) noun) as [Hn|Hn]; [|exact Hnext].
    unfold bind at 1. rewrite (CheckConditions_at s w pre a actions Hacts).
    rewrite (Ha Hv Hn). exact Hnext.
Qed.

(** Fall-back of the dispatcher.  When no action with the player's verb
    and either the player's noun or noun 0 passes its conditions (in
    particular when the table has no such action), the player's command
    is handled by the built-ins: verb 10 is GetItem on the noun number,
    verb 18 is DropItem on the noun number, and any other verb is answered
    by "I don't understand how to do that." with the state unchanged. *)
Theorem ProcessActionsWithVerb_falls_back_to_builtins :
  forall (s : GameState) (w : World) (verb noun : Z),
    Forall (fun a => Verb a = verb -> Noun a = noun \/ Noun a = 0 ->
                     check_slots (Conditions a) s w = Ok false s w)
      (Actions s) ->
    ProcessActionsWithVerb verb noun s w
    = if verb =? 10 then GetItem noun s w
      else if verb =? 18 then DropItem noun s w
      else Ok tt s (printed ["I don't understand how to do that." +:+ nl] w).
Proof.
  intros s w verb noun Hall.
  assert (Hscan : forall n, n = noun \/ n = 0 ->
            ProcessExactAction verb n s w = Ok false s w).
  { intros n Hn. unfold ProcessExactAction. rewrite bind_get.
    apply (exact_scan_none_fires verb n s w (Actions s) [] false);
      [reflexivity|].
    eapply Forall_impl; [exact Hall|]. cbn beta. intros a Ha Hv Hna.
    apply Ha; [exact Hv|]. destruct Hn; subst; auto. }
  unfold ProcessActionsWithVerb. unfold bind at 1.
  rewrite (Hscan noun) by (left; reflexivity). cbn beta iota.
  unfold bind at 1.
  destruct (noun =? 0); cbn [negb].
  - unfold ret at 1. cbn beta iota.
    destruct (verb =? 10); [reflexivity|]. destruct (verb =? 18); reflexivity.
  - rewrite (Hscan 0) by (right; reflexivity). cbn beta iota.
    destruct (verb =? 10); [reflexivity|]. destruct (verb =? 18); reflexivity.
Qed.

(** The theorem on the sample adventure, which has no action with verb
    10: "verb 10, noun 3" is the built-in GET of item 3. *)
Lemma ProcessActionsWithVerb_falls_back_to_builtins_witness :
  ProcessActionsWithVerb 10 3 sample_state sample_world
  = GetItem 3 sample_state sample_world.
Proof.
  apply (ProcessActionsWithVerb_falls_back_to_builtins sample_state
           sample_world 10 3).
  repeat constructor; cbn; intros; discriminate.
Defined.

Lemma footprint_refl cmd s : command_footprint cmd s s.
Proof. repeat split. Qed.

Ltac footprint_tac :=
  try (subst; apply footprint_refl);
  repeat split; try reflexivity; try (intros; congruence).

Lemma GetItem_footprint n s w s' w' :
  GetItem n s w = Ok tt s' w' -> command_footprint 52 s s'.
Proof. intros H. unfold GetItem in H. invert_run H; footprint_tac. Qed.

Lemma DropItem_footprint n s w s' w' :
  DropItem n s w = Ok tt s' w' -> command_footprint 53 s s'.
Proof. intros H. unfold DropItem in H. invert_run H; footprint_tac. Qed.

Lemma condition_parameter_pure slot s w p s' w' :
  condition_parameter slot s w = Ok p s' w' -> s' = s /\ w' = w.
Proof.
  destruct (condition_parameter_cases slot s w) as [[q E]|E]; rewrite E;
    [|discriminate].
  intros [= _ <- <-]. split; reflexivity.
Qed.

Lemma ExecuteCommand_footprint cmd pos s w s' w' :
  ExecuteCommand cmd pos s w = Ok tt s' w' -> command_footprint cmd s s'.
Proof.
  intros H. unfold ExecuteCommand in H. unfold bind at 1 in H.
  destruct (fetch_parameter_cases pos s w) as [[p Ep]|Ep]; rewrite Ep in H;
    [|discriminate].
  rewrite bind_get in H.
  destruct ((1 <=? cmd) && (cmd <=? 51)); [invert_run H; footprint_tac|].
  destruct ((102 <=? cmd) && (cmd <=? 149)); [invert_run H; footprint_tac|].
  destruct cmd as [|c|c]; [injection H as <- _; footprint_tac| |
                           injection H as <- _; footprint_tac].
  do 7 (try (destruct c as [c|c|]));
    try (injection H as <- _; apply footprint_refl);
    try (apply GetItem_footprint in H; exact H);
    try (apply DropItem_footprint in H; exact H);
    try (apply DisplayScore_pure in H; subst; apply footprint_refl);
    try (apply DisplayInventory_pure in H; subst; apply footprint_refl);
    try (apply SaveGame_pure in H; subst; apply footprint_refl).
  all: try (destruct (pos <? 5));
    try (destruct (pos <? 4));
    try (injection H as <- _; apply footprint_refl);
    try (unfold bind at 1 in H;
         destruct (condition_parameter (pos + 1) s w) as [q s1 w1| |] eqn:Eq;
         try discriminate;
         destruct (condition_parameter_pure _ _ _ _ _ _ Eq) as (-> & ->)).
  all: invert_run H; footprint_tac.
Qed.

Lemma same_adventure_refl s : same_adventure s s.
Proof. repeat split. Qed.

Lemma same_adventure_trans s1 s2 s3 :
  same_adventure s1 s2 -> same_adventure s2 s3 -> same_adventure s1 s3.
Proof.
  unfold same_adventure. intros H1 H2.
  destruct H1 as (?&?&?&?&?&?&?&?), H2 as (?&?&?&?&?&?&?&?).
  repeat split; congruence.
Qed.

Lemma existsb_false_index {A : Type} (f : A -> bool) (l : list A) i x :
  existsb f l = false -> index l i = Some x -> f x = false.
Proof.
  intros He Hi. apply index_lookup in Hi.
  apply list_elem_of_lookup_2 in Hi. apply list_elem_of_In in Hi.
  destruct (f x) eqn:E; [|reflexivity].
  assert (existsb f l = true) by (apply existsb_exists; eauto). congruence.
Qed.

(** What the commands of one slot leave alone. *)
Lemma execute_pair_footprint a i s w s' w' :
  execute_pair a i s w = Ok tt s' w' ->
  same_adventure s s' /\ CurrentAction s' = CurrentAction s
  /\ (issues_CONT a = false -> ContinueFlag s' = ContinueFlag s).
Proof.
  intros H. unfold execute_pair in H. unfold bind at 1 in H. unfold must in H.
  destruct (index (Commands a) i) as [cmd|] eqn:Ecmd; [|discriminate].
  unfold ret at 1 in H. cbn beta iota in H.
  destruct (Z.eqb_spec cmd 0) as [E0|E0].
  { injection H as <- _. repeat split. }
  unfold bind in H.
  destruct (ExecuteCommand (Z.quot cmd 150) 0 s w) as [[] s1 w1| |] eqn:E1;
    try discriminate.
  apply ExecuteCommand_footprint in E1, H.
  destruct E1 as (Ha1 & Hc1 & Hf1), H as (Ha2 & Hc2 & Hf2).
  split; [exact (same_adventure_trans _ _ _ Ha1 Ha2)|].
  split; [congruence|].
  intros Hno. pose proof (existsb_false_index _ _ _ _ Hno Ecmd) as Hf.
  cbn beta in Hf. destruct (Z.eqb_spec cmd 0); [contradiction|].
  cbn [negb andb] in Hf. apply orb_false_elim in Hf. destruct Hf as [Hq Hr].
  apply Z.eqb_neq in Hq, Hr. rewrite Hf2, Hf1 by assumption. reflexivity.
Qed.

Lemma ExecuteCommands_footprint i a s w s' w' :
  index (Actions s) i = Some a ->
  ExecuteCommands i s w = Ok tt s' w' ->
  same_adventure s s'
  /\ (issues_CONT a = false -> ContinueFlag s' = ContinueFlag s).
Proof.
  intros Ha H. unfold ExecuteCommands in H.
  unfold bind at 1 in H. unfold modify in H. cbn beta iota in H.
  rewrite bind_get in H. unfold bind at 1 in H. unfold must in H.
  cbn [Actions set_CurrentAction] in H. rewrite Ha in H.
  unfold ret at 1 in H. cbn beta iota in H.
  unfold bind at 1 in H.
  destruct (execute_pair a 0 _ w) as [[] s1 w1| |] eqn:E0; try discriminate.
  apply execute_pair_footprint in E0. destruct E0 as (Ha0 & _ & Hf0).
  unfold bind at 1 in H.
  destruct (execute_pair a 1 s1 w1) as [[] s2 w2| |] eqn:E1; try discriminate.
  apply execute_pair_footprint in E1. destruct E1 as (Ha1 & _ & Hf1).
  assert (Hs : s' = s2) by (unfold debug_executed in H; invert_run H; reflexivity).
  subst s'.
  assert (Hset : same_adventure s (set_CurrentAction i s)) by (repeat split).
  split.
  - exact (same_adventure_trans _ _ _ Hset (same_adventure_trans _ _ _ Ha0 Ha1)).
  - intros Hno. rewrite Hf1, Hf0 by exact Hno. reflexivity.
Qed.

Lemma CheckConditions_pure i s w b s' w' :
  CheckConditions i s w = Ok b s' w' -> s' = s.
Proof.
  unfold CheckConditions. rewrite bind_get. unfold bind, must.
  destruct (index (Actions s) i); [|discriminate]. cbn beta iota.
  apply check_slots_pure.
Qed.

(** A pass over automatic actions none of which issues CONT leaves the
    continuation flag clear. *)
Lemma automatic_scan_without_CONT :
  forall actions pre s w s' w',
    Actions s = pre ++ actions ->
    Forall (fun a => Verb a = 0 -> issues_CONT a = false) actions ->
    ContinueFlag s = false ->
    automatic_scan (Z.of_nat (length pre)) actions s w = Ok tt s' w' ->
    ContinueFlag s' = false /\ same_adventure s s'.
Proof.
  induction actions as [|a actions IH]; intros pre s w s' w' Hacts Hall Hflag H.
  - injection H as <- _. split; [exact Hflag|apply same_adventure_refl].
  - inversion Hall as [|? ? Ha Hrest]; subst.
    assert (Hnext : forall s1 w1,
               same_adventure s s1 -> ContinueFlag s1 = false ->
               automatic_scan (Z.of_nat (length pre) + 1) actions s1 w1
               = Ok tt s' w' ->
               ContinueFlag s' = false /\ same_adventure s s').
    { intros s1 w1 Hsame Hf1 Hrun.
      replace (Z.of_nat (length pre) + 1) with (Z.of_nat (length (pre ++ [a])))
        in Hrun by (rewrite length_app; cbn [length]; lia).
      destruct (IH (pre ++ [a]) s1 w1 s' w') as [Hf Hs]; try assumption.
      { rewrite <- app_assoc. destruct Hsame as (_&_&_&->&_). exact Hacts. }
      split; [exact Hf|exact (same_adventure_trans _ _ _ Hsame Hs)]. }
    cbn [automatic_scan] in H.
    destruct (Z.eqb_spec (Verb a) 0) as [Hv|Hv]; cbn [negb] in H;
      [|exact (Hnext s w (same_adventure_refl s) Hflag H)].
    unfold bind at 1 in H.
    assert (Hskip : exists (skip : bool) w1,
               (if 0 <? Noun a
                then r <- rand_Intn 100 ;; ret (Noun a <? r + 1)
                else ret false) s w = Ok skip s w1).
    { destruct (0 <? Noun a); do 2 eexists; reflexivity. }
    destruct Hskip as (skip & w1 & Hskip). rewrite Hskip in H.
    destruct skip; [exact (Hnext s w1 (same_adventure_refl s) Hflag H)|].
    unfold bind at 1 in H.
    destruct (CheckConditions (Z.of_nat (length pre)) s w1)
      as [ok s1 w2| |] eqn:Ec; try discriminate.
    apply CheckConditions_pure in Ec. subst s1.
    destruct ok; [|exact (Hnext s w2 (same_adventure_refl s) Hflag H)].
    unfold bind at 1 in H.
    destruct (ExecuteCommands (Z.of_nat (length pre)) s w2)
      as [[] s2 w3| |] eqn:Ee; try discriminate.
    apply (ExecuteCommands_footprint _ a) in Ee;
      [|rewrite Hacts; apply index_app_length].
    destruct Ee as [Hsame Hf]. specialize (Hf (Ha Hv)).
    rewrite bind_get in H. rewrite Hf, Hflag in H.
    apply (Hnext s2 w3 Hsame); [congruence|exact H].
Qed.

(** One pass is enough without CONT.  When no automatic action (verb 0)
    of the table issues CONT, ProcessAutomaticActions makes exactly one
    pass over the table, whatever the actions do otherwise: it never
    finds the continuation flag set at the end of the pass, so it returns
    as soon as there is fuel for one pass, with the flag clear. *)
Theorem ProcessAutomaticActions_makes_one_pass_without_CONT :
  forall (s : GameState) (w : World) (fuel : nat),
    Forall (fun a => Verb a = 0 -> issues_CONT a = false) (Actions s) ->
    ProcessAutomaticActions (S fuel) s w
    = (modify (set_ContinueFlag false) ;;
       automatic_scan 0 (Actions s) ;;
       ret true) s w
    /\ (forall b s' w',
        ProcessAutomaticActions (S fuel) s w = Ok b s' w' ->
        b = true /\ ContinueFlag s' = false).
Proof.
  intros s w fuel Hall.
  assert (E : ProcessAutomaticActions (S fuel) s w
              = (modify (set_ContinueFlag false) ;;
                 automatic_scan 0 (Actions s) ;; ret true) s w
              /\ forall s' w',
                   automatic_scan 0 (Actions s) (set_ContinueFlag false s) w
                   = Ok tt s' w' -> ContinueFlag s' = false).
  { assert (Hf : forall s' w',
               automatic_scan 0 (Actions s) (set_ContinueFlag false s) w
               = Ok tt s' w' -> ContinueFlag s' = false).
    { intros s' w' Hrun.
      apply (automatic_scan_without_CONT (Actions s) []
               (set_ContinueFlag false s) w s' w'); auto. }
    split; [|exact Hf].
    unfold ProcessAutomaticActions. unfold bind at 1. unfold modify at 1.
    cbn beta iota. cbn [automatic_passes]. rewrite bind_get.
    cbn [ContinueFlag set_ContinueFlag negb].
    unfold bind at 1 3. unfold modify. cbn beta iota.
    cbn [Actions set_ContinueFlag].
    assert (Es : set_ContinueFlag false (set_ContinueFlag true s)
                 = set_ContinueFlag false s) by reflexivity.
    rewrite Es. unfold bind.
    destruct (automatic_scan 0 (Actions s) (set_ContinueFlag false s) w)
      as [[] s1 w1| |] eqn:Escan; try reflexivity.
    specialize (Hf s1 w1 eq_refl).
    destruct fuel; cbn [automatic_passes]; rewrite bind_get, Hf;
      reflexivity. }
  destruct E as [E Hf]. split; [exact E|].
  intros b s' w'. rewrite E. unfold bind, modify. cbn beta iota.
  destruct (automatic_scan 0 (Actions s) (set_ContinueFlag false s) w)
    as [[] s1 w1| |] eqn:Escan; try discriminate.
  intros [= <- <- _]. split; [reflexivity|]. exact (Hf s1 w1 eq_refl).
Qed.

(** The theorem on the sample adventure, whose automatic actions B and C
    issue no CONT. *)
Lemma ProcessAutomaticActions_makes_one_pass_without_CONT_witness :
  ProcessAutomaticActions 1 sample_state sample_world
  = (modify (set_ContinueFlag false) ;;
     automatic_scan 0 (Actions sample_state) ;;
     ret true) sample_state sample_world
  /\ (forall b s' w',
      ProcessAutomaticActions 1 sample_state sample_world = Ok b s' w' ->
      b = true /\ ContinueFlag s' = false).
Proof.
  apply (ProcessAutomaticActions_makes_one_pass_without_CONT
           sample_state sample_world 0).
  repeat constructor; cbn; intros; try discriminate; reflexivity.
Defined.





(** ** Inventory and score *)

Lemma count_carried_bounds numItems :
  forall locs i, 0 <= count_carried numItems i locs <= Z.of_nat (length locs).
Proof.
  induction locs as [|loc locs IH]; intros i; cbn [count_carried length].
  - lia.
  - specialize (IH (i + 1)).
    destruct ((i <=? numItems) && (loc =? CARRIED)); lia.
Qed.

Lemma carries_any_count numItems :
  forall locs i,
    carries_any numItems i locs = (0 <? count_carried numItems i locs).
Proof.
  induction locs as [|loc locs IH]; intros i; cbn [carries_any count_carried].
  - reflexivity.
  - pose proof (count_carried_bounds numItems locs (i + 1)).
    destruct ((i <=? numItems) && (loc =? CARRIED)).
    + symmetry. apply Z.ltb_lt. lia.
    + rewrite IH. reflexivity.
Qed.

(** The loop of DisplayInventory prints one line per carried item. *)
Lemma inventory_loop_lines s :
  wf s ->
  forall locs i count w,
    0 <= i ->
    exists lines,
      inventory_loop i locs count s w
      = Ok (count + count_carried (NumItems (Header s)) i locs) s
          (printed lines w)
      /\ Z.of_nat (length lines) = count_carried (NumItems (Header s)) i locs.
Proof.
  intros Hwf. induction locs as [|loc locs IH]; intros i count w Hi.
  - exists []. cbn [inventory_loop count_carried length]. split; [|reflexivity].
    unfold ret, printed. rewrite Z.add_0_r, app_nil_r. destruct w; reflexivity.
  - cbn [inventory_loop count_carried]. rewrite bind_get.
    destruct (Z.leb_spec i (NumItems (Header s))) as [Hle|Hgt]; cbn [andb].
    + destruct (loc =? CARRIED).
      * destruct (getItemDescription_is_Some s i Hwf) as [desc Hdesc]; [lia|].
        rewrite Hdesc. unfold must, bind at 1. unfold ret at 1. cbn beta iota.
        unfold bind at 1. unfold fmt_Print at 1. cbn beta iota.
        destruct (IH (i + 1) (count + 1)
                    (set_stdout (stdout w ++ ["- " +:+ desc +:+ nl]) w))
          as (lines & Hrun & Hlen); [lia|].
        exists (("- " +:+ desc +:+ nl) :: lines). rewrite Hrun.
        split; [|cbn [length]; lia].
        f_equal; [lia|]. world_simpl. reflexivity.
      * destruct (IH (i + 1) count w) as (lines & Hrun & Hlen); [lia|].
        exists lines. rewrite Hrun, Z.add_0_l. split; [reflexivity|exact Hlen].
    + destruct (IH (i + 1) count w) as (lines & Hrun & Hlen); [lia|].
      exists lines. rewrite Hrun, Z.add_0_l. split; [reflexivity|exact Hlen].
Qed.

(** The inventory and the carry count agree.  In a well-formed state
    DisplayInventory changes nothing; it prints the heading and one line
    for each item counted as carried by GetItem's carry limit, and the
    line "Nothing." exactly when that count is zero.  The conditions ANY
    and -ANY (codes 10 and 11) test the same count. *)
Theorem DisplayInventory_lists_the_carried_items :
  forall (s : GameState) (w : World),
    wf s ->
    exists lines : list string,
      DisplayInventory s w
      = Ok tt s
          (printed (("I'm carrying:" +:+ nl) :: lines
                    ++ (if carried_items s =? 0 then ["Nothing." +:+ nl]
                        else [])) w)
      /\ Z.of_nat (length lines) = carried_items s
      /\ (forall parameter,
          EvaluateCondition 10 parameter s w = Ok (0 <? carried_items s) s w
          /\ EvaluateCondition 11 parameter s w
             = Ok (carried_items s =? 0) s w).
Proof.
  intros s w Hwf. unfold DisplayInventory.
  unfold bind at 1. unfold fmt_Println, fmt_Print at 1. cbn beta iota.
  rewrite bind_get. unfold bind at 1.
  destruct (inventory_loop_lines s Hwf (ItemLocations s) 0 0
              (set_stdout (stdout w ++ ["I'm carrying:" +:+ nl]) w))
    as (lines & Hrun & Hlen); [lia|].
  rewrite Hrun. exists lines. fold (carried_items s) in *.
  rewrite Z.add_0_l. split; [|split; [exact Hlen|]].
  - unfold when. destruct (carried_items s =? 0).
    + unfold fmt_Print. world_simpl. reflexivity.
    + unfold ret. world_simpl. rewrite app_nil_r. reflexivity.
  - intros p. unfold EvaluateCondition. rewrite !bind_get.
    cbn beta iota. rewrite carries_any_count. fold (carried_items s).
    split; [reflexivity|]. unfold ret. f_equal.
    pose proof (count_carried_bounds (NumItems (Header s)) (ItemLocations s) 0)
      as Hb. fold (carried_items s) in Hb.
    destruct (Z.ltb_spec 0 (carried_items s));
      destruct (Z.eqb_spec (carried_items s) 0); try reflexivity; lia.
Qed.

(** The theorem in the sample adventure, where the bottle and the net
    are carried. *)
Lemma DisplayInventory_lists_the_carried_items_witness :
  exists lines : list string,
    DisplayInventory sample_state sample_world
    = Ok tt sample_state
        (printed (("I'm carrying:" +:+ nl) :: lines
                  ++ (if carried_items sample_state =? 0
                      then ["Nothing." +:+ nl] else [])) sample_world)
    /\ Z.of_nat (length lines) = carried_items sample_state
    /\ (forall parameter,
        EvaluateCondition 10 parameter sample_state sample_world
        = Ok (0 <? carried_items sample_state) sample_state sample_world
        /\ EvaluateCondition 11 parameter sample_state sample_world
           = Ok (carried_items sample_state =? 0) sample_state sample_world).
Proof.
  apply (DisplayInventory_lists_the_carried_items sample_state sample_world).
  exact sample_state_wf.
Defined.

Lemma treasure_loop_counts s :
  forall locs i count,
    0 <= i -> i + Z.of_nat (length locs) <= Z.of_nat (length (Items s)) ->
    exists n, treasure_loop s i locs count = Some n
              /\ count <= n <= count + Z.of_nat (length locs).
Proof.
  induction locs as [|loc locs IH]; intros i count Hi Hlen.
  - exists count. cbn [treasure_loop length]. split; [reflexivity|lia].
  - cbn [treasure_loop]. cbn [length] in Hlen.
    destruct ((i <=? NumItems (Header s)) && (loc =? TreasureRoom (Header s))).
    + destruct (index_is_Some (Items s) i) as [item Hitem]; [lia|].
      rewrite Hitem.
      destruct (IH (i + 1)
                  (if contains_star (Description item) then count + 1
                   else count)) as (n & Hn & Hr); [lia|lia|].
      exists n. split; [exact Hn|]. cbn [length].
      destruct (contains_star (Description item)); lia.
    + destruct (IH (i + 1) count) as (n & Hn & Hr); [lia|lia|].
      exists n. split; [exact Hn|]. cbn [length]. lia.
Qed.

(** The loop of DisplayScore counts the stored treasures: from item
    [length pre] on it adds one for each item of the rest that lies in
    the treasure room and has a star in its description. *)
Lemma treasure_loop_stored s :
  Z.of_nat (length (ItemLocations s)) = NumItems (Header s) + 1 ->
  length (Items s) = length (ItemLocations s) ->
  forall locs pre count,
    ItemLocations s = pre ++ locs ->
    treasure_loop s (Z.of_nat (length pre)) locs count
    = Some (count
            + Z.of_nat (length (List.filter (stored_treasure s)
                                  (seqZ (Z.of_nat (length pre))
                                     (Z.of_nat (length locs)))))).
Proof.
  intros Hlocs Hitems.
  induction locs as [|loc locs IH]; intros pre count Hsplit.
  - cbn [treasure_loop length]. rewrite seqZ_nil by lia.
    cbn [List.filter length]. f_equal. lia.
  - assert (Hlen : length (ItemLocations s) = (length pre + S (length locs))%nat)
      by (rewrite Hsplit, length_app; reflexivity).
    assert (Hloc : index (ItemLocations s) (Z.of_nat (length pre)) = Some loc)
      by (rewrite Hsplit; apply index_app_length).
    destruct (index_is_Some (Items s) (Z.of_nat (length pre)))
      as [item Hitem]; [lia|].
    assert (Hnext : Z.of_nat (length (pre ++ [loc]))
                    = Z.of_nat (length pre) + 1)
      by (rewrite length_app; cbn [length]; lia).
    assert (Hsplit' : ItemLocations s = (pre ++ [loc]) ++ locs)
      by (rewrite <- app_assoc; exact Hsplit).
    cbn [treasure_loop length].
    rewrite seqZ_cons by lia.
    replace (Z.succ (Z.of_nat (length pre)))
      with (Z.of_nat (length pre) + 1) by lia.
    replace (Z.pred (Z.of_nat (S (length locs))))
      with (Z.of_nat (length locs)) by lia.
    cbn [List.filter]. unfold stored_treasure at 1. rewrite Hloc, Hitem.
    destruct (Z.leb_spec (Z.of_nat (length pre)) (NumItems (Header s)));
      [|lia].
    cbn [andb]. rewrite <- Hnext.
    destruct (loc =? TreasureRoom (Header s)); cbn [andb].
    + rewrite (IH (pre ++ [loc]) _ Hsplit').
      destruct (contains_star (Description item)); cbn [length]; f_equal; lia.
    + exact (IH (pre ++ [loc]) count Hsplit').
Qed.

(** The score.  In a well-formed state DisplayScore counts the stored
    treasures: the items among 0 to NumItems that lie in the treasure
    room and have a star in their description.  If the header declares
    no treasures (Treasures = 0) the rating divides by zero and the
    interpreter dies of the runtime panic.  Otherwise the state is
    unchanged and the output is the number stored, the rating
    [stored * 100 / Treasures] and, exactly when the number stored equals
    Treasures, the congratulation. *)
Theorem DisplayScore_rates_the_stored_treasures :
  forall (s : GameState) (w : World),
    wf s ->
    let stored := stored_treasures s in
    0 <= stored <= NumItems (Header s) + 1
    /\ (Treasures (Header s) = 0 -> DisplayScore s w = Panicked)
    /\ (Treasures (Header s) <> 0 ->
        DisplayScore s w
        = Ok tt s
            (printed
               ([ "I've stored " +:+ format_int stored +:+ " treasures." +:+ nl;
                  "On a scale of 0 to 100, that rates a "
                  +:+ format_int (Z.quot (stored * 100) (Treasures (Header s)))
                  +:+ "." +:+ nl ]
                ++ (if stored =? Treasures (Header s)
                    then ["Well done! You've found all the treasures!" +:+ nl]
                    else [])) w)).
Proof.
  intros s w Hwf stored.
  pose proof (wf_locations s Hwf) as Hlen.
  assert (Hn : treasure_loop s 0 (ItemLocations s) 0 = Some stored).
  { pose proof (treasure_loop_stored s Hlen (wf_items s Hwf)
                  (ItemLocations s) [] 0 eq_refl) as Hloop.
    cbn [length] in Hloop. change (Z.of_nat 0) with 0 in Hloop.
    rewrite Hlen in Hloop. exact Hloop. }
  destruct (treasure_loop_counts s (ItemLocations s) 0 0) as (n & Hn' & Hr);
    [lia|rewrite (wf_items s Hwf); lia|].
  rewrite Hn in Hn'. injection Hn' as <-.
  split; [lia|].
  unfold DisplayScore. rewrite bind_get, Hn. run_monad. split.
  - intros ->. reflexivity.
  - intros Hne. destruct (Z.eqb_spec (Treasures (Header s)) 0); [contradiction|].
    destruct (stored =? Treasures (Header s)); world_simpl; reflexivity.
Qed.

(** The theorem in the sample adventure, which declares one treasure and
    has it, the starred gold, in the treasure room. *)
Lemma DisplayScore_rates_the_stored_treasures_witness :
  stored_treasures sample_state = 1
  /\ DisplayScore sample_state sample_world
     = Ok tt sample_state
         (printed
            [ "I've stored 1 treasures." +:+ nl;
              "On a scale of 0 to 100, that rates a 100." +:+ nl;
              "Well done! You've found all the treasures!" +:+ nl ]
            sample_world).
Proof.
  split; [reflexivity|].
  destruct (DisplayScore_rates_the_stored_treasures sample_state sample_world
              sample_state_wf) as (_ & _ & Hscore).
  exact (Hscore ltac:(discriminate)).
Defined.

(** ** Moving and looking *)





(** Darkness.  When the room is dark, DisplayCurrentLocation prints "It
    is too dark to see" and nothing else.  A move in the dark first
    draws a number below 100: below 25 the player falls into a pit and is
    put in the last room (NumRooms), in whatever direction the move was
    made, even one without an exit; from 25 on the move is made as in the
    light. *)
Theorem darkness_hides_the_room_and_endangers_moves :
  forall (s : GameState) (w : World) (direction : Z),
    IsDark s = Some true ->
    DisplayCurrentLocation s w
    = Ok tt s (printed ["It is too dark to see" +:+ nl] w)
    /\ (random w (drawn w) mod 100 < 25 ->
        MovePlayer direction s w
        = Ok tt (set_DisplayedRoom false
                   (set_CurrentRoom (NumRooms (Header s)) s))
            (printed ["I fell into a pit and broke every bone in my body!"
                      +:+ nl] (set_drawn (S (drawn w)) w)))
    /\ (25 <= random w (drawn w) mod 100 ->
        forall room e,
          index (Rooms s) (CurrentRoom s) = Some room ->
          index (Exits room) direction = Some e ->
          MovePlayer direction s w
          = if e =? 0
            then Ok tt s (printed ["I can't go that way." +:+ nl]
                            (set_drawn (S (drawn w)) w))
            else Ok tt (set_DisplayedRoom false (set_CurrentRoom e s))
                   (set_drawn (S (drawn w)) w)).
Proof.
  intros s w d Hdark. split; [|split].
  - unfold DisplayCurrentLocation. rewrite bind_get, Hdark. reflexivity.
  - intros Hdraw. unfold MovePlayer. rewrite bind_get, Hdark.
    unfold rand_Intn. run_monad.
    destruct (Z.ltb_spec (random w (drawn w) mod 100) 25); [|lia].
    reflexivity.
  - intros Hdraw room e Hroom He. unfold MovePlayer. rewrite bind_get, Hdark.
    unfold rand_Intn. run_monad.
    destruct (Z.ltb_spec (random w (drawn w) mod 100) 25); [lia|].
    cbn [Rooms CurrentRoom]. rewrite Hroom. run_monad. rewrite He. run_monad.
    destruct (e =? 0); reflexivity.
Qed.

(** The theorem in the meadow of the sample adventure at night, going
    north where there is no exit, and going east with a lucky draw. *)
Lemma darkness_hides_the_room_and_endangers_moves_witness :
  DisplayCurrentLocation dark_state sample_world
  = Ok tt dark_state (printed ["It is too dark to see" +:+ nl] sample_world)
  /\ MovePlayer NORTH dark_state sample_world
     = Ok tt (set_DisplayedRoom false (set_CurrentRoom 3 dark_state))
         (printed ["I fell into a pit and broke every bone in my body!"
                   +:+ nl] (set_drawn 1 sample_world))
  /\ MovePlayer EAST dark_state lucky_world
     = Ok tt (set_DisplayedRoom false (set_CurrentRoom 3 dark_state))
         (set_drawn 1 lucky_world).
Proof.
  destruct (darkness_hides_the_room_and_endangers_moves dark_state
              sample_world NORTH eq_refl) as (Hlook & Hfall & _).
  destruct (darkness_hides_the_room_and_endangers_moves dark_state
              lucky_world EAST eq_refl) as (_ & _ & Hmove).
  split; [exact Hlook|]. split.
  - apply Hfall. vm_compute. reflexivity.
  - apply (Hmove ltac:(vm_compute; discriminate)
             (mkRoom [0; 1; 3; 0; 0; 0] "meadow") 3); reflexivity.
Defined.

(** ** The data file: tokens *)

Lemma append_cons (x : ascii) (a b : string) :
  String x a +:+ b = String x (a +:+ b).
Proof. reflexivity. Qed.

Lemma append_nil_l (b : string) : EmptyString +:+ b = b.
Proof. reflexivity. Qed.

Lemma append_assoc (a b c : string) : (a +:+ b) +:+ c = a +:+ (b +:+ c).
Proof.
  induction a as [|x a IH]; [reflexivity|].
  rewrite !append_cons, IH. reflexivity.
Qed.

Lemma append_nil_r (a : string) : a +:+ EmptyString = a.
Proof.
  induction a as [|x a IH]; [reflexivity|].
  rewrite append_cons, IH. reflexivity.
Qed.

Lemma length_append (a b : string) :
  String.length (a +:+ b) = (String.length a + String.length b)%nat.
Proof.
  induction a as [|x a IH]; [reflexivity|].
  rewrite append_cons. cbn [String.length]. rewrite IH. reflexivity.
Qed.

Lemma quoted_token_head t :
  quoted_token t
  = match t with
    | String c _ => Ascii.eqb c quote
    | EmptyString => false
    end.
Proof.
  unfold quoted_token, HasPrefix. destruct t as [|c t]; [reflexivity|].
  cbn [String.prefix]. destruct (ascii_dec quote c) as [<-|Hne].
  - destruct t; reflexivity.
  - symmetry. apply Ascii.eqb_neq. congruence.
Qed.

Lemma line_end_is_space c : is_line_end c = true -> IsSpace c = true.
Proof.
  unfold is_line_end. intros H. apply orb_prop in H.
  destruct H as [H|H]; apply Ascii.eqb_eq in H; subst; reflexivity.
Qed.

(** The bytes of a plain token go to the current token one by one. *)
Lemma tokenize_plain_bytes :
  forall t rest tokens cur,
    plain_bytes t = true ->
    tokenize_loop (t +:+ String "010"%char rest) tokens cur false false
    = tokenize_loop (String "010"%char rest) tokens (cur +:+ t) false false.
Proof.
  induction t as [|c t IH]; intros rest tokens cur Hplain.
  - rewrite append_nil_l, append_nil_r. reflexivity.
  - cbn [plain_bytes] in Hplain.
    apply andb_prop in Hplain. destruct Hplain as [Hc Ht].
    apply andb_prop in Hc. destruct Hc as [Hbyte Hslash].
    unfold plain_byte in Hbyte. apply andb_prop in Hbyte.
    destruct Hbyte as [Hq Hsp].
    apply negb_true_iff in Hq, Hsp, Hslash.
    assert (Hle : is_line_end c = false).
    { destruct (is_line_end c) eqn:E; [|reflexivity].
      apply line_end_is_space in E. congruence. }
    assert (Hstep :
      tokenize_loop (String c t +:+ String "010"%char rest) tokens cur
        false false
      = tokenize_loop (t +:+ String "010"%char rest) tokens (WriteByte cur c)
          false false).
    { rewrite append_cons. cbn [tokenize_loop andb].
      rewrite Hq, Hle, Hsp. cbn [negb].
      destruct (Ascii.eqb c slash) eqn:Es; [|reflexivity].
      cbn [andb] in Hslash. destruct t as [|c' t].
      - reflexivity.
      - rewrite append_cons. cbn [starts_with_slash] in Hslash.
        rewrite Hslash. reflexivity. }
    rewrite Hstep, (IH rest tokens (WriteByte cur c) Ht).
    unfold WriteByte. rewrite append_assoc. reflexivity.
Qed.

(** Inside quotes every byte but a quote goes to the current token. *)
Lemma tokenize_quoted_bytes :
  forall text rest tokens cur,
    quote_free text = true ->
    tokenize_loop (text +:+ rest) tokens cur true false
    = tokenize_loop rest tokens (cur +:+ text) true false.
Proof.
  induction text as [|c text IH]; intros rest tokens cur Hfree.
  - rewrite append_nil_l, append_nil_r. reflexivity.
  - cbn [quote_free] in Hfree. apply andb_prop in Hfree.
    destruct Hfree as [Hq Ht]. apply negb_true_iff in Hq.
    rewrite append_cons. cbn [tokenize_loop andb]. rewrite Hq.
    rewrite (IH rest tokens (WriteByte cur c) Ht).
    unfold WriteByte. rewrite append_assoc. reflexivity.
Qed.

Lemma tokenize_line t rest tokens :
  line_token t ->
  tokenize_loop (t +:+ nl +:+ rest) tokens EmptyString false false
  = tokenize_loop rest (tokens ++ [t]) EmptyString false false.
Proof.
  intros [Hplain|(text & Hfree & ->)].
  - unfold nl. rewrite append_cons, append_nil_l. unfold plain_token in Hplain.
    destruct t as [|c t]; [discriminate|].
    rewrite (tokenize_plain_bytes (String c t) rest tokens EmptyString Hplain).
    reflexivity.
  - unfold in_quotes, nl. rewrite !append_cons, append_nil_l.
    cbn [tokenize_loop andb].
    change (Ascii.eqb quote quote) with true. cbn beta iota.
    rewrite append_assoc.
    rewrite (tokenize_quoted_bytes text _ (flush tokens EmptyString)
               (String quote EmptyString) Hfree).
    rewrite !append_cons, append_nil_l. cbn [tokenize_loop andb flush].
    change (Ascii.eqb quote quote) with true. cbn beta iota.
    change (Ascii.eqb "010" quote) with false. cbn beta iota.
    change (is_line_end "010") with true. cbn beta iota.
    unfold WriteByte. rewrite append_nil_l, append_cons. reflexivity.
Qed.

Lemma tokenize_lines :
  forall ts tokens,
    Forall line_token ts ->
    tokenize_loop (one_per_line ts) tokens EmptyString false false
    = (tokens ++ ts, EmptyString, false).
Proof.
  induction ts as [|t ts IH]; intros tokens Hall.
  - cbn [one_per_line tokenize_loop]. rewrite app_nil_r. reflexivity.
  - inversion Hall as [|? ? Ht Hts]; subst.
    cbn [one_per_line].
    rewrite (tokenize_line t _ tokens Ht), (IH _ Hts), <- app_assoc.
    reflexivity.
Qed.

(** One token per line.  A text that has one token on each line, each a
    plain word or number (no white space, no quote, no two slashes in a
    row) or a quoted text (any bytes but quotes between two quotes, line
    ends, blanks and slashes included), is split into exactly these
    tokens; the quoted ones keep their quotes. *)
Theorem tokenizeGameData_of_one_token_per_line :
  forall tokens : list string,
    Forall line_token tokens ->
    tokenizeGameData (one_per_line tokens) = inl tokens.
Proof.
  intros tokens Hall. unfold tokenizeGameData.
  rewrite (tokenize_lines tokens [] Hall). reflexivity.
Qed.

(** The theorem on a number, a word with a slash and a quoted text of two
    lines. *)
Lemma tokenizeGameData_of_one_token_per_line_witness :
  tokenizeGameData
    (one_per_line ["125"; "N/S"; in_quotes ("a sunny" +:+ nl +:+ "meadow")])
  = inl ["125"; "N/S"; in_quotes ("a sunny" +:+ nl +:+ "meadow")].
Proof.
  apply (tokenizeGameData_of_one_token_per_line
           ["125"; "N/S"; in_quotes ("a sunny" +:+ nl +:+ "meadow")]).
  constructor; [left; reflexivity|].
  constructor; [left; reflexivity|].
  constructor; [|constructor].
  right. exists ("a sunny" +:+ nl +:+ "meadow"). split; reflexivity.
Defined.

(** A comment is passed over.  Outside quotes, two slashes start a
    comment that runs to the end of the line: whatever it contains,
    quotes included, the scan goes on at the line end in the state it
    was in before the comment, and a comment line at the start of a file
    might as well not be there. *)
Theorem tokenizeGameData_skips_comments :
  forall (comment rest : string),
    (forall c, In c (list_ascii_of_string comment) -> is_line_end c = false) ->
    (forall tokens currentToken,
        tokenize_loop ("//" +:+ comment +:+ nl +:+ rest) tokens currentToken
          false false
        = tokenize_loop (nl +:+ rest) tokens currentToken false false)
    /\ tokenizeGameData ("//" +:+ comment +:+ nl +:+ rest)
       = tokenizeGameData rest.
Proof.
  intros comment rest Hfree.
  assert (Hskip : forall text tokens cur,
             (forall c, In c (list_ascii_of_string text) ->
                        is_line_end c = false) ->
             tokenize_loop (text +:+ nl +:+ rest) tokens cur false true
             = tokenize_loop (nl +:+ rest) tokens cur false false).
  { induction text as [|c text IH]; intros tokens cur Hno.
    - reflexivity.
    - rewrite append_cons. cbn [tokenize_loop].
      rewrite (Hno c) by (left; reflexivity). cbn [andb negb].
      apply IH. intros c' Hc'. apply Hno. right. exact Hc'. }
  assert (Hloop : forall tokens cur,
             tokenize_loop ("//" +:+ comment +:+ nl +:+ rest) tokens cur
               false false
             = tokenize_loop (nl +:+ rest) tokens cur false false).
  { intros tokens cur.
    change ("//" +:+ comment +:+ nl +:+ rest)
      with (String slash (String slash (comment +:+ nl +:+ rest))).
    cbn [tokenize_loop andb].
    change (Ascii.eqb slash quote) with false.
    change (is_line_end slash) with false.
    change (Ascii.eqb slash slash) with true. cbn beta iota.
    apply (Hskip comment tokens cur Hfree). }
  split; [exact Hloop|].
  unfold tokenizeGameData. rewrite Hloop. reflexivity.
Qed.

(** The theorem on a comment that holds a quote. *)
Lemma tokenizeGameData_skips_comments_witness :
  (forall tokens currentToken,
      tokenize_loop ("//" +:+ " don't " +:+ String quote " count" +:+ nl
                     +:+ "12") tokens currentToken false false
      = tokenize_loop (nl +:+ "12") tokens currentToken false false)
  /\ tokenizeGameData ("//" +:+ " don't " +:+ String quote " count" +:+ nl
                       +:+ "12")
     = tokenizeGameData "12".
Proof.
  apply (tokenizeGameData_skips_comments (" don't " +:+ String quote " count")
           "12").
  intros c Hc. cbn in Hc.
  repeat (destruct Hc as [<-|Hc]; [reflexivity|]). contradiction.
Defined.

Lemma length_WriteByte cur c :
  String.length (WriteByte cur c) = S (String.length cur).
Proof. unfold WriteByte. rewrite length_append. cbn [String.length]. lia. Qed.

Lemma WriteByte_not_empty cur c : WriteByte cur c <> EmptyString.
Proof.
  intros H. apply (f_equal String.length) in H.
  rewrite length_WriteByte in H. discriminate.
Qed.

Lemma quoted_token_WriteByte cur c :
  quoted_token (WriteByte cur c)
  = match cur with
    | EmptyString => Ascii.eqb c quote
    | _ => quoted_token cur
    end.
Proof. rewrite !quoted_token_head. destruct cur; reflexivity. Qed.

Lemma flush_ok tokens cur :
  Forall token_ok tokens -> cur = EmptyString \/ quoted_token cur = false ->
  Forall token_ok (flush tokens cur).
Proof.
  intros Hall Hcur. unfold flush. destruct cur as [|c cur]; [exact Hall|].
  apply Forall_app. split; [exact Hall|]. constructor; [|constructor].
  split; [discriminate|]. destruct Hcur as [Hcur|Hcur]; [discriminate|].
  rewrite Hcur. discriminate.
Qed.

Lemma tokenize_loop_ok :
  forall content tokens cur inQuotes inComment tokens' cur' inQuotes',
    scanner_ok tokens cur inQuotes ->
    tokenize_loop content tokens cur inQuotes inComment
    = (tokens', cur', inQuotes') ->
    scanner_ok tokens' cur' inQuotes'.
Proof.
  induction content as [|c content IH];
    intros tokens cur q k tokens' cur' q' Hok Hrun.
  - injection Hrun as <- <- <-. exact Hok.
  - cbn [tokenize_loop] in Hrun. destruct Hok as [Hall Hcur].
    destruct (k && negb (is_line_end c)).
    { assert (Hsame : scanner_ok tokens cur q) by (split; assumption).
      exact (IH _ _ _ _ _ _ _ Hsame Hrun). }
    destruct (Ascii.eqb c quote) eqn:Eq.
    { destruct q.
      - apply (IH _ _ _ _ _ _ _) in Hrun; [exact Hrun|]. split; [|left; reflexivity].
        apply Forall_app. split; [exact Hall|]. constructor; [|constructor].
        split; [apply WriteByte_not_empty|]. intros _.
        rewrite length_WriteByte. rewrite quoted_token_head in Hcur.
        destruct cur; [discriminate|]. cbn [String.length]. lia.
      - apply (IH _ _ _ _ _ _ _) in Hrun; [exact Hrun|]. split.
        + apply flush_ok; assumption.
        + rewrite quoted_token_head. exact Eq. }
    destruct q.
    { apply (IH _ _ _ _ _ _ _) in Hrun; [exact Hrun|]. split; [exact Hall|].
      rewrite quoted_token_WriteByte. destruct cur; [|exact Hcur].
      rewrite quoted_token_head in Hcur. discriminate. }
    assert (Hflush : scanner_ok (flush tokens cur) EmptyString false).
    { split; [apply flush_ok; assumption|left; reflexivity]. }
    assert (Hsame : scanner_ok tokens cur false) by (split; assumption).
    assert (Hwrite : scanner_ok tokens (WriteByte cur c) false).
    { split; [exact Hall|]. right. rewrite quoted_token_WriteByte.
      destruct cur; [exact Eq|]. destruct Hcur as [Hcur|Hcur];
        [discriminate|exact Hcur]. }
    destruct (is_line_end c).
    { exact (IH _ _ _ _ _ _ _ Hflush Hrun). }
    destruct (Ascii.eqb c slash).
    { destruct content as [|next content'].
      - exact (IH _ _ _ _ _ _ _ Hwrite Hrun).
      - destruct (Ascii.eqb next slash).
        + exact (IH _ _ _ _ _ _ _ Hsame Hrun).
        + exact (IH _ _ _ _ _ _ _ Hwrite Hrun). }
    destruct (negb (IsSpace c)).
    + exact (IH _ _ _ _ _ _ _ Hwrite Hrun).
    + exact (IH _ _ _ _ _ _ _ Hflush Hrun).
Qed.

(** Every token tokenizeGameData returns is well shaped. *)
Lemma tokenizeGameData_ok content tokens :
  tokenizeGameData content = inl tokens -> Forall token_ok tokens.
Proof.
  unfold tokenizeGameData.
  destruct (tokenize_loop content [] EmptyString false false)
    as [[tokens' cur] q] eqn:Hrun.
  apply tokenize_loop_ok in Hrun; [|split; [constructor|left; reflexivity]].
  destruct Hrun as [Hall Hcur]. destruct q; [discriminate|].
  intros [= <-]. apply flush_ok; assumption.
Qed.

(** ** The data file: tables *)

Lemma and_then_Parsed {A B : Type} (m : Reader A) (k : A -> Reader B)
    toks b rest :
  and_then m k toks = Parsed b rest ->
  exists a mid, m toks = Parsed a mid /\ k a mid = Parsed b rest.
Proof.
  unfold and_then. destruct (m toks) as [a mid| |]; try discriminate.
  intros H. exists a, mid. split; [reflexivity|exact H].
Qed.

Ltac read_step H x mid Hx :=
  apply and_then_Parsed in H; destruct H as (x & mid & Hx & H).

Lemma next_token_Parsed eof toks token rest :
  next_token eof toks = Parsed token rest -> toks = token :: rest.
Proof. destruct toks; [discriminate|]. intros [= <- <-]. reflexivity. Qed.

Lemma read_int_Parsed eof invalid toks v rest :
  read_int eof invalid toks = Parsed v rest ->
  exists token, toks = token :: rest /\ Atoi token = (v, true).
Proof.
  unfold read_int. intros H. read_step H token mid Ht.
  apply next_token_Parsed in Ht. exists token.
  destruct (Atoi token) as [val ok] eqn:E. destruct ok; [|discriminate].
  injection H as <- <-. split; [exact Ht|reflexivity].
Qed.

Lemma read_int_range eof invalid toks v rest :
  read_int eof invalid toks = Parsed v rest ->
  is_int64 v /\ rest `suffix_of` toks.
Proof.
  intros H. apply read_int_Parsed in H. destruct H as (token & -> & E).
  split.
  - pose proof (Atoi_range token) as Hr. rewrite E in Hr. exact Hr.
  - apply suffix_cons_r. reflexivity.
Qed.

Lemma read_quoted_Parsed eof invalid toks text rest :
  read_quoted eof invalid toks = Parsed text rest ->
  exists token,
    toks = token :: rest /\ quoted_token token = true
    /\ unquote token = Some text.
Proof.
  unfold read_quoted. intros H. read_step H token mid Ht.
  apply next_token_Parsed in Ht. exists token.
  destruct (quoted_token token); [|discriminate]. cbn [negb] in H.
  destruct (unquote token) as [t|]; [|discriminate].
  injection H as <- <-. auto.
Qed.

Lemma make_Parsed size n toks k rest :
  make size n toks = Parsed k rest ->
  rest = toks /\ 0 <= n /\ k = Z.to_nat n.
Proof.
  unfold make. destruct (Z.ltb_spec n 0); [discriminate|]. cbn [orb].
  destruct (maxAlloc <? size * n); [discriminate|].
  intros [= <- <-]. auto.
Qed.

(** A slice of [x + 1] entries has been allocated: the length did not
    wrap around. *)
Lemma make_length size x toks k rest :
  is_int64 x -> make size (wrap64 (x + 1)) toks = Parsed k rest ->
  rest = toks /\ Z.of_nat k = x + 1.
Proof.
  intros Hx H. apply make_Parsed in H. destruct H as (-> & Hn & ->).
  split; [reflexivity|].
  unfold is_int64, minInt64, maxInt64 in Hx.
  destruct (Z.eq_dec x (2 ^ 63 - 1)) as [->|Hne].
  - exfalso. revert Hn. vm_compute. auto.
  - rewrite wrap64_id in * by (unfold is_int64, minInt64, maxInt64; lia). lia.
Qed.

Lemma read_entries_Parsed {A : Type} (Q : A -> Prop) (entry : Z -> Reader A) :
  (forall i toks a rest,
      entry i toks = Parsed a rest -> Q a /\ rest `suffix_of` toks) ->
  forall n i toks l rest,
    read_entries n i entry toks = Parsed l rest ->
    length l = n /\ Forall Q l /\ rest `suffix_of` toks.
Proof.
  intros Hentry. induction n as [|n IH]; intros i toks l rest H.
  - injection H as <- <-. split; [reflexivity|]. split; [constructor|reflexivity].
  - cbn [read_entries] in H. read_step H a mid Ha. read_step H l' mid' Hl.
    injection H as <- <-. apply Hentry in Ha. destruct Ha as [Hq Hs1].
    apply IH in Hl. destruct Hl as (Hlen & Hall & Hs2).
    split; [cbn [length]; congruence|]. split; [constructor; assumption|].
    etrans; eassumption.
Qed.

Lemma read_header_Parsed toks h rest :
  read_header toks = Parsed h rest ->
  header_in_range h /\ rest `suffix_of` toks.
Proof.
  unfold read_header, header_value. intros H.
  read_step H v0 t0 H0. read_step H v1 t1 H1. read_step H v2 t2 H2.
  read_step H v3 t3 H3. read_step H v4 t4 H4. read_step H v5 t5 H5.
  read_step H v6 t6 H6. read_step H v7 t7 H7. read_step H v8 t8 H8.
  read_step H v9 t9 H9. read_step H v10 t10 H10. read_step H v11 t11 H11.
  injection H as <- <-.
  apply read_int_range in H0, H1, H2, H3, H4, H5, H6, H7, H8, H9, H10, H11.
  split.
  - unfold header_in_range. cbn. tauto.
  - repeat (etrans; [|apply H0 || apply H1 || apply H2 || apply H3 || apply H4
                       || apply H5 || apply H6 || apply H7 || apply H8
                       || apply H9 || apply H10 || apply H11]).
    reflexivity.
Qed.

Lemma read_action_Parsed i toks a rest :
  read_action i toks = Parsed a rest ->
  (length (Conditions a) = 5%nat /\ length (Commands a) = 2%nat
   /\ Forall is_int64 (Conditions a))
  /\ rest `suffix_of` toks.
Proof.
  unfold read_action. intros H.
  read_step H vocab t0 H0. read_step H conds t1 H1. read_step H cmds t2 H2.
  injection H as <- <-. apply read_int_range in H0. destruct H0 as [_ Hs0].
  apply (read_entries_Parsed is_int64) in H1;
    [|intros; eapply read_int_range; eassumption].
  apply (read_entries_Parsed is_int64) in H2;
    [|intros; eapply read_int_range; eassumption].
  destruct H1 as (Hl1 & Hr1 & Hs1), H2 as (Hl2 & _ & Hs2).
  cbn [Conditions Commands]. split; [auto|].
  etrans; [exact Hs2|]. etrans; [exact Hs1|exact Hs0].
Qed.

Lemma read_room_Parsed i toks room rest :
  read_room i toks = Parsed room rest ->
  length (Exits room) = 6%nat /\ rest `suffix_of` toks.
Proof.
  unfold read_room. intros H. read_step H exits t0 H0. read_step H desc t1 H1.
  injection H as <- <-.
  apply (read_entries_Parsed is_int64) in H0;
    [|intros; eapply read_int_range; eassumption].
  destruct H0 as (Hl & _ & Hs0).
  apply read_quoted_Parsed in H1. destruct H1 as (token & -> & _).
  split; [exact Hl|]. etrans; [|exact Hs0]. apply suffix_cons_r. reflexivity.
Qed.

Lemma read_message_Parsed i toks msg rest :
  read_message i toks = Parsed msg rest -> True /\ rest `suffix_of` toks.
Proof.
  unfold read_message. intros H. apply read_quoted_Parsed in H.
  destruct H as (token & -> & _). split; [exact I|].
  apply suffix_cons_r. reflexivity.
Qed.

Lemma read_item_Parsed i toks entry rest :
  read_item i toks = Parsed entry rest ->
  (Location (fst entry) = snd entry /\ is_int64 (snd entry))
  /\ rest `suffix_of` toks.
Proof.
  unfold read_item. intros H. read_step H desc t0 H0. cbv zeta in H.
  read_step H loc t1 H1. injection H as <- <-.
  apply read_quoted_Parsed in H0. destruct H0 as (token & -> & _).
  apply read_int_range in H1. destruct H1 as [Hr Hs].
  cbn [fst snd Location]. split; [auto|].
  etrans; [exact Hs|]. apply suffix_cons_r. reflexivity.
Qed.

Lemma read_titles_Parsed :
  forall n toks titles rest,
    read_titles n toks = Parsed titles rest ->
    (length titles <= n)%nat /\ rest `suffix_of` toks.
Proof.
  induction n as [|n IH]; intros toks titles rest H.
  - destruct toks; injection H as <- <-; split; cbn; try lia; reflexivity.
  - destruct toks as [|token toks].
    + injection H as <- <-. split; [cbn; lia|reflexivity].
    + cbn [read_titles] in H. destruct (quoted_token token).
      * read_step H title t0 H0. read_step H titles' t1 H1.
        injection H as <- <-.
        destruct (unquote token); [|discriminate]. injection H0 as _ <-.
        apply IH in H1. destruct H1 as [Hl Hs].
        split; [cbn [length]; lia|]. apply suffix_cons_r. exact Hs.
      * injection H as <- <-. split; [cbn; lia|reflexivity].
Qed.

Lemma vocabulary_loop_suffix :
  forall toks vocabulary rest,
    vocabulary_loop toks = (vocabulary, rest) -> rest `suffix_of` toks.
Proof.
  induction toks as [|token toks IH]; intros vocabulary rest H.
  - injection H as <- <-. reflexivity.
  - cbn [vocabulary_loop] in H. destruct (quoted_token token).
    + destruct (vocabulary_loop toks) as [v r] eqn:E.
      injection H as <- <-. apply suffix_cons_r. exact (IH _ _ eq_refl).
    + injection H as <- <-. reflexivity.
Qed.

Lemma or_crash_Parsed {A : Type} (o : option A) toks a rest :
  or_crash o toks = Parsed a rest -> o = Some a /\ rest = toks.
Proof. destruct o; [|discriminate]. intros [= <- <-]. auto. Qed.

(** What a successful read of the data file returns. *)
Lemma read_game_data_Parsed toks s rest :
  read_game_data toks = Parsed s rest ->
  state_ok s
  /\ s = initial_state (Header s) (Rooms s) (Items s) (Actions s) (Words s)
           (Messages s) (ActionTitles s)
  /\ Z.of_nat (length (Actions s)) = NumActions (Header s) + 1
  /\ length (ActionTitles s) = length (Actions s)
  /\ Z.of_nat (length (Rooms s)) = NumRooms (Header s) + 1
  /\ Forall (fun room => length (Exits room) = 6%nat) (Rooms s)
  /\ Z.of_nat (length (Messages s)) = NumMessages (Header s) + 1.
Proof.
  unfold read_game_data. cbv zeta. intros H.
  read_step H header t0 Hheader.
  apply read_header_Parsed in Hheader.
  destruct Hheader as [(HnI & HnA & HnW & HnR & HpR & HlT & HnM) _].
  read_step H numActions t1 H1.
  apply (make_length _ _ _ _ _ HnA) in H1. destruct H1 as [-> HlenA].
  read_step H actions t2 H2.
  apply (read_entries_Parsed
           (fun a => length (Conditions a) = 5%nat
                     /\ length (Commands a) = 2%nat
                     /\ Forall is_int64 (Conditions a))) in H2;
    [|exact read_action_Parsed].
  destruct H2 as (Hla & Hactions & _).
  read_step H vocabulary t3 H3. read_step H words t4 H4.
  read_step H numRooms t5 H5.
  apply (make_length _ _ _ _ _ HnR) in H5. destruct H5 as [-> HlenR].
  read_step H rooms t6 H6.
  apply (read_entries_Parsed (fun room => length (Exits room) = 6%nat)) in H6;
    [|exact read_room_Parsed].
  destruct H6 as (Hlr & Hrooms & _).
  read_step H numMessages t7 H7.
  apply (make_length _ _ _ _ _ HnM) in H7. destruct H7 as [-> HlenM].
  read_step H messages t8 H8.
  apply (read_entries_Parsed (fun _ => True)) in H8;
    [|exact read_message_Parsed].
  destruct H8 as (Hlm & _ & _).
  read_step H numItems t9 H9.
  apply (make_length _ _ _ _ _ HnI) in H9. destruct H9 as [-> HlenI].
  read_step H items t10 H10.
  apply (read_entries_Parsed
           (fun entry => Location (fst entry) = snd entry
                         /\ is_int64 (snd entry))) in H10;
    [|exact read_item_Parsed].
  destruct H10 as (Hli & Hitems & _).
  read_step H titles t11 H11. apply read_titles_Parsed in H11.
  destruct H11 as [Hlt _].
  read_step H version t12 H12. read_step H advNum t13 H13.
  read_step H checksum t14 H14.
  apply read_int_range in H12, H13, H14.
  destruct H12 as [Hversion _], H13 as [HadvNum _].
  destruct (negb (checksum =? _)); [discriminate|].
  injection H as <- <-.
  assert (Hlocs : map Location (map fst items) = map snd items).
  { clear -Hitems. induction Hitems as [|[item loc] items [Hx _] _ IH];
      [reflexivity|]. cbn [map fst snd] in *. rewrite Hx, IH. reflexivity. }
  assert (Hranges : Forall is_int64 (map snd items)).
  { clear -Hitems. induction Hitems as [|[item loc] items [_ Hx] _ IH];
      constructor; assumption. }
  assert (Hzero : is_int64 0) by (unfold is_int64, minInt64, maxInt64; lia).
  split; [|split; [|split; [|split; [|split; [|split]]]]];
    cbn [Header Rooms Items Actions Words Messages ActionTitles CurrentRoom
         ItemLocations BitFlags Counter AltCounters AltRooms NewGameState
         with_trailer NumActions NumRooms NumMessages NumItems PlayerRoom
         LightTime AdventureNumber].
  - split; [|split].
    + split; cbn [Header Rooms Items Actions Words Messages ActionTitles
                  CurrentRoom ItemLocations BitFlags Counter AltCounters
                  AltRooms with_trailer NumItems].
      * rewrite length_map. lia.
      * rewrite !length_map. reflexivity.
      * reflexivity.
      * reflexivity.
      * eapply Forall_impl; [exact Hactions|]. cbn beta. tauto.
    + split; cbn [Header Rooms Items Actions Words Messages ActionTitles
                  CurrentRoom ItemLocations BitFlags Counter AltCounters
                  AltRooms with_trailer AdventureNumber PlayerRoom LightTime];
        try assumption.
      * unfold is_uint32, maxUint32. lia.
      * change (Forall is_int64 [0; 0; 0; 0; 0; 0; 0; 0; LightTime header]).
        repeat (constructor; [assumption|]). constructor.
      * repeat (constructor; [assumption|]). constructor.
    + split; cbn [Header Actions with_trailer LightTime NumRooms];
        try assumption.
      eapply Forall_impl; [exact Hactions|]. cbn beta. tauto.
  - unfold initial_state.
    cbn [Header Rooms Items Actions Words Messages ActionTitles with_trailer
         PlayerRoom LightTime].
    rewrite Hlocs. reflexivity.
  - lia.
  - rewrite length_app, length_replicate. lia.
  - lia.
  - exact Hrooms.
  - lia.
Qed.

Lemma read_room_range i toks room rest :
  read_room i toks = Parsed room rest ->
  Forall is_int64 (Exits room) /\ rest `suffix_of` toks.
Proof.
  intros H. split; [|exact (proj2 (read_room_Parsed _ _ _ _ H))].
  unfold read_room in H. read_step H exits t0 H0. read_step H desc t1 H1.
  injection H as <- <-.
  apply (read_entries_Parsed is_int64) in H0;
    [|intros; eapply read_int_range; eassumption].
  exact (proj1 (proj2 H0)).
Qed.

(** Every exit read from the data file is a Go int. *)
Lemma read_game_data_rooms toks s rest :
  read_game_data toks = Parsed s rest -> rooms_in_range s.
Proof.
  unfold read_game_data. cbv zeta. intros H.
  read_step H header t0 Hheader. read_step H numActions t1 H1.
  read_step H actions t2 H2. read_step H vocabulary t3 H3.
  read_step H words t4 H4. read_step H numRooms t5 H5.
  read_step H rooms t6 H6.
  apply (read_entries_Parsed (fun room => Forall is_int64 (Exits room))) in H6;
    [|exact read_room_range].
  destruct H6 as (_ & Hrooms & _).
  read_step H numMessages t7 H7. read_step H messages t8 H8.
  read_step H numItems t9 H9. read_step H items t10 H10.
  read_step H titles t11 H11. read_step H version t12 H12.
  read_step H advNum t13 H13. read_step H checksum t14 H14.
  destruct (negb (checksum =? _)); [discriminate|].
  injection H as <- <-. exact Hrooms.
Qed.

(** The words of a loaded state come from the vocabulary loop. *)
Lemma read_game_data_words toks s rest :
  read_game_data toks = Parsed s rest ->
  exists halfWords vocabulary,
    make_words halfWords vocabulary 0 = Some (Words s).
Proof.
  unfold read_game_data. cbv zeta. intros H.
  read_step H header t0 Hheader. read_step H numActions t1 H1.
  read_step H actions t2 H2. read_step H vocabulary t3 H3.
  read_step H words t4 H4. apply or_crash_Parsed in H4.
  destruct H4 as [Hwords _].
  read_step H numRooms t5 H5. read_step H rooms t6 H6.
  read_step H numMessages t7 H7. read_step H messages t8 H8.
  read_step H numItems t9 H9. read_step H items t10 H10.
  read_step H titles t11 H11. read_step H version t12 H12.
  read_step H advNum t13 H13. read_step H checksum t14 H14.
  destruct (negb (checksum =? _)); [discriminate|].
  injection H as <- <-. eauto.
Qed.

(** The loader hands the engine a state it can work with.  Every state
    LoadGameData returns satisfies the invariant of the engine: the item
    tables have NumItems + 1 entries, the registers their fixed sizes,
    every action five conditions and two commands, and every number lies
    in the range of its Go type.  It is the initial state of its tables:
    every item at its original location, the player in the start room,
    the light counter at LightTime, everything else zero.  The action,
    title, room and message tables have NumActions + 1, NumActions + 1,
    NumRooms + 1 and NumMessages + 1 entries, and every room has six
    exits, each of them a Go int. *)
Theorem LoadGameData_returns_a_state_of_the_engine :
  forall (file : string + string) (s : GameState),
    LoadGameData file = Loaded s ->
    state_ok s
    /\ s = initial_state (Header s) (Rooms s) (Items s) (Actions s) (Words s)
             (Messages s) (ActionTitles s)
    /\ Z.of_nat (length (Actions s)) = NumActions (Header s) + 1
    /\ length (ActionTitles s) = length (Actions s)
    /\ Z.of_nat (length (Rooms s)) = NumRooms (Header s) + 1
    /\ Forall (fun room => length (Exits room) = 6%nat) (Rooms s)
    /\ Z.of_nat (length (Messages s)) = NumMessages (Header s) + 1
    /\ rooms_in_range s.
Proof.
  intros file s. unfold LoadGameData.
  destruct file as [content|err]; [|discriminate].
  destruct (tokenizeGameData content) as [tokens|err]; [|discriminate].
  destruct (read_game_data tokens) as [s' rest| |] eqn:Hread; try discriminate.
  intros [= ->].
  pose proof (read_game_data_rooms tokens s rest Hread) as Hexits.
  pose proof (read_game_data_Parsed tokens s rest Hread) as H.
  tauto.
Qed.

(** The theorem on the sample data file. *)
Lemma LoadGameData_returns_a_state_of_the_engine_witness :
  LoadGameData (inl sample_content) = Loaded sample_loaded
  /\ state_ok sample_loaded
  /\ sample_loaded
     = initial_state (Header sample_loaded) (Rooms sample_loaded)
         (Items sample_loaded) (Actions sample_loaded) (Words sample_loaded)
         (Messages sample_loaded) (ActionTitles sample_loaded)
  /\ Z.of_nat (length (Actions sample_loaded))
     = NumActions (Header sample_loaded) + 1
  /\ length (ActionTitles sample_loaded) = length (Actions sample_loaded)
  /\ Z.of_nat (length (Rooms sample_loaded))
     = NumRooms (Header sample_loaded) + 1
  /\ Forall (fun room => length (Exits room) = 6%nat) (Rooms sample_loaded)
  /\ Z.of_nat (length (Messages sample_loaded))
     = NumMessages (Header sample_loaded) + 1
  /\ rooms_in_range sample_loaded.
Proof.
  split; [vm_compute; reflexivity|].
  apply (LoadGameData_returns_a_state_of_the_engine (inl sample_content)).
  vm_compute. reflexivity.
Defined.

Lemma wrap64_add_l x y : wrap64 (wrap64 x + y) = wrap64 (x + y).
Proof.
  unfold wrap64. f_equal.
  replace (((x + 2 ^ 63) mod 2 ^ 64 - 2 ^ 63 + y + 2 ^ 63))
    with ((x + 2 ^ 63) mod 2 ^ 64 + y) by lia.
  rewrite Zplus_mod_idemp_l. f_equal. lia.
Qed.

Lemma shrinking_read_int eof invalid : shrinking (read_int eof invalid).
Proof. intros toks a rest H. exact (proj2 (read_int_range _ _ _ _ _ H)). Qed.

Lemma stable_read_int eof invalid : stable (read_int eof invalid).
Proof.
  intros toks a rest extra H _. unfold read_int, and_then, next_token in *.
  destruct toks as [|token toks]; [discriminate|]. cbn [app].
  destruct (Atoi token) as [val ok]. destruct ok; [|discriminate].
  injection H as <- <-. reflexivity.
Qed.

Lemma shrinking_read_quoted eof invalid : shrinking (read_quoted eof invalid).
Proof.
  intros toks a rest H. apply read_quoted_Parsed in H.
  destruct H as (token & -> & _). apply suffix_cons_r. reflexivity.
Qed.

Lemma stable_read_quoted eof invalid : stable (read_quoted eof invalid).
Proof.
  intros toks a rest extra H _. unfold read_quoted, and_then, next_token in *.
  destruct toks as [|token toks]; [discriminate|]. cbn [app].
  destruct (quoted_token token); [|discriminate]. cbn [negb] in *.
  destruct (unquote token); [|discriminate].
  injection H as <- <-. reflexivity.
Qed.

Lemma shrinking_and_then {A B : Type} (m : Reader A) (k : A -> Reader B) :
  shrinking m -> (forall a, shrinking (k a)) -> shrinking (and_then m k).
Proof.
  intros Hm Hk toks b rest H. read_step H a mid Ha.
  etrans; [exact (Hk _ _ _ _ H)|exact (Hm _ _ _ Ha)].
Qed.

Lemma suffix_not_nil {A : Type} (rest mid : list A) :
  rest `suffix_of` mid -> rest <> [] -> mid <> [].
Proof.
  intros [k ->] Hne Hnil. apply app_eq_nil in Hnil. destruct Hnil. contradiction.
Qed.

Lemma stable_and_then {A B : Type} (m : Reader A) (k : A -> Reader B) :
  stable m -> (forall a, stable (k a)) -> (forall a, shrinking (k a)) ->
  stable (and_then m k).
Proof.
  intros Hm Hk Hs toks b rest extra H Hne. read_step H a mid Ha.
  assert (Hmid : mid <> []) by exact (suffix_not_nil _ _ (Hs _ _ _ _ H) Hne).
  unfold and_then. rewrite (Hm _ _ _ extra Ha Hmid). exact (Hk _ _ _ _ _ H Hne).
Qed.

Lemma shrinking_pure {A : Type} (a : A) : shrinking (pure a).
Proof. intros toks b rest [= <- <-]. reflexivity. Qed.

Lemma stable_pure {A : Type} (a : A) : stable (pure a).
Proof. intros toks b rest extra [= <- <-] _. reflexivity. Qed.

Lemma shrinking_read_entries {A : Type} (entry : Z -> Reader A) :
  (forall i, shrinking (entry i)) ->
  forall n i, shrinking (read_entries n i entry).
Proof.
  intros He. induction n as [|n IH]; intros i; cbn [read_entries].
  - apply shrinking_pure.
  - apply shrinking_and_then; [apply He|]. intros a.
    apply shrinking_and_then; [apply IH|]. intros l. apply shrinking_pure.
Qed.

Lemma stable_read_entries {A : Type} (entry : Z -> Reader A) :
  (forall i, stable (entry i)) -> (forall i, shrinking (entry i)) ->
  forall n i, stable (read_entries n i entry).
Proof.
  intros He Hs. induction n as [|n IH]; intros i; cbn [read_entries].
  - apply stable_pure.
  - apply stable_and_then; [apply He| |].
    + intros a. apply stable_and_then; [apply IH| |]; intros l;
        [apply stable_pure|apply shrinking_pure].
    + intros a. apply shrinking_and_then;
        [apply shrinking_read_entries; exact Hs|].
      intros l. apply shrinking_pure.
Qed.

Lemma shrinking_make size n : shrinking (make size n).
Proof.
  intros toks a rest H. apply make_Parsed in H. destruct H as (-> & _).
  reflexivity.
Qed.

Lemma stable_make size n : stable (make size n).
Proof.
  intros toks a rest extra H _. unfold make in *.
  destruct ((n <? 0) || (maxAlloc <? size * n)); [discriminate|].
  injection H as <- <-. reflexivity.
Qed.

Lemma shrinking_or_crash {A : Type} (o : option A) : shrinking (or_crash o).
Proof.
  intros toks a rest H. apply or_crash_Parsed in H. destruct H as [_ ->].
  reflexivity.
Qed.

Lemma stable_or_crash {A : Type} (o : option A) : stable (or_crash o).
Proof.
  intros toks a rest extra H _. destruct o; [|discriminate].
  injection H as <- <-. reflexivity.
Qed.

Lemma shrinking_read_vocabulary : shrinking read_vocabulary.
Proof.
  intros toks v rest H. unfold read_vocabulary in H.
  destruct (vocabulary_loop toks) as [v' r] eqn:E. injection H as <- <-.
  exact (vocabulary_loop_suffix _ _ _ E).
Qed.

Lemma stable_read_vocabulary : stable read_vocabulary.
Proof.
  assert (Hloop : forall toks v rest extra,
             vocabulary_loop toks = (v, rest) -> rest <> [] ->
             vocabulary_loop (toks ++ extra) = (v, rest ++ extra)).
  { induction toks as [|token toks IH]; intros v rest extra H Hne.
    - injection H as <- <-. contradiction.
    - cbn [vocabulary_loop app] in *. destruct (quoted_token token).
      + destruct (vocabulary_loop toks) as [v' r] eqn:E.
        injection H as <- <-. rewrite (IH _ _ extra eq_refl Hne). reflexivity.
      + injection H as <- <-. reflexivity. }
  intros toks v rest extra H Hne. unfold read_vocabulary in *.
  destruct (vocabulary_loop toks) as [v' r] eqn:E. injection H as <- <-.
  rewrite (Hloop _ _ _ extra E Hne). reflexivity.
Qed.

Lemma shrinking_read_titles n : shrinking (read_titles n).
Proof. intros toks a rest H. exact (proj2 (read_titles_Parsed _ _ _ _ H)). Qed.

Lemma stable_read_titles : forall n, stable (read_titles n).
Proof.
  induction n as [|n IH]; intros toks titles rest extra H Hne.
  - destruct toks; injection H as <- <-; [contradiction|]. reflexivity.
  - destruct toks as [|token toks].
    + injection H as <- <-. contradiction.
    + cbn [read_titles app] in *. destruct (quoted_token token).
      * read_step H title t0 H0. read_step H titles' t1 H1.
        injection H as <- <-.
        destruct (unquote token); [|discriminate]. injection H0 as <- <-.
        unfold and_then, or_crash, pure.
        rewrite (IH _ _ _ extra H1 Hne). reflexivity.
      * injection H as <- <-. reflexivity.
Qed.

Lemma shrinking_read_header : shrinking read_header.
Proof. intros toks a rest H. exact (proj2 (read_header_Parsed _ _ _ H)). Qed.

Lemma stable_read_header : stable read_header.
Proof.
  unfold read_header, header_value.
  repeat (apply stable_and_then;
          [apply stable_read_int| |]; intros ?).
  all: try apply stable_pure.
  all: repeat (apply shrinking_and_then; [apply shrinking_read_int|]; intros ?).
  all: apply shrinking_pure.
Qed.

Lemma shrinking_read_action i : shrinking (read_action i).
Proof. intros toks a rest H. exact (proj2 (read_action_Parsed _ _ _ _ H)). Qed.

Lemma stable_read_action i : stable (read_action i).
Proof.
  unfold read_action.
  apply stable_and_then; [apply stable_read_int| |]; intros vocab.
  - apply stable_and_then;
      [apply stable_read_entries; intros; [apply stable_read_int|apply shrinking_read_int]| |];
      intros conds.
    + apply stable_and_then;
        [apply stable_read_entries; intros; [apply stable_read_int|apply shrinking_read_int]| |];
        intros cmds; [apply stable_pure|apply shrinking_pure].
    + apply shrinking_and_then;
        [apply shrinking_read_entries; intros; apply shrinking_read_int|].
      intros cmds. apply shrinking_pure.
  - apply shrinking_and_then;
      [apply shrinking_read_entries; intros; apply shrinking_read_int|].
    intros conds. apply shrinking_and_then;
      [apply shrinking_read_entries; intros; apply shrinking_read_int|].
    intros cmds. apply shrinking_pure.
Qed.

Lemma shrinking_read_room i : shrinking (read_room i).
Proof. intros toks a rest H. exact (proj2 (read_room_Parsed _ _ _ _ H)). Qed.

Lemma stable_read_room i : stable (read_room i).
Proof.
  unfold read_room.
  apply stable_and_then;
    [apply stable_read_entries; intros; [apply stable_read_int|apply shrinking_read_int]| |];
    intros exits.
  - apply stable_and_then; [apply stable_read_quoted| |]; intros desc;
      [apply stable_pure|apply shrinking_pure].
  - apply shrinking_and_then; [apply shrinking_read_quoted|].
    intros desc. apply shrinking_pure.
Qed.

Lemma shrinking_read_item i : shrinking (read_item i).
Proof. intros toks a rest H. exact (proj2 (read_item_Parsed _ _ _ _ H)). Qed.

Lemma stable_read_item i : stable (read_item i).
Proof.
  unfold read_item.
  apply stable_and_then; [apply stable_read_quoted| |]; intros desc; cbv zeta.
  - apply stable_and_then; [apply stable_read_int| |]; intros loc;
      [apply stable_pure|apply shrinking_pure].
  - apply shrinking_and_then; [apply shrinking_read_int|].
    intros loc. apply shrinking_pure.
Qed.

Lemma closing_and_then {A B : Type} (m : Reader A) (k : A -> Reader B) :
  stable m -> shrinking m -> (forall a, closing (k a)) ->
  closing (and_then m k).
Proof.
  intros Hm Hs Hk toks b rest extra H. read_step H a mid Ha.
  destruct (Hk a mid b rest extra H) as [Hmid Hrun].
  split.
  - exact (suffix_not_nil _ _ (Hs _ _ _ Ha) Hmid).
  - unfold and_then. rewrite (Hm _ _ _ extra Ha Hmid). exact Hrun.
Qed.

Lemma read_game_data_closing : closing read_game_data.
Proof.
  unfold read_game_data. cbv zeta.
  apply closing_and_then;
    [apply stable_read_header|apply shrinking_read_header|]. intros header.
  apply closing_and_then; [apply stable_make|apply shrinking_make|].
  intros numActions.
  apply closing_and_then;
    [apply stable_read_entries; [exact stable_read_action|exact shrinking_read_action]
    |apply shrinking_read_entries; exact shrinking_read_action|].
  intros actions.
  apply closing_and_then;
    [apply stable_read_vocabulary|apply shrinking_read_vocabulary|].
  intros vocabulary.
  apply closing_and_then; [apply stable_or_crash|apply shrinking_or_crash|].
  intros words.
  apply closing_and_then; [apply stable_make|apply shrinking_make|].
  intros numRooms.
  apply closing_and_then;
    [apply stable_read_entries; [exact stable_read_room|exact shrinking_read_room]
    |apply shrinking_read_entries; exact shrinking_read_room|].
  intros rooms.
  apply closing_and_then; [apply stable_make|apply shrinking_make|].
  intros numMessages.
  apply closing_and_then;
    [apply stable_read_entries; intros; [apply stable_read_quoted|apply shrinking_read_quoted]
    |apply shrinking_read_entries; intros; apply shrinking_read_quoted|].
  intros messages.
  apply closing_and_then; [apply stable_make|apply shrinking_make|].
  intros numItems.
  apply closing_and_then;
    [apply stable_read_entries; [exact stable_read_item|exact shrinking_read_item]
    |apply shrinking_read_entries; exact shrinking_read_item|].
  intros items.
  apply closing_and_then;
    [apply stable_read_titles|apply shrinking_read_titles|].
  intros titles.
  apply closing_and_then; [apply stable_read_int|apply shrinking_read_int|].
  intros version.
  apply closing_and_then; [apply stable_read_int|apply shrinking_read_int|].
  intros advNum.
  intros toks b rest extra H. read_step H checksum mid Hc.
  pose proof (read_int_Parsed _ _ _ _ _ Hc) as (token & -> & E).
  split; [discriminate|].
  unfold read_int, and_then, next_token. cbn [app]. rewrite E.
  unfold pure at 1. cbn beta iota.
  destruct (negb (checksum =? _)); [discriminate|].
  injection H as <- <-. reflexivity.
Qed.

(** The trailer.  A data file is accepted only if its three last numbers
    read are the version, the adventure number and a checksum equal to
    [2 * NumActions + NumItems + version] (in 64-bit arithmetic).
    LoadGameData reads nothing after the checksum: whatever tokens
    follow it, the same state is returned. *)
Theorem LoadGameData_ends_with_the_checksum :
  forall (tokens : list string) (s : GameState) (rest : list string),
    read_game_data tokens = Parsed s rest ->
    (exists before version number checksum,
        tokens = before ++ [version; number; checksum] ++ rest
        /\ Atoi version = (AdventureVersion (Header s), true)
        /\ Atoi number = (AdventureNumber (Header s), true)
        /\ Atoi checksum
           = (wrap64 (2 * NumActions (Header s) + NumItems (Header s)
                      + AdventureVersion (Header s)), true))
    /\ (forall extra,
        read_game_data (tokens ++ extra) = Parsed s (rest ++ extra)).
Proof.
  intros tokens s rest H. split.
  - unfold read_game_data in H. cbv zeta in H.
    read_step H header t0 H0. apply shrinking_read_header in H0.
    read_step H numActions t1 H1. apply shrinking_make in H1.
    read_step H actions t2 H2.
    apply (shrinking_read_entries _ shrinking_read_action) in H2.
    read_step H vocabulary t3 H3. apply shrinking_read_vocabulary in H3.
    read_step H words t4 H4. apply shrinking_or_crash in H4.
    read_step H numRooms t5 H5. apply shrinking_make in H5.
    read_step H rooms t6 H6.
    apply (shrinking_read_entries _ shrinking_read_room) in H6.
    read_step H numMessages t7 H7. apply shrinking_make in H7.
    read_step H messages t8 H8.
    apply (shrinking_read_entries _
             (fun i => shrinking_read_quoted _ _)) in H8.
    read_step H numItems t9 H9. apply shrinking_make in H9.
    read_step H items t10 H10.
    apply (shrinking_read_entries _ shrinking_read_item) in H10.
    read_step H titles t11 H11. apply shrinking_read_titles in H11.
    read_step H version t12 H12. read_step H advNum t13 H13.
    read_step H checksum t14 H14.
    apply read_int_Parsed in H12, H13, H14.
    destruct H12 as (tv & -> & Ev), H13 as (tn & -> & En),
      H14 as (tc & -> & Ec).
    destruct (Z.eqb_spec checksum
                (wrap64
                   (wrap64 (wrap64 (2 * NumActions (with_trailer header version advNum))
                            + NumItems (with_trailer header version advNum))
                    + AdventureVersion (with_trailer header version advNum))))
      as [Hsum|Hsum]; [|discriminate].
    cbn [negb] in H. injection H as <- <-.
    assert (Hs : (tv :: tn :: tc :: t14) `suffix_of` tokens).
    { repeat (etrans; [|eassumption]). reflexivity. }
    destruct Hs as [before ->].
    exists before, tv, tn, tc.
    cbn [Header with_trailer AdventureVersion AdventureNumber NumActions
         NumItems] in *.
    split; [reflexivity|]. split; [exact Ev|]. split; [exact En|].
    rewrite Ec, Hsum, wrap64_add_l, <- Z.add_assoc, wrap64_add_l, Z.add_assoc.
    reflexivity.
  - intros extra. exact (proj2 (read_game_data_closing _ _ _ extra H)).
Qed.

(** The theorem on the tokens of the sample data file, and on the same
    tokens followed by a stray line. *)
Lemma LoadGameData_ends_with_the_checksum_witness :
  (exists before version number checksum,
      sample_tokens = before ++ [version; number; checksum] ++ []
      /\ Atoi version = (AdventureVersion (Header sample_loaded), true)
      /\ Atoi number = (AdventureNumber (Header sample_loaded), true)
      /\ Atoi checksum
         = (wrap64 (2 * NumActions (Header sample_loaded)
                    + NumItems (Header sample_loaded)
                    + AdventureVersion (Header sample_loaded)), true))
  /\ read_game_data (sample_tokens ++ ["stray"]) = Parsed sample_loaded ["stray"].
Proof.
  destruct (LoadGameData_ends_with_the_checksum sample_tokens sample_loaded [])
    as [Hsum Hmore]; [vm_compute; reflexivity|].
  split; [exact Hsum|]. exact (Hmore ["stray"]).
Defined.

Lemma Forall_suffix_of {A : Type} (Q : A -> Prop) (rest toks : list A) :
  rest `suffix_of` toks -> Forall Q toks -> Forall Q rest.
Proof. intros [k ->] H. apply Forall_app in H. tauto. Qed.

Lemma unquote_ok token :
  token_ok token -> quoted_token token = true ->
  exists text, unquote token = Some text.
Proof.
  intros [_ Hlen] Hq. specialize (Hlen Hq). unfold unquote.
  destruct (Nat.ltb_spec (String.length token) 2); [lia|]. eauto.
Qed.

Lemma safe_and_then {A B : Type} (m : Reader A) (k : A -> Reader B) :
  safe m -> shrinking m -> (forall a, safe (k a)) -> safe (and_then m k).
Proof.
  intros Hm Hs Hk toks Hok. unfold and_then.
  destruct (m toks) as [a mid| |] eqn:E;
    [|discriminate|destruct (Hm toks Hok E)].
  apply Hk. exact (Forall_suffix_of _ _ _ (Hs _ _ _ E) Hok).
Qed.

Lemma safe_pure {A : Type} (a : A) : safe (pure a).
Proof. intros toks _. discriminate. Qed.

Lemma safe_read_int eof invalid : safe (read_int eof invalid).
Proof.
  intros toks _. unfold read_int, and_then, next_token.
  destruct toks as [|token toks]; [discriminate|].
  destruct (Atoi token) as [val ok]. destruct ok; discriminate.
Qed.

Lemma safe_read_quoted eof invalid : safe (read_quoted eof invalid).
Proof.
  intros toks Hok. unfold read_quoted, and_then, next_token.
  destruct toks as [|token toks]; [discriminate|].
  destruct (quoted_token token) eqn:Hq; [|discriminate]. cbn [negb].
  inversion Hok as [|? ? Ht _]; subst.
  destruct (unquote_ok token Ht Hq) as [text ->]. discriminate.
Qed.

Lemma safe_read_entries {A : Type} (entry : Z -> Reader A) :
  (forall i, safe (entry i)) -> (forall i, shrinking (entry i)) ->
  forall n i, safe (read_entries n i entry).
Proof.
  intros He Hs. induction n as [|n IH]; intros i; cbn [read_entries].
  - apply safe_pure.
  - apply safe_and_then; [apply He|apply Hs|]. intros a.
    apply safe_and_then; [apply IH|apply shrinking_read_entries; exact Hs|].
    intros l. apply safe_pure.
Qed.

Lemma safe_read_header : safe read_header.
Proof.
  unfold read_header, header_value.
  repeat (apply safe_and_then;
          [apply safe_read_int|apply shrinking_read_int|]; intros ?).
  apply safe_pure.
Qed.

Lemma safe_read_action i : safe (read_action i).
Proof.
  unfold read_action.
  apply safe_and_then; [apply safe_read_int|apply shrinking_read_int|].
  intros vocab.
  apply safe_and_then;
    [apply safe_read_entries; intros; [apply safe_read_int|apply shrinking_read_int]
    |apply shrinking_read_entries; intros; apply shrinking_read_int|].
  intros conds.
  apply safe_and_then;
    [apply safe_read_entries; intros; [apply safe_read_int|apply shrinking_read_int]
    |apply shrinking_read_entries; intros; apply shrinking_read_int|].
  intros cmds. apply safe_pure.
Qed.

Lemma safe_read_room i : safe (read_room i).
Proof.
  unfold read_room.
  apply safe_and_then;
    [apply safe_read_entries; intros; [apply safe_read_int|apply shrinking_read_int]
    |apply shrinking_read_entries; intros; apply shrinking_read_int|].
  intros exits.
  apply safe_and_then; [apply safe_read_quoted|apply shrinking_read_quoted|].
  intros desc. apply safe_pure.
Qed.

Lemma safe_read_item i : safe (read_item i).
Proof.
  unfold read_item.
  apply safe_and_then; [apply safe_read_quoted|apply shrinking_read_quoted|].
  intros desc. cbv zeta.
  apply safe_and_then; [apply safe_read_int|apply shrinking_read_int|].
  intros loc. apply safe_pure.
Qed.

Lemma safe_read_titles : forall n, safe (read_titles n).
Proof.
  induction n as [|n IH]; intros toks Hok.
  - destruct toks; discriminate.
  - destruct toks as [|token toks]; [discriminate|].
    cbn [read_titles]. destruct (quoted_token token) eqn:Hq; [|discriminate].
    inversion Hok as [|? ? Ht Hrest]; subst.
    destruct (unquote_ok token Ht Hq) as [text ->].
    unfold and_then, or_crash, pure.
    destruct (read_titles n toks) eqn:E; try discriminate.
    destruct (IH toks Hrest E).
Qed.

(** The vocabulary is made of quoted tokens of the file. *)
Lemma vocabulary_loop_quoted :
  forall toks vocabulary rest,
    Forall token_ok toks ->
    vocabulary_loop toks = (vocabulary, rest) ->
    Forall (fun t => token_ok t /\ quoted_token t = true) vocabulary.
Proof.
  induction toks as [|token toks IH]; intros vocabulary rest Hok H.
  - injection H as <- <-. constructor.
  - cbn [vocabulary_loop] in H. inversion Hok as [|? ? Ht Hrest]; subst.
    destruct (quoted_token token) eqn:Hq.
    + destruct (vocabulary_loop toks) as [v r] eqn:E.
      injection H as <- <-. constructor; [auto|]. exact (IH _ _ Hrest eq_refl).
    + injection H as <- <-. constructor.
Qed.

Lemma make_words_ok halfWords :
  forall vocabulary verbCount,
    Forall (fun t => token_ok t /\ quoted_token t = true) vocabulary ->
    exists words, make_words halfWords vocabulary verbCount = Some words.
Proof.
  induction vocabulary as [|t vocabulary IH]; intros verbCount Hall.
  - eexists. reflexivity.
  - inversion Hall as [|? ? [Ht Hq] Hrest]; subst. cbn [make_words].
    destruct (unquote_ok t Ht Hq) as [text ->].
    destruct (IH (if (verbCount <? halfWords) && negb (HasPrefix text "*")
                  then verbCount + 1 else verbCount) Hrest) as [words ->].
    eexists. reflexivity.
Qed.

Lemma make_Crashed size n toks :
  is_int64 n -> make size (wrap64 (n + 1)) toks = Crashed -> 0 < size ->
  bad_size size n.
Proof.
  intros Hn H Hsize. unfold make in H. unfold bad_size.
  unfold is_int64, minInt64, maxInt64 in Hn.
  destruct (Z.eq_dec n (2 ^ 63 - 1)) as [->|Hne].
  - right. unfold maxAlloc. nia.
  - rewrite wrap64_id in H by (unfold is_int64, minInt64, maxInt64; lia).
    destruct (Z.ltb_spec (n + 1) 0); [left; lia|]. cbn [orb] in H.
    destruct (Z.ltb_spec maxAlloc (size * (n + 1))); [right; assumption|].
    discriminate.
Qed.

(** A step of the load that did not panic, before a rest that did. *)
Lemma and_then_Crashed {A B : Type} (m : Reader A) (k : A -> Reader B) toks :
  safe m -> shrinking m -> Forall token_ok toks ->
  and_then m k toks = Crashed ->
  exists a mid, m toks = Parsed a mid /\ Forall token_ok mid
                /\ k a mid = Crashed.
Proof.
  intros Hm Hs Hok H. unfold and_then in H.
  destruct (m toks) as [a mid| |] eqn:E;
    [|discriminate|destruct (Hm toks Hok E)].
  exists a, mid. split; [reflexivity|]. split; [|exact H].
  exact (Forall_suffix_of _ _ _ (Hs _ _ _ E) Hok).
Qed.

Lemma make_step {B : Type} size n (k : nat -> Reader B) toks :
  is_int64 n -> 0 < size ->
  and_then (make size (wrap64 (n + 1))) k toks = Crashed ->
  bad_size size n \/ exists len, k len toks = Crashed.
Proof.
  intros Hn Hsize H. unfold and_then in H.
  destruct (make size (wrap64 (n + 1)) toks) as [len mid| |] eqn:E;
    [|discriminate|].
  - apply make_Parsed in E. destruct E as (-> & _). right. eauto.
  - left. exact (make_Crashed _ _ _ Hn E Hsize).
Qed.

Lemma read_game_data_Crashed tokens header rest :
  Forall token_ok tokens ->
  read_header tokens = Parsed header rest ->
  read_game_data tokens = Crashed ->
  bad_size 72 (NumActions header) \/ bad_size 64 (NumRooms header)
  \/ bad_size 16 (NumMessages header) \/ bad_size 48 (NumItems header).
Proof.
  intros Hok Hheader H.
  destruct (read_header_Parsed _ _ _ Hheader)
    as [(HnI & HnA & HnW & HnR & HpR & HlT & HnM) Hs0].
  pose proof (Forall_suffix_of _ _ _ Hs0 Hok) as Hok0.
  unfold read_game_data in H. cbv zeta in H.
  unfold and_then at 1 in H. rewrite Hheader in H.
  apply make_step in H; [|exact HnA|lia]. destruct H as [H|[numActions H]];
    [left; exact H|].
  apply and_then_Crashed in H;
    [|apply safe_read_entries; [exact safe_read_action|exact shrinking_read_action]
     |apply shrinking_read_entries; exact shrinking_read_action|exact Hok0].
  destruct H as (actions & t2 & _ & Hok2 & H).
  unfold and_then at 1 in H. unfold read_vocabulary at 1 in H.
  destruct (vocabulary_loop t2) as [vocabulary t3] eqn:Ev.
  pose proof (vocabulary_loop_quoted _ _ _ Hok2 Ev) as Hvoc.
  pose proof (Forall_suffix_of _ _ _ (vocabulary_loop_suffix _ _ _ Ev) Hok2)
    as Hok3.
  destruct (make_words_ok (Z.quot (wrap64 (NumWords header + 1)) 2)
              vocabulary 0 Hvoc) as [words Hwords].
  unfold and_then at 1 in H. rewrite Hwords in H.
  unfold or_crash, pure at 1 in H.
  apply make_step in H; [|exact HnR|lia]. destruct H as [H|[numRooms H]];
    [right; left; exact H|].
  apply and_then_Crashed in H;
    [|apply safe_read_entries; [exact safe_read_room|exact shrinking_read_room]
     |apply shrinking_read_entries; exact shrinking_read_room|exact Hok3].
  destruct H as (rooms & t6 & _ & Hok6 & H).
  apply make_step in H; [|exact HnM|lia]. destruct H as [H|[numMessages H]];
    [right; right; left; exact H|].
  apply and_then_Crashed in H;
    [|apply safe_read_entries; intros; [apply safe_read_quoted|apply shrinking_read_quoted]
     |apply shrinking_read_entries; intros; apply shrinking_read_quoted|exact Hok6].
  destruct H as (messages & t8 & _ & Hok8 & H).
  apply make_step in H; [|exact HnI|lia]. destruct H as [H|[numItems H]];
    [right; right; right; exact H|].
  apply and_then_Crashed in H;
    [|apply safe_read_entries; [exact safe_read_item|exact shrinking_read_item]
     |apply shrinking_read_entries; exact shrinking_read_item|exact Hok8].
  destruct H as (items & t10 & _ & Hok10 & H).
  apply and_then_Crashed in H;
    [|apply safe_read_titles|apply shrinking_read_titles|exact Hok10].
  destruct H as (titles & t11 & _ & Hok11 & H).
  apply and_then_Crashed in H;
    [|apply safe_read_int|apply shrinking_read_int|exact Hok11].
  destruct H as (version & t12 & _ & Hok12 & H).
  apply and_then_Crashed in H;
    [|apply safe_read_int|apply shrinking_read_int|exact Hok12].
  destruct H as (advNum & t13 & _ & Hok13 & H).
  apply and_then_Crashed in H;
    [|apply safe_read_int|apply shrinking_read_int|exact Hok13].
  destruct H as (checksum & t14 & _ & Hok14 & H).
  destruct (negb (checksum =? _)); discriminate.
Qed.

(** Panics of the loader.  Given a data file whose twelve header values
    can be read, LoadGameData dies of a runtime panic when the header
    declares fewer than -1 actions, instead of returning an error.  And
    the allocation of a table is the only thing that can make it panic:
    if it panics, one of the four counts NumActions, NumRooms,
    NumMessages and NumItems is below -1 or too large for a table of its
    kind.  The quotes of a token are never cut off out of bounds. *)
Theorem LoadGameData_panics_only_on_table_sizes :
  forall (content : string) (tokens : list string) (header : GameHeader)
         (rest : list string),
    tokenizeGameData content = inl tokens ->
    read_header tokens = Parsed header rest ->
    (NumActions header < -1 -> LoadGameData (inl content) = LoadPanic)
    /\ (LoadGameData (inl content) = LoadPanic ->
        bad_size 72 (NumActions header) \/ bad_size 64 (NumRooms header)
        \/ bad_size 16 (NumMessages header) \/ bad_size 48 (NumItems header)).
Proof.
  intros content tokens header rest Htok Hheader.
  pose proof (tokenizeGameData_ok _ _ Htok) as Hok.
  destruct (read_header_Parsed _ _ _ Hheader)
    as [(HnI & HnA & HnW & HnR & HpR & HlT & HnM) _].
  unfold LoadGameData. rewrite Htok. split.
  - intros Hneg.
    assert (E : read_game_data tokens = Crashed).
    { unfold read_game_data. cbv zeta. unfold and_then at 1.
      rewrite Hheader. unfold and_then at 1. unfold make.
      unfold is_int64, minInt64, maxInt64 in HnA.
      rewrite wrap64_id by (unfold is_int64, minInt64, maxInt64; lia).
      destruct (Z.ltb_spec (NumActions header + 1) 0); [|lia]. reflexivity. }
    rewrite E. reflexivity.
  - destruct (read_game_data tokens) as [s r|err|] eqn:E; try discriminate.
    intros _. exact (read_game_data_Crashed tokens header rest Hok Hheader E).
Qed.

(** The theorem on a data file that declares -2 actions. *)
Lemma LoadGameData_panics_only_on_table_sizes_witness :
  LoadGameData
    (inl (one_per_line ["0"; "2"; "-2"; "3"; "2"; "2"; "1"; "1"; "3"; "125";
                        "2"; "2"]))
  = LoadPanic.
Proof.
  destruct (LoadGameData_panics_only_on_table_sizes
              (one_per_line ["0"; "2"; "-2"; "3"; "2"; "2"; "1"; "1"; "3";
                             "125"; "2"; "2"])
              ["0"; "2"; "-2"; "3"; "2"; "2"; "1"; "1"; "3"; "125"; "2"; "2"]
              (mkGameHeader 0 2 (-2) 3 2 2 1 1 3 125 2 2 0 0) [])
    as [Hpanic _]; [vm_compute; reflexivity|vm_compute; reflexivity|].
  apply Hpanic. vm_compute. reflexivity.
Defined.

(** ** What a turn leaves alone *)

Lemma same_tables_refl s : same_tables s s.
Proof. repeat split. Qed.

Lemma same_tables_trans s1 s2 s3 :
  same_tables s1 s2 -> same_tables s2 s3 -> same_tables s1 s3.
Proof.
  unfold same_tables. intros (? & ? & ? & ? & ? & ? & ?) (? & ? & ? & ? & ? & ? & ?).
  repeat split; congruence.
Qed.

Lemma quiet_refl s w : quiet s w s w.
Proof. split; [|split]; auto using same_tables_refl. Qed.

Lemma quiet_trans s1 w1 s2 w2 s3 w3 :
  quiet s1 w1 s2 w2 -> quiet s2 w2 s3 w3 -> quiet s1 w1 s3 w3.
Proof.
  intros (H1 & H2 & H3) (H4 & H5 & H6).
  split; [|split]; eauto using same_tables_trans.
Qed.

Lemma quiet_bind {A B : Type} (m : M A) (k : A -> M B) :
  quiet_run m -> (forall a, quiet_run (k a)) -> quiet_run (bind m k).
Proof.
  intros Hm Hk s w b s' w' H. unfold bind in H.
  destruct (m s w) as [a s1 w1| |] eqn:E; try discriminate.
  exact (quiet_trans _ _ _ _ _ _ (Hm _ _ _ _ _ E) (Hk _ _ _ _ _ _ H)).
Qed.

Lemma quiet_ret {A : Type} (a : A) : quiet_run (ret a).
Proof. intros s w b s' w' [= _ <- <-]. apply quiet_refl. Qed.

Lemma quiet_get : quiet_run get.
Proof. intros s w b s' w' [= _ <- <-]. apply quiet_refl. Qed.

Lemma quiet_must {A : Type} (o : option A) : quiet_run (must o).
Proof. destruct o; [apply quiet_ret|]. intros s w b s' w' H. discriminate. Qed.

Lemma quiet_fmt_Print text : quiet_run (fmt_Print text).
Proof.
  intros s w b s' w' [= _ <- <-]. split; [|split]; auto using same_tables_refl.
Qed.

Lemma quiet_fmt_Println text : quiet_run (fmt_Println text).
Proof. apply quiet_fmt_Print. Qed.

Lemma quiet_when b m : quiet_run m -> quiet_run (when b m).
Proof. intros Hm. destruct b; [exact Hm|apply quiet_ret]. Qed.

Lemma quiet_ReadLine : quiet_run ReadLine.
Proof.
  intros s w b s' w' H. unfold ReadLine in H.
  destruct (stdin w) as [|l rest] eqn:E; injection H as _ <- <-.
  - apply quiet_refl.
  - split; [auto|split; [|apply same_tables_refl]].
    intros Hnil. rewrite E in Hnil. discriminate.
Qed.

Lemma quiet_rand_Intn n : quiet_run (rand_Intn n).
Proof.
  intros s w b s' w' [= _ <- <-]. split; [|split]; auto using same_tables_refl.
Qed.

Lemma quiet_get_world : quiet_run get_world.
Proof. intros s w b s' w' [= _ <- <-]. apply quiet_refl. Qed.

(** A state update that leaves the display flag alone, or clears it,
    and does not touch the tables. *)
Lemma quiet_modify f :
  (forall s, DisplayedRoom s = false -> DisplayedRoom (f s) = false) ->
  (forall s, same_tables s (f s)) ->
  quiet_run (modify f).
Proof. intros Hf Ht s w b s' w' [= _ <- <-]. split; [|split]; auto. Qed.

Lemma quiet_modify_world f :
  (forall w, stdin w = [] -> stdin (f w) = []) -> quiet_run (modify_world f).
Proof.
  intros Hf s w b s' w' [= _ <- <-]. split; [|split]; auto using same_tables_refl.
Qed.

Lemma quiet_panic {A : Type} : quiet_run (@panic A).
Proof. intros s w b s' w' H. discriminate. Qed.

Lemma quiet_os_Exit {A : Type} : quiet_run (@os_Exit A).
Proof. intros s w b s' w' H. discriminate. Qed.

(** Quietness of a function built from the operations of the monad. *)
Ltac quiet_step :=
  first
    [ apply quiet_ret | apply quiet_get | apply quiet_must
    | apply quiet_panic | apply quiet_os_Exit
    | apply quiet_fmt_Println | apply quiet_fmt_Print | apply quiet_ReadLine
    | apply quiet_rand_Intn | apply quiet_get_world
    | apply quiet_when
    | apply quiet_modify;
      [intros ? ?; assumption || reflexivity|intros ?; repeat split]
    | apply quiet_modify_world; intros ? ?; assumption
    | apply quiet_bind; [|intros ?]
    | match goal with
      | |- quiet_run (if ?b then _ else _) => destruct b
      | |- quiet_run (match ?x with _ => _ end) => destruct x
      | |- quiet_run (let (_, _) := ?x in _) => destruct x
      end ].

Ltac quiet_tac := repeat quiet_step.

Lemma quiet_EvaluateCondition code parameter :
  quiet_run (EvaluateCondition code parameter).
Proof. unfold EvaluateCondition. quiet_tac. Qed.

Lemma quiet_check_slots conds : quiet_run (check_slots conds).
Proof.
  induction conds as [|c conds IH]; cbn [check_slots]; [apply quiet_ret|].
  destruct (c =? 0); [exact IH|].
  apply quiet_bind; [apply quiet_EvaluateCondition|].
  intros [|]; [exact IH|apply quiet_ret].
Qed.

Lemma quiet_CheckConditions i : quiet_run (CheckConditions i).
Proof. unfold CheckConditions. quiet_tac. apply quiet_check_slots. Qed.

Lemma quiet_GetItem n : quiet_run (GetItem n).
Proof. unfold GetItem. quiet_tac. Qed.

Lemma quiet_DropItem n : quiet_run (DropItem n).
Proof. unfold DropItem. quiet_tac. Qed.

Lemma quiet_inventory_loop locs :
  forall i count, quiet_run (inventory_loop i locs count).
Proof.
  induction locs as [|loc locs IH]; intros i count; cbn [inventory_loop].
  - apply quiet_ret.
  - apply quiet_bind; [apply quiet_get|]. intros s.
    destruct ((i <=? NumItems (Header s)) && (loc =? CARRIED));
      [|apply IH].
    apply quiet_bind; [apply quiet_must|]. intros desc.
    apply quiet_bind; [apply quiet_fmt_Print|]. intros _. apply IH.
Qed.

Lemma quiet_DisplayInventory : quiet_run DisplayInventory.
Proof.
  unfold DisplayInventory.
  apply quiet_bind; [apply quiet_fmt_Println|]. intros _.
  apply quiet_bind; [apply quiet_get|]. intros s.
  apply quiet_bind; [apply quiet_inventory_loop|]. intros count.
  quiet_tac.
Qed.

Lemma quiet_DisplayScore : quiet_run DisplayScore.
Proof. unfold DisplayScore. quiet_tac. Qed.

Lemma quiet_SaveGame : quiet_run SaveGame.
Proof. unfold SaveGame. quiet_tac. Qed.

Lemma quiet_condition_parameter slot : quiet_run (condition_parameter slot).
Proof. unfold condition_parameter. quiet_tac. Qed.

Lemma quiet_fetch_parameter pos : quiet_run (fetch_parameter pos).
Proof.
  unfold fetch_parameter. destruct (pos <? 5);
    [apply quiet_condition_parameter|apply quiet_ret].
Qed.

Lemma quiet_ExecuteCommand cmd pos : quiet_run (ExecuteCommand cmd pos).
Proof.
  unfold ExecuteCommand.
  apply quiet_bind; [apply quiet_fetch_parameter|]. intros p.
  apply quiet_bind; [apply quiet_get|]. intros s.
  destruct ((1 <=? cmd) && (cmd <=? 51)); [quiet_tac|].
  destruct ((102 <=? cmd) && (cmd <=? 149)); [quiet_tac|].
  destruct cmd as [|c|c]; [apply quiet_ret| |apply quiet_ret].
  do 7 (try (destruct c as [c|c|])); try apply quiet_ret;
    try apply quiet_GetItem; try apply quiet_DropItem;
    try apply quiet_DisplayScore; try apply quiet_DisplayInventory;
    try apply quiet_SaveGame;
    try (destruct (pos <? 5)); try (destruct (pos <? 4));
    try apply quiet_ret;
    try (apply quiet_bind; [apply quiet_condition_parameter|]; intros q);
    quiet_tac.
Qed.

Lemma quiet_execute_pair action i : quiet_run (execute_pair action i).
Proof.
  unfold execute_pair. apply quiet_bind; [apply quiet_must|]. intros cmd.
  destruct (cmd =? 0); [apply quiet_ret|].
  apply quiet_bind; [apply quiet_ExecuteCommand|]. intros _.
  apply quiet_ExecuteCommand.
Qed.

Lemma quiet_debug_executed i : quiet_run (debug_executed i).
Proof. unfold debug_executed. quiet_tac. Qed.

Lemma quiet_ExecuteCommands i : quiet_run (ExecuteCommands i).
Proof.
  unfold ExecuteCommands.
  apply quiet_bind; [quiet_tac|]. intros _.
  apply quiet_bind; [apply quiet_get|]. intros s.
  apply quiet_bind; [apply quiet_must|]. intros action.
  apply quiet_bind; [apply quiet_execute_pair|]. intros _.
  apply quiet_bind; [apply quiet_execute_pair|]. intros _.
  apply quiet_debug_executed.
Qed.

Lemma quiet_exact_scan verb noun actions :
  forall i found, quiet_run (exact_scan verb noun i actions found).
Proof.
  induction actions as [|a actions IH]; intros i found; cbn [exact_scan].
  - apply quiet_ret.
  - destruct ((Verb a =? verb) && (Noun a =? noun)); [|apply IH].
    apply quiet_bind; [apply quiet_CheckConditions|]. intros [|]; [|apply IH].
    apply quiet_bind; [apply quiet_ExecuteCommands|]. intros _.
    apply quiet_bind; [apply quiet_get|]. intros s.
    destruct (negb (ContinueFlag s)); [apply quiet_ret|apply IH].
Qed.

Lemma quiet_ProcessExactAction verb noun :
  quiet_run (ProcessExactAction verb noun).
Proof.
  unfold ProcessExactAction. apply quiet_bind; [apply quiet_get|].
  intros s. apply quiet_exact_scan.
Qed.

Lemma quiet_ProcessActionsWithVerb verb noun :
  quiet_run (ProcessActionsWithVerb verb noun).
Proof.
  unfold ProcessActionsWithVerb.
  apply quiet_bind; [apply quiet_ProcessExactAction|]. intros [|];
    [apply quiet_ret|].
  apply quiet_bind.
  - destruct (negb (noun =? 0));
      [apply quiet_ProcessExactAction|apply quiet_ret].
  - intros [|]; [apply quiet_ret|].
    destruct (verb =? 10); [apply quiet_GetItem|].
    destruct (verb =? 18); [apply quiet_DropItem|apply quiet_fmt_Println].
Qed.

Lemma quiet_automatic_scan actions :
  forall i, quiet_run (automatic_scan i actions).
Proof.
  induction actions as [|a actions IH]; intros i; cbn [automatic_scan].
  - apply quiet_ret.
  - destruct (negb (Verb a =? 0)); [apply IH|].
    apply quiet_bind.
    + destruct (0 <? Noun a); quiet_tac.
    + intros [|]; [apply IH|].
      apply quiet_bind; [apply quiet_CheckConditions|].
      intros [|]; [|apply IH].
      apply quiet_bind; [apply quiet_ExecuteCommands|]. intros _.
      apply quiet_bind; [apply quiet_get|]. intros s.
      destruct (ContinueFlag s); [apply quiet_ret|apply IH].
Qed.

Lemma quiet_automatic_passes : forall fuel, quiet_run (automatic_passes fuel).
Proof.
  induction fuel as [|fuel IH]; cbn [automatic_passes].
  - apply quiet_bind; [apply quiet_get|]. intros s.
    destruct (negb (ContinueFlag s)); apply quiet_ret.
  - apply quiet_bind; [apply quiet_get|]. intros s.
    destruct (negb (ContinueFlag s)); [apply quiet_ret|].
    apply quiet_bind; [quiet_tac|]. intros _.
    apply quiet_bind; [apply quiet_automatic_scan|]. intros _. exact IH.
Qed.

Lemma quiet_ProcessAutomaticActions fuel :
  quiet_run (ProcessAutomaticActions fuel).
Proof.
  unfold ProcessAutomaticActions. apply quiet_bind; [quiet_tac|].
  intros _. apply quiet_automatic_passes.
Qed.

Lemma quiet_load_loop assign :
  (forall i v, quiet_run (assign i v)) ->
  forall n i lines, quiet_run (load_loop n i assign lines).
Proof.
  intros Ha. induction n as [|n IH]; intros i lines; cbn [load_loop].
  - apply quiet_ret.
  - destruct lines as [|l rest].
    + unfold read_error. quiet_tac.
    + apply quiet_bind; [apply Ha|]. intros _. apply IH.
Qed.

Lemma quiet_load_from lines : quiet_run (load_from lines).
Proof.
  assert (Hrooms : forall i v, quiet_run (assign_AltRoom i v))
    by (intros; unfold assign_AltRoom; quiet_tac).
  assert (Hcounters : forall i v, quiet_run (assign_AltCounter i v))
    by (intros; unfold assign_AltCounter; quiet_tac).
  assert (Hitems : forall i v, quiet_run (assign_ItemLocation i v))
    by (intros; unfold assign_ItemLocation; quiet_tac).
  unfold load_from, read_error.
  apply quiet_bind; [apply quiet_get|]. intros s.
  destruct lines as [|l0 lines]; [quiet_tac|].
  destruct (negb (fst (Atoi l0) =? AdventureNumber (Header s))); [quiet_tac|].
  destruct lines as [|l1 lines]; [quiet_tac|].
  apply quiet_bind; [quiet_tac|]. intros _.
  destruct lines as [|l2 lines]; [quiet_tac|].
  apply quiet_bind; [quiet_tac|]. intros _.
  destruct lines as [|l3 lines]; [quiet_tac|].
  apply quiet_bind; [quiet_tac|]. intros _.
  destruct lines as [|l4 lines]; [quiet_tac|].
  apply quiet_bind; [apply Hcounters|]. intros _.
  apply quiet_bind; [apply quiet_load_loop; exact Hrooms|].
  intros [lines5|]; [|apply quiet_ret].
  apply quiet_bind; [apply quiet_load_loop; exact Hcounters|].
  intros [lines6|]; [|apply quiet_ret].
  apply quiet_bind; [apply quiet_load_loop; exact Hitems|].
  intros [lines7|]; [|apply quiet_ret].
  quiet_tac.
Qed.

Lemma quiet_LoadGame : quiet_run LoadGame.
Proof.
  unfold LoadGame.
  apply quiet_bind; [apply quiet_fmt_Print|]. intros _.
  apply quiet_bind; [apply quiet_ReadLine|]. intros input.
  apply quiet_bind; [apply quiet_get_world|]. intros w0.
  destruct (assoc _ (files w0)); [apply quiet_load_from|apply quiet_fmt_Print].
Qed.

Lemma quiet_UpdateLightSource : quiet_run UpdateLightSource.
Proof. unfold UpdateLightSource. quiet_tac. Qed.

Lemma quiet_MovePlayer direction : quiet_run (MovePlayer direction).
Proof. unfold MovePlayer. quiet_tac. Qed.

Lemma quiet_visible_loop locs : forall i, quiet_run (visible_loop i locs).
Proof.
  induction locs as [|loc locs IH]; intros i; cbn [visible_loop].
  - apply quiet_ret.
  - apply quiet_bind; [apply quiet_get|]. intros s.
    apply quiet_bind; [quiet_tac|]. intros _. apply IH.
Qed.

Lemma quiet_DisplayCurrentLocation : quiet_run DisplayCurrentLocation.
Proof.
  unfold DisplayCurrentLocation, open_exit.
  apply quiet_bind; [apply quiet_get|]. intros s.
  apply quiet_bind; [apply quiet_must|]. intros [|]; [quiet_tac|].
  apply quiet_bind; [apply quiet_must|]. intros room.
  apply quiet_bind; [quiet_tac|]. intros _.
  apply quiet_bind; [apply quiet_visible_loop|]. intros _.
  quiet_tac.
Qed.

Lemma quiet_GetWordNumber word wordType :
  quiet_run (GetWordNumber word wordType).
Proof. unfold GetWordNumber. quiet_tac. Qed.

Lemma quiet_ParseCommand words : quiet_run (ParseCommand words).
Proof.
  unfold ParseCommand.
  apply quiet_bind.
  { destruct words; [apply quiet_ret|apply quiet_GetWordNumber]. }
  intros verb. apply quiet_bind.
  { destruct words as [|? [|? ?]]; try apply quiet_ret.
    apply quiet_GetWordNumber. }
  intros noun. quiet_tac.
Qed.

Lemma quiet_FindItemByName name : quiet_run (FindItemByName name).
Proof. unfold FindItemByName. quiet_tac. Qed.

Lemma quiet_DisplayHelp : quiet_run DisplayHelp.
Proof. unfold DisplayHelp. quiet_tac. Qed.

Lemma quiet_process_parsed words : quiet_run (process_parsed words).
Proof.
  unfold process_parsed.
  apply quiet_bind; [apply quiet_ParseCommand|]. intros [verb noun].
  apply quiet_bind; [apply quiet_get|]. intros s.
  apply quiet_bind; [quiet_tac|]. intros _.
  destruct ((verb =? 1) && (1 <=? noun) && (noun <=? 6)).
  { apply quiet_bind; [quiet_tac|]. intros _. apply quiet_MovePlayer. }
  destruct ((verb =? 10) && (0 <? noun)).
  { apply quiet_bind; [quiet_tac|]. intros _. apply quiet_GetItem. }
  destruct ((verb =? 18) && (0 <? noun)).
  { apply quiet_bind; [quiet_tac|]. intros _. apply quiet_DropItem. }
  apply quiet_ProcessActionsWithVerb.
Qed.

Lemma quiet_process_items words : quiet_run (process_items words).
Proof.
  unfold process_items.
  destruct words as [|word0 [|word1 rest]]; try apply quiet_process_parsed.
  apply quiet_bind.
  { destruct (EqualFold word0 "GET" || EqualFold word0 "TAKE");
      [|apply quiet_ret].
    apply quiet_bind; [apply quiet_FindItemByName|]. intros itemIndex.
    destruct (0 <? itemIndex); [|apply quiet_ret].
    apply quiet_bind; [apply quiet_get|]. intros s.
    apply quiet_bind; [quiet_tac|]. intros _.
    apply quiet_bind; [apply quiet_GetItem|]. intros _. apply quiet_ret. }
  intros [|]; [apply quiet_ret|].
  apply quiet_bind.
  { destruct (EqualFold word0 "DROP"); [|apply quiet_ret].
    apply quiet_bind; [apply quiet_FindItemByName|]. intros itemIndex.
    destruct (0 <? itemIndex); [|apply quiet_ret].
    apply quiet_bind; [apply quiet_get|]. intros s.
    apply quiet_bind; [quiet_tac|]. intros _.
    apply quiet_bind; [apply quiet_DropItem|]. intros _. apply quiet_ret. }
  intros [|]; [apply quiet_ret|apply quiet_process_parsed].
Qed.

Lemma quiet_ProcessCommand command : quiet_run (ProcessCommand command).
Proof.
  unfold ProcessCommand. cbv zeta.
  destruct (Fields (ToUpper command)) as [|word0 others]; [apply quiet_ret|].
  destruct (_ || _ || _); [apply quiet_DisplayInventory|].
  destruct (String.eqb _ "LOOK"); [quiet_tac|].
  destruct (String.eqb _ "SAVE"); [apply quiet_SaveGame|].
  destruct (_ || _); [apply quiet_LoadGame|].
  destruct (String.eqb _ "SCORE"); [apply quiet_DisplayScore|].
  destruct (String.eqb _ "DEBUG").
  { apply quiet_bind; [apply quiet_get|]. intros s.
    apply quiet_bind; [|intros _; apply quiet_fmt_Print].
    apply quiet_modify; [intros s0 H0; exact H0|intros s0; repeat split]. }
  destruct (String.eqb _ "HELP"); [apply quiet_DisplayHelp|].
  destruct (assoc _ direction_words); [apply quiet_MovePlayer|].
  match goal with
  | |- quiet_run (match ?x with _ => _ end) => destruct x as [[word1 dir]|]
  end.
  - apply quiet_bind; [apply quiet_get|]. intros s.
    apply quiet_bind; [quiet_tac|]. intros _. apply quiet_MovePlayer.
  - apply quiet_process_items.
Qed.

(** ** The main loop *)

Lemma bind_ext_run {A B : Type} (m : M A) (k k' : A -> M B) s w :
  (forall a s1 w1, m s w = Ok a s1 w1 -> k a s1 w1 = k' a s1 w1) ->
  bind m k s w = bind m k' s w.
Proof.
  intros H. unfold bind. destruct (m s w) as [a s1 w1| |] eqn:E; auto.
Qed.

Lemma bind_cong_l {A B : Type} (m m' : M A) (k : A -> M B) s w :
  m s w = m' s w -> bind m k s w = bind m' k s w.
Proof. intros H. unfold bind. rewrite H. reflexivity. Qed.

Lemma bind_Ok {A B : Type} (m : M A) (k : A -> M B) s w b s' w' :
  bind m k s w = Ok b s' w' ->
  exists a s1 w1, m s w = Ok a s1 w1 /\ k a s1 w1 = Ok b s' w'.
Proof.
  unfold bind. destruct (m s w) as [a s1 w1| |]; try discriminate.
  intros H. exists a, s1, w1. auto.
Qed.

(** RunGame returns with the room due to be displayed. *)
Lemma RunGame_clears_DisplayedRoom :
  forall fuel s w b s' w',
    DisplayedRoom s = false -> RunGame fuel s w = Ok b s' w' ->
    DisplayedRoom s' = false.
Proof.
  induction fuel as [|fuel IH]; intros s w b s' w' Hflag H.
  - injection H as _ <- _. exact Hflag.
  - cbn [RunGame] in H.
    apply bind_Ok in H. destruct H as (ended & s1 & w1 & Hauto & H).
    pose proof (proj1 (quiet_ProcessAutomaticActions fuel _ _ _ _ _ Hauto)
                  Hflag) as Hflag1.
    destruct ended; cbn [negb] in H; [|injection H as _ <- _; exact Hflag1].
    rewrite bind_get in H.
    apply bind_Ok in H. destruct H as ([] & s2 & w2 & _ & H).
    apply bind_Ok in H. destruct H as ([] & s3 & w3 & _ & H).
    apply bind_Ok in H. destruct H as (input & s4 & w4 & _ & H).
    apply bind_Ok in H. destruct H as ([] & s5 & w5 & Hclear & H).
    injection Hclear as <- _.
    destruct (String.eqb (ToUpper (TrimSpace input)) "QUIT").
    + apply bind_Ok in H. destruct H as ([] & s6 & w6 & Hsay & H).
      injection Hsay as <- _. injection H as _ <- _. reflexivity.
    + apply bind_Ok in H. destruct H as ([] & s6 & w6 & Hcmd & H).
      apply bind_Ok in H. destruct H as ([] & s7 & w7 & Hlight & H).
      apply quiet_ProcessCommand in Hcmd. apply quiet_UpdateLightSource in Hlight.
      apply (IH s7 w7 b s' w'); [|exact H].
      apply (proj1 Hlight), (proj1 Hcmd). reflexivity.
Qed.

(** The room is displayed at every turn.  No function of the
    interpreter sets DisplayedRoom but RunGame itself, which clears it
    again once the command has been read; so, started with the flag
    clear as LoadGameData leaves it, RunGame finds it clear at the top of
    every turn and behaves exactly like the loop that displays the room
    unconditionally, and it ends with the flag clear. *)
Theorem RunGame_displays_the_room_at_every_turn :
  forall (fuel : nat) (s : GameState) (w : World),
    DisplayedRoom s = false ->
    RunGame fuel s w = RunGame_showing_every_turn fuel s w
    /\ (forall b s' w',
        RunGame fuel s w = Ok b s' w' -> DisplayedRoom s' = false).
Proof.
  intros fuel s w Hflag.
  split; [|intros b s' w'; apply RunGame_clears_DisplayedRoom; exact Hflag].
  revert s w Hflag. induction fuel as [|fuel IH]; intros s w Hflag.
  - reflexivity.
  - cbn [RunGame RunGame_showing_every_turn].
    apply bind_ext_run. intros ended s1 w1 Hauto.
    pose proof (proj1 (quiet_ProcessAutomaticActions fuel _ _ _ _ _ Hauto)
                  Hflag) as Hflag1.
    destruct ended; cbn [negb]; [|reflexivity].
    rewrite bind_get, Hflag1. cbn [negb].
    assert (Hassoc : forall (k : unit -> M bool),
              ((DisplayCurrentLocation ;; modify (set_DisplayedRoom true)) ;;
               k tt) s1 w1
              = (DisplayCurrentLocation ;; modify (set_DisplayedRoom true) ;;
                 k tt) s1 w1).
    { intros k. unfold bind.
      destruct (DisplayCurrentLocation s1 w1) as [[] s2 w2| |]; reflexivity. }
    rewrite (Hassoc (fun _ => _)).
    apply bind_ext_run. intros [] s2 w2 _.
    apply bind_ext_run. intros [] s3 w3 _.
    apply bind_ext_run. intros [] s4 w4 _.
    apply bind_ext_run. intros input s5 w5 _.
    apply bind_ext_run. intros [] s6 w6 Hclear. injection Hclear as <- _.
    destruct (String.eqb (ToUpper (TrimSpace input)) "QUIT"); [reflexivity|].
    apply bind_ext_run. intros [] s7 w7 Hcmd.
    apply bind_ext_run. intros [] s8 w8 Hlight.
    apply quiet_ProcessCommand in Hcmd. apply quiet_UpdateLightSource in Hlight.
    apply IH. apply (proj1 Hlight), (proj1 Hcmd). reflexivity.
Qed.

(** The theorem for three turns of the sample adventure: a look, a move
    north and QUIT. *)
Lemma RunGame_displays_the_room_at_every_turn_witness :
  let w := mkWorld ["look"; "n"; "  Quit "] [] [] [] (fun _ => 0) 0 in
  RunGame 5 sample_state w = RunGame_showing_every_turn 5 sample_state w
  /\ (forall b s' w',
      RunGame 5 sample_state w = Ok b s' w' -> DisplayedRoom s' = false).
Proof.
  intros w.
  apply (RunGame_displays_the_room_at_every_turn 5 sample_state w).
  reflexivity.
Defined.

(** At the end of the input the loop spins.  Once standard input is at
    its end every read returns the empty line, which is not QUIT: RunGame
    prompts, reads nothing, lets the light burn and starts over, and no
    number of turns brings the loop to its end. *)
Theorem RunGame_never_ends_at_end_of_input :
  forall (fuel : nat) (s : GameState) (w : World) (b : bool)
         (s' : GameState) (w' : World),
    stdin w = [] ->
    RunGame fuel s w = Ok b s' w' ->
    b = false /\ stdin w' = [].
Proof.
  induction fuel as [|fuel IH]; intros s w b s' w' Hin H.
  - injection H as <- _ <-. auto.
  - cbn [RunGame] in H. unfold bind at 1 in H.
    destruct (ProcessAutomaticActions fuel s w) as [ended s1 w1| |] eqn:Hauto;
      try discriminate.
    pose proof (proj1 (proj2 (quiet_ProcessAutomaticActions fuel _ _ _ _ _ Hauto))
                  Hin)
      as Hin1.
    destruct ended; cbn [negb] in H; [|injection H as <- _ <-; auto].
    rewrite bind_get in H. unfold bind at 1 in H.
    match type of H with
    | context [match ?m s1 w1 with _ => _ end] =>
        destruct (m s1 w1) as [[] s2 w2| |] eqn:Hshow; try discriminate;
        assert (Hin2 : stdin w2 = [])
    end.
    { revert Hshow. destruct (negb (DisplayedRoom s1)).
      - intros Hshow. apply bind_Ok in Hshow.
        destruct Hshow as ([] & s1' & w1' & Hshow & Hset).
        injection Hset as _ <-.
        exact (proj1 (proj2 (quiet_DisplayCurrentLocation _ _ _ _ _ Hshow)) Hin1).
      - intros [= _ <-]. exact Hin1. }
    unfold bind at 1 in H. unfold fmt_Print at 1 in H. cbn beta iota in H.
    unfold bind at 1 in H. unfold ReadLine at 1 in H.
    cbn [stdin set_stdout] in H. rewrite Hin2 in H. cbn beta iota in H.
    unfold bind at 1 in H. unfold modify at 1 in H. cbn beta iota in H.
    change (String.eqb (ToUpper (TrimSpace EmptyString)) "QUIT") with false in H.
    cbn beta iota in H. unfold bind at 1 in H.
    change (ProcessCommand (TrimSpace EmptyString)) with (@ret unit tt) in H.
    unfold ret at 1 in H. cbn beta iota in H. unfold bind at 1 in H.
    destruct (UpdateLightSource _ _) as [[] s5 w5| |] eqn:Hlight;
      try discriminate.
    apply quiet_UpdateLightSource in Hlight.
    apply (IH s5 w5 b s' w'); [|exact H].
    apply (proj1 (proj2 Hlight)). cbn [stdin set_stdout]. exact Hin2.
Qed.

(** The theorem on the sample adventure with the input closed, for fifty
    turns. *)
Lemma RunGame_never_ends_at_end_of_input_witness :
  exists s' w',
    RunGame 50 sample_state closed_world = Ok false s' w' /\ stdin w' = [].
Proof.
  destruct (RunGame 50 sample_state closed_world) as [b s' w'| |] eqn:E.
  - destruct (RunGame_never_ends_at_end_of_input 50 sample_state closed_world
                b s' w' eq_refl E) as [-> Hin].
    exists s', w'. split; [reflexivity|exact Hin].
  - exfalso. revert E. vm_compute. discriminate.
  - exfalso. revert E. vm_compute. discriminate.
Defined.

(** ** The player's command *)

Lemma upper_byte_space c : is_space c = true -> upper_byte c = c.
Proof.
  unfold is_space, upper_byte. intros H.
  destruct (N.leb_spec 97 (N_of_ascii c)) as [H97|H97]; [|reflexivity].
  exfalso. apply orb_prop in H. destruct H as [H|H].
  - apply andb_prop in H. destruct H as [_ H]. apply N.leb_le in H. lia.
  - apply N.eqb_eq in H. lia.
Qed.

Lemma fields_of_blank command :
  blank command = true -> Fields (ToUpper command) = [].
Proof.
  unfold Fields. induction command as [|c command IH]; intros H.
  - reflexivity.
  - cbn [blank] in H. apply andb_prop in H. destruct H as [Hc Hrest].
    cbn [ToUpper fields_loop]. rewrite (upper_byte_space c Hc), Hc.
    cbn [flush app]. exact (IH Hrest).
Qed.

(** A blank command does nothing.  A command that is empty or made of
    white space only changes nothing and prints nothing; the vocabulary
    and the action table are not consulted. *)
Theorem ProcessCommand_ignores_blank_input :
  forall (command : string) (s : GameState) (w : World),
    blank command = true ->
    ProcessCommand command s w = Ok tt s w.
Proof.
  intros command s w H. unfold ProcessCommand. cbv zeta.
  rewrite (fields_of_blank command H). reflexivity.
Qed.

(** The theorem on a command of two blanks and a tab. *)
Lemma ProcessCommand_ignores_blank_input_witness :
  ProcessCommand (String " " (String " " (String "009" EmptyString)))
    sample_state sample_world
  = Ok tt sample_state sample_world.
Proof.
  apply (ProcessCommand_ignores_blank_input
           (String " " (String " " (String "009" EmptyString)))).
  reflexivity.
Defined.

(** Directions always move.  A command of ASCII text whose first word
    is, in upper case, a direction or its first letter, or whose first
    two words are GO and a direction or its letter, is a move in that
    direction whatever the vocabulary and the action table of the
    adventure hold: it is MovePlayer and nothing else (in debug mode
    the GO form also prints a debug line). *)
Theorem direction_commands_always_move :
  forall (command : string) (s : GameState) (w : World)
         (word : string) (dir : Z) (rest : list string),
    ascii_text command = true ->
    In (word, dir) go_direction_words ->
    (Fields (ToUpper command) = word :: rest ->
     ProcessCommand command s w = MovePlayer dir s w)
    /\ (Fields (ToUpper command) = "GO" :: word :: rest ->
        Debug s = false ->
        ProcessCommand command s w = MovePlayer dir s w).
Proof.
  intros command s w word dir rest _ Hin.
  unfold go_direction_words, direction_words in Hin. cbn [app In] in Hin.
  split.
  - intros Hf. unfold ProcessCommand. cbv zeta. rewrite Hf.
    repeat (destruct Hin as [[= <- <-]|Hin];
            [destruct rest; reflexivity|]).
    contradiction.
  - intros Hf Hdebug. unfold ProcessCommand. cbv zeta. rewrite Hf.
    repeat (destruct Hin as [[= <- <-]|Hin];
            [cbv -[MovePlayer when bind get fmt_Print String.append
                   format_int Debug];
             rewrite bind_get, Hdebug; reflexivity|]).
    contradiction.
Qed.

(** The theorem on the commands "n" and "Go  North" in the sample
    adventure. *)
Lemma direction_commands_always_move_witness :
  ProcessCommand "n" sample_state sample_world
  = MovePlayer 0 sample_state sample_world
  /\ ProcessCommand "Go  North" sample_state sample_world
     = MovePlayer 0 sample_state sample_world.
Proof.
  split.
  - refine (proj1 (direction_commands_always_move "n" sample_state
                     sample_world "N" 0 [] eq_refl _) eq_refl).
    do 6 right. left. reflexivity.
  - refine (proj2 (direction_commands_always_move "Go  North" sample_state
                     sample_world "NORTH" 0 [] eq_refl _) eq_refl eq_refl).
    left. reflexivity.
Defined.

(** ** The invariant of a whole session *)

Lemma ok_Debug s b : state_ok s -> state_ok (set_Debug b s).
Proof.
  intros Hok. destruct Hok as ([] & [] & []).
  split; [|split]; constructor; assumption.
Qed.

Section Session.
Variable s0 : GameState.
Hypothesis Hexits : rooms_in_range s0.

Lemma keeps_bind {A B : Type} (m : M A) (k : A -> M B) :
  keeps s0 m -> (forall a, keeps s0 (k a)) -> keeps s0 (bind m k).
Proof.
  intros Hm Hk s w b s' w' Hok Ht H. unfold bind in H.
  destruct (m s w) as [a s1 w1| |] eqn:E; try discriminate.
  destruct (Hm _ _ _ _ _ Hok Ht E) as [Hok1 Ht1].
  exact (Hk _ _ _ _ _ _ Hok1 Ht1 H).
Qed.

Lemma keeps_ret {A : Type} (a : A) : keeps s0 (ret a).
Proof. intros s w b s' w' Hok Ht [= _ <- <-]. auto. Qed.

Lemma keeps_get : keeps s0 get.
Proof. intros s w b s' w' Hok Ht [= _ <- <-]. auto. Qed.

Lemma keeps_must {A : Type} (o : option A) : keeps s0 (must o).
Proof.
  destruct o; [apply keeps_ret|]. intros s w b s' w' _ _ H. discriminate.
Qed.

Lemma keeps_fmt_Print text : keeps s0 (fmt_Print text).
Proof. intros s w b s' w' Hok Ht [= _ <- <-]. auto. Qed.

Lemma keeps_fmt_Println text : keeps s0 (fmt_Println text).
Proof. apply keeps_fmt_Print. Qed.

Lemma keeps_when b m : keeps s0 m -> keeps s0 (when b m).
Proof. intros Hm. destruct b; [exact Hm|apply keeps_ret]. Qed.

Lemma keeps_ReadLine : keeps s0 ReadLine.
Proof.
  intros s w b s' w' Hok Ht H. unfold ReadLine in H.
  destruct (stdin w); injection H as _ <- <-; auto.
Qed.

Lemma keeps_rand_Intn n : keeps s0 (rand_Intn n).
Proof. intros s w b s' w' Hok Ht [= _ <- <-]. auto. Qed.

Lemma keeps_get_world : keeps s0 get_world.
Proof. intros s w b s' w' Hok Ht [= _ <- <-]. auto. Qed.

Lemma keeps_modify f :
  (forall s, state_ok s -> state_ok (f s)) ->
  (forall s, same_tables s (f s)) ->
  keeps s0 (modify f).
Proof.
  intros Hf Hs s w b s' w' Hok Ht [= _ <- <-].
  split; [exact (Hf s Hok)|].
  exact (same_tables_trans _ _ _ Ht (Hs s)).
Qed.

Lemma keeps_modify_world f : keeps s0 (modify_world f).
Proof. intros s w b s' w' Hok Ht [= _ <- <-]. auto. Qed.

Lemma keeps_panic {A : Type} : keeps s0 (@panic A).
Proof. intros s w b s' w' _ _ H. discriminate. Qed.

Lemma keeps_os_Exit {A : Type} : keeps s0 (@os_Exit A).
Proof. intros s w b s' w' _ _ H. discriminate. Qed.

(** A function of the engine, by its invariant and its footprint. *)
Lemma keeps_from (m : M unit) :
  (forall s w s' w', state_ok s -> m s w = Ok tt s' w' -> state_ok s') ->
  quiet_run m -> keeps s0 m.
Proof.
  intros Hm Hq s w [] s' w' Hok Ht H. split; [exact (Hm _ _ _ _ Hok H)|].
  exact (same_tables_trans _ _ _ Ht (proj2 (proj2 (Hq _ _ _ _ _ H)))).
Qed.

Ltac keeps_step :=
  first
    [ apply keeps_ret | apply keeps_get | apply keeps_must
    | apply keeps_panic | apply keeps_os_Exit
    | apply keeps_fmt_Println | apply keeps_fmt_Print | apply keeps_ReadLine
    | apply keeps_rand_Intn | apply keeps_get_world
    | apply keeps_when
    | apply keeps_modify;
      [intros ? ?;
       first [ apply ok_ContinueFlag | apply ok_DisplayedRoom
             | apply ok_CurrentAction | apply ok_Debug ]; assumption
      |intros ?; repeat split]
    | apply keeps_modify_world
    | apply keeps_bind; [|intros ?]
    | match goal with
      | |- keeps _ (if ?b then _ else _) => destruct b
      | |- keeps _ (match ?x with _ => _ end) => destruct x
      | |- keeps _ (let (_, _) := ?x in _) => destruct x
      end ].

Ltac keeps_tac := repeat keeps_step.

Lemma keeps_GetItem n : keeps s0 (GetItem n).
Proof.
  apply keeps_from; [|apply quiet_GetItem].
  intros s w s' w'. apply GetItem_ok.
Qed.

Lemma keeps_DropItem n : keeps s0 (DropItem n).
Proof.
  apply keeps_from; [|apply quiet_DropItem].
  intros s w s' w'. apply DropItem_ok.
Qed.

Lemma keeps_ExecuteCommands i : keeps s0 (ExecuteCommands i).
Proof.
  apply keeps_from; [|apply quiet_ExecuteCommands].
  intros s w s' w'. apply ExecuteCommands_ok.
Qed.

Lemma keeps_UpdateLightSource : keeps s0 UpdateLightSource.
Proof.
  apply keeps_from; [|apply quiet_UpdateLightSource].
  intros s w s' w'. apply UpdateLightSource_ok.
Qed.

Lemma keeps_LoadGame : keeps s0 LoadGame.
Proof.
  apply keeps_from; [|apply quiet_LoadGame].
  intros s w s' w'. apply LoadGame_ok.
Qed.

(** A move stores an exit of the current room, or the number of rooms. *)
Lemma MovePlayer_ok direction s w s' w' :
  state_ok s -> rooms_in_range s ->
  MovePlayer direction s w = Ok tt s' w' -> state_ok s'.
Proof.
  intros Hok Hr H. unfold MovePlayer, rand_Intn in H. invert_run H; ok_tac.
  all: match goal with
       | Hroom : index (Rooms _) _ = Some ?room,
         Hexit : Forall is_int64 (Exits ?room) -> _ |- _ =>
           apply Hexit;
           exact (index_keeps (fun room => Forall is_int64 (Exits room))
                    _ _ _ Hroom Hr)
       end.
Qed.

Lemma keeps_MovePlayer direction : keeps s0 (MovePlayer direction).
Proof.
  intros s w [] s' w' Hok Ht H.
  pose proof (proj2 (proj2 (quiet_MovePlayer _ _ _ _ _ _ H))) as Hs.
  split; [|exact (same_tables_trans _ _ _ Ht Hs)].
  refine (MovePlayer_ok _ _ _ _ _ Hok _ H).
  unfold rooms_in_range. destruct Ht as (_ & -> & _). exact Hexits.
Qed.

Lemma keeps_EvaluateCondition code parameter :
  keeps s0 (EvaluateCondition code parameter).
Proof. unfold EvaluateCondition. keeps_tac. Qed.

Lemma keeps_check_slots conds : keeps s0 (check_slots conds).
Proof.
  induction conds as [|c conds IH]; cbn [check_slots]; [apply keeps_ret|].
  destruct (c =? 0); [exact IH|].
  apply keeps_bind; [apply keeps_EvaluateCondition|].
  intros [|]; [exact IH|apply keeps_ret].
Qed.

Lemma keeps_CheckConditions i : keeps s0 (CheckConditions i).
Proof. unfold CheckConditions. keeps_tac. apply keeps_check_slots. Qed.

Lemma keeps_inventory_loop locs :
  forall i count, keeps s0 (inventory_loop i locs count).
Proof.
  induction locs as [|loc locs IH]; intros i count; cbn [inventory_loop].
  - apply keeps_ret.
  - apply keeps_bind; [apply keeps_get|]. intros s.
    destruct ((i <=? NumItems (Header s)) && (loc =? CARRIED));
      [|apply IH].
    apply keeps_bind; [apply keeps_must|]. intros desc.
    apply keeps_bind; [apply keeps_fmt_Print|]. intros _. apply IH.
Qed.

Lemma keeps_DisplayInventory : keeps s0 DisplayInventory.
Proof.
  unfold DisplayInventory.
  apply keeps_bind; [apply keeps_fmt_Println|]. intros _.
  apply keeps_bind; [apply keeps_get|]. intros s.
  apply keeps_bind; [apply keeps_inventory_loop|]. intros count.
  keeps_tac.
Qed.

Lemma keeps_DisplayScore : keeps s0 DisplayScore.
Proof. unfold DisplayScore. keeps_tac. Qed.

Lemma keeps_SaveGame : keeps s0 SaveGame.
Proof. unfold SaveGame. keeps_tac. Qed.

Lemma keeps_exact_scan verb noun actions :
  forall i found, keeps s0 (exact_scan verb noun i actions found).
Proof.
  induction actions as [|a actions IH]; intros i found; cbn [exact_scan].
  - apply keeps_ret.
  - destruct ((Verb a =? verb) && (Noun a =? noun)); [|apply IH].
    apply keeps_bind; [apply keeps_CheckConditions|]. intros [|]; [|apply IH].
    apply keeps_bind; [apply keeps_ExecuteCommands|]. intros _.
    apply keeps_bind; [apply keeps_get|]. intros s.
    destruct (negb (ContinueFlag s)); [apply keeps_ret|apply IH].
Qed.

Lemma keeps_ProcessExactAction verb noun :
  keeps s0 (ProcessExactAction verb noun).
Proof.
  unfold ProcessExactAction. apply keeps_bind; [apply keeps_get|].
  intros s. apply keeps_exact_scan.
Qed.

Lemma keeps_ProcessActionsWithVerb verb noun :
  keeps s0 (ProcessActionsWithVerb verb noun).
Proof.
  unfold ProcessActionsWithVerb.
  apply keeps_bind; [apply keeps_ProcessExactAction|]. intros [|];
    [apply keeps_ret|].
  apply keeps_bind.
  - destruct (negb (noun =? 0));
      [apply keeps_ProcessExactAction|apply keeps_ret].
  - intros [|]; [apply keeps_ret|].
    destruct (verb =? 10); [apply keeps_GetItem|].
    destruct (verb =? 18); [apply keeps_DropItem|apply keeps_fmt_Println].
Qed.

Lemma keeps_automatic_scan actions :
  forall i, keeps s0 (automatic_scan i actions).
Proof.
  induction actions as [|a actions IH]; intros i; cbn [automatic_scan].
  - apply keeps_ret.
  - destruct (negb (Verb a =? 0)); [apply IH|].
    apply keeps_bind.
    + destruct (0 <? Noun a); keeps_tac.
    + intros [|]; [apply IH|].
      apply keeps_bind; [apply keeps_CheckConditions|].
      intros [|]; [|apply IH].
      apply keeps_bind; [apply keeps_ExecuteCommands|]. intros _.
      apply keeps_bind; [apply keeps_get|]. intros s.
      destruct (ContinueFlag s); [apply keeps_ret|apply IH].
Qed.

Lemma keeps_automatic_passes : forall fuel, keeps s0 (automatic_passes fuel).
Proof.
  induction fuel as [|fuel IH]; cbn [automatic_passes].
  - apply keeps_bind; [apply keeps_get|]. intros s.
    destruct (negb (ContinueFlag s)); apply keeps_ret.
  - apply keeps_bind; [apply keeps_get|]. intros s.
    destruct (negb (ContinueFlag s)); [apply keeps_ret|].
    apply keeps_bind; [keeps_tac|]. intros _.
    apply keeps_bind; [apply keeps_automatic_scan|]. intros _. exact IH.
Qed.

Lemma keeps_ProcessAutomaticActions fuel :
  keeps s0 (ProcessAutomaticActions fuel).
Proof.
  unfold ProcessAutomaticActions. apply keeps_bind; [keeps_tac|].
  intros _. apply keeps_automatic_passes.
Qed.

Lemma keeps_visible_loop locs : forall i, keeps s0 (visible_loop i locs).
Proof.
  induction locs as [|loc locs IH]; intros i; cbn [visible_loop].
  - apply keeps_ret.
  - apply keeps_bind; [apply keeps_get|]. intros s.
    apply keeps_bind; [keeps_tac|]. intros _. apply IH.
Qed.

Lemma keeps_DisplayCurrentLocation : keeps s0 DisplayCurrentLocation.
Proof.
  unfold DisplayCurrentLocation, open_exit.
  apply keeps_bind; [apply keeps_get|]. intros s.
  apply keeps_bind; [apply keeps_must|]. intros [|]; [keeps_tac|].
  apply keeps_bind; [apply keeps_must|]. intros room.
  apply keeps_bind; [keeps_tac|]. intros _.
  apply keeps_bind; [apply keeps_visible_loop|]. intros _.
  keeps_tac.
Qed.

Lemma keeps_GetWordNumber word wordType :
  keeps s0 (GetWordNumber word wordType).
Proof. unfold GetWordNumber. keeps_tac. Qed.

Lemma keeps_ParseCommand words : keeps s0 (ParseCommand words).
Proof.
  unfold ParseCommand.
  apply keeps_bind.
  { destruct words; [apply keeps_ret|apply keeps_GetWordNumber]. }
  intros verb. apply keeps_bind.
  { destruct words as [|? [|? ?]]; try apply keeps_ret.
    apply keeps_GetWordNumber. }
  intros noun. keeps_tac.
Qed.

Lemma keeps_FindItemByName name : keeps s0 (FindItemByName name).
Proof. unfold FindItemByName. keeps_tac. Qed.

Lemma keeps_DisplayHelp : keeps s0 DisplayHelp.
Proof. unfold DisplayHelp. keeps_tac. Qed.

Lemma keeps_process_parsed words : keeps s0 (process_parsed words).
Proof.
  unfold process_parsed.
  apply keeps_bind; [apply keeps_ParseCommand|]. intros [verb noun].
  apply keeps_bind; [apply keeps_get|]. intros s.
  apply keeps_bind; [keeps_tac|]. intros _.
  destruct ((verb =? 1) && (1 <=? noun) && (noun <=? 6)).
  { apply keeps_bind; [keeps_tac|]. intros _. apply keeps_MovePlayer. }
  destruct ((verb =? 10) && (0 <? noun)).
  { apply keeps_bind; [keeps_tac|]. intros _. apply keeps_GetItem. }
  destruct ((verb =? 18) && (0 <? noun)).
  { apply keeps_bind; [keeps_tac|]. intros _. apply keeps_DropItem. }
  apply keeps_ProcessActionsWithVerb.
Qed.

Lemma keeps_process_items words : keeps s0 (process_items words).
Proof.
  unfold process_items.
  destruct words as [|word0 [|word1 rest]]; try apply keeps_process_parsed.
  apply keeps_bind.
  { destruct (EqualFold word0 "GET" || EqualFold word0 "TAKE");
      [|apply keeps_ret].
    apply keeps_bind; [apply keeps_FindItemByName|]. intros itemIndex.
    destruct (0 <? itemIndex); [|apply keeps_ret].
    apply keeps_bind; [apply keeps_get|]. intros s.
    apply keeps_bind; [keeps_tac|]. intros _.
    apply keeps_bind; [apply keeps_GetItem|]. intros _. apply keeps_ret. }
  intros [|]; [apply keeps_ret|].
  apply keeps_bind.
  { destruct (EqualFold word0 "DROP"); [|apply keeps_ret].
    apply keeps_bind; [apply keeps_FindItemByName|]. intros itemIndex.
    destruct (0 <? itemIndex); [|apply keeps_ret].
    apply keeps_bind; [apply keeps_get|]. intros s.
    apply keeps_bind; [keeps_tac|]. intros _.
    apply keeps_bind; [apply keeps_DropItem|]. intros _. apply keeps_ret. }
  intros [|]; [apply keeps_ret|apply keeps_process_parsed].
Qed.

Lemma keeps_ProcessCommand command : keeps s0 (ProcessCommand command).
Proof.
  unfold ProcessCommand. cbv zeta.
  destruct (Fields (ToUpper command)) as [|word0 others]; [apply keeps_ret|].
  destruct (_ || _ || _); [apply keeps_DisplayInventory|].
  destruct (String.eqb _ "LOOK"); [keeps_tac|].
  destruct (String.eqb _ "SAVE"); [apply keeps_SaveGame|].
  destruct (_ || _); [apply keeps_LoadGame|].
  destruct (String.eqb _ "SCORE"); [apply keeps_DisplayScore|].
  destruct (String.eqb _ "DEBUG").
  { apply keeps_bind; [apply keeps_get|]. intros s.
    apply keeps_bind; [|intros _; apply keeps_fmt_Print].
    apply keeps_modify; [intros s1 H1; apply ok_Debug; exact H1|intros s1; repeat split]. }
  destruct (String.eqb _ "HELP"); [apply keeps_DisplayHelp|].
  destruct (assoc _ direction_words); [apply keeps_MovePlayer|].
  match goal with
  | |- keeps s0 (match ?x with _ => _ end) => destruct x as [[word1 dir]|]
  end.
  - apply keeps_bind; [apply keeps_get|]. intros s.
    apply keeps_bind; [keeps_tac|]. intros _. apply keeps_MovePlayer.
  - apply keeps_process_items.
Qed.

Lemma keeps_RunGame : forall fuel, keeps s0 (RunGame fuel).
Proof.
  induction fuel as [|fuel IH]; cbn [RunGame]; [apply keeps_ret|].
  apply keeps_bind; [apply keeps_ProcessAutomaticActions|]. intros ended.
  destruct (negb ended); [apply keeps_ret|].
  apply keeps_bind; [apply keeps_get|]. intros s.
  apply keeps_bind.
  { destruct (negb (DisplayedRoom s)); [|apply keeps_ret].
    apply keeps_bind; [apply keeps_DisplayCurrentLocation|]. intros _.
    keeps_tac. }
  intros _. apply keeps_bind; [apply keeps_fmt_Print|]. intros _.
  apply keeps_bind; [apply keeps_ReadLine|]. intros input. cbv zeta.
  apply keeps_bind; [keeps_tac|]. intros _.
  destruct (String.eqb _ "QUIT"); [keeps_tac|].
  apply keeps_bind; [apply keeps_ProcessCommand|]. intros _.
  apply keeps_bind; [apply keeps_UpdateLightSource|]. intros _. exact IH.
Qed.

End Session.

Lemma sample_state_ok : state_ok sample_state.
Proof.
  split; [exact sample_state_wf|]. split.
  - split; unfold is_int64, is_uint32, minInt64, maxInt64, maxUint32;
      cbn; unfold CARRIED; try lia;
      repeat (constructor; [unfold is_int64, minInt64, maxInt64; lia|]);
      constructor.
  - split; unfold is_int64, minInt64, maxInt64; cbn; try lia.
    repeat constructor; unfold is_int64, minInt64, maxInt64; lia.
Qed.

Lemma sample_state_rooms : rooms_in_range sample_state.
Proof.
  unfold rooms_in_range. cbn.
  repeat constructor; unfold is_int64, minInt64, maxInt64; lia.
Qed.

(** A session never leaves the states of the engine.  From a state that
    satisfies the invariant of the engine and whose exits are Go ints
    (as every state LoadGameData returns does), whatever the player
    types, a command that returns and a session of any number of turns
    that returns leave a state that satisfies the invariant again, with
    the tables of the adventure untouched: header, rooms, items,
    actions, words, messages and titles are those of the start. *)
Theorem a_session_keeps_the_invariant_of_the_engine :
  forall (s : GameState),
    state_ok s -> rooms_in_range s ->
    (forall command w s' w',
        ProcessCommand command s w = Ok tt s' w' ->
        state_ok s' /\ rooms_in_range s' /\ same_tables s s')
    /\ (forall fuel w b s' w',
        RunGame fuel s w = Ok b s' w' ->
        state_ok s' /\ rooms_in_range s' /\ same_tables s s').
Proof.
  intros s Hok Hexits.
  assert (Hrooms : forall s', same_tables s s' -> rooms_in_range s').
  { intros s' (_ & Hr & _). unfold rooms_in_range. rewrite Hr. exact Hexits. }
  split.
  - intros command w s' w' H.
    destruct (keeps_ProcessCommand s Hexits command s w tt s' w' Hok
                (same_tables_refl s) H) as [Hok' Ht].
    auto.
  - intros fuel w b s' w' H.
    destruct (keeps_RunGame s Hexits fuel s w b s' w' Hok
                (same_tables_refl s) H) as [Hok' Ht].
    auto.
Qed.

(** The theorem on the sample adventure: the command "get lamp", and a
    session that moves north, takes the lamp and quits. *)
Lemma a_session_keeps_the_invariant_of_the_engine_witness :
  let w := mkWorld ["n"; "get lamp"; "i"; "quit"] [] [] [] (fun _ => 0) 0 in
  (exists s' w',
      ProcessCommand "get lamp" sample_state w = Ok tt s' w'
      /\ state_ok s' /\ rooms_in_range s' /\ same_tables sample_state s')
  /\ (exists s' w',
      RunGame 6 sample_state w = Ok true s' w'
      /\ state_ok s' /\ rooms_in_range s' /\ same_tables sample_state s').
Proof.
  intros w.
  destruct (a_session_keeps_the_invariant_of_the_engine sample_state
              sample_state_ok sample_state_rooms) as [Hcommand Hsession].
  split.
  - destruct (ProcessCommand "get lamp" sample_state w) as [[] s' w'| |] eqn:E.
    + exists s', w'. split; [reflexivity|]. exact (Hcommand _ _ _ _ E).
    + exfalso. revert E. vm_compute. discriminate.
    + exfalso. revert E. vm_compute. discriminate.
  - destruct (RunGame 6 sample_state w) as [b s' w'| |] eqn:E.
    + exists s', w'. split; [|exact (Hsession _ _ _ _ _ E)].
      revert E. vm_compute. intros [= <- _ _]. reflexivity.
    + exfalso. revert E. vm_compute. discriminate.
    + exfalso. revert E. vm_compute. discriminate.
Defined.

(** ** Vocabulary lookups *)

Lemma make_words_synonyms halfWords :
  forall vocabulary verbCount words,
    make_words halfWords vocabulary verbCount = Some words ->
    Forall (fun wd => IsSynonym wd = true -> WordType wd = "noun") words.
Proof.
  induction vocabulary as [|token vocabulary IH]; intros verbCount words H.
  - injection H as <-. constructor.
  - cbn [make_words] in H. destruct (unquote token) as [text|]; [|discriminate].
    cbv zeta in H.
    destruct (make_words halfWords vocabulary _) as [rest|] eqn:E;
      [|discriminate].
    injection H as <-. constructor; [|exact (IH _ _ E)].
    cbn [IsSynonym WordType]. intros ->.
    rewrite andb_false_r. reflexivity.
Qed.

Lemma find_word_Some test :
  forall words i j wd,
    find_word test i words = Some (j, wd) ->
    index words (j - i) = Some wd /\ test wd = true /\ i <= j.
Proof.
  induction words as [|x words IH]; intros i j wd H; [discriminate|].
  cbn [find_word] in H. destruct (test x) eqn:Ex.
  - injection H as <- <-. rewrite Z.sub_diag. auto with zarith.
  - apply IH in H. destruct H as (Hi & Ht & Hle).
    split; [|split; [exact Ht|lia]].
    unfold index in *. destruct (j - (i + 1) <? 0) eqn:E1; [discriminate|].
    apply Z.ltb_ge in E1.
    destruct (j - i <? 0) eqn:E2; [apply Z.ltb_lt in E2; lia|].
    replace (Z.to_nat (j - i)) with (S (Z.to_nat (j - (i + 1)))) by lia.
    exact Hi.
Qed.

Lemma find_synonym_None test wordType :
  forall words i before,
    Forall (fun wd => test wd = false) words ->
    find_synonym test wordType i before words = None.
Proof.
  induction words as [|x words IH]; intros i before H; [reflexivity|].
  inversion H as [|? ? Hx Hrest]; subst.
  cbn [find_synonym]. rewrite Hx. apply IH. exact Hrest.
Qed.

(** Synonyms are always nouns.  The loader gives every synonym (a word
    written with a leading star in the data file) the type noun, also
    those that follow a verb.  In a loaded adventure a lookup of a verb
    therefore never goes through a synonym: when GetWordNumber returns
    for the type verb, the result is 0 (no such word) or the index of a
    word that is no synonym, has type verb and equals the looked-up word,
    cut to the word length, or starts with it. *)
Theorem loaded_synonyms_are_nouns :
  forall (file : string + string) (s : GameState),
    LoadGameData file = Loaded s ->
    Forall (fun wd => IsSynonym wd = true -> WordType wd = "noun") (Words s)
    /\ (forall word w r s' w',
        GetWordNumber word "verb" s w = Ok r s' w' ->
        r = 0
        \/ exists wd word',
            truncate word (WordLength (Header s)) = Some word'
            /\ index (Words s) r = Some wd
            /\ IsSynonym wd = false /\ WordType wd = "verb"
            /\ (EqualFold (WordText wd) word' = true
                \/ HasPrefix (ToUpper (WordText wd)) word' = true)).
Proof.
  intros file s Hload.
  assert (Hsyn : Forall (fun wd => IsSynonym wd = true -> WordType wd = "noun")
                   (Words s)).
  { unfold LoadGameData in Hload.
    destruct file as [content|err]; [|discriminate].
    destruct (tokenizeGameData content) as [tokens|err]; [|discriminate].
    destruct (read_game_data tokens) as [s1 rest| |] eqn:Hread;
      try discriminate.
    injection Hload as ->.
    destruct (read_game_data_words _ _ _ Hread) as (h & voc & Hwords).
    exact (make_words_synonyms _ _ _ _ Hwords). }
  split; [exact Hsyn|].
  intros word w r s' w' H.
  assert (Hnone : forall test : Word -> bool,
             Forall (fun wd => (IsSynonym wd && String.eqb (WordType wd) "verb"
                                && test wd) = false) (Words s)).
  { intros test. eapply Forall_impl; [exact Hsyn|]. cbn beta.
    intros wd Hwd. destruct (IsSynonym wd); [|reflexivity].
    rewrite (Hwd eq_refl). reflexivity. }
  unfold GetWordNumber in H. rewrite bind_get in H.
  destruct (truncate word (WordLength (Header s))) as [word'|] eqn:Hcut;
    [|discriminate].
  unfold bind at 1 in H. unfold must, ret at 1 in H. cbn beta iota in H.
  change (String.eqb "verb" "noun") with false in H. cbn beta iota in H.
  assert (Hfound : forall (test : Word -> bool) i wd,
             find_word (fun w0 => negb (IsSynonym w0)
                                  && String.eqb (WordType w0) "verb"
                                  && test w0) 0 (Words s) = Some (i, wd) ->
             index (Words s) i = Some wd /\ IsSynonym wd = false
             /\ WordType wd = "verb" /\ test wd = true).
  { intros test i wd E. apply find_word_Some in E.
    destruct E as (Hi & Ht & _). rewrite Z.sub_0_r in Hi.
    apply andb_prop in Ht. destruct Ht as [Ht Htest].
    apply andb_prop in Ht. destruct Ht as [Hs Hty].
    apply negb_true_iff in Hs. apply String.eqb_eq in Hty. auto. }
  match type of H with
  | context [find_word ?t 0 (Words s)] =>
      destruct (find_word t 0 (Words s)) as [[i wd]|] eqn:Eexact
  end.
  { apply Hfound in Eexact. destruct Eexact as (Hi & Hs & Hty & Htest).
    assert (r = i) as -> by (destruct (Debug s); cbv [bind when fmt_Print ret] in H;
        congruence).
    right. exists wd, word'. auto 10. }
  match type of H with
  | context [find_word ?t 0 (Words s)] =>
      destruct (find_word t 0 (Words s)) as [[i wd]|] eqn:Eprefix
  end.
  { apply Hfound in Eprefix. destruct Eprefix as (Hi & Hs & Hty & Htest).
    assert (r = i) as -> by (destruct (Debug s); cbv [bind when fmt_Print ret] in H;
        congruence).
    right. exists wd, word'. auto 10. }
  rewrite (find_synonym_None _ "verb" (Words s) 0 []
             (Hnone (fun w0 => EqualFold (WordText w0) word'))) in H.
  rewrite (find_synonym_None _ "verb" (Words s) 0 []
             (Hnone (fun w0 => HasPrefix (ToUpper (WordText w0)) word'))) in H.
  left. destruct (Debug s); cbv [bind when fmt_Print ret] in H; congruence.
Qed.

(** The theorem on the sample data file, whose vocabulary has the
    synonym *WALK: WALK is not found as a verb. *)
Lemma loaded_synonyms_are_nouns_witness :
  Forall (fun wd => IsSynonym wd = true -> WordType wd = "noun")
    (Words sample_loaded)
  /\ GetWordNumber "WALK" "verb" sample_loaded sample_world
     = Ok 0 sample_loaded sample_world.
Proof.
  split; [|vm_compute; reflexivity].
  apply (loaded_synonyms_are_nouns (inl sample_content) sample_loaded).
  vm_compute. reflexivity.
Defined.

(** ** Header values the engine depends on *)

Lemma index_Some_iff {A : Type} (l : list A) i :
  0 <= i < Z.of_nat (length l) -> exists v, index l i = Some v.
Proof.
  intros Hi. unfold index. destruct (i <? 0) eqn:E; [apply Z.ltb_lt in E; lia|].
  destruct (l !! Z.to_nat i) as [v|] eqn:El; [eauto|].
  apply lookup_ge_None in El. lia.
Qed.

Lemma index_None_beyond {A : Type} (l : list A) i :
  Z.of_nat (length l) <= i -> index l i = None.
Proof.
  intros Hi. unfold index. destruct (i <? 0); [reflexivity|].
  apply lookup_ge_None. lia.
Qed.

Lemma store_Some_iff {A : Type} (l : list A) i v :
  0 <= i < Z.of_nat (length l) -> exists l', store l i v = Some l'.
Proof.
  intros Hi. unfold store.
  destruct ((0 <=? i) && (i <? Z.of_nat (length l))) eqn:E; [eauto|].
  apply andb_false_iff in E. destruct E as [E|E];
    [apply Z.leb_gt in E|apply Z.ltb_ge in E]; lia.
Qed.

(** The light update needs item 9.  In a well-formed state the light
    update at the end of a turn panics when the adventure has fewer than
    ten items (NumItems below 9), whether or not the adventure has a
    light source, and returns in every other case.  In an adventure with
    fewer than ten items no turn is completed: whatever the command, a
    command followed by the light update does not return. *)
Theorem UpdateLightSource_panics_without_item_9 :
  forall (s : GameState) (w : World),
    wf s ->
    (NumItems (Header s) < 9 -> UpdateLightSource s w = Panicked)
    /\ (9 <= NumItems (Header s) ->
        exists s' w', UpdateLightSource s w = Ok tt s' w')
    /\ (state_ok s -> rooms_in_range s -> NumItems (Header s) < 9 ->
        forall command a s' w',
          (ProcessCommand command ;; UpdateLightSource) s w <> Ok a s' w').
Proof.
  assert (Hfew : forall s w, wf s -> NumItems (Header s) < 9 ->
                             UpdateLightSource s w = Panicked).
  { intros s w [Hlocs _ _ _ _] Hfew. unfold UpdateLightSource.
    rewrite bind_get.
    rewrite (index_None_beyond (ItemLocations s) LIGHT_SOURCE)
      by (unfold LIGHT_SOURCE; lia).
    reflexivity. }
  intros s w Hwf. split; [exact (Hfew s w Hwf)|]. split.
  - destruct Hwf as [Hlocs _ Hcounters _ _]. intros Hmany.
    destruct (index_Some_iff (ItemLocations s) LIGHT_SOURCE) as [loc Hloc];
      [unfold LIGHT_SOURCE; lia|].
    destruct (index_Some_iff (AltCounters s) 8) as [light Hlight]; [lia|].
    destruct (store_Some_iff (AltCounters s) 8 (wrap64 (light - 1)))
      as [counters Hstore]; [lia|].
    destruct (store_Some_iff (ItemLocations s) LIGHT_SOURCE DESTROYED)
      as [locs Hlocs']; [unfold LIGHT_SOURCE; lia|].
    destruct (UpdateLightSource s w) as [[] s' w'| |] eqn:E; [eauto| |];
      exfalso; unfold UpdateLightSource, IsDark in E; invert_run E;
      congruence.
  - intros Hok Hexits Hitems command a s' w' H. unfold bind in H.
    destruct (ProcessCommand command s w) as [[] s1 w1| |] eqn:E;
      try discriminate.
    destruct (keeps_ProcessCommand s Hexits command s w tt s1 w1 Hok
                (same_tables_refl s) E) as [[Hwf1 _] (Hheader & _)].
    rewrite (Hfew s1 w1 Hwf1) in H; [discriminate|].
    rewrite Hheader. exact Hitems.
Qed.

Lemma sample_loaded_ok : state_ok sample_loaded /\ rooms_in_range sample_loaded.
Proof.
  assert (H : LoadGameData (inl sample_content) = Loaded sample_loaded)
    by (vm_compute; reflexivity).
  unfold LoadGameData in H.
  destruct (tokenizeGameData sample_content) as [tokens|]; [|discriminate].
  destruct (read_game_data tokens) as [t rest| |] eqn:E; try discriminate.
  injection H as ->. split.
  - exact (proj1 (read_game_data_Parsed _ _ _ E)).
  - exact (read_game_data_rooms _ _ _ E).
Qed.

(** The theorem on the loaded sample adventure, which has three items,
    and on the sample adventure of the engine, which has eleven. *)
Lemma UpdateLightSource_panics_without_item_9_witness :
  UpdateLightSource sample_loaded sample_world = Panicked
  /\ (exists s' w', UpdateLightSource sample_state sample_world = Ok tt s' w')
  /\ (forall a s' w',
      (ProcessCommand "look" ;; UpdateLightSource) sample_loaded sample_world
      <> Ok a s' w').
Proof.
  destruct sample_loaded_ok as [Hok Hexits].
  split; [|split].
  - apply (UpdateLightSource_panics_without_item_9 sample_loaded sample_world).
    + exact (proj1 Hok).
    + vm_compute. reflexivity.
  - apply (UpdateLightSource_panics_without_item_9 sample_state sample_world).
    + exact sample_state_wf.
    + vm_compute. discriminate.
  - apply (UpdateLightSource_panics_without_item_9 sample_loaded sample_world).
    + exact (proj1 Hok).
    + exact Hok.
    + exact Hexits.
    + vm_compute. reflexivity.
Defined.

Lemma length_ToUpper s : String.length (ToUpper s) = String.length s.
Proof. induction s as [|c s IH]; cbn [ToUpper String.length]; congruence. Qed.

Lemma truncate_Some word n :
  0 <= n -> exists word', truncate word n = Some word'.
Proof.
  intros Hn. unfold truncate. destruct (n <? Z.of_nat (String.length word));
    [|eauto].
  destruct (n <? 0) eqn:E; [apply Z.ltb_lt in E; lia|eauto].
Qed.

Lemma truncate_None word n :
  n < 0 -> word <> EmptyString -> truncate word n = None.
Proof.
  intros Hn Hw. unfold truncate.
  destruct (n <? Z.of_nat (String.length word)) eqn:E.
  - apply Z.ltb_lt in Hn. rewrite Hn. reflexivity.
  - apply Z.ltb_ge in E. lia.
Qed.

(** Looking up a word needs a word length.  With a WordLength of zero or
    more, GetWordNumber and FindItemByName return for every word and
    leave the state as it is; with a negative WordLength, which the
    loader accepts, both panic on every word that is not empty. *)
Theorem word_lookups_panic_on_negative_WordLength :
  forall (word wordType : string) (s : GameState) (w : World),
    (0 <= WordLength (Header s) ->
     (exists r w', GetWordNumber word wordType s w = Ok r s w')
     /\ (exists r w', FindItemByName word s w = Ok r s w'))
    /\ (WordLength (Header s) < 0 -> word <> EmptyString ->
        GetWordNumber word wordType s w = Panicked
        /\ FindItemByName word s w = Panicked)
    /\ (exists content loaded,
        LoadGameData (inl content) = Loaded loaded
        /\ WordLength (Header loaded) < 0).
Proof.
  intros word wordType s w. split; [|split].
  - intros Hn.
    destruct (truncate_Some word _ Hn) as [word' Hcut].
    destruct (truncate_Some (ToUpper word) _ Hn) as [name Hname].
    split.
    + unfold GetWordNumber. rewrite bind_get, Hcut. run_monad.
      repeat frame_step; eauto.
    + unfold FindItemByName. rewrite bind_get, Hname. run_monad.
      repeat frame_step; eauto.
  - intros Hn Hw. split.
    + unfold GetWordNumber. rewrite bind_get, (truncate_None word _ Hn Hw).
      reflexivity.
    + unfold FindItemByName.
      rewrite bind_get, truncate_None; [reflexivity|exact Hn|].
      destruct word; [contradiction|discriminate].
  - exists negative_length_content.
    destruct (LoadGameData (inl negative_length_content)) as [t|err|] eqn:E.
    + exists t. split; [reflexivity|].
      revert E. vm_compute. intros [= <-]. reflexivity.
    + exfalso. revert E. vm_compute. discriminate.
    + exfalso. revert E. vm_compute. discriminate.
Qed.

(** The theorem on the sample adventure, and on the sample data file
    with the word length -1, which loads. *)
Lemma word_lookups_panic_on_negative_WordLength_witness :
  ((exists r w', GetWordNumber "LAMP" "noun" sample_state sample_world
                 = Ok r sample_state w')
   /\ (exists r w', FindItemByName "LAMP" sample_state sample_world
                    = Ok r sample_state w'))
  /\ exists s,
      LoadGameData (inl negative_length_content) = Loaded s
      /\ GetWordNumber "AXE" "noun" s sample_world = Panicked
      /\ FindItemByName "AXE" s sample_world = Panicked.
Proof.
  split.
  - apply (word_lookups_panic_on_negative_WordLength "LAMP" "noun" sample_state
             sample_world).
    vm_compute. discriminate.
  - destruct (LoadGameData (inl negative_length_content)) as [s|err|] eqn:E.
    + exists s. split; [reflexivity|].
      apply (word_lookups_panic_on_negative_WordLength "AXE" "noun" s
               sample_world); [|discriminate].
      revert E. vm_compute. intros [= <-]. reflexivity.
    + exfalso. revert E. vm_compute. discriminate.
    + exfalso. revert E. vm_compute. discriminate.
Defined.

(** ** Actions the built-in handling shadows *)

Section Shadowed.
Variable acts : list Action.

Lemma framed_bind {A B : Type} (m : M A) (k : A -> M B) s w :
  framed acts m s w ->
  (forall a s' w', m s w = Ok a s' w' -> framed acts (k a) s' w') ->
  framed acts (bind m k) s w.
Proof. apply bind_frame. Qed.

Lemma bind_frame2 {A B : Type} (f : GameState -> GameState)
    (m1 m2 : M A) (k1 k2 : A -> M B) s w :
  m1 (f s) w = map_state f (m2 s w) ->
  (forall a s' w', m2 s w = Ok a s' w' ->
                   k1 a (f s') w' = map_state f (k2 a s' w')) ->
  bind m1 k1 (f s) w = map_state f (bind m2 k2 s w).
Proof.
  intros Hm Hk. unfold bind. rewrite Hm.
  destruct (m2 s w) as [a s' w'| |]; cbn [map_state]; auto.
Qed.

Lemma EvaluateCondition_frame code parameter s w :
  framed acts (EvaluateCondition code parameter) s w.
Proof. unfold framed, EvaluateCondition. frame_tac. Qed.

Lemma check_slots_frame conds :
  forall s w, framed acts (check_slots conds) s w.
Proof.
  induction conds as [|c conds IH]; intros s w; cbn [check_slots];
    [reflexivity|].
  destruct (c =? 0); [apply IH|].
  apply framed_bind; [apply EvaluateCondition_frame|].
  intros ok s' w' _. destruct ok; [apply IH|reflexivity].
Qed.

Lemma UpdateLightSource_frame s w : framed acts UpdateLightSource s w.
Proof. unfold framed, UpdateLightSource, IsDark, flag_set. frame_tac. Qed.

Lemma MovePlayer_frame direction s w :
  framed acts (MovePlayer direction) s w.
Proof. unfold framed, MovePlayer, IsDark, flag_set, rand_Intn. frame_tac. Qed.

Lemma visible_loop_frame locs :
  forall i s w, framed acts (visible_loop i locs) s w.
Proof.
  induction locs as [|loc locs IH]; intros i s w; [reflexivity|].
  unfold framed. cbn [visible_loop]. rewrite !bind_get.
  cbn [Header CurrentRoom Items set_Actions].
  apply bind_frame; [frame_tac|intros; apply IH].
Qed.

Lemma DisplayCurrentLocation_frame s w :
  framed acts DisplayCurrentLocation s w.
Proof.
  unfold framed, DisplayCurrentLocation. rewrite !bind_get.
  cbn [Rooms CurrentRoom ItemLocations set_Actions].
  change (IsDark (set_Actions acts s)) with (IsDark s).
  apply bind_frame; [destruct (IsDark s); reflexivity|].
  intros dark s1 w1 _. destruct dark; [reflexivity|].
  apply bind_frame; [destruct (index _ _); reflexivity|].
  intros room s2 w2 _.
  apply bind_frame; [destruct (HasPrefix _ _); reflexivity|].
  intros _ s3 w3 _.
  apply bind_frame; [apply visible_loop_frame|]. intros _ s4 w4 _.
  unfold open_exit. frame_tac.
Qed.

Lemma assign_AltRoom_frame i v s w : framed acts (assign_AltRoom i v) s w.
Proof. unfold framed, assign_AltRoom. frame_tac. Qed.

Lemma assign_AltCounter_frame i v s w :
  framed acts (assign_AltCounter i v) s w.
Proof. unfold framed, assign_AltCounter. frame_tac. Qed.

Lemma assign_ItemLocation_frame i v s w :
  framed acts (assign_ItemLocation i v) s w.
Proof. unfold framed, assign_ItemLocation. frame_tac. Qed.

Lemma load_loop_frame assign :
  (forall i v s w, framed acts (assign i v) s w) ->
  forall n i lines s w, framed acts (load_loop n i assign lines) s w.
Proof.
  intros Ha. induction n as [|n IH]; intros i lines s w; [reflexivity|].
  cbn [load_loop]. destruct lines as [|l rest]; [reflexivity|].
  apply framed_bind; [apply Ha|]. intros _ s1 w1 _. apply IH.
Qed.

Lemma load_from_frame lines s w : framed acts (load_from lines) s w.
Proof.
  unfold framed, load_from. rewrite !bind_get. cbn [Header set_Actions].
  destruct lines as [|l0 lines]; [reflexivity|].
  destruct (negb _); [reflexivity|].
  destruct lines as [|l1 lines]; [reflexivity|].
  apply bind_frame; [reflexivity|]. intros _ s1 w1 _.
  destruct lines as [|l2 lines]; [reflexivity|].
  apply bind_frame; [reflexivity|]. intros _ s2 w2 _.
  destruct lines as [|l3 lines]; [reflexivity|].
  apply bind_frame; [reflexivity|]. intros _ s3 w3 _.
  destruct lines as [|l4 lines]; [reflexivity|].
  apply bind_frame; [apply assign_AltCounter_frame|]. intros _ s4 w4 _.
  apply bind_frame; [apply load_loop_frame; apply assign_AltRoom_frame|].
  intros [lines5|] s5 w5 _; [|reflexivity].
  apply bind_frame; [apply load_loop_frame; apply assign_AltCounter_frame|].
  intros [lines6|] s6 w6 _; [|reflexivity].
  apply bind_frame; [apply load_loop_frame; apply assign_ItemLocation_frame|].
  intros [lines7|] s7 w7 _; reflexivity.
Qed.

Lemma LoadGame_frame s w : framed acts LoadGame s w.
Proof.
  unfold framed, LoadGame.
  apply bind_frame; [reflexivity|]. intros _ s1 w1 _.
  apply bind_frame; [unfold ReadLine; destruct (stdin w1); reflexivity|].
  intros input s2 w2 _. cbv zeta.
  apply bind_frame; [reflexivity|]. intros w0 s3 w3 _.
  destruct (assoc _ _); [apply load_from_frame|reflexivity].
Qed.

Lemma GetWordNumber_frame word wordType s w :
  framed acts (GetWordNumber word wordType) s w.
Proof.
  unfold framed, GetWordNumber. rewrite !bind_get.
  cbn [Header Words Debug set_Actions]. frame_tac.
Qed.

Lemma ParseCommand_frame words s w : framed acts (ParseCommand words) s w.
Proof.
  unfold framed, ParseCommand.
  apply bind_frame.
  { destruct words; [reflexivity|apply GetWordNumber_frame]. }
  intros verb s1 w1 _. apply bind_frame.
  { destruct words as [|? [|? ?]]; try reflexivity.
    apply GetWordNumber_frame. }
  intros noun s2 w2 _. frame_tac.
Qed.

Lemma FindItemByName_frame name s w : framed acts (FindItemByName name) s w.
Proof.
  unfold framed, FindItemByName. rewrite !bind_get.
  cbn [Header Items Debug set_Actions]. frame_tac.
Qed.

Lemma DisplayHelp_frame s w : framed acts DisplayHelp s w.
Proof. reflexivity. Qed.

(** *** Functions that read one row of the table *)

Lemma condition_parameter_frame_row slot s w :
  index acts (CurrentAction s) = index (Actions s) (CurrentAction s) ->
  framed acts (condition_parameter slot) s w.
Proof.
  intros H. unfold framed, condition_parameter. rewrite !bind_get.
  cbn [Actions CurrentAction set_Actions]. rewrite H.
  destruct (index (Actions s) (CurrentAction s)); frame_tac.
Qed.

Lemma fetch_parameter_frame_row pos s w :
  index acts (CurrentAction s) = index (Actions s) (CurrentAction s) ->
  framed acts (fetch_parameter pos) s w.
Proof.
  intros H. unfold framed, fetch_parameter. destruct (pos <? 5); [|reflexivity].
  apply condition_parameter_frame_row. exact H.
Qed.

Lemma ExecuteCommand_frame_row cmd pos s w :
  index acts (CurrentAction s) = index (Actions s) (CurrentAction s) ->
  framed acts (ExecuteCommand cmd pos) s w.
Proof.
  intros H. apply ExecuteCommand_frame.
  - apply fetch_parameter_frame_row. exact H.
  - apply condition_parameter_frame_row. exact H.
Qed.

Lemma tables_Actions s s' : same_tables s s' -> Actions s' = Actions s.
Proof. intros (_ & _ & _ & H & _). exact H. Qed.

Lemma quiet_Actions {A : Type} (m : M A) s w a s' w' :
  quiet_run m -> m s w = Ok a s' w' -> Actions s' = Actions s.
Proof.
  intros Hq H. exact (tables_Actions _ _ (proj2 (proj2 (Hq _ _ _ _ _ H)))).
Qed.

Lemma execute_pair_frame_row a i s w :
  index acts (CurrentAction s) = index (Actions s) (CurrentAction s) ->
  framed acts (execute_pair a i) s w.
Proof.
  intros H. unfold framed, execute_pair.
  apply bind_frame; [destruct (index (Commands a) i); reflexivity|].
  intros cmd s1 w1 E.
  assert (s1 = s) as -> by (destruct (index (Commands a) i); [|discriminate];
                            injection E as _ <- _; reflexivity).
  destruct (cmd =? 0); [reflexivity|].
  apply bind_frame; [apply ExecuteCommand_frame_row; exact H|].
  intros [] s2 w2 E2. apply ExecuteCommand_frame_row.
  apply ExecuteCommand_footprint in E2.
  destruct E2 as ((_ & _ & _ & Ha & _) & Hc & _). rewrite Ha, Hc. exact H.
Qed.

Lemma ExecuteCommands_frame_row i s w :
  index acts i = index (Actions s) i ->
  framed acts (ExecuteCommands i) s w.
Proof.
  intros H. unfold framed, ExecuteCommands.
  apply bind_frame; [reflexivity|]. intros [] s1 w1 [= <- <-].
  rewrite !bind_get. cbn [Actions set_CurrentAction set_Actions]. rewrite H.
  apply bind_frame; [destruct (index (Actions s) i); reflexivity|].
  intros a s2 w2 E.
  assert (s2 = set_CurrentAction i s) as ->
      by (destruct (index (Actions s) i); [|discriminate];
          injection E as _ <- _; reflexivity).
  apply bind_frame; [apply execute_pair_frame_row; exact H|].
  intros [] s3 w3 E3.
  apply execute_pair_footprint in E3.
  destruct E3 as ((_ & _ & _ & Ha & _) & Hc & _).
  apply bind_frame.
  { apply execute_pair_frame_row. rewrite Ha, Hc. exact H. }
  intros [] s4 w4 _. unfold debug_executed. frame_tac.
Qed.

Lemma CheckConditions_frame_row i s w :
  index acts i = index (Actions s) i ->
  framed acts (CheckConditions i) s w.
Proof.
  intros H. unfold framed, CheckConditions. rewrite !bind_get.
  cbn [Actions set_Actions]. rewrite H.
  apply bind_frame; [destruct (index (Actions s) i); reflexivity|].
  intros a s1 w1 _. apply check_slots_frame.
Qed.

(** *** The scans of the table *)

Lemma drop_cons_inv {A : Type} (l : list A) n a rest :
  drop n l = a :: rest -> l !! n = Some a /\ drop (S n) l = rest.
Proof.
  intros H.
  assert (Hn : l !! n = Some a).
  { rewrite <- (Nat.add_0_r n), <- lookup_drop, H. reflexivity. }
  split; [exact Hn|]. rewrite (drop_S _ _ _ Hn) in H. congruence.
Qed.

Lemma index_of_nat {A : Type} (l : list A) n : index l (Z.of_nat n) = l !! n.
Proof.
  unfold index. destruct (Z.of_nat n <? 0) eqn:E; [apply Z.ltb_lt in E; lia|].
  rewrite Nat2Z.id. reflexivity.
Qed.

Lemma shadowed_verb a : shadowed a = true -> (Verb a =? 0) = false.
Proof.
  unfold shadowed, shadowed_pair. destruct (Verb a =? 0) eqn:E; [|reflexivity].
  apply Z.eqb_eq in E. rewrite E. cbn. discriminate.
Qed.

Lemma shadowed_no_match a verb noun :
  shadowed a = true -> shadowed_pair verb noun = false ->
  (Verb a =? verb) && (Noun a =? noun) = false.
Proof.
  intros Ha Hp. destruct (Verb a =? verb) eqn:Ev; [|reflexivity].
  destruct (Noun a =? noun) eqn:En; [|reflexivity].
  apply Z.eqb_eq in Ev, En. unfold shadowed in Ha. congruence.
Qed.

Lemma exact_scan_frame verb noun :
  shadowed_pair verb noun = false ->
  forall l l',
    Forall2 (fun a a' => a = a' \/ (shadowed a = true /\ shadowed a' = true))
      l l' ->
    forall n found s w,
      drop n acts = l -> drop n (Actions s) = l' ->
      exact_scan verb noun (Z.of_nat n) l found (set_Actions acts s) w
      = map_state (set_Actions acts)
          (exact_scan verb noun (Z.of_nat n) l' found s w).
Proof.
  intros Hpair l l' Hrel.
  induction Hrel as [|a a' l l' Ha Hrel IH]; intros n found s w Hl Hl';
    [reflexivity|].
  cbn [exact_scan]. apply drop_cons_inv in Hl, Hl'.
  destruct Hl as [Hn Hl], Hl' as [Hn' Hl'].
  replace (Z.of_nat n + 1) with (Z.of_nat (S n)) by lia.
  destruct Ha as [<-|[Hsa Hsa']].
  - destruct ((Verb a =? verb) && (Noun a =? noun)); [|apply IH; assumption].
    assert (Hrow : index acts (Z.of_nat n) = index (Actions s) (Z.of_nat n))
      by (rewrite !index_of_nat; congruence).
    apply bind_frame2; [apply CheckConditions_frame_row; exact Hrow|].
    intros ok s1 w1 E. apply CheckConditions_pure in E. subst s1.
    destruct ok; [|apply IH; assumption].
    apply bind_frame2; [apply ExecuteCommands_frame_row; exact Hrow|].
    intros [] s2 w2 E2.
    pose proof (quiet_Actions _ _ _ _ _ _ (quiet_ExecuteCommands _) E2) as HA.
    rewrite !bind_get. cbn [ContinueFlag set_Actions].
    destruct (negb (ContinueFlag s2)); [reflexivity|].
    apply IH; [assumption|]. rewrite HA. assumption.
  - rewrite (shadowed_no_match a verb noun Hsa Hpair).
    rewrite (shadowed_no_match a' verb noun Hsa' Hpair).
    apply IH; assumption.
Qed.

Lemma ProcessExactAction_frame verb noun s w :
  same_but_shadowed acts (Actions s) ->
  shadowed_pair verb noun = false ->
  framed acts (ProcessExactAction verb noun) s w.
Proof.
  intros Hrel Hpair. unfold framed, ProcessExactAction. rewrite !bind_get.
  cbn [Actions set_Actions].
  exact (exact_scan_frame verb noun Hpair acts (Actions s) Hrel 0%nat false
           s w eq_refl eq_refl).
Qed.

Lemma shadowed_pair_0 verb : shadowed_pair verb 0 = false.
Proof.
  unfold shadowed_pair.
  destruct (verb =? 1), (verb =? 10), (verb =? 18); reflexivity.
Qed.

Lemma ProcessActionsWithVerb_frame verb noun s w :
  same_but_shadowed acts (Actions s) ->
  shadowed_pair verb noun = false ->
  framed acts (ProcessActionsWithVerb verb noun) s w.
Proof.
  intros Hrel Hpair. unfold framed, ProcessActionsWithVerb.
  apply bind_frame; [apply ProcessExactAction_frame; assumption|].
  intros found s1 w1 E.
  pose proof (quiet_Actions _ _ _ _ _ _ (quiet_ProcessExactAction _ _) E) as HA.
  destruct found; [reflexivity|].
  apply bind_frame.
  { destruct (negb (noun =? 0)); [|reflexivity].
    apply ProcessExactAction_frame; [rewrite HA; exact Hrel|].
    apply shadowed_pair_0. }
  intros found0 s2 w2 _. destruct found0; [reflexivity|].
  destruct (verb =? 10); [apply GetItem_frame|].
  destruct (verb =? 18); [apply DropItem_frame|reflexivity].
Qed.

Lemma automatic_scan_frame :
  forall l l',
    Forall2 (fun a a' => a = a' \/ (shadowed a = true /\ shadowed a' = true))
      l l' ->
    forall n s w,
      drop n acts = l -> drop n (Actions s) = l' ->
      automatic_scan (Z.of_nat n) l (set_Actions acts s) w
      = map_state (set_Actions acts) (automatic_scan (Z.of_nat n) l' s w).
Proof.
  intros l l' Hrel.
  induction Hrel as [|a a' l l' Ha Hrel IH]; intros n s w Hl Hl';
    [reflexivity|].
  cbn [automatic_scan]. apply drop_cons_inv in Hl, Hl'.
  destruct Hl as [Hn Hl], Hl' as [Hn' Hl'].
  replace (Z.of_nat n + 1) with (Z.of_nat (S n)) by lia.
  destruct Ha as [<-|[Hsa Hsa']].
  - destruct (negb (Verb a =? 0)); [apply IH; assumption|].
    assert (Hrow : index acts (Z.of_nat n) = index (Actions s) (Z.of_nat n))
      by (rewrite !index_of_nat; congruence).
    apply bind_frame2.
    { destruct (0 <? Noun a); reflexivity. }
    intros skip s1 w1 E.
    assert (s1 = s) as ->.
    { destruct (0 <? Noun a); [unfold rand_Intn, bind, ret in E|];
        injection E as _ <- _; reflexivity. }
    destruct skip; [apply IH; assumption|].
    apply bind_frame2; [apply CheckConditions_frame_row; exact Hrow|].
    intros ok s1 w2 E1. apply CheckConditions_pure in E1. subst s1.
    destruct ok; [|apply IH; assumption].
    apply bind_frame2; [apply ExecuteCommands_frame_row; exact Hrow|].
    intros [] s2 w3 E2.
    pose proof (quiet_Actions _ _ _ _ _ _ (quiet_ExecuteCommands _) E2) as HA.
    rewrite !bind_get. cbn [ContinueFlag set_Actions].
    destruct (ContinueFlag s2); [reflexivity|].
    apply IH; [assumption|]. rewrite HA. assumption.
  - rewrite (shadowed_verb a Hsa), (shadowed_verb a' Hsa'). cbn [negb].
    apply IH; assumption.
Qed.

Lemma automatic_passes_frame :
  forall fuel s w,
    same_but_shadowed acts (Actions s) ->
    framed acts (automatic_passes fuel) s w.
Proof.
  induction fuel as [|fuel IH]; intros s w Hrel; unfold framed;
    cbn [automatic_passes]; rewrite !bind_get;
    cbn [ContinueFlag Actions set_Actions];
    (destruct (negb (ContinueFlag s)); [reflexivity|]); [reflexivity|].
  apply bind_frame2; [reflexivity|]. intros [] s1 w1 [= <- <-].
  apply bind_frame2.
  { exact (automatic_scan_frame acts (Actions s) Hrel 0%nat
             (set_ContinueFlag false s) w eq_refl eq_refl). }
  intros [] s2 w2 E. apply IH.
  rewrite (quiet_Actions _ _ _ _ _ _ (quiet_automatic_scan _ _) E).
  exact Hrel.
Qed.

Lemma ProcessAutomaticActions_frame fuel s w :
  same_but_shadowed acts (Actions s) ->
  framed acts (ProcessAutomaticActions fuel) s w.
Proof.
  intros Hrel. unfold framed, ProcessAutomaticActions.
  apply bind_frame; [reflexivity|]. intros [] s1 w1 [= <- <-].
  apply automatic_passes_frame. exact Hrel.
Qed.

(** *** The player's command and the session *)

Lemma process_parsed_frame words s w :
  same_but_shadowed acts (Actions s) ->
  framed acts (process_parsed words) s w.
Proof.
  intros Hrel. unfold framed, process_parsed.
  apply bind_frame; [apply ParseCommand_frame|].
  intros [verb noun] s1 w1 E.
  pose proof (quiet_Actions _ _ _ _ _ _ (quiet_ParseCommand _) E) as HA.
  rewrite !bind_get. cbn [Debug set_Actions].
  apply bind_frame; [destruct (Debug s1); reflexivity|].
  intros [] s2 w2 E2.
  assert (s2 = s1) as -> by (destruct (Debug s1); injection E2 as <- _;
                             reflexivity).
  destruct ((verb =? 1) && (1 <=? noun) && (noun <=? 6)) eqn:E1.
  { apply bind_frame; [destruct (Debug s1); reflexivity|].
    intros; apply MovePlayer_frame. }
  destruct ((verb =? 10) && (0 <? noun)) eqn:E10.
  { apply bind_frame; [destruct (Debug s1); reflexivity|].
    intros; apply GetItem_frame. }
  destruct ((verb =? 18) && (0 <? noun)) eqn:E18.
  { apply bind_frame; [destruct (Debug s1); reflexivity|].
    intros; apply DropItem_frame. }
  apply ProcessActionsWithVerb_frame; [rewrite HA; exact Hrel|].
  unfold shadowed_pair. rewrite E1. cbn [orb].
  destruct (verb =? 10), (verb =? 18), (0 <? noun); cbn in *; congruence.
Qed.

Lemma process_items_frame words s w :
  same_but_shadowed acts (Actions s) ->
  framed acts (process_items words) s w.
Proof.
  intros Hrel. unfold framed, process_items.
  destruct words as [|word0 [|word1 rest]];
    try (apply process_parsed_frame; exact Hrel).
  apply bind_frame.
  { destruct (_ || _); [|reflexivity].
    apply bind_frame; [apply FindItemByName_frame|]. intros itemIndex s1 w1 _.
    destruct (0 <? itemIndex); [|reflexivity].
    rewrite !bind_get. cbn [Debug set_Actions].
    apply bind_frame; [destruct (Debug s1); reflexivity|]. intros _ s2 w2 _.
    apply bind_frame; [apply GetItem_frame|]. intros; reflexivity. }
  intros taken s1 w1 E1.
  assert (HA1 : Actions s1 = Actions s).
  { revert E1. apply quiet_Actions.
    destruct (_ || _); [|apply quiet_ret].
    apply quiet_bind; [apply quiet_FindItemByName|]. intros itemIndex.
    destruct (0 <? itemIndex); [|apply quiet_ret].
    apply quiet_bind; [apply quiet_get|]. intros s0.
    apply quiet_bind; [quiet_tac|]. intros _.
    apply quiet_bind; [apply quiet_GetItem|]. intros _. apply quiet_ret. }
  destruct taken; [reflexivity|].
  apply bind_frame.
  { destruct (EqualFold word0 "DROP"); [|reflexivity].
    apply bind_frame; [apply FindItemByName_frame|]. intros itemIndex s2 w2 _.
    destruct (0 <? itemIndex); [|reflexivity].
    rewrite !bind_get. cbn [Debug set_Actions].
    apply bind_frame; [destruct (Debug s2); reflexivity|]. intros _ s3 w3 _.
    apply bind_frame; [apply DropItem_frame|]. intros; reflexivity. }
  intros dropped s2 w2 E2.
  assert (HA2 : Actions s2 = Actions s1).
  { revert E2. apply quiet_Actions.
    destruct (EqualFold word0 "DROP"); [|apply quiet_ret].
    apply quiet_bind; [apply quiet_FindItemByName|]. intros itemIndex.
    destruct (0 <? itemIndex); [|apply quiet_ret].
    apply quiet_bind; [apply quiet_get|]. intros s0.
    apply quiet_bind; [quiet_tac|]. intros _.
    apply quiet_bind; [apply quiet_DropItem|]. intros _. apply quiet_ret. }
  destruct dropped; [reflexivity|].
  apply process_parsed_frame. rewrite HA2, HA1. exact Hrel.
Qed.

Lemma ProcessCommand_frame command s w :
  same_but_shadowed acts (Actions s) ->
  framed acts (ProcessCommand command) s w.
Proof.
  intros Hrel. unfold framed, ProcessCommand. cbv zeta.
  destruct (Fields (ToUpper command)) as [|word0 others]; [reflexivity|].
  destruct (_ || _ || _); [apply DisplayInventory_frame|].
  destruct (String.eqb _ "LOOK"); [reflexivity|].
  destruct (String.eqb _ "SAVE"); [apply SaveGame_frame|].
  destruct (_ || _); [apply LoadGame_frame|].
  destruct (String.eqb _ "SCORE"); [apply DisplayScore_frame|].
  destruct (String.eqb _ "DEBUG"); [reflexivity|].
  destruct (String.eqb _ "HELP"); [apply DisplayHelp_frame|].
  destruct (assoc _ direction_words); [apply MovePlayer_frame|].
  match goal with
  | |- (match ?x with _ => _ end) _ _ = _ => destruct x as [[word1 dir]|]
  end.
  - rewrite !bind_get. cbn [Debug set_Actions].
    apply bind_frame; [destruct (Debug s); reflexivity|].
    intros; apply MovePlayer_frame.
  - apply process_items_frame. exact Hrel.
Qed.

Lemma RunGame_frame :
  forall fuel s w,
    same_but_shadowed acts (Actions s) -> framed acts (RunGame fuel) s w.
Proof.
  induction fuel as [|fuel IH]; intros s w Hrel; [reflexivity|].
  unfold framed. cbn [RunGame].
  apply bind_frame; [apply ProcessAutomaticActions_frame; exact Hrel|].
  intros ended s1 w1 E1.
  pose proof (quiet_Actions _ _ _ _ _ _ (quiet_ProcessAutomaticActions _) E1)
    as HA1.
  destruct (negb ended); [reflexivity|].
  rewrite !bind_get. cbn [DisplayedRoom set_Actions].
  apply bind_frame.
  { destruct (negb (DisplayedRoom s1)); [|reflexivity].
    apply bind_frame; [apply DisplayCurrentLocation_frame|].
    intros; reflexivity. }
  intros [] s2 w2 E2.
  assert (HA2 : Actions s2 = Actions s1).
  { destruct (negb (DisplayedRoom s1)); [|injection E2 as <- _; reflexivity].
    apply bind_Ok in E2. destruct E2 as ([] & s' & w' & E2 & Eset).
    injection Eset as <- _.
    exact (quiet_Actions _ _ _ _ _ _ quiet_DisplayCurrentLocation E2). }
  apply bind_frame; [reflexivity|]. intros [] s3 w3 [= <- <-].
  apply bind_frame; [unfold ReadLine; destruct (stdin _); reflexivity|].
  intros input s4 w4 E4.
  assert (s4 = s2) as ->
      by (unfold ReadLine in E4; destruct (stdin _); injection E4 as _ <- _;
          reflexivity).
  cbv zeta. apply bind_frame; [reflexivity|]. intros [] s5 w5 [= <- <-].
  destruct (String.eqb _ "QUIT"); [reflexivity|].
  assert (Hrel5 : same_but_shadowed acts
                    (Actions (set_DisplayedRoom false s2))).
  { cbn [Actions set_DisplayedRoom]. rewrite HA2, HA1. exact Hrel. }
  apply bind_frame; [apply ProcessCommand_frame; exact Hrel5|].
  intros [] s6 w6 E6.
  pose proof (quiet_Actions _ _ _ _ _ _ (quiet_ProcessCommand _) E6) as HA6.
  apply bind_frame; [apply UpdateLightSource_frame|].
  intros [] s7 w7 E7.
  pose proof (quiet_Actions _ _ _ _ _ _ quiet_UpdateLightSource E7) as HA7.
  apply IH. rewrite HA7, HA6. exact Hrel5.
Qed.

End Shadowed.

(** Actions for GO, GET and DROP with a noun are never run.  An action
    whose verb is 1 and whose noun is a direction (1 to 6), or whose verb
    is 10 or 18 and whose noun is positive, is shadowed: ProcessCommand
    moves, takes or drops by itself for these pairs and never looks them
    up in the table, and automatic actions have verb 0.  Two action
    tables that differ in shadowed actions only give the same result for
    every command and for every session: the same output, the same
    reads, the same panics and the same state, the table apart. *)
Theorem shadowed_actions_are_never_run :
  forall (acts : list Action) (s : GameState),
    same_but_shadowed acts (Actions s) ->
    (forall command w,
        ProcessCommand command (set_Actions acts s) w
        = map_state (set_Actions acts) (ProcessCommand command s w))
    /\ (forall fuel w,
        RunGame fuel (set_Actions acts s) w
        = map_state (set_Actions acts) (RunGame fuel s w)).
Proof.
  intros acts s Hrel. split.
  - intros command w. apply ProcessCommand_frame. exact Hrel.
  - intros fuel w. apply RunGame_frame. exact Hrel.
Qed.

(** The theorem on the sample adventure with an action for GET XYZZY
    (verb 10, noun 9) that does nothing, and with one that prints a
    message and ends the game: in both the command is the built-in GET
    of item 9, which is refused because the hands are full. *)
Lemma shadowed_actions_are_never_run_witness :
  let idle := mkAction 10 9 [0; 0; 0; 0; 0] [0; 0] in
  let fatal := mkAction 10 9 [0; 0; 0; 0; 0] [1 * 150 + 63; 0] in
  let w := mkWorld ["get xyzzy"; "i"; "quit"] [] [] [] (fun _ => 0) 0 in
  (ProcessCommand "get xyzzy" (shadow_state fatal) w
   = map_state (set_Actions (fatal :: sample_actions))
       (ProcessCommand "get xyzzy" (shadow_state idle) w)
   /\ RunGame 5 (shadow_state fatal) w
      = map_state (set_Actions (fatal :: sample_actions))
          (RunGame 5 (shadow_state idle) w))
  /\ exists s' w',
      ProcessCommand "get xyzzy" (shadow_state fatal) w = Ok tt s' w'
      /\ stdout w' = ["I'm carrying too much already." +:+ nl].
Proof.
  intros idle fatal w. split.
  - destruct (shadowed_actions_are_never_run (fatal :: sample_actions)
                (shadow_state idle)) as [Hcommand Hsession].
    + constructor; [right; split; reflexivity|].
      repeat (constructor; [left; reflexivity|]). constructor.
    + split; [exact (Hcommand "get xyzzy" w)|exact (Hsession 5%nat w)].
  - vm_compute. eauto.
Defined.
